(* ===== verification/_CoqProject ===== *)
-Q . S2P
Prelude.v
GoStrings.v
GoTime.v
GoText.v
GoDuration.v
Rolling.v
Json.v
Memory.v
MemoryFacts.v
StoreFacts.v
MemStore.v
Incidents.v
IncidentsFacts.v
MemoryExamples.v
Regexp.v
DiagnosticCommand.v
DiagnosticFacts.v
Policy.v
PolicyFacts.v
Sanitize.v
World.v
KeyStore.v
Agent.v
AgentFacts.v
Loop.v
LoopFacts.v
LoopExamples.v
History.v
ConnMonitor.v
ConnFacts.v
NetIP.v
LoginMonitor.v
Timeline.v
WorldFacts.v
LoginFacts.v
MonitorExamples.v
Approval.v
ApprovalFacts.v
ManualRun.v
RunApproved.v
RunApprovedFacts.v
ApprovalExamples.v
Patching.v
PatchingFacts.v
UpdateInfo.v
UpdateInfoFacts.v
UpdateList.v
UpdateListFacts.v
PatchTool.v
PatchToolFacts.v
PatchExamples.v
Largest.v
Drives.v
DiskProbes.v
DrivesFacts.v
Temperature.v
MemUse.v
CpuUse.v
NetUse.v
UsageFacts.v
VitalsExamples.v
Posture.v
Nfs.v
Containers.v
SurveyFacts.v
Config.v
Views.v
Ops.v
TaskLog.v
Status.v
Server.v
Toolbox.v
ToolboxFacts.v
PlatformFacts.v
PlatformExamples.v
Stats.v
StatsFacts.v
Gateway.v
GatewayFacts.v
GatewayExamples.v
