(* ===== verification/Prelude.v ===== *)
(** * agent_patches: a verification of the fleet agent and its LLM gateway

    ** The program

    One agent ([src/endpoint-server]) runs on every host of a fleet.  Its loop fires
    responsibilities on a schedule; each starts a conversation with a language model, which
    calls the agent's tools (skills): surveys of disks, sensors, load, network, posture, NFS
    and containers, diagnostic commands that run unattended behind a gate, and commands and
    patches that run after an operator's approval or under a standing policy.  Background
    monitors follow connections and logins.  All of it writes to one durable memory:
    directories of timestamped snapshots and a file of attributes.  An HTTP server shows the
    state and takes the operator's decisions.  The gateway ([src/llm-gateway]) queues the
    model requests of all agents in front of the models and keeps statistics of them.
    [src/migrate-memory] converts memories of an older layout.

    ** How the files correspond to it

    Go's library, as far as the code uses it: [GoStrings], [GoText] ([strings], [strconv],
    [sort]), [GoTime] (the RFC 3339 layout, the wall and the monotonic clock), [GoDuration]
    ([float64] as IEEE 754, [ParseDuration]), [Json] ([encoding/json] as classes with the
    laws the package documents, and a codec that satisfies them), [Regexp] ([regexp], parser
    and backtracking matcher, with its declarative meaning), [NetIP] ([net.ParseIP],
    [net.ParseCIDR]).

    - [Memory] (modules [Domain], [Attrs], [Store]): [memory/memory.go], every operation,
      with the failure of each system call as an input.  [MemoryFacts], [StoreFacts]: which
      snapshots the retention keeps, atomic writes, round trips, the byte counter.
      [MemStore]: the interface its clients use, as the class [MemStore] with the laws
      [MemStoreLaws]; [memory_refines_interface] discharges them, and every client below is
      proved against the interface.
    - [World], [KeyStore], [WorldFacts]: what skills and handlers run in - memory, clock,
      identifiers, notifications, processes started - as the state monad [W]; domains as
      maps and [skillstate]; frame lemmas with the hint database [world].
    - [Incidents], [IncidentsFacts]: the ledger, [incidents/incidents.go].
    - [Timeline]: the timeline, the findings and the attention rule ([status],
      [report_findings], [findingsapi]).
    - The ways a command reaches a shell.  [DiagnosticCommand], [DiagnosticFacts]: the gate of
      [run_diagnostic_command].  [Policy], [PolicyFacts]: [policy/policy.go].  [Approval],
      [ApprovalFacts]: [request_approval] and [approvalapi], the blocking wait as the list of
      events its [select] receives, the decision split where it reads and where it writes.
      [ManualRun]: [request_manual_run], [manualrunapi].  [RunApproved], [RunApprovedFacts]:
      [run_approved_command], [policyapi], and the theorems on all processes that start.
      [Sanitize]: [utils/sanitize], what the model sees of an output.
    - [Agent], [AgentFacts]: [a2a/agent], the tool-use loop.  [Loop], [LoopFacts]:
      [loop/loop.go] with ticks and goroutines as the relation [Loop.step].
    - [History], [ConnMonitor], [ConnFacts], [LoginMonitor], [LoginFacts]: [connmonitor] with
      the parsers of three platforms, and [loginmonitor].
    - [Patching], [UpdateInfo], [UpdateList], [PatchTool] and their [Facts]: the skill
      [check_for_pending_system_patches].
    - Surveys, with the probes of Linux, macOS and Windows: [Rolling] (histories of samples),
      [Largest], [Drives], [DiskProbes] with [DrivesFacts]; [Temperature], [MemUse], [CpuUse],
      [NetUse] with [UsageFacts]; [Posture], [Nfs], [Containers] with [SurveyFacts].
    - [Config] ([utils/config]), [TaskLog] ([utils/storage]), [Status] ([status],
      [capture_system_info]), [Server] ([main.go], [a2a/executor], [a2a/registry]), [Views]
      (the endpoints and tools over histories, sessions, memory and ledger), [Ops] (logging,
      [logapi], the gateway's authentication, [migrate-memory], [cli], tracing), with
      [PlatformFacts].
    - [Toolbox], [ToolboxFacts]: the registry of [main.go] on a Linux host, each of its 21
      tools composed of the files above, the pre-checks of the loop, and what all of them
      together can make the host do.
    - [Gateway], [GatewayFacts]: [llm-gateway/gateway.go], one program counter per goroutine
      and one atomic step per label, so that a list of labels is an interleaving; [Stats],
      [StatsFacts]: [llm-gateway/stats.go].

    The files [...Examples] apply the theorems at concrete inputs.

    ** What the theorems show

    - What runs.  Whatever the model answers, every process that a responsibility or a
      message to the server starts has one of five reasons, found in the world in which it
      is started ([responsibility_accounted], [message_accounted]): it only looks, the
      diagnostic gate accepted it, a policy matched the whole command, it detaches an NFS
      mount past the threshold, or it is a step of a patch run, which installs and reboots
      only after a decision, and reboots only after a successful update.  A command filed
      for approval runs when it is approved, with the text that was approved.
    - The stores.  The memory refines its interface; retention, accounting and atomicity are
      exact; the ledger, the policies, the approvals and the histories keep their invariants
      under every operation, and the lists derived from the histories are, until a history is
      full, the true ones and what an earlier run of the agent left open.
    - Time.  Frequencies and daily schedules neither overlap nor miss; a conversation
      terminates and is well-formed; log rotation terminates when the file system answers.
    - Surveys.  A quiet pre-check means a healthy survey; histories stay bounded; verdicts
      are exact; no fix of a vulnerability is hidden from the operator.
    - The server and the gateway.  The token guards every route but the agent card (of the
      agent) and the health probes (of the gateway); the status is what the stores say;
      capacity, accounting and order of the queues hold under every interleaving; statistics
      are those of the whole history since the last reset, up to requests that are recorded
      out of clock order, and survive a restart; start-up and shutdown keep their
      order ([start_up_ordered]).

    Some theorems state what the code does where it surprises: [rotation_diverges],
    [migration_overwrites], [darwin_load_misread], [stray_quote_disables_profile], [other_scheme_open],
    [restart_ghosts], [concurrent_decisions_run_twice], [drained_request_not_saved],
    [failure_exits_zero] and others.

    ** Bounds and fuel

    Machine integers are [Z] with their range ([in64]) stated where it matters.  The loops
    that are not structural take fuel, and each has a theorem or a caller that fixes enough:
    the regular expression matcher, the splitting of text and the decoding of runes take the
    length of the text, of which every round consumes a byte; [propagate] of [Largest] takes
    the index of the node, since parents come before their children; the devices below a
    device take one unit more than there are devices ([parents_terminate]); [rotateLog] one
    more than there are files ([rotation_exact]).  The conversation counts its own
    iterations up to [MaxIter] as the code does ([run_bounded]).  Loops that end with the
    process (ticks, dispatcher, monitors) are sequences of steps, quantified over.

    ** Parameters

    What is not under [src/] is a parameter: the model, D-Bus, the journal, the resolver, the
    package managers and every other process, the file system of a probe, YAML, the A2A
    library, hashes and random identifiers, the order in which Go iterates over a map.  Their
    documented behaviour appears as named hypotheses or classes, with concrete instances in
    the examples.

    ** Not modelled

    The HTTP server's listening and the delivery of signals, beyond the order of what
    follows them; the OpenTelemetry library behind [Tracing.Setup]; log lines; the device
    identifiers of a file system ([deviceID], a system call the directory scan takes as a
    parameter); the NFS survey of hosts other than Linux, which is empty; the parsing of
    command line flags; the JavaScript of the central backend and dashboard, other programs
    that only talk to the agent over HTTP. *)

From stdpp Require Export prelude gmap strings sorting pretty list.
From Stdlib Require Export ZArith Lia Ascii.

#[global] Open Scope Z_scope.

(** ** Results of fallible calls *)

(** A Go function that returns [(T, error)] returns [result E T]; [E] is the
    error type of the component that declares the function. *)
Inductive result (E A : Type) : Type :=
| Ok (a : A)
| Err (e : E).
Arguments Ok {E A} a.
Arguments Err {E A} e.

#[export] Instance result_ret {E} : MRet (result E) := λ A a, Ok a.
#[export] Instance result_bind {E} : MBind (result E) := λ A B f r,
  match r with Ok a => f a | Err e => Err e end.
#[export] Instance result_fmap {E} : FMap (result E) := λ A B f r,
  match r with Ok a => Ok (f a) | Err e => Err e end.

Definition is_ok {E A} (r : result E A) : bool :=
  match r with Ok _ => true | Err _ => false end.

#[export] Instance result_eq_dec {E A} `{!EqDecision E, !EqDecision A} :
  EqDecision (result E A).
Proof. solve_decision. Defined.

(** ** Integers and time *)

(** Go's [int64] and [time.Duration] are 64-bit; instants are Unix nanoseconds. *)
Definition min64 : Z := -9223372036854775808.
Definition max64 : Z := 9223372036854775807.
Definition in64 (n : Z) : Prop := min64 ≤ n ≤ max64.
Definition in64b (n : Z) : bool := (min64 <=? n) && (n <=? max64).

(** Two's-complement reduction into the [int64] range. *)
Definition wrap64 (n : Z) : Z := (n - min64) mod 18446744073709551616 + min64.

Definition Nanosecond : Z := 1.
Definition Second : Z := 1000000000.
Definition Minute : Z := 60 * Second.
Definition Hour : Z := 60 * Minute.

(** [Time.Sub] saturates at the ends of the [Duration] range. *)
Definition time_sub (t u : Z) : Z :=
  let d := t - u in
  if d <? min64 then min64 else if max64 <? d then max64 else d.

Lemma in64b_spec n : in64b n = true ↔ in64 n.
Proof. unfold in64b, in64. rewrite andb_true_iff, !Z.leb_le. done. Qed.

Lemma wrap64_id n : in64 n → wrap64 n = n.
Proof.
  unfold in64, wrap64, min64, max64. intros H.
  rewrite Z.mod_small; lia.
Qed.

Lemma time_sub_exact t u : in64 (t - u) → time_sub t u = t - u.
Proof.
  unfold in64, time_sub. intros H.
  destruct (Z.ltb_spec (t - u) min64); [lia|].
  destruct (Z.ltb_spec max64 (t - u)); lia.
Qed.

(** Saturation is invisible to a comparison with a representable duration. *)
Lemma time_sub_le t u d : min64 < d < max64 → time_sub t u ≤ d ↔ t - u ≤ d.
Proof.
  unfold time_sub, min64, max64. intros H.
  destruct (Z.ltb_spec (t - u) (-9223372036854775808)); [lia|].
  destruct (Z.ltb_spec 9223372036854775807 (t - u)); lia.
Qed.

Lemma time_sub_lt t u d : min64 < d < max64 → time_sub t u < d ↔ t - u < d.
Proof.
  unfold time_sub, min64, max64. intros H.
  destruct (Z.ltb_spec (t - u) (-9223372036854775808)); [lia|].
  destruct (Z.ltb_spec 9223372036854775807 (t - u)); lia.
Qed.

Lemma time_sub_diag t : time_sub t t = 0.
Proof. rewrite time_sub_exact; unfold in64, min64, max64; lia. Qed.

(** ** Runs *)

(** A property preserved by every step holds along a run. *)
Lemma rtc_preserves {S} (R : relation S) (P : S → Prop) x y :
  (∀ a b, R a b → P a → P b) → rtc R x y → P x → P y.
Proof. intros Hstep Hrun. induction Hrun; eauto. Qed.
