(* ===== verification/GoStrings.v ===== *)
(** * The functions of Go's [strings], [strconv] and [sort] packages the code uses

    Go strings are byte strings; [string] here is a list of [ascii] bytes.
    [ToLower], [TrimSpace] and [Fields] follow Go on ASCII input: bytes from
    0x80 up are neither letters nor white space. *)

From S2P Require Import Prelude.

(** ** Bytes *)

Definition code (c : ascii) : Z := Z.of_N (N_of_ascii c).

(** [unicode.IsSpace] on one-byte runes: HT, LF, VT, FF, CR and space. *)
Definition is_space (c : ascii) : bool :=
  ((9 <=? code c) && (code c <=? 13)) || (code c =? 32).

Definition is_upper (c : ascii) : bool := (65 <=? code c) && (code c <=? 90).

Definition lower (c : ascii) : ascii :=
  if is_upper c then ascii_of_N (Z.to_N (code c + 32)) else c.

(** ** Strings *)

Definition len (s : string) : Z := Z.of_nat (String.length s).

Fixpoint map_bytes (f : ascii → ascii) (s : string) : string :=
  match s with
  | "" => ""
  | String c s' => String (f c) (map_bytes f s')
  end.

Fixpoint forall_bytes (p : ascii → bool) (s : string) : bool :=
  match s with
  | "" => true
  | String c s' => p c && forall_bytes p s'
  end.

Definition ToLower (s : string) : string := map_bytes lower s.

Definition is_lower (c : ascii) : bool := (97 <=? code c) && (code c <=? 122).

Definition upper (c : ascii) : ascii :=
  if is_lower c then ascii_of_N (Z.to_N (code c - 32)) else c.

Definition ToUpper (s : string) : string := map_bytes upper s.

Definition EqualFold (s t : string) : bool := String.eqb (ToLower s) (ToLower t).

Definition HasPrefix (s p : string) : bool := String.prefix p s.

Definition take_bytes (n : nat) (s : string) : string := String.substring 0 n s.

Fixpoint drop_bytes (n : nat) (s : string) : string :=
  match n, s with
  | O, _ => s
  | S n', String _ s' => drop_bytes n' s'
  | S _, "" => ""
  end.

Definition HasSuffix (s suf : string) : bool :=
  (String.length suf <=? String.length s)%nat &&
  String.eqb (drop_bytes (String.length s - String.length suf) s) suf.

Definition TrimSuffix (s suf : string) : string :=
  if HasSuffix s suf then take_bytes (String.length s - String.length suf) s else s.

Definition TrimPrefix (s p : string) : string :=
  if HasPrefix s p then drop_bytes (String.length p) s else s.

Fixpoint TrimLeftFunc (p : ascii → bool) (s : string) : string :=
  match s with
  | "" => ""
  | String c s' => if p c then TrimLeftFunc p s' else s
  end.

Fixpoint TrimRightFunc (p : ascii → bool) (s : string) : string :=
  match s with
  | "" => ""
  | String c s' =>
      match TrimRightFunc p s' with
      | "" => if p c then "" else String c ""
      | t => String c t
      end
  end.

Definition TrimSpace (s : string) : string :=
  TrimRightFunc is_space (TrimLeftFunc is_space s).

(** [strings.Fields]: the maximal runs of non-space bytes. *)
Fixpoint Fields (s : string) : list string :=
  match s with
  | "" => []
  | String c s' =>
      if is_space c then Fields s'
      else match s' with
           | "" => [String c ""]
           | String c' _ =>
               if is_space c' then String c "" :: Fields s'
               else match Fields s' with
                    | w :: ws => String c w :: ws
                    | [] => [String c ""]
                    end
           end
  end.

Definition Join (l : list string) (sep : string) : string := String.concat sep l.

(** [strings.Contains]. *)
Fixpoint Contains (s sub : string) : bool :=
  HasPrefix s sub || match s with "" => false | String _ s' => Contains s' sub end.

(** [strings.ContainsAny]. *)
Fixpoint ContainsAny (s chars : string) : bool :=
  match s with
  | "" => false
  | String c s' =>
      negb (forall_bytes (λ d, negb (Ascii.eqb c d)) chars) || ContainsAny s' chars
  end.

(** [strings.IndexByte], [None] for -1. *)
Fixpoint IndexByte (s : string) (b : ascii) : option nat :=
  match s with
  | "" => None
  | String c s' => if Ascii.eqb c b then Some 0%nat else S <$> IndexByte s' b
  end.

(** ** Decimal integers *)

(** [fmt.Sprintf("%d", n)]. *)
Definition Itoa (n : Z) : string := pretty n.

Definition digit (c : ascii) : option Z :=
  if (48 <=? code c) && (code c <=? 57) then Some (code c - 48) else None.

Fixpoint digits (acc : Z) (s : string) : option Z :=
  match s with
  | "" => Some acc
  | String c s' => d ← digit c; digits (acc * 10 + d) s'
  end.

(** [strconv.ParseInt(s, 10, 64)]: an optional sign, at least one digit, nothing
    else, and a value in the [int64] range; [None] is the error. *)
Definition ParseInt (s : string) : option Z :=
  let '(neg, body) := match s with
    | String "-" s' => (true, s')
    | String "+" s' => (false, s')
    | _ => (false, s)
    end in
  match body with
  | "" => None
  | _ => n ← digits 0 body;
         let v := if neg : bool then - n else n in
         if in64b v then Some v else None
  end.

(** ** Facts about bytes and substrings *)

Lemma code_range c : 0 ≤ code c < 256.
Proof. unfold code. pose proof (N_ascii_bounded c). lia. Qed.

Lemma code_ascii_of n : 0 ≤ n < 256 → code (ascii_of_N (Z.to_N n)) = n.
Proof. intros H. unfold code. rewrite N_ascii_embedding; lia. Qed.

Lemma code_inj c d : code c = code d → c = d.
Proof.
  unfold code. intros H. rewrite <- (ascii_N_embedding c), <- (ascii_N_embedding d).
  f_equal. lia.
Qed.

Lemma lower_idemp c : lower (lower c) = lower c.
Proof.
  unfold lower. destruct (is_upper c) eqn:U; [|by rewrite U].
  unfold is_upper in *. rewrite andb_true_iff, !Z.leb_le in U.
  rewrite !code_ascii_of by lia.
  destruct (Z.leb_spec 65 (code c + 32)), (Z.leb_spec (code c + 32) 90); simpl; try done; lia.
Qed.

Lemma is_space_lower c : is_space (lower c) = is_space c.
Proof.
  unfold lower. destruct (is_upper c) eqn:U; [|done].
  unfold is_upper in U. rewrite andb_true_iff, !Z.leb_le in U.
  unfold is_space. rewrite !code_ascii_of by lia.
  apply Bool.eq_iff_eq_true. rewrite !orb_true_iff, !andb_true_iff, !Z.leb_le, !Z.eqb_eq. lia.
Qed.

Lemma append_nil_l s : "" +:+ s = s.
Proof. done. Qed.

Lemma append_cons c s t : String c s +:+ t = String c (s +:+ t).
Proof. done. Qed.

Lemma length_append s t : String.length (s +:+ t) = (String.length s + String.length t)%nat.
Proof. induction s as [|c s IH]; [done|]. rewrite append_cons. simpl. by rewrite IH. Qed.

Lemma len_append s t : len (s +:+ t) = len s + len t.
Proof. unfold len. rewrite length_append. lia. Qed.

Lemma append_nil_r s : s +:+ "" = s.
Proof. induction s as [|c s IH]; [done|]. by rewrite append_cons, IH. Qed.

Lemma append_assoc s t u : s +:+ (t +:+ u) = (s +:+ t) +:+ u.
Proof. induction s as [|c s IH]; [done|]. by rewrite !append_cons, IH. Qed.

Lemma append_inj_r s t u : s +:+ u = t +:+ u → s = t.
Proof.
  revert t. induction s as [|c s IH]; intros [|d t] H; rewrite ?append_cons, ?append_nil_l in H; [done|..].
  - apply (f_equal String.length) in H. simpl in H. rewrite length_append in H. lia.
  - apply (f_equal String.length) in H. simpl in H. rewrite length_append in H. lia.
  - injection H as -> H. f_equal. by apply IH.
Qed.

Lemma drop_bytes_append s t : drop_bytes (String.length s) (s +:+ t) = t.
Proof. induction s as [|c s IH]; [by destruct t|]. by rewrite append_cons. Qed.

Lemma take_bytes_append s t : take_bytes (String.length s) (s +:+ t) = s.
Proof.
  unfold take_bytes. induction s as [|c s IH]; [by destruct t|].
  rewrite append_cons. simpl. by rewrite IH.
Qed.

Lemma length_take_bytes n s :
  String.length (take_bytes n s) = Nat.min n (String.length s).
Proof.
  unfold take_bytes. revert s. induction n as [|n IH]; intros [|c s]; try done.
  cbn. by rewrite IH.
Qed.

Lemma forall_bytes_append p s t :
  forall_bytes p (s +:+ t) = forall_bytes p s && forall_bytes p t.
Proof.
  induction s as [|c s IH]; [done|]. rewrite append_cons. simpl. rewrite IH. by destruct (p c).
Qed.

Lemma forall_bytes_take p n s : forall_bytes p s = true → forall_bytes p (take_bytes n s) = true.
Proof.
  unfold take_bytes. revert s. induction n as [|n IH]; intros [|c s]; try done.
  cbn. rewrite !andb_true_iff. intros [? ?]. auto.
Qed.

Lemma HasSuffix_append s suf : HasSuffix (s +:+ suf) suf = true.
Proof.
  unfold HasSuffix. rewrite length_append.
  replace (String.length s + String.length suf - String.length suf)%nat
    with (String.length s) by lia.
  rewrite drop_bytes_append, String.eqb_refl, andb_true_r. apply Nat.leb_le. lia.
Qed.

Lemma TrimSuffix_append s suf : TrimSuffix (s +:+ suf) suf = s.
Proof.
  unfold TrimSuffix. rewrite HasSuffix_append, length_append.
  replace (String.length s + String.length suf - String.length suf)%nat
    with (String.length s) by lia.
  apply take_bytes_append.
Qed.

Lemma HasPrefix_append p s : HasPrefix (p +:+ s) p = true.
Proof.
  unfold HasPrefix. induction p as [|c p IH]; [by destruct s|].
  rewrite append_cons. simpl. destruct (ascii_dec c c) as [_|]; [done|congruence].
Qed.

(** ** [ParseInt] inverts [Itoa] *)

Lemma digits_append acc s t n :
  digits acc s = Some n → digits acc (s +:+ t) = digits n t.
Proof.
  revert acc. induction s as [|c s IH]; intros acc H; simpl in H; [by simplify_eq|].
  rewrite append_cons. simpl. destruct (digit c); [|done]. simpl in *. by apply IH.
Qed.

Lemma digit_pretty_N_char n : (n < 10)%N → digit (pretty_N_char n) = Some (Z.of_N n).
Proof.
  intros H.
  assert (n = 0 ∨ n = 1 ∨ n = 2 ∨ n = 3 ∨ n = 4 ∨ n = 5 ∨ n = 6 ∨ n = 7 ∨ n = 8 ∨ n = 9)%N
    as Hn by lia.
  destruct_or!; by subst.
Qed.

Lemma digits_snoc acc n s r :
  (n < 10)%N → digits (acc * 10 + Z.of_N n) s = r →
  digits acc (String (pretty_N_char n) s) = r.
Proof. intros Hn H. cbn. by rewrite digit_pretty_N_char. Qed.

(** The decimal digits of [n] prepended to [s] read as [n] followed by [s]. *)
Lemma digits_pretty_N_go n s :
  digits 0 (pretty_N_go n s) = digits (Z.of_N n) s.
Proof.
  revert s. induction (N.lt_wf_0 n) as [n _ IH]; intros s.
  assert (n = 0 ∨ 0 < n)%N as [->|Hn] by lia; [by rewrite pretty_N_go_0|].
  rewrite pretty_N_go_step by done. rewrite IH by (apply N.div_lt; lia).
  eapply digits_snoc; [by apply N.mod_lt|]. f_equal.
  rewrite N2Z.inj_div, N2Z.inj_mod. pose proof (Z.div_mod (Z.of_N n) 10). lia.
Qed.

Lemma digits_pretty_N n : digits 0 (pretty n) = Some (Z.of_N n).
Proof.
  unfold pretty, pretty_N. case_decide; [by subst|]. apply digits_pretty_N_go.
Qed.

Lemma pretty_N_go_cons n s : (0 < n)%N → ∃ c s', pretty_N_go n s = String c s' ∧ digit c ≠ None.
Proof.
  revert s. induction (N.lt_wf_0 n) as [n _ IH]; intros s Hn.
  rewrite pretty_N_go_step by done.
  destruct (decide (n `div` 10 = 0)%N) as [E|E].
  - rewrite E, pretty_N_go_0. eexists _, _. split; [done|].
    by rewrite digit_pretty_N_char by (by apply N.mod_lt).
  - apply IH; [apply N.div_lt; lia|by apply N.neq_0_lt_0].
Qed.

Lemma pretty_N_cons (n : N) : ∃ c s', pretty n = String c s' ∧ digit c ≠ None.
Proof.
  unfold pretty, pretty_N. case_decide; [by eexists _, _|].
  apply pretty_N_go_cons. lia.
Qed.

(** [ParseInt] on a string that starts with a digit. *)
Lemma ParseInt_unsigned c s n :
  digit c ≠ None → digits 0 (String c s) = Some n → in64 n →
  ParseInt (String c s) = Some n.
Proof.
  intros Hc Hd Hn. apply in64b_spec in Hn. unfold ParseInt.
  assert (c ≠ "-"%char ∧ c ≠ "+"%char) as [Hm Hp] by (split; intros ->; done).
  assert ((match String c s with
    | String "-" s' => (true, s') | String "+" s' => (false, s')
    | _ => (false, String c s) end) = (false, String c s)) as ->.
  { destruct c as [[] [] [] [] [] [] [] []]; done. }
  cbn [mbind option_bind]. rewrite Hd. simpl. by rewrite Hn.
Qed.

Lemma ParseInt_Itoa n : in64 n → ParseInt (Itoa n) = Some n.
Proof.
  intros Hn. unfold Itoa. destruct n as [|p|p]; [done|..].
  - change (pretty (Zpos p)) with (pretty (Npos p)).
    pose proof (digits_pretty_N (Npos p)) as Hd.
    destruct (pretty_N_cons (Npos p)) as (c & s & E & Hc). rewrite E in *.
    by apply ParseInt_unsigned.
  - change (pretty (Zneg p)) with (String "-" (pretty (Npos p))).
    pose proof (digits_pretty_N (Npos p)) as Hd.
    destruct (pretty_N_cons (Npos p)) as (c & s & E & Hc).
    unfold ParseInt. rewrite E in *. rewrite Hd.
    apply in64b_spec in Hn. 
    change ((if in64b (Z.neg p) then Some (Z.neg p) else None) = Some (Z.neg p)).
    by rewrite Hn.
Qed.

#[export] Instance Itoa_inj : Inj (=) (=) Itoa.
Proof. unfold Itoa. intros m n H. by apply (inj pretty). Qed.

(** ** White space: [Fields], [Join] and [TrimSpace] *)

(** A word is a non-empty run of non-space bytes. *)
Definition is_word (w : string) : Prop :=
  w ≠ "" ∧ forall_bytes (λ c, negb (is_space c)) w = true.

Lemma Fields_cons_space c s : is_space c = true → Fields (String c s) = Fields s.
Proof. intros H. simpl. by rewrite H. Qed.

Lemma Fields_nonnil c s : is_space c = false → Fields (String c s) ≠ [].
Proof.
  intros H. simpl. rewrite H. destruct s as [|d s]; [done|].
  destruct (is_space d); [done|]. by destruct (Fields (String d s)).
Qed.

(** Every field is a word. *)
Lemma Fields_words s : Forall is_word (Fields s).
Proof.
  induction s as [|c s IH]; [constructor|].
  simpl. destruct (is_space c) eqn:Hc; [done|].
  assert (is_word (String c "")) by (split; [done|]; simpl; by rewrite Hc).
  destruct s as [|d s]; [by apply Forall_singleton|].
  destruct (is_space d); [by constructor|].
  destruct (Fields (String d s)) as [|w ws]; [by apply Forall_singleton|].
  inversion IH as [|?? [_ Hw] ?]; subst. constructor; [|done].
  split; [done|]. simpl. by rewrite Hc.
Qed.

Lemma Fields_word w : is_word w → Fields w = [w].
Proof.
  intros [Hne Hw]. induction w as [|c w IH]; [done|].
  simpl in *. rewrite andb_true_iff, negb_true_iff in Hw. destruct Hw as [Hc Hw].
  rewrite Hc. destruct w as [|d w]; [done|].
  simpl in Hw. pose proof Hw as Hd. rewrite andb_true_iff, negb_true_iff in Hd.
  destruct Hd as [Hd _]. rewrite Hd, IH; done.
Qed.

(** A word, a separator byte that is a space, and the rest. *)
Lemma Fields_word_sep w c s :
  is_word w → is_space c = true → Fields (w +:+ String c s) = w :: Fields s.
Proof.
  intros [Hne Hw] Hsp. induction w as [|d w IH]; [done|].
  simpl in Hw. rewrite andb_true_iff, negb_true_iff in Hw. destruct Hw as [Hd Hw].
  rewrite append_cons. simpl. rewrite Hd. destruct w as [|e w].
  - rewrite append_nil_l, Hsp. f_equal. by rewrite Fields_cons_space.
  - simpl in Hw. pose proof Hw as He. rewrite andb_true_iff, negb_true_iff in He.
    destruct He as [He _]. rewrite append_cons, He, <- append_cons, IH by done. done.
Qed.

Definition space_sep (sep : string) : Prop :=
  ∃ c, sep = String c "" ∧ is_space c = true.

Lemma Join_cons w ws sep :
  Join (w :: ws) sep = match ws with [] => w | _ => w +:+ sep +:+ Join ws sep end.
Proof. unfold Join. simpl. by destruct ws. Qed.

(** Splitting inverts joining with a single space. *)
Lemma Fields_Join ws sep :
  Forall is_word ws → space_sep sep → Fields (Join ws sep) = ws.
Proof.
  intros Hws (c & -> & Hc). induction Hws as [|w ws Hw Hws IH]; [done|].
  rewrite Join_cons. destruct ws as [|w' ws]; [by apply Fields_word|].
  rewrite append_cons, append_nil_l, Fields_word_sep, IH; done.
Qed.

Lemma TrimLeftFunc_head p s :
  match TrimLeftFunc p s with "" => True | String c _ => p c = false end.
Proof. induction s as [|c s IH]; simpl; [done|]. by destruct (p c) eqn:E. Qed.

(** A string whose first and last bytes are not spaces is not trimmed. *)
Lemma TrimRightFunc_cons p c s :
  TrimRightFunc p s ≠ "" → TrimRightFunc p (String c s) = String c (TrimRightFunc p s).
Proof. intros H. simpl. by destruct (TrimRightFunc p s). Qed.

Lemma TrimRightFunc_word_end p w s :
  (∀ c, p c = is_space c) → is_word w → TrimRightFunc p (s +:+ w) = s +:+ w.
Proof.
  intros Hp [Hne Hw]. induction s as [|c s IH].
  - rewrite append_nil_l. induction w as [|d w IH]; [done|].
    simpl in Hw. rewrite andb_true_iff, negb_true_iff in Hw. destruct Hw as [Hd Hw].
    destruct w as [|e w]; [simpl; by rewrite Hp, Hd|].
    rewrite TrimRightFunc_cons; rewrite IH; done.
  - rewrite append_cons, TrimRightFunc_cons, IH; [done|].
    rewrite IH. destruct s; [by destruct w|done].
Qed.

Lemma TrimLeft_word_start p w s :
  (∀ c, p c = is_space c) → is_word w → TrimLeftFunc p (w +:+ s) = w +:+ s.
Proof.
  intros Hp [Hne Hw]. destruct w as [|c w]; [done|].
  simpl in Hw. rewrite andb_true_iff, negb_true_iff in Hw. destruct Hw as [Hc _].
  rewrite append_cons. simpl. by rewrite Hp, Hc.
Qed.

Lemma Join_last ws sep :
  ws ≠ [] → Forall is_word ws → ∃ s w, Join ws sep = s +:+ w ∧ is_word w.
Proof.
  intros Hne Hws. induction Hws as [|w ws Hw Hws IH]; [done|].
  rewrite Join_cons. destruct ws as [|w' ws]; [by exists "", w|].
  destruct IH as (s & v & E & Hv); [done|].
  exists (w +:+ sep +:+ s), v. by rewrite E, !append_assoc.
Qed.

(** [TrimSpace] does nothing to words joined by anything. *)
Lemma TrimSpace_Join ws sep : Forall is_word ws → TrimSpace (Join ws sep) = Join ws sep.
Proof.
  intros Hws. unfold TrimSpace. destruct ws as [|w ws]; [done|].
  assert (TrimLeftFunc is_space (Join (w :: ws) sep) = Join (w :: ws) sep) as ->.
  { inversion Hws; subst. rewrite Join_cons. destruct ws as [|w' ws].
    - rewrite <- (append_nil_r w) at 1 2. by rewrite TrimLeft_word_start.
    - by apply TrimLeft_word_start. }
  destruct (Join_last (w :: ws) sep) as (s & v & -> & Hv); [done..|].
  by apply TrimRightFunc_word_end.
Qed.

(** Trimming does not change the fields, nor does lower-casing the field cuts. *)
Lemma Fields_spaces s : forall_bytes is_space s = true → Fields s = [].
Proof.
  induction s as [|c s IH]; [done|]. simpl. rewrite andb_true_iff. intros [Hc Hs]. rewrite Hc. auto.
Qed.

Lemma Fields_append_spaces s sp : forall_bytes is_space sp = true → Fields (s +:+ sp) = Fields s.
Proof.
  intros Hsp. induction s as [|c s IH]; [by rewrite append_nil_l, Fields_spaces|].
  rewrite append_cons. simpl. destruct (is_space c); [done|]. destruct s as [|d s].
  - rewrite append_nil_l. destruct sp as [|e sp]; [done|].
    pose proof Hsp as Hsp'. simpl in Hsp'. apply andb_true_iff in Hsp' as [He _].
    by rewrite He, (Fields_spaces (String e sp)).
  - rewrite append_cons in IH |- *. by rewrite IH.
Qed.

Lemma TrimRightFunc_split p s : ∃ t, s = TrimRightFunc p s +:+ t ∧ forall_bytes p t = true.
Proof.
  induction s as [|c s (t & IH & Ht)]; [by exists ""|]. simpl.
  destruct (TrimRightFunc p s) as [|d u] eqn:E.
  - rewrite append_nil_l in IH. subst t. destruct (p c) eqn:Hc.
    + exists (String c s). rewrite append_nil_l. simpl. by rewrite Hc.
    + exists s. by rewrite append_cons, append_nil_l.
  - exists t. rewrite append_cons, <- IH. done.
Qed.

Lemma Fields_TrimSpace s : Fields (TrimSpace s) = Fields s.
Proof.
  unfold TrimSpace. transitivity (Fields (TrimLeftFunc is_space s)).
  - destruct (TrimRightFunc_split is_space (TrimLeftFunc is_space s)) as (t & E & Ht).
    rewrite E at 2. by rewrite Fields_append_spaces.
  - induction s as [|c s IH]; [done|]. simpl. destruct (is_space c) eqn:Hc; [done|].
    simpl. by rewrite Hc.
Qed.

Lemma Fields_ToLower s : Fields (ToLower s) = ToLower <$> Fields s.
Proof.
  unfold ToLower. induction s as [|c s IH]; [done|]. simpl. rewrite is_space_lower.
  destruct (is_space c); [done|]. destruct s as [|d s]; [done|].
  cbn [map_bytes] in IH |- *. rewrite is_space_lower. destruct (is_space d); [by rewrite IH|].
  rewrite IH. by destruct (Fields (String d s)).
Qed.

Lemma ToLower_idemp s : ToLower (ToLower s) = ToLower s.
Proof. induction s as [|c s IH]; [done|]. unfold ToLower in *. simpl. by rewrite lower_idemp, IH. Qed.

Lemma ToLower_append s t : ToLower (s +:+ t) = ToLower s +:+ ToLower t.
Proof.
  unfold ToLower. induction s as [|c s IH]; [done|].
  rewrite append_cons. cbn [map_bytes]. by rewrite append_cons, IH.
Qed.

Lemma ToLower_Join ws sep : ToLower (Join ws sep) = Join (ToLower <$> ws) (ToLower sep).
Proof.
  induction ws as [|w ws IH]; [done|]. cbn [fmap list_fmap]. rewrite !Join_cons.
  destruct ws as [|w' ws]; [done|]. rewrite !ToLower_append, IH. done.
Qed.

Lemma forall_bytes_Join p ws sep :
  Forall (λ w, forall_bytes p w = true) ws → forall_bytes p sep = true → forall_bytes p (Join ws sep) = true.
Proof.
  intros Hws Hsep. induction Hws as [|w ws Hw Hws IH]; [done|]. rewrite Join_cons.
  destruct ws as [|w' ws]; [done|]. rewrite !forall_bytes_append, Hw, Hsep. done.
Qed.

Lemma TrimSpace_word w : is_word w → TrimSpace w = w.
Proof. intros H. apply (TrimSpace_Join [w] ""). by constructor. Qed.

Lemma is_word_ToLower w : is_word w → is_word (ToLower w).
Proof.
  intros [Hne Hw]. split; [by destruct w|]. unfold ToLower. clear Hne.
  induction w as [|c w IH]; [done|]. simpl in *. rewrite is_space_lower, andb_true_iff in *. naive_solver.
Qed.

Lemma TrimRightFunc_idemp p s : TrimRightFunc p (TrimRightFunc p s) = TrimRightFunc p s.
Proof.
  induction s as [|c s IH]; [done|]. simpl. destruct (TrimRightFunc p s) as [|d u] eqn:E.
  - destruct (p c) eqn:Hc; [done|]. simpl. by rewrite Hc.
  - rewrite TrimRightFunc_cons; rewrite IH; done.
Qed.

Lemma TrimSpace_idemp s : TrimSpace (TrimSpace s) = TrimSpace s.
Proof.
  unfold TrimSpace at 1 3. pose proof (TrimLeftFunc_head is_space s) as Hd.
  unfold TrimSpace. set (u := TrimLeftFunc is_space s) in *. destruct u as [|c u]; [done|].
  assert (∃ v, TrimRightFunc is_space (String c u) = String c v) as [v E].
  { simpl. destruct (TrimRightFunc is_space u); rewrite ?Hd; eauto. }
  rewrite E. simpl TrimLeftFunc. rewrite Hd, <-E. apply TrimRightFunc_idemp.
Qed.
