(* ===== verification/GoTime.v ===== *)
(** * Go's [time] package: the RFC 3339 layout and the two clocks

    Instants are Unix nanoseconds; the local zone is a function from an instant to
    its offset in seconds.  [Parse] covers the fixed-width RFC 3339 grammar, which
    is the one [Format] writes.

    [time.Now] carries a wall and a monotonic reading; [Add] moves both, comparisons of
    two such times use the monotonic one, formatting the wall one.  Times built from a
    date have no monotonic reading; they are plain instants. *)

From S2P Require Import Prelude GoStrings.

(** ** The calendar *)

(** Days are counted from 1 January of year 1. *)
Definition is_leap (y : Z) : bool :=
  (y mod 4 =? 0) && (negb (y mod 100 =? 0) || (y mod 400 =? 0)).

Definition month_lens (leap : bool) : list Z :=
  [31; if leap then 29 else 28; 31; 30; 31; 30; 31; 31; 30; 31; 30; 31].

Definition month_len (leap : bool) (m : Z) : Z :=
  default 0 (month_lens leap !! Z.to_nat (m - 1)).

Definition month_start (leap : bool) (m : Z) : Z :=
  foldr Z.add 0 (take (Z.to_nat (m - 1)) (month_lens leap)).

Definition year_start (y : Z) : Z :=
  365 * (y - 1) + (y - 1) / 4 - (y - 1) / 100 + (y - 1) / 400.

Fixpoint month_day (lens : list Z) (m doy : Z) : Z * Z :=
  match lens with
  | [] => (m, doy + 1)
  | l :: rest => if doy <? l then (m, doy + 1) else month_day rest (m + 1) (doy - l)
  end.

(** The year and the day of the year: cycles of 400, 100, 4 and 1 years. *)
Definition year_day (n : Z) : Z * Z :=
  let q := n / 146097 in let r := n mod 146097 in
  let c := r / 36524 - r / 36524 / 4 in let r := r - c * 36524 in
  let f := r / 1461 in let r := r mod 1461 in
  let s := r / 365 - r / 365 / 4 in
  (400 * q + 100 * c + 4 * f + s + 1, r - s * 365).

Definition civil (n : Z) : Z * Z * Z :=
  let '(y, doy) := year_day n in
  let '(m, d) := month_day (month_lens (is_leap y)) 1 doy in
  (y, m, d).

Definition days_of (y m d : Z) : Z := year_start y + month_start (is_leap y) m + (d - 1).

(** Day number of 1 January 1970. *)
Definition unix_epoch : Z := 719162.

(** ** The layout *)

Definition digit_char (n : Z) : ascii := ascii_of_N (Z.to_N (48 + n)).

Fixpoint pad (w : nat) (n : Z) : string :=
  match w with
  | O => ""
  | S w' => pad w' (n / 10) +:+ String (digit_char (n mod 10)) ""
  end.

Definition format_year (y : Z) : string :=
  if (0 <=? y) && (y <=? 9999) then pad 4 y else Itoa y.

Definition format_zone (off : Z) : string :=
  if off =? 0 then "Z"
  else
    let zone := Z.quot off 60 in
    (if zone <? 0 then "-" else "+") +:+ pad 2 (Z.abs zone / 60) +:+ ":" +:+ pad 2 (Z.abs zone mod 60).

(** [t.Format(time.RFC3339)] in a zone of offset [off]. *)
Definition format_at (off t : Z) : string :=
  let secs := t / Second + off in
  let '(y, m, d) := civil (secs / 86400 + unix_epoch) in
  let sod := secs mod 86400 in
  format_year y +:+ "-" +:+ pad 2 m +:+ "-" +:+ pad 2 d +:+ "T" +:+
  pad 2 (sod / 3600) +:+ ":" +:+ pad 2 (sod / 60 mod 60) +:+ ":" +:+ pad 2 (sod mod 60) +:+
  format_zone off.

Definition Format (zone : Z → Z) (t : Z) : string := format_at (zone t) t.

(** [w] digits. *)
Fixpoint num (w : nat) (acc : Z) (s : string) : option (Z * string) :=
  match w, s with
  | O, _ => Some (acc, s)
  | S w', String c s' => d ← digit c; num w' (acc * 10 + d) s'
  | S _, "" => None
  end.

Definition lit (c : ascii) (s : string) : option string :=
  match s with String c' s' => if Ascii.eqb c c' then Some s' else None | "" => None end.

(** A fraction of a second: digits after the ninth are dropped. *)
Fixpoint fraction (scale acc : Z) (s : string) : Z * string :=
  match s with
  | String c s' =>
      match digit c with
      | Some d => fraction (scale / 10) (acc + d * (scale / 10)) s'
      | None => (acc, s)
      end
  | "" => (acc, s)
  end.

Definition parse_fraction (s : string) : option (Z * string) :=
  match s with
  | String "." s' =>
      match s' with
      | String c _ => if digit c is Some _ then Some (fraction Second 0 s') else None
      | "" => None
      end
  | _ => Some (0, s)
  end.

Definition parse_offset (sign : Z) (s : string) : option Z :=
  '(h, s) ← num 2 0 s; s ← lit ":" s; '(m, s) ← num 2 0 s;
  match s with
  | "" => if (h <? 24) && (m <? 60) then Some (sign * (h * 3600 + m * 60)) else None
  | _ => None
  end.

Definition parse_zone (s : string) : option Z :=
  match s with
  | String "Z" "" => Some 0
  | String "+" s' => parse_offset 1 s'
  | String "-" s' => parse_offset (-1) s'
  | _ => None
  end.

(** [time.Parse(time.RFC3339, s)]. *)
Definition Parse (s : string) : option Z :=
  '(y, s) ← num 4 0 s; s ← lit "-" s; '(m, s) ← num 2 0 s; s ← lit "-" s; '(d, s) ← num 2 0 s;
  s ← lit "T" s; '(h, s) ← num 2 0 s; s ← lit ":" s; '(mi, s) ← num 2 0 s; s ← lit ":" s;
  '(sec, s) ← num 2 0 s; '(ns, s) ← parse_fraction s; off ← parse_zone s;
  if (1 <=? m) && (m <=? 12) && (1 <=? d) && (d <=? month_len (is_leap y) m) &&
     (h <? 24) && (mi <? 60) && (sec <? 60)
  then Some (((days_of y m d - unix_epoch) * 86400 + h * 3600 + mi * 60 + sec - off) * Second + ns)
  else None.

Example format_epoch : format_at 0 0 = "1970-01-01T00:00:00Z".
Proof. reflexivity. Qed.

Example format_zoned : format_at (-25200) (1784900000 * Second) = "2026-07-24T06:33:20-07:00".
Proof. reflexivity. Qed.

Example parse_zoned : Parse "2024-02-29T23:59:59.25+05:30" = Some (1709231399 * Second + 250000000).
Proof. reflexivity. Qed.

(** ** The calendar is a bijection, in order *)

Lemma leap_cases y :
  (is_leap y = true → (y - 1) / 4 + 1 = y / 4 ∧ (y / 100 - y / 400 = (y - 1) / 100 - (y - 1) / 400)) ∧
  (is_leap y = false → y / 4 - y / 100 + y / 400 = (y - 1) / 4 - (y - 1) / 100 + (y - 1) / 400).
Proof.
  unfold is_leap.
  destruct (Z.eqb_spec (y mod 4) 0), (Z.eqb_spec (y mod 100) 0), (Z.eqb_spec (y mod 400) 0);
    simpl; split; intros; try done; Z.to_euclidean_division_equations; lia.
Qed.

Lemma year_start_succ y : year_start (y + 1) = year_start y + 365 + (if is_leap y then 1 else 0).
Proof.
  pose proof (leap_cases y) as [H1 H2]. unfold year_start. replace (y + 1 - 1) with y by lia.
  destruct (is_leap y); [destruct (H1 eq_refl)|specialize (H2 eq_refl)]; lia.
Qed.

Lemma year_start_le y z : y ≤ z → year_start y ≤ year_start z.
Proof. unfold year_start. intros. Z.to_euclidean_division_equations; lia. Qed.

Lemma year_day_spec n y doy :
  year_day n = (y, doy) → n = year_start y + doy ∧ 0 ≤ doy < 365 + (if is_leap y then 1 else 0).
Proof.
  unfold year_day. intros [= <- <-].
  set (q := n / 146097). set (r := n mod 146097).
  assert (n = 146097 * q + r ∧ 0 ≤ r < 146097) as [Hn Hr] by (unfold q, r; Z.to_euclidean_division_equations; lia).
  clearbody q r. subst n.
  set (c := r / 36524 - r / 36524 / 4).
  assert (0 ≤ c ≤ 3 ∧ 0 ≤ r - c * 36524 ∧ (r - c * 36524 < 36524 ∨ c = 3 ∧ r - c * 36524 < 36525)) as (Hc & Hr0 & Hr1).
  { unfold c. Z.to_euclidean_division_equations; lia. }
  set (r' := r - c * 36524) in *. assert (r = r' + c * 36524) as Hrc by (subst r'; lia).
  clearbody r'. clearbody c. subst r.
  set (f := r' / 1461). set (r'' := r' mod 1461).
  assert (r' = 1461 * f + r'' ∧ 0 ≤ r'' < 1461 ∧ 0 ≤ f ≤ 24 ∧ (f = 24 → r'' < 1460 ∨ c = 3)) as (Hrf & Hr'' & Hf & Hf24).
  { unfold f, r''. Z.to_euclidean_division_equations; lia. }
  clearbody f r''. subst r'.
  set (s := r'' / 365 - r'' / 365 / 4).
  assert (0 ≤ s ≤ 3 ∧ 0 ≤ r'' - s * 365 ∧ (r'' - s * 365 < 365 ∨ s = 3 ∧ r'' - s * 365 < 366)) as (Hs & Hd0 & Hd1).
  { unfold s. Z.to_euclidean_division_equations; lia. }
  clearbody s.
  replace (year_start (400 * q + 100 * c + 4 * f + s + 1)) with (146097 * q + 36524 * c + 1461 * f + 365 * s).
  2: { unfold year_start. Z.to_euclidean_division_equations; lia. }
  split; [lia|]. split; [lia|].
  destruct Hd1 as [Hd1|[-> Hd1]]; [destruct (is_leap _); lia|].
  destruct (decide (r'' - 3 * 365 < 365)) as [|Hleap]; [destruct (is_leap _); lia|].
  assert (is_leap (400 * q + 100 * c + 4 * f + 3 + 1) = true) as ->; [|lia].
  unfold is_leap. destruct (Z.eqb_spec ((400 * q + 100 * c + 4 * f + 3 + 1) mod 4) 0) as [_|Hne].
  2: { exfalso. apply Hne. Z.to_euclidean_division_equations; lia. }
  simpl. destruct (decide (f = 24)) as [->|].
  - assert (c = 3) as -> by lia. apply orb_true_iff. right. apply Z.eqb_eq. Z.to_euclidean_division_equations; lia.
  - apply orb_true_iff. left. apply negb_true_iff, Z.eqb_neq. Z.to_euclidean_division_equations; lia.
Qed.

Lemma seqZ_forallb (f : Z → bool) a n x :
  forallb f (seqZ a n) = true → a ≤ x < a + n → f x = true.
Proof. rewrite forallb_forall. intros HF Hx. apply HF, list_elem_of_In, elem_of_seqZ. lia. Qed.

(** The month table, checked day by day. *)
Definition month_check (leap : bool) (doy : Z) : bool :=
  let '(m, d) := month_day (month_lens leap) 1 doy in
  (1 <=? m) && (m <=? 12) && (1 <=? d) && (d <=? month_len leap m) && (month_start leap m + (d - 1) =? doy).

Lemma month_day_spec leap doy m d :
  month_day (month_lens leap) 1 doy = (m, d) → 0 ≤ doy < 365 + (if leap then 1 else 0) →
  1 ≤ m ≤ 12 ∧ 1 ≤ d ≤ month_len leap m ∧ doy = month_start leap m + (d - 1).
Proof.
  intros Hmd Hr. assert (month_check leap doy = true) as Hc.
  { apply (seqZ_forallb _ 0 (365 + (if leap then 1 else 0))); [destruct leap; reflexivity|lia]. }
  unfold month_check in Hc. rewrite Hmd in Hc.
  rewrite !andb_true_iff, !Z.leb_le, Z.eqb_eq in Hc. lia.
Qed.

Lemma month_start_lt leap m m' :
  1 ≤ m → m < m' → m' ≤ 12 → month_start leap m + month_len leap m ≤ month_start leap m'.
Proof.
  intros H1 H2 H3.
  assert (forallb (λ m', negb (m <? m') ||
    (month_start leap m + month_len leap m <=? month_start leap m')) (seqZ 1 12) = true) as HF.
  { apply (seqZ_forallb (λ m, forallb (λ m', negb (m <? m') ||
      (month_start leap m + month_len leap m <=? month_start leap m')) (seqZ 1 12)) 1 12);
      [destruct leap; reflexivity|lia]. }
  apply (seqZ_forallb _ _ _ m') in HF; [|lia].
  rewrite orb_true_iff, negb_true_iff, Z.ltb_ge, Z.leb_le in HF. lia.
Qed.

Lemma month_end leap m : 1 ≤ m ≤ 12 →
  month_start leap m + month_len leap m ≤ 365 + (if leap then 1 else 0).
Proof.
  intros H. apply Z.leb_le.
  apply (seqZ_forallb (λ m, month_start leap m + month_len leap m <=? 365 + (if leap then 1 else 0)) 1 12);
    [destruct leap; reflexivity|lia].
Qed.

Lemma month_len_31 leap m : month_len leap m ≤ 31.
Proof.
  unfold month_len. destruct (month_lens leap !! Z.to_nat (m - 1)) as [l|] eqn:Hl; [|simpl; lia].
  assert (Forall (λ l, l ≤ 31) (month_lens leap)) as HF by (destruct leap; repeat constructor; lia).
  rewrite Forall_lookup in HF. exact (HF _ _ Hl).
Qed.

Lemma month_start_nonneg leap m : 0 ≤ month_start leap m.
Proof.
  assert (Forall (λ l, 0 ≤ l) (take (Z.to_nat (m - 1)) (month_lens leap))) as HF.
  { apply Forall_take. destruct leap; repeat constructor; lia. }
  unfold month_start. induction HF; simpl; lia.
Qed.

(** A date names its day. *)
Lemma civil_spec n y m d :
  civil n = (y, m, d) → n = days_of y m d ∧ 1 ≤ m ≤ 12 ∧ 1 ≤ d ≤ month_len (is_leap y) m.
Proof.
  unfold civil. destruct (year_day n) as [y' doy] eqn:Hy.
  destruct (month_day _ 1 doy) as [m' d'] eqn:Hm. intros [= -> -> ->].
  destruct (year_day_spec _ _ _ Hy) as [-> Hr].
  destruct (month_day_spec _ _ _ _ Hm Hr) as (? & ? & ->). unfold days_of. lia.
Qed.

(** ** Lexicographic order *)

Definition lexc (c1 c2 : comparison) : comparison := match c1 with Eq => c2 | c => c end.

Lemma compare_lex K n m a b :
  0 ≤ a < K → 0 ≤ b < K → ((n * K + a) ?= (m * K + b)) = lexc (n ?= m) (a ?= b).
Proof.
  intros. destruct (Z.compare_spec n m) as [->|Hlt|Hlt]; simpl.
  - destruct (Z.compare_spec a b) as [->|?|?];
      [apply Z.compare_refl|apply Z.compare_lt_iff; lia|apply Z.compare_gt_iff; lia].
  - apply Z.compare_lt_iff. nia.
  - apply Z.compare_gt_iff. nia.
Qed.

Lemma compare_days y m d y' m' d' :
  1 ≤ m ≤ 12 → 1 ≤ d ≤ month_len (is_leap y) m → 1 ≤ m' ≤ 12 → 1 ≤ d' ≤ month_len (is_leap y') m' →
  (days_of y m d ?= days_of y' m' d') = lexc (y ?= y') (lexc (m ?= m') (d ?= d')).
Proof.
  intros Hm Hd Hm' Hd'.
  assert (∀ y m d y' m' d', 1 ≤ m ≤ 12 → 1 ≤ d ≤ month_len (is_leap y) m → 1 ≤ d' →
    y < y' → days_of y m d < days_of y' m' d') as Hyear.
  { clear. intros y m d y' m' d' Hm Hd Hd' Hlt. unfold days_of.
    pose proof (month_end (is_leap y) m Hm). pose proof (year_start_succ y).
    pose proof (year_start_le (y + 1) y' ltac:(lia)). pose proof (month_start_nonneg (is_leap y') m'). lia. }
  destruct (Z.compare_spec y y') as [->|Hlt|Hlt]; simpl.
  2: { apply Z.compare_lt_iff, Hyear; lia. }
  2: { apply Z.compare_gt_iff, Hyear; lia. }
  unfold days_of. destruct (Z.compare_spec m m') as [->|Hlt|Hlt]; simpl.
  - destruct (Z.compare_spec d d') as [->|?|?];
      [apply Z.compare_refl|apply Z.compare_lt_iff; lia|apply Z.compare_gt_iff; lia].
  - apply Z.compare_lt_iff. pose proof (month_start_lt (is_leap y') m m'). lia.
  - apply Z.compare_gt_iff. pose proof (month_start_lt (is_leap y') m' m). lia.
Qed.

(** ** Digits *)

Lemma string_compare_app a a' b b' :
  String.length a = String.length a' →
  String.compare (a +:+ b) (a' +:+ b') = lexc (String.compare a a') (String.compare b b').
Proof.
  revert a'. induction a as [|c a IH]; intros [|c' a'] Hl; try done; [simpl in Hl; lia..|].
  rewrite !append_cons. cbn [String.compare]. simpl in Hl. destruct (Ascii.compare c c'); try done. apply IH. lia.
Qed.

Lemma code_digit_char n : 0 ≤ n < 10 → code (digit_char n) = 48 + n.
Proof. intros. unfold code, digit_char. rewrite N_ascii_embedding by lia. lia. Qed.

Lemma digit_digit_char n : 0 ≤ n < 10 → digit (digit_char n) = Some n.
Proof.
  intros. unfold digit. rewrite code_digit_char by done.
  destruct (Z.leb_spec 48 (48 + n)); [|lia]. destruct (Z.leb_spec (48 + n) 57); [|lia].
  simpl. f_equal. lia.
Qed.

Lemma digit_char_compare n m : 0 ≤ n < 10 → 0 ≤ m < 10 →
  String.compare (String (digit_char n) "") (String (digit_char m) "") = (n ?= m).
Proof.
  intros. simpl. unfold Ascii.compare, digit_char. rewrite !N_ascii_embedding by lia.
  rewrite <-N2Z.inj_compare, !Z2N.id by lia.
  destruct (Z.compare_spec n m), (Z.compare_spec (48 + n) (48 + m)); lia || done.
Qed.

Lemma length_pad w n : String.length (pad w n) = w.
Proof.
  revert n. induction w as [|w IH]; intros; [done|]. simpl. rewrite length_append, IH. simpl. lia.
Qed.

Lemma pad_range w n : 0 ≤ n < 10 ^ Z.of_nat (S w) → 0 ≤ n / 10 < 10 ^ Z.of_nat w.
Proof.
  rewrite Nat2Z.inj_succ, Z.pow_succ_r by lia. intros. set (p := 10 ^ Z.of_nat w) in *.
  Z.to_euclidean_division_equations; lia.
Qed.

Lemma pad_compare w n m :
  0 ≤ n < 10 ^ Z.of_nat w → 0 ≤ m < 10 ^ Z.of_nat w →
  String.compare (pad w n) (pad w m) = (n ?= m).
Proof.
  revert n m. induction w as [|w IH]; intros n m Hn Hm.
  { simpl in *. rewrite (proj2 (Z.compare_eq_iff n m)); [done|lia]. }
  cbn [pad]. rewrite string_compare_app by (by rewrite !length_pad).
  rewrite IH by (by apply pad_range). rewrite digit_char_compare by (apply Z.mod_pos_bound; lia).
  rewrite <-(compare_lex 10) by (apply Z.mod_pos_bound; lia).
  f_equal; pose proof (Z.div_mod n 10); pose proof (Z.div_mod m 10); lia.
Qed.

Lemma num_snoc w acc s :
  num (S w) acc s =
  ('(a, s') ← num w acc s; match s' with
                           | String c s'' => d ← digit c; Some (a * 10 + d, s'')
                           | "" => None
                           end).
Proof.
  revert acc s. induction w as [|w IH]; intros acc s; [by destruct s|].
  destruct s as [|c s]; [done|]. cbn [num]. destruct (digit c); simpl; [|done]. apply IH.
Qed.

Lemma num_pad w n rest :
  0 ≤ n < 10 ^ Z.of_nat w → num w 0 (pad w n +:+ rest) = Some (n, rest).
Proof.
  revert n rest. induction w as [|w IH]; intros n rest Hn.
  { simpl in *. rewrite append_nil_l. repeat f_equal. lia. }
  rewrite num_snoc. cbn [pad]. rewrite <-append_assoc, IH by (by apply pad_range).
  cbn [mbind option_bind]. rewrite append_cons, append_nil_l, digit_digit_char by (apply Z.mod_pos_bound; lia).
  cbn [mbind option_bind]. do 2 f_equal. pose proof (Z.div_mod n 10). lia.
Qed.

Lemma lit_cons c s : lit c (String c s) = Some s.
Proof. unfold lit. by rewrite Ascii.eqb_refl. Qed.

(** ** The layout preserves order and parses back *)

(** The years the four-digit layout covers. *)
Definition year_ok (off t : Z) : Prop :=
  0 ≤ (civil ((t / Second + off) / 86400 + unix_epoch)).1.1 ≤ 9999.

Definition zone_ok (off : Z) : Prop := Z.rem off 60 = 0 ∧ Z.abs off < 86400.

Lemma num_pad2 n rest : 0 ≤ n < 100 → num 2 0 (pad 2 n +:+ rest) = Some (n, rest).
Proof. apply (num_pad 2). Qed.

Lemma parse_offset_format sign z : 0 ≤ z < 1440 →
  parse_offset sign (pad 2 (z / 60) +:+ ":" +:+ pad 2 (z mod 60)) = Some (sign * (z * 60)).
Proof.
  intros. unfold parse_offset.
  rewrite num_pad2 by (Z.to_euclidean_division_equations; lia). cbn [mbind option_bind].
  rewrite append_cons, append_nil_l, lit_cons. cbn [mbind option_bind].
  rewrite <-(append_nil_r (pad 2 (z mod 60))), num_pad2 by (Z.to_euclidean_division_equations; lia).
  cbn [mbind option_bind].
  assert ((z / 60 <? 24) && (z mod 60 <? 60) = true) as ->
    by (rewrite andb_true_iff, !Z.ltb_lt; Z.to_euclidean_division_equations; lia).
  f_equal. pose proof (Z.div_mod z 60). f_equal. lia.
Qed.

Lemma parse_zone_format off : zone_ok off → parse_zone (format_zone off) = Some off.
Proof.
  intros [Hr Ha]. unfold format_zone. destruct (Z.eqb_spec off 0) as [->|Hne]; [done|].
  assert (off = 60 * Z.quot off 60) as Hq by (pose proof (Z.quot_rem off 60); lia).
  set (z := Z.quot off 60) in *. clearbody z. subst off.
  destruct (Z.ltb_spec z 0); rewrite append_cons, append_nil_l; cbn [parse_zone];
    rewrite parse_offset_format by lia; f_equal; lia.
Qed.

Lemma civil_shape n :
  ∃ y m d, civil n = (y, m, d) ∧ n = days_of y m d ∧ 1 ≤ m ≤ 12 ∧ 1 ≤ d ≤ month_len (is_leap y) m.
Proof.
  destruct (civil n) as [[y m] d] eqn:Hc. exists y, m, d. split; [done|]. by apply civil_spec.
Qed.

Lemma parse_format off t :
  zone_ok off → year_ok off t → Parse (format_at off t) = Some (t / Second * Second).
Proof.
  intros Hz Hy. unfold year_ok in Hy. unfold format_at, Parse. set (secs := t / Second + off) in *.
  destruct (civil_shape (secs / 86400 + unix_epoch)) as (y & m & d & Hc & Hn & Hm & Hd).
  rewrite Hc in Hy |- *. cbn [fst snd] in Hy.
  pose proof (month_len_31 (is_leap y) m).
  unfold format_year. assert ((0 <=? y) && (y <=? 9999) = true) as -> by (rewrite andb_true_iff, !Z.leb_le; lia).
  set (sod := secs mod 86400). assert (0 ≤ sod < 86400) as Hsod by (apply Z.mod_pos_bound; lia).
  rewrite num_pad by (change (10 ^ Z.of_nat 4) with 10000; lia). cbn [mbind option_bind].
  do 2 (rewrite append_cons, append_nil_l, lit_cons; cbn [mbind option_bind];
        rewrite num_pad2 by lia; cbn [mbind option_bind]).
  do 3 (rewrite append_cons, append_nil_l, lit_cons; cbn [mbind option_bind];
        rewrite num_pad2 by (Z.to_euclidean_division_equations; lia); cbn [mbind option_bind]).
  assert (parse_fraction (format_zone off) = Some (0, format_zone off)) as ->.
  { unfold format_zone. destruct (off =? 0); [done|]. by destruct (Z.quot off 60 <? 0). }
  cbn [mbind option_bind]. rewrite parse_zone_format by done. cbn [mbind option_bind].
  assert ((1 <=? m) && (m <=? 12) && (1 <=? d) && (d <=? month_len (is_leap y) m) &&
    (sod / 3600 <? 24) && (sod / 60 mod 60 <? 60) && (sod mod 60 <? 60) = true) as ->.
  { rewrite !andb_true_iff, !Z.leb_le, !Z.ltb_lt. Z.to_euclidean_division_equations; lia. }
  f_equal. rewrite <-Hn.
  assert (sod / 3600 * 3600 + sod / 60 mod 60 * 60 + sod mod 60 = sod) by (Z.to_euclidean_division_equations; lia).
  pose proof (Z.div_mod secs 86400). unfold sod in *.
  replace (t / Second) with (secs - off) by (unfold secs; lia). lia.
Qed.

Lemma string_compare_refl s : String.compare s s = Eq.
Proof.
  pose proof (String.compare_antisym s s) as Hr. by destruct (String.compare s s).
Qed.

Lemma lexc_assoc a b c : lexc (lexc a b) c = lexc a (lexc b c).
Proof. by destruct a. Qed.

Lemma compare_shift a b k : (a + k ?= b + k) = (a ?= b).
Proof.
  destruct (Z.compare_spec a b) as [->|?|?];
    [apply Z.compare_refl|apply Z.compare_lt_iff; lia|apply Z.compare_gt_iff; lia].
Qed.

Lemma compare_sod a b :
  (a ?= b) = lexc (a / 3600 ?= b / 3600) (lexc (a / 60 mod 60 ?= b / 60 mod 60) (a mod 60 ?= b mod 60)).
Proof.
  rewrite <-lexc_assoc, <-(compare_lex 60) by (apply Z.mod_pos_bound; lia).
  rewrite <-(compare_lex 60) by (apply Z.mod_pos_bound; lia).
  f_equal; Z.to_euclidean_division_equations; lia.
Qed.

(** Formatted instants of one zone compare, as strings, in whole seconds. *)
Lemma format_compare off t u :
  year_ok off t → year_ok off u →
  String.compare (format_at off t) (format_at off u) = (t / Second ?= u / Second).
Proof.
  unfold year_ok, format_at. intros Ht Hu. rewrite <-(compare_shift _ _ off).
  set (a := t / Second + off) in *. set (b := u / Second + off) in *. clearbody a b.
  destruct (civil_shape (a / 86400 + unix_epoch)) as (y & m & d & Hc & Hn & Hm & Hd).
  destruct (civil_shape (b / 86400 + unix_epoch)) as (y' & m' & d' & Hc' & Hn' & Hm' & Hd').
  rewrite Hc in Ht |- *. rewrite Hc' in Hu |- *. cbn [fst snd] in Ht, Hu.
  pose proof (month_len_31 (is_leap y) m). pose proof (month_len_31 (is_leap y') m').
  unfold format_year. assert ((0 <=? y) && (y <=? 9999) = true) as -> by (rewrite andb_true_iff, !Z.leb_le; lia).
  assert ((0 <=? y') && (y' <=? 9999) = true) as -> by (rewrite andb_true_iff, !Z.leb_le; lia).
  assert (0 ≤ a mod 86400 < 86400) by (apply Z.mod_pos_bound; lia).
  assert (0 ≤ b mod 86400 < 86400) by (apply Z.mod_pos_bound; lia).
  assert ((a ?= b) = lexc (a / 86400 ?= b / 86400) (a mod 86400 ?= b mod 86400)) as ->.
  { rewrite <-(compare_lex 86400) by done. f_equal; Z.to_euclidean_division_equations; lia. }
  rewrite <-(compare_shift (a / 86400) _ unix_epoch), Hn, Hn', compare_days by done.
  rewrite (compare_sod (a mod 86400)), !lexc_assoc.
  rewrite !string_compare_app by (by rewrite ?length_pad).
  rewrite (pad_compare 4) by (change (10 ^ Z.of_nat 4) with 10000; lia).
  rewrite !(pad_compare 2) by (change (10 ^ Z.of_nat 2) with 100; Z.to_euclidean_division_equations; lia).
  rewrite !string_compare_refl. cbn [lexc]. by destruct (_ mod 60 ?= _ mod 60), (_ mod 60 ?= _ mod 60).
Qed.

(** The comparison [a < b] of Go strings. *)
Definition str_ltb (a b : string) : bool :=
  match String.compare a b with Lt => true | _ => false end.

Lemma str_ltb_asym a b : str_ltb a b = true → str_ltb b a = false.
Proof. unfold str_ltb. rewrite (String.compare_antisym b a). by destruct (String.compare a b). Qed.

Lemma str_ltb_trans a b c : str_ltb b a = false → str_ltb c b = false → str_ltb c a = false.
Proof.
  unfold str_ltb. revert b c. induction a as [|x a IH]; intros [|y b] [|z c]; cbn [String.compare]; try done.
  unfold Ascii.compare. destruct (N.compare_spec (N_of_ascii y) (N_of_ascii x)) as [E1|L1|L1],
    (N.compare_spec (N_of_ascii z) (N_of_ascii y)) as [E2|L2|L2], (N.compare_spec (N_of_ascii z) (N_of_ascii x)) as [E3|L3|L3];
    try done; try lia. apply IH.
Qed.

Lemma str_ltb_format off t u :
  year_ok off t → year_ok off u → str_ltb (format_at off t) (format_at off u) = (t / Second <? u / Second).
Proof. intros. unfold str_ltb. by rewrite format_compare. Qed.

Record Time := mkTime { wall : Z; mono : Z }.

#[export] Instance time_eq_dec : EqDecision Time.
Proof. solve_decision. Defined.

Definition Add (t : Time) (d : Z) : Time := mkTime (wall t + d) (mono t + d).
Definition Before (t u : Time) : bool := mono t <? mono u.

(** Seconds of the local clock, its day and its second of the day. *)
Definition local_secs (zone : Z → Z) (t : Z) : Z := t / Second + zone t.
Definition local_day (zone : Z → Z) (t : Z) : Z := local_secs zone t / 86400.
Definition local_minute (zone : Z → Z) (t : Z) : Z := local_secs zone t mod 86400 / 60.

(** [t.Format("15:04")] and [t.Format("2006-01-02")]. *)
Definition format_minute (m : Z) : string := pad 2 (m / 60) +:+ ":" +:+ pad 2 (m mod 60).
Definition format_day (n : Z) : string :=
  let '(y, m, d) := civil (n + unix_epoch) in
  format_year y +:+ "-" +:+ pad 2 m +:+ "-" +:+ pad 2 d.

Definition format_hm (zone : Z → Z) (t : Z) : string := format_minute (local_minute zone t).
Definition format_date (zone : Z → Z) (t : Z) : string := format_day (local_day zone t).

(** [getnum]: two digits, or one when the field is not of fixed width. *)
Definition getnum (fixed : bool) (s : string) : option (Z * string) :=
  match s with
  | String c s' =>
      d ← digit c;
      match s' with
      | String c' s'' =>
          match digit c' with
          | Some d' => Some (d * 10 + d', s'')
          | None => if fixed then None else Some (d, s')
          end
      | "" => if fixed then None else Some (d, s')
      end
  | "" => None
  end.

(** The fields of "15:04". *)
Definition parse_minute (s : string) : option (Z * string) :=
  '(h, s) ← getnum false s;
  if 24 <=? h then None
  else
    s ← lit ":" s; '(m, s) ← getnum true s;
    if 60 <=? m then None else Some (h * 60 + m, s).

(** [time.Parse("15:04", s)]: a minute of 1 January of year 0, UTC. *)
Definition parse_hm (s : string) : option Z :=
  '(m, rest) ← parse_minute s;
  match rest with
  | "" => Some (((days_of 0 1 1 - unix_epoch) * 86400 + m * 60) * Second)
  | _ => None
  end.

(** [time.Date(..., loc)]: the offset in force at the local time read as UTC, and
    when it is not zero the one in force at the instant it gives. *)
Definition from_local (zone : Z → Z) (secs : Z) : Z :=
  let off := zone (secs * Second) in
  if off =? 0 then secs * Second
  else (secs - zone ((secs - off) * Second)) * Second.

(** [time.ParseInLocation("2006-01-02 15:04", s, loc)]. *)
Definition parse_date_hm (zone : Z → Z) (s : string) : option Z :=
  '(y, s) ← num 4 0 s; s ← lit "-" s; '(m, s) ← num 2 0 s; s ← lit "-" s; '(d, s) ← num 2 0 s;
  s ← lit " " s; '(hm, rest) ← parse_minute s;
  match rest with
  | "" =>
      if (1 <=? m) && (m <=? 12) && (1 <=? d) && (d <=? month_len (is_leap y) m)
      then Some (from_local zone ((days_of y m d - unix_epoch) * 86400 + hm * 60))
      else None
  | _ => None
  end.

(** ** The layouts are injective and parse back *)

Definition day_ok (n : Z) : Prop := 0 ≤ (civil (n + unix_epoch)).1.1 ≤ 9999.

Lemma pad_inj w n m :
  0 ≤ n < 10 ^ Z.of_nat w → 0 ≤ m < 10 ^ Z.of_nat w → pad w n = pad w m → n = m.
Proof.
  intros Hn Hm E. apply Z.compare_eq_iff. rewrite <-(pad_compare w), E by done. apply string_compare_refl.
Qed.

Lemma append_inj_len a a' b b' :
  String.length a = String.length a' → a +:+ b = a' +:+ b' → a = a' ∧ b = b'.
Proof.
  revert a'. induction a as [|c a IH]; intros [|c' a'] Hl E; try (simpl in Hl; lia); [done|].
  rewrite !append_cons in E. injection E as -> E. simpl in Hl. destruct (IH a') as [-> ->]; [lia|done..].
Qed.

Lemma format_minute_inj m n : 0 ≤ m < 1440 → 0 ≤ n < 1440 → format_minute m = format_minute n → m = n.
Proof.
  unfold format_minute. intros Hm Hn E. apply append_inj_len in E as [E1 E2]; [|by rewrite !length_pad].
  apply append_inj_len in E2 as [_ E2]; [|done].
  apply pad_inj in E1, E2; try (change (10 ^ Z.of_nat 2) with 100; Z.to_euclidean_division_equations; lia).
Qed.

Lemma format_day_inj m n : day_ok m → day_ok n → format_day m = format_day n → m = n.
Proof.
  unfold day_ok, format_day. intros Hm Hn.
  destruct (civil_shape (m + unix_epoch)) as (y & mo & d & Hc & Hd & Hmo & Hdd).
  destruct (civil_shape (n + unix_epoch)) as (y' & mo' & d' & Hc' & Hd' & Hmo' & Hdd').
  rewrite Hc in Hm |- *. rewrite Hc' in Hn |- *. cbn [fst snd] in Hm, Hn.
  pose proof (month_len_31 (is_leap y) mo). pose proof (month_len_31 (is_leap y') mo').
  unfold format_year. assert ((0 <=? y) && (y <=? 9999) = true) as -> by (rewrite andb_true_iff, !Z.leb_le; lia).
  assert ((0 <=? y') && (y' <=? 9999) = true) as -> by (rewrite andb_true_iff, !Z.leb_le; lia).
  intros E. apply append_inj_len in E as [E1 E]; [|by rewrite !length_pad].
  apply append_inj_len in E as [_ E]; [|done]. apply append_inj_len in E as [E2 E]; [|by rewrite !length_pad].
  apply append_inj_len in E as [_ E3]; [|done].
  apply pad_inj in E1; [|change (10 ^ Z.of_nat 4) with 10000; lia..].
  apply pad_inj in E2, E3; try (change (10 ^ Z.of_nat 2) with 100; lia). subst. lia.
Qed.

Lemma local_minute_range zone t : 0 ≤ local_minute zone t < 1440.
Proof. unfold local_minute. Z.to_euclidean_division_equations; lia. Qed.

Lemma getnum_pad fixed n rest : 0 ≤ n < 100 → getnum fixed (pad 2 n +:+ rest) = Some (n, rest).
Proof.
  intros Hn. cbn [pad]. rewrite append_nil_l, append_cons, append_nil_l, append_cons, append_cons, append_nil_l.
  unfold getnum. rewrite !digit_digit_char by (Z.to_euclidean_division_equations; lia). cbn [mbind option_bind].
  do 2 f_equal. Z.to_euclidean_division_equations; lia.
Qed.

Lemma parse_minute_format m rest : 0 ≤ m < 1440 → parse_minute (format_minute m +:+ rest) = Some (m, rest).
Proof.
  intros Hm. unfold parse_minute, format_minute. rewrite <-!append_assoc, getnum_pad by (Z.to_euclidean_division_equations; lia).
  cbn [mbind option_bind]. destruct (Z.leb_spec 24 (m / 60)); [Z.to_euclidean_division_equations; lia|].
  rewrite append_cons, append_nil_l, lit_cons. cbn [mbind option_bind].
  rewrite getnum_pad by (Z.to_euclidean_division_equations; lia). cbn [mbind option_bind].
  destruct (Z.leb_spec 60 (m mod 60)); [Z.to_euclidean_division_equations; lia|].
  do 2 f_equal. Z.to_euclidean_division_equations; lia.
Qed.

Lemma parse_minute_range s m rest : parse_minute s = Some (m, rest) → 0 ≤ m < 1440.
Proof.
  assert (∀ fixed s n r, getnum fixed s = Some (n, r) → 0 ≤ n) as Hpos.
  { intros fixed [|c s'] n r; [done|]. unfold getnum, digit. intros Hg.
    destruct ((48 <=? code c) && _) eqn:Hc; [|done]. cbn in Hg. rewrite andb_true_iff, !Z.leb_le in Hc.
    destruct s' as [|c' s']; [destruct fixed; simplify_eq; lia|].
    destruct ((48 <=? code c') && _) eqn:Hc'; [|destruct fixed; simplify_eq; lia].
    rewrite andb_true_iff, !Z.leb_le in Hc'. simplify_eq. lia. }
  unfold parse_minute. destruct (getnum false s) as [[h s1]|] eqn:Hh; [|done]. cbn [mbind option_bind].
  destruct (Z.leb_spec 24 h); [done|]. destruct (lit ":" s1) as [s2|]; [|done]. cbn [mbind option_bind].
  destruct (getnum true s2) as [[mi s3]|] eqn:Hmi; [|done]. cbn [mbind option_bind].
  destruct (Z.leb_spec 60 mi); [done|]. intros [= <- <-]. apply Hpos in Hh, Hmi. lia.
Qed.

(** Reading back a date and a minute gives the local instant of that minute. *)
Lemma parse_date_hm_format zone n m : day_ok n → 0 ≤ m < 1440 →
  parse_date_hm zone (format_day n +:+ " " +:+ format_minute m) = Some (from_local zone (n * 86400 + m * 60)).
Proof.
  unfold day_ok, format_day. intros Hn Hm.
  destruct (civil_shape (n + unix_epoch)) as (y & mo & d & Hc & Hd & Hmo & Hdd).
  rewrite Hc in Hn |- *. cbn [fst snd] in Hn. pose proof (month_len_31 (is_leap y) mo).
  unfold format_year. assert ((0 <=? y) && (y <=? 9999) = true) as -> by (rewrite andb_true_iff, !Z.leb_le; lia).
  unfold parse_date_hm. rewrite <-!append_assoc.
  rewrite num_pad by (change (10 ^ Z.of_nat 4) with 10000; lia). cbn [mbind option_bind].
  do 2 (rewrite append_cons, append_nil_l, lit_cons; cbn [mbind option_bind];
        rewrite num_pad2 by lia; cbn [mbind option_bind]).
  rewrite append_cons, append_nil_l, lit_cons. cbn [mbind option_bind].
  rewrite <-(append_nil_r (format_minute m)), parse_minute_format by done. cbn [mbind option_bind].
  assert ((1 <=? mo) && (mo <=? 12) && (1 <=? d) && (d <=? month_len (is_leap y) mo) = true) as ->
    by (rewrite !andb_true_iff, !Z.leb_le; lia).
  do 2 f_equal. rewrite <-Hd. lia.
Qed.

Example parse_hm_short : option_map (format_hm (λ _, 0)) (parse_hm "7:05") = Some "07:05".
Proof. vm_compute. reflexivity. Qed.
Example parse_hm_bad : parse_hm "7:5" = None.
Proof. vm_compute. reflexivity. Qed.
