(* ===== verification/GoText.v ===== *)
(** * More of [strings], [strconv], [time] and [sort]: splitting, trimming, [Atoi], RFC 1123
    dates, the scanner of lines, stable and unstable sorting

    [SliceStable] is the insertion sort Go runs on each block, over the whole slice: for a
    strict weak order every stable sort has the same result.  [sort.Slice] is any ordered
    rearrangement, an interface ([SortSlice]) the stable sort implements. *)

From S2P Require Import Prelude GoStrings GoTime.

(** ** Splitting *)

(** [strings.Split(s, sep)] for a separator of one byte. *)
Fixpoint SplitByte (sep : ascii) (s : string) : list string :=
  match s with
  | "" => [""]
  | String c s' =>
      if Ascii.eqb c sep then "" :: SplitByte sep s'
      else match SplitByte sep s' with
           | w :: ws => String c w :: ws
           | [] => [String c ""]
           end
  end.

Definition lf : ascii := "010".
Definition tab : ascii := "009".

(** The lines of a text: [strings.Split(s, "\n")]. *)
Definition Lines (s : string) : list string := SplitByte lf s.

(** [strings.Cut(s, sep)], [None] when [sep] is not in [s]; also
    [strings.SplitN(s, sep, 2)] when it has two parts. *)
Fixpoint Cut (sep s : string) : option (string * string) :=
  if HasPrefix s sep then Some ("", drop_bytes (String.length sep) s)
  else match s with
       | "" => None
       | String c s' => '(a, b) ← Cut sep s'; Some (String c a, b)
       end.

(** [strings.Split(s, sep)] for a non-empty separator. *)
Fixpoint split_fuel (fuel : nat) (sep s : string) : list string :=
  match fuel with
  | O => [s]
  | S fuel => match Cut sep s with
              | Some (a, b) => a :: split_fuel fuel sep b
              | None => [s]
              end
  end.
Definition Split (s sep : string) : list string := split_fuel (String.length s) sep s.

(** [strings.SplitN(s, sep, n)] for [n > 0]. *)
Definition SplitN (s sep : string) (n : nat) : list string := split_fuel (n - 1) sep s.

(** What is before and after the last occurrence of a byte. *)
Fixpoint LastCut (b : ascii) (s : string) : option (string * string) :=
  match s with
  | "" => None
  | String c s' =>
      match LastCut b s' with
      | Some (x, y) => Some (String c x, y)
      | None => if Ascii.eqb c b then Some ("", s') else None
      end
  end.

(** [strings.Trim(s, cutset)]. *)
Definition in_set (cutset : string) (c : ascii) : bool :=
  negb (forall_bytes (λ d, negb (Ascii.eqb c d)) cutset).
Definition Trim (s cutset : string) : string :=
  TrimRightFunc (in_set cutset) (TrimLeftFunc (in_set cutset) s).
Definition TrimRight (s cutset : string) : string := TrimRightFunc (in_set cutset) s.
Definition TrimLeft (s cutset : string) : string := TrimLeftFunc (in_set cutset) s.

(** [strings.CutPrefix]: what follows the prefix [p], if [s] starts with it. *)
Definition CutPrefix (p s : string) : option string :=
  if HasPrefix s p then Some (drop_bytes (String.length p) s) else None.

(** The longest prefix of bytes that satisfy [p], and the rest. *)
Fixpoint span (p : ascii → bool) (s : string) : string * string :=
  match s with
  | String c s' => if p c then let '(a, b) := span p s' in (String c a, b) else ("", s)
  | "" => ("", "")
  end.

(** The leftmost position at which a matcher succeeds, as [FindStringSubmatch]. *)
Fixpoint leftmost {A} (at_ : string → option A) (s : string) : option A :=
  match at_ s with
  | Some r => Some r
  | None => match s with String _ s' => leftmost at_ s' | "" => None end
  end.

(** ** [bufio.Scanner] with [bufio.ScanLines]

    Lines end at a line feed; a final empty line is not a token, and one carriage
    return before the end is dropped.  The scan stops at the first line that does
    not fit the 64 KiB buffer with its terminator. *)
Definition MaxScanTokenSize : Z := 65536.

Fixpoint scan_raw (lines : list string) : list string :=
  match lines with
  | [] => []
  | [l] => if String.eqb l "" || negb (len l <? MaxScanTokenSize) then [] else [l]
  | l :: rest => if len l <? MaxScanTokenSize then l :: scan_raw rest else []
  end.

Definition dropCR (l : string) : string := TrimSuffix l (String "013" "").
Definition ScanLines (s : string) : list string := map dropCR (scan_raw (Lines s)).

(** [scanner.Err()] is not nil: a line was too long. *)
Definition scan_overflows (s : string) : bool := existsb (λ l, negb (len l <? MaxScanTokenSize)) (Lines s).

(** ** [path/filepath] on clean paths *)

(** [filepath.Base]. *)
Definition Base (path : string) : string :=
  if String.eqb path "" then "."
  else
    let p := TrimRight path "/" in
    if String.eqb p "" then "/" else match LastCut "/" p with Some (_, b) => b | None => p end.

(** [filepath.Join] of a clean path and a name. *)
Definition JoinPath (dir name : string) : string :=
  if String.eqb dir "" then name else if HasSuffix dir "/" then dir +:+ name else dir +:+ "/" +:+ name.

(** ** Runes *)

Definition in_range (lo hi : Z) (c : ascii) : bool := (lo <=? code c) && (code c <=? hi).
Definition continues : ascii → bool := in_range 128 191.

(** The length of the UTF-8 sequence at the start of [s]; 1 for an invalid one. *)
Definition rune_len (s : string) : nat :=
  match s with
  | String a (String b rest) =>
      if in_range 194 223 a then (if continues b then 2 else 1)%nat
      else
        let second := if code a =? 224 then in_range 160 191 else if code a =? 237 then in_range 128 159
                      else if code a =? 240 then in_range 144 191 else if code a =? 244 then in_range 128 143 else continues in
        match rest with
        | String c rest' =>
            if in_range 224 239 a then (if second b && continues c then 3 else 1)%nat
            else match rest' with
                 | String d _ => if in_range 240 244 a && second b && continues c && continues d then 4%nat else 1%nat
                 | "" => 1%nat
                 end
        | "" => 1%nat
        end
  | _ => 1%nat
  end.

Fixpoint runes_fuel (fuel : nat) (s : string) : nat :=
  match fuel, s with
  | S fuel', String _ _ => S (runes_fuel fuel' (drop_bytes (rune_len s) s))
  | _, _ => O
  end.

(** [utf8.RuneCountInString]. *)
Definition RuneCount (s : string) : nat := runes_fuel (String.length s) s.

(** [fmt]'s [%-ns]: spaces up to [n] runes. *)
Definition pad_right (n : nat) (s : string) : string :=
  s +:+ String.concat "" (replicate (n - RuneCount s) " ").

Example rune_samples : RuneCount "90°C" = 4%nat ∧ pad_right 6 "90°C" = "90°C  " ∧ pad_right 2 "abc" = "abc".
Proof. by split_and!; vm_compute. Qed.

(** ** [strconv.Atoi]: the value, which is 0 on a syntax error and the nearest
    [int] on a range error, and whether there was no error. *)
Definition Atoi (s : string) : Z * bool :=
  let '(neg, body) := match s with
    | String "-" s' => (true, s')
    | String "+" s' => (false, s')
    | _ => (false, s)
    end in
  match body, digits 0 body with
  | "", _ | _, None => (0, false)
  | _, Some n =>
      let v := if neg : bool then - n else n in
      if v <? min64 then (min64, false) else if max64 <? v then (max64, false) else (v, true)
  end.

(** ** [strconv.ParseUint(s, 10, 64)]: likewise, without a sign. *)
Definition maxu64 : Z := 18446744073709551615.
Definition ParseUint (s : string) : Z * bool :=
  match s, digits 0 s with
  | "", _ | _, None => (0, false)
  | _, Some n => if maxu64 <? n then (maxu64, false) else (n, true)
  end.

(** [uint64] arithmetic. *)
Definition wrapu64 (n : Z) : Z := n mod (maxu64 + 1).

(** ** [binary.LittleEndian]: the [n] bytes from [off] on *)
Fixpoint le_value (s : string) : Z :=
  match s with "" => 0 | String c s' => code c + 256 * le_value s' end.
Definition le_uint (off n : nat) (raw : string) : Z := le_value (take_bytes n (drop_bytes off raw)).

(** The class [\s] of a regular expression. *)
Definition re_space (c : ascii) : bool :=
  let n := code c in (n =? 9) || (n =? 10) || (n =? 12) || (n =? 13) || (n =? 32).

(** ** [t.UTC().Format(time.RFC1123)] *)

Definition weekday_name (n : Z) : string :=
  default "" (["Mon"; "Tue"; "Wed"; "Thu"; "Fri"; "Sat"; "Sun"] !! Z.to_nat (n mod 7)).
Definition month_name (m : Z) : string :=
  default "" (["Jan"; "Feb"; "Mar"; "Apr"; "May"; "Jun"; "Jul"; "Aug"; "Sep"; "Oct"; "Nov"; "Dec"] !! Z.to_nat (m - 1)).

Definition format_rfc1123_utc (t : Z) : string :=
  let secs := t / Second in
  let n := secs / 86400 + unix_epoch in
  let '(y, m, d) := civil n in
  let sod := secs mod 86400 in
  weekday_name n +:+ ", " +:+ pad 2 d +:+ " " +:+ month_name m +:+ " " +:+ format_year y +:+ " " +:+
  pad 2 (sod / 3600) +:+ ":" +:+ pad 2 (sod / 60 mod 60) +:+ ":" +:+ pad 2 (sod mod 60) +:+ " UTC".

Example rfc1123_sample : format_rfc1123_utc (1784900000 * Second) = "Fri, 24 Jul 2026 13:33:20 UTC".
Proof. vm_compute. reflexivity. Qed.

Example split_sample : Split "a,,b" "," = ["a"; ""; "b"] ∧ Lines ("x" +:+ String lf "") = ["x"; ""].
Proof. by split; vm_compute. Qed.

Example scan_sample :
  ScanLines ("a" +:+ String "013" (String lf (String lf "b"))) = ["a"; ""; "b"] ∧ ScanLines (String lf "") = [""].
Proof. by split; vm_compute. Qed.

(** ** Facts *)

Lemma LastCut_append b x y : forall_bytes (λ c, negb (Ascii.eqb c b)) y = true →
  LastCut b (x +:+ String b y) = Some (x, y).
Proof.
  intros Hy. assert (LastCut b y = None) as Hn.
  { induction y as [|c y IH]; [done|]. simpl in *. apply andb_true_iff in Hy as [Hc Hy].
    rewrite IH by done. by rewrite negb_true_iff in Hc; rewrite Hc. }
  induction x as [|c x IH]; [rewrite append_nil_l; cbn [LastCut]; by rewrite Hn, Ascii.eqb_refl|].
  rewrite append_cons. cbn [LastCut]. by rewrite IH.
Qed.

Lemma Atoi_Itoa n : in64 n → Atoi (Itoa n) = (n, true).
Proof.
  intros Hn. pose proof Hn as Hb. unfold in64 in Hb. unfold Itoa. destruct n as [|p|p]; [done|..].
  - change (pretty (Zpos p)) with (pretty (Npos p)).
    pose proof (digits_pretty_N (Npos p)) as Hd.
    destruct (pretty_N_cons (Npos p)) as (c & s & E & Hc). rewrite E in *.
    unfold Atoi. assert (c ≠ "-"%char ∧ c ≠ "+"%char) as [Hm Hp] by (split; intros ->; done).
    assert ((match String c s with
      | String "-" s' => (true, s') | String "+" s' => (false, s')
      | _ => (false, String c s) end) = (false, String c s)) as ->.
    { destruct c as [[] [] [] [] [] [] [] []]; done. }
    rewrite Hd. change (Z.of_N (N.pos p)) with (Z.pos p).
    destruct (Z.ltb_spec (Z.pos p) min64); [lia|]. destruct (Z.ltb_spec max64 (Z.pos p)); [lia|done].
  - change (pretty (Zneg p)) with (String "-" (pretty (Npos p))).
    pose proof (digits_pretty_N (Npos p)) as Hd.
    destruct (pretty_N_cons (Npos p)) as (c & s & E & Hc).
    unfold Atoi. rewrite E in *. rewrite Hd. change (- Z.of_N (N.pos p)) with (Z.neg p).
    destruct (Z.ltb_spec (Z.neg p) min64); [lia|]. destruct (Z.ltb_spec max64 (Z.neg p)); [lia|done].
Qed.

(** [span] stops at the first byte outside the class. *)
Lemma span_all p s t : forall_bytes p s = true → match t with String c _ => p c = false | "" => True end →
  span p (s +:+ t) = (s, t).
Proof.
  intros Hs Ht. induction s as [|c s IH].
  - rewrite append_nil_l. destruct t as [|c t]; [done|]. cbn. by rewrite Ht.
  - cbn in Hs. apply andb_true_iff in Hs as [Hc Hs]. rewrite append_cons. cbn. by rewrite Hc, IH.
Qed.

Lemma forall_bytes_impl (p q : ascii → bool) s : (∀ c, p c = true → q c = true) → forall_bytes p s = true → forall_bytes q s = true.
Proof. intros H. induction s as [|c s IH]; [done|]. cbn. rewrite !andb_true_iff. intros [? ?]. auto. Qed.

Lemma take_bytes_prefix n s t : (n ≤ String.length s)%nat → take_bytes n (s +:+ t) = take_bytes n s.
Proof.
  unfold take_bytes. revert s. induction n as [|n IH]; intros s Hn; [by destruct s, t|].
  destruct s as [|c s]; cbn in Hn; [lia|].
  exact (f_equal (String c) (IH s ltac:(lia))).
Qed.

Lemma drop_bytes_prefix n s t : (n ≤ String.length s)%nat → drop_bytes n (s +:+ t) = drop_bytes n s +:+ t.
Proof.
  revert s. induction n as [|n IH]; intros s Hn; [by destruct s|]. destruct s as [|c s]; cbn in Hn; [lia|]. apply IH. lia.
Qed.

Lemma length_drop_bytes n s : String.length (drop_bytes n s) = (String.length s - n)%nat.
Proof. revert s. induction n as [|n IH]; intros [|c s]; cbn; [done..|]. apply IH. Qed.

(** A field inside the first part of a buffer. *)
Lemma le_uint_prefix off n s t : (off + n ≤ String.length s)%nat → le_uint off n (s +:+ t) = le_uint off n s.
Proof.
  intros H. unfold le_uint. rewrite drop_bytes_prefix by lia. rewrite take_bytes_prefix; [done|]. rewrite length_drop_bytes. lia.
Qed.

Lemma CutPrefix_append p s : CutPrefix p (p +:+ s) = Some s.
Proof. unfold CutPrefix. by rewrite HasPrefix_append, drop_bytes_append. Qed.

Section Sort.
Context {A : Type} (less : A → A → bool).

(** [insert x r]: the sorted prefix is kept last element first; [x] moves left
    past every element it is less than. *)
Fixpoint insert_back (x : A) (r : list A) : list A :=
  match r with
  | [] => [x]
  | y :: r' => if less x y then y :: insert_back x r' else x :: r
  end.

Definition SliceStable (l : list A) : list A :=
  rev (foldl (λ r x, insert_back x r) [] l).

Lemma insert_back_perm x r : insert_back x r ≡ₚ x :: r.
Proof.
  induction r as [|y r IH]; simpl; [done|]. destruct (less x y); [|done].
  rewrite IH. apply Permutation_swap.
Qed.

Lemma fold_insert_perm l r : foldl (λ r x, insert_back x r) r l ≡ₚ l ++ r.
Proof.
  revert r. induction l as [|x l IH]; intros r; simpl; [done|].
  rewrite IH, insert_back_perm. symmetry. apply Permutation_middle.
Qed.

Lemma SliceStable_perm l : SliceStable l ≡ₚ l.
Proof.
  unfold SliceStable. rewrite <-Permutation_rev, fold_insert_perm. by rewrite app_nil_r.
Qed.

Lemma SliceStable_length l : length (SliceStable l) = length l.
Proof. by rewrite SliceStable_perm. Qed.

(** The order of the result: nobody is less than someone before it. *)
Definition in_order : list A → Prop := StronglySorted (λ a b, less b a = false).

Section Order.
Hypothesis (Hasym : ∀ a b, less a b = true → less b a = false).
Hypothesis (Htrans : ∀ a b c, less b a = false → less c b = false → less c a = false).

Lemma insert_back_sorted x r :
  StronglySorted (λ a b, less a b = false) r →
  StronglySorted (λ a b, less a b = false) (insert_back x r).
Proof.
  induction 1 as [|y r Hs IH Hy]; simpl; [by repeat constructor|].
  destruct (less x y) eqn:E.
  - constructor; [done|]. rewrite insert_back_perm. constructor; [by apply Hasym|done].
  - constructor; [by constructor|]. constructor; [done|]. eapply Forall_impl; [exact Hy|].
    intros z Hz. by apply (Htrans z y x).
Qed.

Lemma StronglySorted_rev (R : A → A → Prop) l :
  StronglySorted R l → StronglySorted (λ a b, R b a) (rev l).
Proof.
  induction 1 as [|x l Hs IH Hx]; simpl; [constructor|].
  apply StronglySorted_app_2; [|done|by repeat constructor].
  intros a b Ha%list_elem_of_In%in_rev ->%list_elem_of_singleton.
  rewrite Forall_forall in Hx. apply Hx. by apply list_elem_of_In.
Qed.

Lemma SliceStable_in_order l : in_order (SliceStable l).
Proof.
  apply StronglySorted_rev. assert (∀ r, StronglySorted (λ a b, less a b = false) r →
    StronglySorted (λ a b, less a b = false) (foldl (λ r x, insert_back x r) r l)) as H.
  { induction l as [|x l IH]; simpl; [done|]. intros r Hr. by apply IH, insert_back_sorted. }
  apply H. constructor.
Qed.

End Order.

End Sort.

(** Only the comparisons between elements of the list matter. *)
Lemma SliceStable_ext {A} (less less' : A → A → bool) l :
  (∀ a b, a ∈ l → b ∈ l → less a b = less' a b) → SliceStable less l = SliceStable less' l.
Proof.
  intros Hl. unfold SliceStable. f_equal.
  assert (∀ x r, x ∈ l → Forall (λ y, y ∈ l) r → insert_back less x r = insert_back less' x r) as Hi.
  { intros x r Hx. induction 1 as [|y r Hy _ IH]; cbn; [done|]. by rewrite Hl, IH. }
  assert (∀ k r, Forall (λ y, y ∈ l) k → Forall (λ y, y ∈ l) r →
    foldl (λ r x, insert_back less x r) r k = foldl (λ r x, insert_back less' x r) r k) as Hk.
  { induction k as [|x k IH]; intros r; cbn; [done|]. intros [Hx Hk]%Forall_cons Hr. rewrite Hi by done.
    apply IH; [done|]. rewrite insert_back_perm. by constructor. }
  apply Hk; [by apply Forall_forall|constructor].
Qed.

Lemma StronglySorted_weaken {A} (R R' : A → A → Prop) l :
  (∀ a b, R a b → R' a b) → StronglySorted R l → StronglySorted R' l.
Proof.
  intros HR. induction 1 as [|x l Hs IH Hx]; constructor; [done|]. eapply Forall_impl; [done|]. auto.
Qed.

(** [sort.Slice]: some ordered rearrangement; equal elements may be swapped. *)
Class SortSlice := {
  Slice {A} : (A → A → bool) → list A → list A;
  Slice_perm {A} less (l : list A) : Slice less l ≡ₚ l;
  Slice_in_order {A} less (l : list A) :
    (∀ a b, less a b = true → less b a = false) →
    (∀ a b c, less b a = false → less c b = false → less c a = false) → in_order less (Slice less l);
}.

(** The stable sort is one. *)
Definition stable_slice : SortSlice :=
  {| Slice := @SliceStable; Slice_perm := @SliceStable_perm; Slice_in_order := λ A less l Ha Ht, SliceStable_in_order less Ha Ht l |}.

(** The first [n] elements of an ordered list: nothing after them is less than one of them. *)
Lemma in_order_take {A} less n (l : list A) a b : in_order less l → a ∈ take n l → b ∈ drop n l → less b a = false.
Proof.
  unfold in_order. intros Ho Ha Hb. rewrite <- (take_drop n l) in Ho. apply StronglySorted_app in Ho as (H & _ & _). by apply H.
Qed.
