(* ===== verification/GoDuration.v ===== *)
(** * Go's [float64] and [time.ParseDuration]

    [float64] is IEEE 754 binary64 ([Float64]); conversions, comparisons and the verbs
    [%.0f], [%.1f] and [%.2f] are in [Float].  [ParseDuration] follows the source of the
    package [time]. *)

From Corelib Require Import SpecFloat.
From S2P Require Import Prelude GoStrings GoTime.

(** ** binary64 *)

Module Float64.

Definition prec : Z := 53.
Definition emax : Z := 1024.

(** [float64(n)]. *)
Definition of_Z (n : Z) : spec_float := binary_normalize prec emax n 0 false.
Definition mul : spec_float → spec_float → spec_float := SFmul prec emax.
Definition div : spec_float → spec_float → spec_float := SFdiv prec emax.
Definition add : spec_float → spec_float → spec_float := SFadd prec emax.
Definition sub : spec_float → spec_float → spec_float := SFsub prec emax.

(** Conversion to an integer truncates; [None]: not a finite number. *)
Definition truncate (x : spec_float) : option Z :=
  match x with
  | S754_zero _ => Some 0
  | S754_finite s m e =>
      let n := if 0 <=? e then Zpos m * 2 ^ e else Zpos m / 2 ^ (- e) in
      Some (if s : bool then - n else n)
  | _ => None
  end.

(** [x > y]. *)
Definition gtb (x y : spec_float) : bool := SFltb y x.
Definition zero : spec_float := S754_zero false.

(** The integer nearest to [m * 2^e], a tie going to the even one. *)
Definition round_even (m e : Z) : Z :=
  if 0 <=? e then m * 2 ^ e
  else
    let d := 2 ^ (- e) in
    let q := m / d in
    let r := m mod d in
    if 2 * r <? d then q else if d <? 2 * r then q + 1 else if Z.even q then q else q + 1.

(** [fmt.Sprintf("%.1f", x)]: the exact value rounded to one decimal. *)
Definition format1 (x : spec_float) : string :=
  let text (s : bool) (n : Z) := (if s then "-" else "") +:+ Itoa (n / 10) +:+ "." +:+ Itoa (n mod 10) in
  match x with
  | S754_zero s => text s 0
  | S754_infinity s => if s : bool then "-Inf" else "+Inf"
  | S754_nan => "NaN"
  | S754_finite s m e => text s (round_even (Zpos m * 10) e)
  end.

Example format1_sample :
  format1 (div (of_Z 98) (of_Z 10)) = "9.8" ∧ format1 (div (of_Z 1) (of_Z 4)) = "0.2" ∧ format1 (of_Z 10) = "10.0".
Proof. by split_and!; vm_compute. Qed.

End Float64.

(** ** [ParseDuration] *)

Definition two63 : Z := 9223372036854775808.

(** [leadingInt]: [None] when the value passes 2^63. *)
Fixpoint leadingInt (x : Z) (s : string) : option (Z * string) :=
  match s with
  | String c s' =>
      match digit c with
      | Some d =>
          if two63 / 10 <? x then None
          else let x := x * 10 + d in if two63 <? x then None else leadingInt x s'
      | None => Some (x, s)
      end
  | "" => Some (x, s)
  end.

(** [leadingFraction]: digits past the precision of [x] are dropped.  [scale] is a
    power of ten, which is exact in binary64 as long as [x] fits 63 bits. *)
Fixpoint leadingFraction (x scale : Z) (overflow : bool) (s : string) : Z * Z * string :=
  match s with
  | String c s' =>
      match digit c with
      | Some d =>
          if overflow then leadingFraction x scale true s'
          else if (two63 - 1) / 10 <? x then leadingFraction x scale true s'
          else let y := x * 10 + d in
               if two63 <? y then leadingFraction x scale true s'
               else leadingFraction y (scale * 10) false s'
      | None => (x, scale, s)
      end
  | "" => (x, scale, s)
  end.

(** The bytes of a unit: up to the next digit or period. *)
Fixpoint leadingUnit (s : string) : string * string :=
  match s with
  | String c s' =>
      if Ascii.eqb c "." || bool_decide (is_Some (digit c)) then ("", s)
      else let '(u, rest) := leadingUnit s' in (String c u, rest)
  | "" => ("", "")
  end.

(** [unitMap]; the micro sign is U+00B5 or U+03BC, in UTF-8. *)
Definition unitMap (u : string) : option Z :=
  if String.eqb u "ns" then Some 1
  else if String.eqb u "us" || String.eqb u "µs" || String.eqb u "μs" then Some 1000
  else if String.eqb u "ms" then Some 1000000
  else if String.eqb u "s" then Some Second
  else if String.eqb u "m" then Some Minute
  else if String.eqb u "h" then Some Hour
  else None.

(** The nanoseconds of the fraction [f/scale] of a unit. *)
Definition fraction_ns (f unit scale : Z) : option Z :=
  Float64.truncate (Float64.mul (Float64.of_Z f) (Float64.div (Float64.of_Z unit) (Float64.of_Z scale))).

(** One number with its unit, and the rest. *)
Definition duration_term (s : string) : option (Z * string) :=
  '(v, s1) ← leadingInt 0 s;
  let pre := negb (String.length s1 =? String.length s)%nat in
  let '(f, scale, s2, post) :=
    match s1 with
    | String "." s1' =>
        let '(f, scale, s2) := leadingFraction 0 1 false s1' in
        (f, scale, s2, negb (String.length s2 =? String.length s1')%nat)
    | _ => (0, 1, s1, false)
    end in
  if negb pre && negb post then None
  else
    let '(u, rest) := leadingUnit s2 in
    if String.eqb u "" then None
    else
      unit ← unitMap u;
      if two63 / unit <? v then None
      else
        let v := v * unit in
        v ← (if 0 <? f then n ← fraction_ns f unit scale; if two63 <? v + n then None else Some (v + n)
             else Some v);
        Some (v, rest).

(** The loop; each term consumes at least one byte, and the sum is a [uint64]. *)
Fixpoint duration_terms (fuel : nat) (d : Z) (s : string) : option Z :=
  match s with
  | "" => Some d
  | String c _ =>
      match fuel with
      | O => None
      | S fuel =>
          if Ascii.eqb c "." || bool_decide (is_Some (digit c)) then
            '(v, rest) ← duration_term s;
            let d := (d + v) mod (2 * two63) in
            if two63 <? d then None else duration_terms fuel d rest
          else None
      end
  end.

Definition ParseDuration (s : string) : option Z :=
  let '(neg, s) := match s with
    | String "-" s' => (true, s')
    | String "+" s' => (false, s')
    | _ => (false, s)
    end in
  if String.eqb s "0" then Some 0
  else if String.eqb s "" then None
  else
    d ← duration_terms (String.length s) 0 s;
    if neg : bool then Some (- d)
    else if two63 - 1 <? d then None else Some d.

Example duration_mixed : ParseDuration "1h15m30.918s" = Some (4530918000000).
Proof. vm_compute. reflexivity. Qed.
Example duration_fraction : ParseDuration "-1.5h" = Some (-5400000000000).
Proof. vm_compute. reflexivity. Qed.
Example duration_float : ParseDuration "0.3333333333333333333h" = Some 1200000000000.
Proof. vm_compute. reflexivity. Qed.
Example duration_day : ParseDuration "1d" = None.
Proof. vm_compute. reflexivity. Qed.

Module Float.
Import Float64.

(** A decimal literal or constant expression [a / b]. *)
Definition ratio (a b : Z) : spec_float := div (of_Z a) (of_Z b).

(** [x >= y], [x > y] and [x <= y]. *)
Definition geb (x y : spec_float) : bool := SFleb y x.
Definition gtb (x y : spec_float) : bool := SFltb y x.
Definition leb (x y : spec_float) : bool := SFleb x y.
Definition ltb (x y : spec_float) : bool := SFltb x y.

(** [fmt.Sprintf("%.kf", x)]: the exact value rounded to [k] decimals. *)
Definition format (k : nat) (x : spec_float) : string :=
  let p := 10 ^ Z.of_nat k in
  let text (s : bool) (n : Z) :=
    (if s then "-" else "") +:+ Itoa (n / p) +:+ (match k with O => "" | _ => "." +:+ pad k (n mod p) end) in
  match x with
  | S754_zero s => text s 0
  | S754_infinity s => if s : bool then "-Inf" else "+Inf"
  | S754_nan => "NaN"
  | S754_finite s m e => text s (round_even (Zpos m * p) e)
  end.

(** [d.Hours()] of a duration. *)
Definition hours (d : Z) : spec_float :=
  add (of_Z (Z.quot d Hour)) (div (of_Z (Z.rem d Hour)) (of_Z (60 * 60 * 1000000000))).

(** [int(math.Ceil(x))]; a value outside [int] converts to the least one, as on amd64. *)
Definition ceil_int (x : spec_float) : Z :=
  match x with
  | S754_zero _ => 0
  | S754_finite s m e =>
      let n := if s : bool then Zneg m else Zpos m in
      let c := if 0 <=? e then n * 2 ^ e else - ((- n) / 2 ^ (- e)) in
      if in64b c then c else min64
  | _ => min64
  end.

Example format_samples :
  format 2 (ratio 1 3) = "0.33" ∧ format 0 (ratio 5 2) = "2" ∧ format 1 (ratio 1999 20) = "100.0" ∧
  format 1 (hours (90 * Minute)) = "1.5" ∧ ceil_int (ratio 7 2) = 4 ∧ ceil_int (of_Z 4) = 4.
Proof. by split_and!; vm_compute. Qed.

(** The binary64 nearest to [num / den], a tie to the even one: the quotient to more
    than a hundred bits with a sticky last one, then rounded once. *)
Definition of_ratio (num den : Z) : spec_float :=
  let shift := Z.max 0 (120 + Z.log2 den - Z.log2 num) in
  let q := Z.shiftl num shift / den in
  let r := Z.shiftl num shift mod den in
  binary_normalize prec emax (2 * q + (if r =? 0 then 0 else 1)) (- shift - 1) false.

(** Leading digits: how many, their value, and the rest. *)
Fixpoint lead_digits (n : Z) (acc : Z) (s : string) : Z * Z * string :=
  match s with
  | String c s' => match digit c with Some d => lead_digits (n + 1) (acc * 10 + d) s' | None => (n, acc, s) end
  | "" => (n, acc, s)
  end.

(** The exponent after [e]; [None] on a syntax error. *)
Definition parse_exponent (s : string) : option Z :=
  match s with
  | "" => Some 0
  | String c s' =>
      if Ascii.eqb c "e" || Ascii.eqb c "E" then
        let '(neg, body) := match s' with String "-" b => (true, b) | String "+" b => (false, b) | _ => (false, s') end in
        match lead_digits 0 0 body with
        | (n, v, "") => if n =? 0 then None else Some (if neg : bool then - v else v)
        | _ => None
        end
      else None
  end.

Definition is_infinite (x : spec_float) : bool := match x with S754_infinity _ => true | _ => false end.

(** [strconv.ParseFloat(s, 64)]: the value, 0 on a syntax error, and whether there was no
    error.  Hexadecimal notation is not read here. *)
Definition ParseFloat (s : string) : spec_float * bool :=
  let '(neg, body) := match s with String "-" b => (true, b) | String "+" b => (false, b) | _ => (false, s) end in
  let signed (x : spec_float) := if neg : bool then SFopp x else x in
  if EqualFold body "inf" || EqualFold body "infinity" then (signed (S754_infinity false), true)
  else if EqualFold s "nan" then (S754_nan, true)
  else
    let '(n1, v1, r1) := lead_digits 0 0 body in
    let '(n2, v2, r2) := match r1 with String "." r => lead_digits 0 v1 r | _ => (0, v1, r1) end in
    if n1 + n2 =? 0 then (zero, false)
    else match parse_exponent r2 with
         | None => (zero, false)
         | Some e =>
             let x := if v2 =? 0 then zero else of_ratio (v2 * 10 ^ Z.max 0 (e - n2)) (10 ^ Z.max 0 (n2 - e)) in
             (signed x, negb (is_infinite x))
         end.

(** [math.Round]: the nearest integer, halves away from zero. *)
Definition Round (x : spec_float) : spec_float :=
  match x with
  | S754_finite s m e =>
      if 0 <=? e then x
      else
        let n := (2 * Zpos m + 2 ^ (- e)) / 2 ^ (1 - e) in
        if n =? 0 then S754_zero s else if s : bool then SFopp (of_Z n) else of_Z n
  | _ => x
  end.

Example parse_float_samples :
  ParseFloat "0.1" = (ratio 1 10, true) ∧ ParseFloat "12.50" = (ratio 25 2, true) ∧ ParseFloat "-3e2" = (of_Z (-300), true) ∧
  ParseFloat "1e400" = (S754_infinity false, false) ∧ ParseFloat "x" = (zero, false) ∧ ParseFloat "1.5.2" = (zero, false) ∧
  ParseFloat "9007199254740993" = (of_Z 9007199254740992, true) ∧
  Round (ratio 5 2) = of_Z 3 ∧ Round (ratio (-5) 2) = of_Z (-3) ∧ Round (ratio 12 10) = of_Z 1.
Proof. by split_and!; vm_compute. Qed.

End Float.
