(* ===== verification/Rolling.v ===== *)
(** * Rolling sample histories and health verdicts

    The trend analyses keep their samples the same way: a sample is taken only when
    the last one is old enough, and samples past a maximum age are dropped from the
    front.  [Rolling] is that discipline over any type of sample.  The surveys collect
    problems in two lists and report the worse one ([verdict]); [severityOf] orders the
    health of two surveys, and [pct_health] is the verdict on a percentage. *)

From Corelib Require Import SpecFloat.
From S2P Require Import Prelude GoStrings GoDuration.

Module Rolling.

Section Rolling.
Context {A : Type} (time : A → Z) (minInterval maxAge : Z).

(** [len(samples) > 0 && now.Sub(last.Time) < minInterval]. *)
Definition too_recent (now : Z) (samples : list A) : bool :=
  match last samples with Some s => time_sub now (time s) <? minInterval | None => false end.

(** The loop that skips the samples before [cutoff]. *)
Fixpoint drop_before (cutoff : Z) (samples : list A) : list A :=
  match samples with
  | s :: rest => if time s <? cutoff then drop_before cutoff rest else samples
  | [] => []
  end.

Definition pruned (now : Z) (samples : list A) : list A := drop_before (now - maxAge) samples.

(** ** Invariant *)

(** Consecutive samples are at least [minInterval] apart. *)
Fixpoint spaced (samples : list A) : Prop :=
  match samples with
  | a :: (b :: _) as rest => time a + minInterval ≤ time b ∧ spaced rest
  | _ => True
  end.

(** Together with an age of at most [maxAge] between the ends. *)
Definition rolling (samples : list A) : Prop :=
  spaced samples ∧ ∀ a b, head samples = Some a → last samples = Some b → time b - time a ≤ maxAge.

Hypothesis (Hmin : 0 < minInterval < max64) (Hage : 0 ≤ maxAge).

Lemma spaced_tail a l : spaced (a :: l) → spaced l.
Proof. destruct l; [done|]. by intros [_ ?]. Qed.

Lemma spaced_snoc l b : spaced l → (∀ a, last l = Some a → time a + minInterval ≤ time b) → spaced (l ++ [b]).
Proof.
  induction l as [|a l IH]; intros Hl Hb; [done|]. destruct l as [|c l]; [split; [by apply Hb|done]|].
  destruct Hl as [Hac Hl]. split; [done|]. apply IH; [done|]. intros x Hx. apply Hb. done.
Qed.

Lemma spaced_drop cutoff l : spaced l → spaced (drop_before cutoff l).
Proof.
  induction l as [|a l IH]; intros Hl; [done|]. cbn [drop_before]. destruct (_ <? _); [|done].
  by apply IH, (spaced_tail a).
Qed.

Lemma drop_head cutoff l a : head (drop_before cutoff l) = Some a → cutoff ≤ time a.
Proof.
  induction l as [|b l IH]; [done|]. cbn [drop_before]. destruct (Z.ltb_spec (time b) cutoff); [done|]. by intros [= <-].
Qed.

Lemma drop_last cutoff l b : last (drop_before cutoff l) = Some b → last l = Some b.
Proof.
  induction l as [|a l IH]; [done|]. cbn [drop_before]. destruct (_ <? _); [|done]. intros H%IH.
  by destruct l; [done|].
Qed.

(** The samples of a spaced list after the first are its length apart. *)
Lemma spaced_span a l b : spaced (a :: l) → last (a :: l) = Some b →
  time a + minInterval * Z.of_nat (length l) ≤ time b.
Proof.
  revert a. induction l as [|c l IH]; intros a Hs Hb; [cbn in *; simplify_eq; lia|].
  destruct Hs as [Hac Hs]. specialize (IH c Hs Hb). cbn [length]. lia.
Qed.

(** A history that follows the discipline is short. *)
Lemma rolling_length l : rolling l → Z.of_nat (length l) ≤ maxAge / minInterval + 1.
Proof.
  intros [Hs Hw]. destruct l as [|a l]; [cbn; pose proof (Z.div_pos maxAge minInterval); lia|].
  destruct (last (a :: l)) as [b|] eqn:Hb; [|by rewrite last_None in Hb].
  specialize (Hw a b eq_refl eq_refl). pose proof (spaced_span a l b Hs Hb).
  assert (Z.of_nat (length l) ≤ maxAge / minInterval) by (apply Z.div_le_lower_bound; lia). cbn [length]. lia.
Qed.

(** A sample of the instant [now], appended when it is due, then pruned. *)
Lemma rolling_append now s l : time s = now → rolling l → too_recent now l = false → rolling (pruned now (l ++ [s])).
Proof.
  intros Ht [Hs Hw] Hr. split.
  - apply spaced_drop, spaced_snoc; [done|]. intros a Ha. unfold too_recent in Hr. rewrite Ha in Hr.
    rewrite Z.ltb_ge in Hr. assert (¬ time_sub now (time a) < minInterval) as Hn by lia.
    rewrite time_sub_lt in Hn by (unfold min64; lia). lia.
  - intros a b Ha%drop_head Hb%drop_last. rewrite last_snoc in Hb. injection Hb as <-. lia.
Qed.

(** Pruning alone keeps the discipline. *)
Lemma rolling_pruned now l : rolling l → rolling (pruned now l).
Proof.
  unfold pruned. generalize (now - maxAge). intros cutoff. induction l as [|a l IH]; intros [Hs Hw]; [by split|]. cbn [drop_before].
  destruct (_ <? _); [|by split]. apply IH. split; [by apply (spaced_tail a)|].
  intros c b Hc Hb. destruct l as [|d l]; [done|]. injection Hc as ->. specialize (Hw a b eq_refl Hb).
  destruct Hs as [Hac _]. lia.
Qed.

Lemma rolling_nil : rolling [].
Proof. by split. Qed.

(** A sample just taken makes the next one of the same instant too recent. *)
Lemma appended_recent now s l : time s = now → too_recent now (pruned now (l ++ [s])) = true.
Proof.
  intros Ht. assert (last (pruned now (l ++ [s])) = Some s) as Hl.
  { unfold pruned. induction l as [|x l IH]; cbn [app drop_before].
    - destruct (Z.ltb_spec (time s) (now - maxAge)); [lia|done].
    - destruct (_ <? _); [done|]. apply (last_snoc s (x :: l)). }
  unfold too_recent. rewrite Hl, Ht, time_sub_diag. apply Z.ltb_lt. lia.
Qed.

End Rolling.

Lemma fold_invariant {A B} (P : A → Prop) (f : A → B → A) l a : (∀ a b, P a → P (f a b)) → P a → P (foldl f a l).
Proof. intros Hf. revert a. induction l as [|b l IH]; intros a Ha; cbn; auto. Qed.

End Rolling.

Definition severityOf (h : string) : Z :=
  if String.eqb h "warning" then 1 else if String.eqb h "critical" then 2 else 0.

(** The verdict of the lists of problems. *)
Definition verdict (criticals warnings : list string) (fine : string) : string * string :=
  match criticals, warnings with
  | _ :: _, _ => ("critical", Join criticals "; ")
  | [], _ :: _ => ("warning", Join warnings "; ")
  | [], [] => ("ok", fine)
  end.

(** The verdict kept of two. *)
Definition worse (a b : string * string) : string * string := if severityOf a.1 <? severityOf b.1 then b else a.

Definition usedPctWarning : spec_float := Float64.of_Z 80.
Definition usedPctCritical : spec_float := Float64.of_Z 90.

(** The health of a percentage. *)
Definition pct_health (pct : spec_float) : string :=
  if Float.geb pct usedPctCritical then "critical" else if Float.geb pct usedPctWarning then "warning" else "ok".

Lemma verdict_ok c ws fine : (verdict c ws fine).1 = "ok" ↔ c = [] ∧ ws = [].
Proof. destruct c, ws; cbn; naive_solver. Qed.

Lemma verdict_cases c ws fine : (verdict c ws fine).1 ∈ ["ok"; "warning"; "critical"].
Proof. destruct c, ws; cbn; set_solver. Qed.

Lemma worse_ok a b : a.1 ∈ ["ok"; "warning"; "critical"] → b.1 ∈ ["ok"; "warning"; "critical"] →
  (worse a b).1 = "ok" → a.1 = "ok" ∧ b.1 = "ok".
Proof.
  unfold worse. intros Ha Hb. destruct (Z.ltb_spec (severityOf a.1) (severityOf b.1)) as [Hlt|Hge]; intros E.
  - rewrite E in Hlt. cbn in Hlt. assert (0 ≤ severityOf a.1); [|lia]. unfold severityOf. by repeat case_match.
  - rewrite E in Hge. split; [done|]. rewrite !elem_of_cons, elem_of_nil in Hb.
    destruct Hb as [Hb|[Hb|[Hb|[]]]]; rewrite Hb in *; [done|cbn in Hge; lia..].
Qed.

Lemma worse_cases a b : a.1 ∈ ["ok"; "warning"; "critical"] → b.1 ∈ ["ok"; "warning"; "critical"] →
  (worse a b).1 ∈ ["ok"; "warning"; "critical"].
Proof. unfold worse. by destruct (_ <? _). Qed.

Lemma concat_nil {A} (l : list (list A)) : concat l = [] ↔ ∀ x, x ∈ l → x = [].
Proof.
  induction l as [|a l IH]; cbn; [set_solver|]. split.
  - intros [-> H]%app_eq_nil x [-> |Hx]%elem_of_cons; [done|]. by apply IH.
  - intros H. rewrite (H a) by (by constructor). apply IH. intros x Hx. apply H. by constructor.
Qed.

Lemma filter_none {A} (P : A → Prop) `{!∀ x, Decision (P x)} l x : filter P l = [] → x ∈ l → ¬ P x.
Proof. intros E Hx HP. assert (x ∈ filter P l) as Hin by (by apply list_elem_of_filter). rewrite E in Hin. by apply elem_of_nil in Hin. Qed.
