(* ===== verification/Json.v ===== *)
(** * The interface of [encoding/json] the stores rely on

    The stores keep every value as a JSON document.  They use three entry
    points: [json.Marshal]/[json.Unmarshal] at a Go type, the same at
    [map[string]json.RawMessage], and [json.MarshalIndent] of such a map.  The
    classes below state what the package documents about them; [CountableJson]
    discharges them with a concrete codec for every countable type. *)

From S2P Require Import Prelude GoStrings.

(** [Marshal] and [Unmarshal] at one Go type.  [Marshal] is [None] on an error;
    [Unmarshal doc dst] is the destination after the call and whether the call
    succeeded; [zero] is the type's zero value. *)
Class Json (A : Type) := {
  zero : A;
  Marshal : A → option string;
  Unmarshal : string → A → A * bool;
}.

(** Decoding what was encoded, into a zero value, gives the value back. *)
Class JsonRoundtrip (A : Type) `{!Json A} : Prop :=
  unmarshal_marshal : ∀ (a : A) doc, Marshal a = Some doc → Unmarshal doc zero = (a, true).

(** [map[string]json.RawMessage] documents.  A raw message may be re-formatted
    when the map that holds it is encoded: [compact] is its canonical text
    ([json.Compact]).  [Valid] is [json.Valid]: a raw message only accepts valid
    documents. *)
Class RawJson := {
  compact : string → string;
  Valid : string → bool;
  MarshalRaw : gmap string string → option string;
  MarshalRawIndent : gmap string string → option string;
  UnmarshalRaw : string → option (gmap string string);
}.

(** Encoding a map of raw messages keeps its keys, and every value up to
    formatting. *)
Class RawJsonRoundtrip `{!RawJson} : Prop := {
  raw_roundtrip m doc : MarshalRaw m = Some doc →
    ∃ m', UnmarshalRaw doc = Some m' ∧ (compact <$> m') = (compact <$> m);
  raw_indent_roundtrip m doc : MarshalRawIndent m = Some doc →
    ∃ m', UnmarshalRaw doc = Some m' ∧ (compact <$> m') = (compact <$> m);
}.

(** Decoding at a Go type does not look at formatting. *)
Class JsonCompact (A : Type) `{!Json A, !RawJson} : Prop :=
  unmarshal_compact : ∀ doc (a : A), Unmarshal (compact doc) a = Unmarshal doc a.

(** [map[string]json.RawMessage] as a Go type: decoding into a map adds to it,
    and fails without touching it. *)
#[export] Instance raw_map_json `{!RawJson} : Json (gmap string string) := {
  zero := ∅;
  Marshal := MarshalRaw;
  Unmarshal doc dst :=
    match UnmarshalRaw doc with Some m => (m ∪ dst, true) | None => (dst, false) end;
}.

Lemma unmarshal_same_compact `{!Json A, !RawJson, !JsonCompact A} d1 d2 (a : A) :
  compact d1 = compact d2 → Unmarshal d1 a = Unmarshal d2 a.
Proof. intros E. by rewrite <- (unmarshal_compact d1), E, unmarshal_compact. Qed.

Lemma compact_lookup `{!RawJson} (m m' : gmap string string) k :
  (compact <$> m') = (compact <$> m) →
  match m !! k with
  | Some raw => ∃ raw', m' !! k = Some raw' ∧ compact raw' = compact raw
  | None => m' !! k = None
  end.
Proof.
  intros E. pose proof (f_equal (lookup k) E) as Ek. rewrite !lookup_fmap in Ek.
  destruct (m !! k) as [raw|], (m' !! k) as [raw'|]; simplify_eq/=; eauto.
Qed.

(** ** A codec for every countable type *)

Module CountableJson.

(** A positive written in binary, low bit first. *)
Fixpoint bits (p : positive) : string :=
  match p with
  | xH => ""
  | xO p => String "0" (bits p)
  | xI p => String "1" (bits p)
  end.

Fixpoint unbits (s : string) : option positive :=
  match s with
  | "" => Some xH
  | String "0" s' => xO <$> unbits s'
  | String "1" s' => xI <$> unbits s'
  | _ => None
  end.

Lemma unbits_bits p : unbits (bits p) = Some p.
Proof. induction p as [p IH|p IH|]; simpl; by rewrite ?IH. Qed.

Definition encode_text {A} `{Countable A} (a : A) : string := bits (encode a).
Definition decode_text {A} `{Countable A} (doc : string) : option A := unbits doc ≫= decode.

Lemma decode_encode_text `{Countable A} (a : A) : decode_text (encode_text a) = Some a.
Proof. unfold decode_text, encode_text. rewrite unbits_bits. apply decode_encode. Qed.

Definition json {A} `{Countable A} (z : A) : Json A := {|
  zero := z;
  Marshal a := Some (encode_text a);
  Unmarshal doc dst := match decode_text doc with Some a => (a, true) | None => (dst, false) end;
|}.

Lemma json_roundtrip `{Countable A} (z : A) : @JsonRoundtrip A (json z).
Proof. intros a doc [= <-]. simpl. by rewrite decode_encode_text. Qed.

Definition raw_json : RawJson := {|
  compact doc := doc;
  Valid _ := true;
  MarshalRaw m := Some (encode_text (map_to_list m));
  MarshalRawIndent m := Some (encode_text (map_to_list m));
  UnmarshalRaw doc := list_to_map <$> decode_text doc;
|}.

Lemma raw_json_roundtrip : @RawJsonRoundtrip raw_json.
Proof.
  split; intros m doc [= <-]; exists m; simpl; rewrite decode_encode_text;
    simpl; by rewrite list_to_map_to_list.
Qed.

Lemma json_compact `{Countable A} (z : A) : @JsonCompact A (json z) raw_json.
Proof. done. Qed.

End CountableJson.
