(* ===== verification/Memory.v ===== *)
(** * The agent's durable memory ([endpoint-server/memory/memory.go])

    [Domain]: one directory of timestamped snapshots with tiered retention.
    [Attrs]: the single-file attribute store.
    [Store]: the root that owns both and the byte counter.

    A directory is a finite map from file names to entries; [ReadDir] lists it in
    name order, as [os.ReadDir] does.  Every call that touches the disk takes a
    [faults] record saying which system calls fail. *)

From S2P Require Import Prelude GoStrings Json.

(** ** The file system seen by the stores *)

Inductive dirent :=
| EFile (data : string)
| EDir.

#[export] Instance dirent_eq_dec : EqDecision dirent.
Proof. solve_decision. Defined.

(** Which system calls fail.  [f_write = Some l]: [os.WriteFile] of the temporary
    file fails and leaves [l] behind. *)
Record faults := mkFaults {
  f_readdir : bool;
  f_info : string → bool;
  f_read : string → bool;
  f_remove : string → bool;
  f_mkdir : bool;
  f_write : option (option string);
  f_rename : bool;
}.

Definition no_faults : faults := mkFaults false (λ _, false) (λ _, false) (λ _, false) false None false.

Inductive mem_error :=
| ENilStore
| EMarshal
| EMkdir
| EWriteTmp
| ERename
| EReadDir
| ENoSnapshots
| ERead
| EParse
| EKeyNotFound (key : string)
| EMutate
| EClear (names : list string).

#[export] Instance mem_error_eq_dec : EqDecision mem_error.
Proof. solve_decision. Defined.

Definition name_le (a b : string * dirent) : Prop := String.le a.1 b.1.

#[export] Instance name_le_dec : RelDecision name_le.
Proof. unfold name_le. intros a b. apply _. Defined.

(** [os.ReadDir]: the entries in file-name order. *)
Definition ReadDir (dir : gmap string dirent) : list (string * dirent) :=
  merge_sort name_le (map_to_list dir).

Definition entry_size (e : dirent) : Z :=
  match e with EFile data => len data | EDir => 0 end.

(** Total size of the regular files of a directory. *)
Definition dir_bytes (dir : gmap string dirent) : Z :=
  map_fold (λ _ e n, entry_size e + n) 0 dir.

(** The file name test shared by [prune], [ReadHistory], [ReadNearest] and
    [newestFile]: not a directory, [<int64>.json]. *)
Definition snapshot_ns (name : string) (e : dirent) : option Z :=
  match e with
  | EDir => None
  | EFile _ =>
      if HasSuffix name ".json" then ParseInt (TrimSuffix name ".json") else None
  end.

Module Domain.

(** ** Retention *)

Record retentionTier := mkTier { horizon : Z; bucket : Z }.

Definition retentionTiers : list retentionTier := [
  mkTier (60 * Minute) (5 * Minute);
  mkTier (7 * 24 * Hour) Hour;
  mkTier (90 * 24 * Hour) (24 * Hour)
].

Definition maxAge : Z := 90 * 24 * Hour.

(** A directory entry [prune] has read. *)
Record entry := mkEntry { e_path : string; e_ns : Z; e_size : Z }.

(** The tier loop: the first tier whose horizon covers the age. *)
Fixpoint tier_key (i : Z) (tiers : list retentionTier) (age : Z) : Z * Z :=
  match tiers with
  | [] => (0, 0)
  | t :: rest =>
      if age <=? horizon t then (i, Z.quot age (bucket t)) else tier_key (i + 1) rest age
  end.

(** What the loop body of [prune] computes for a snapshot of age [age]; a
    snapshot from the future counts as brand new. *)
Definition bucket_key (age : Z) : Z * Z :=
  tier_key 0 retentionTiers (if age <? 0 then 0 else age).

Definition prune_state : Type := gmap (Z * Z) entry * list entry.

(** One iteration over the directory listing. *)
Definition prune_entry (F : faults) (now : Z) (st : prune_state) (ne : string * dirent) : prune_state :=
  let '(buckets, toDelete) := st in
  let '(name, e) := ne in
  match snapshot_ns name e with
  | None => st
  | Some ns =>
      if f_info F name then st
      else
        let age := time_sub now ns in
        let fe := mkEntry name ns (entry_size e) in
        if maxAge <? age then (buckets, toDelete ++ [fe])
        else
          let key := bucket_key age in
          match buckets !! key with
          | None => (<[key := fe]> buckets, toDelete)
          | Some prev =>
              if e_ns prev <? ns then (<[key := fe]> buckets, toDelete ++ [prev])
              else (buckets, toDelete ++ [fe])
          end
  end.

(** The deletion loop: the directory left and the bytes freed. *)
Definition prune_delete (F : faults) (st : gmap string dirent * Z) (fe : entry) : gmap string dirent * Z :=
  let '(dir, pruned) := st in
  if f_remove F (e_path fe) then (dir, pruned)
  else (delete (e_path fe) dir, pruned + e_size fe).

Definition prune (F : faults) (now : Z) (dir : gmap string dirent) : gmap string dirent * Z :=
  if f_readdir F then (dir, 0)
  else
    let '(_, toDelete) := foldl (prune_entry F now) (∅, []) (ReadDir dir) in
    foldl (prune_delete F) (dir, 0) toDelete.

(** ** Writing *)

Definition snapshot_name (now : Z) : string := Itoa now +:+ ".json".

Definition is_dir (dir : gmap string dirent) (name : string) : bool :=
  match dir !! name with Some EDir => true | _ => false end.

(** [writeLocked]: the outcome carries the byte delta reported to the parent; the
    directory ([None]: absent) is the one on disk afterwards. *)
Definition writeLocked `{!Json A} (F : faults) (now : Z) (v : A)
    (d : option (gmap string dirent)) : result mem_error Z * option (gmap string dirent) :=
  match Marshal v with
  | None => (Err EMarshal, d)
  | Some data =>
      if f_mkdir F then (Err EMkdir, d)
      else
        let dir := default ∅ d in
        let name := snapshot_name now in
        let tmp := name +:+ ".tmp" in
        match f_write F with
        | Some partial =>
            (Err EWriteTmp, Some (match partial with
                                  | Some part => <[tmp := EFile part]> dir
                                  | None => dir end))
        | None =>
            if f_rename F || is_dir dir name then
              (Err ERename,
               Some (if f_remove F tmp then <[tmp := EFile data]> dir else delete tmp dir))
            else
              let dir' := <[name := EFile data]> (delete tmp dir) in
              let '(dir'', pruned) := prune F now dir' in
              (Ok (len data - pruned), Some dir'')
        end
  end.

(** ** Reading *)

(** The scan of [newestFile]: the first entry of strictly greater timestamp wins,
    starting from timestamp 0 and no name. *)
Definition newest_step (best : string * Z) (ne : string * dirent) : string * Z :=
  match snapshot_ns ne.1 ne.2 with
  | Some ns => if best.2 <? ns then (ne.1, ns) else best
  | None => best
  end.

Definition newestFile (F : faults) (d : option (gmap string dirent)) : result mem_error string :=
  match d with
  | None => Err ENoSnapshots
  | Some dir =>
      if f_readdir F then Err EReadDir
      else
        let '(name, _) := foldl newest_step ("", 0) (ReadDir dir) in
        if decide (name = "") then Err ENoSnapshots else Ok name
  end.

Definition ReadFile (F : faults) (dir : gmap string dirent) (name : string) : result mem_error string :=
  match dir !! name with
  | Some (EFile data) => if f_read F name then Err ERead else Ok data
  | _ => Err ERead
  end.

(** [readCurrentLocked]: the destination after the call, and the error. *)
Definition readCurrentLocked `{!Json A} (F : faults) (d : option (gmap string dirent)) (dst : A) :
    A * option mem_error :=
  match newestFile F d with
  | Err e => (dst, Some e)
  | Ok name =>
      match ReadFile F (default ∅ d) name with
      | Err e => (dst, Some e)
      | Ok data =>
          let '(v, ok) := Unmarshal data dst in
          (v, if ok : bool then None else Some EParse)
      end
  end.

(** The exported operations take the receiver, which may be nil ([None]). *)
Definition Write `{!Json A} (F : faults) (now : Z) (v : A)
    (d : option (option (gmap string dirent))) :
    result mem_error Z * option (option (gmap string dirent)) :=
  match d with
  | None => (Ok 0, None)
  | Some d => let '(r, d') := writeLocked F now v d in (r, Some d')
  end.

Definition ReadCurrent `{!Json A} (F : faults) (d : option (option (gmap string dirent))) (dst : A) :
    A * option mem_error :=
  match d with
  | None => (dst, Some ENilStore)
  | Some d => readCurrentLocked F d dst
  end.

(** [Update]: read into [dst] ignoring a failure, mutate, write back. *)
Definition Update `{!Json A} (F : faults) (now : Z) (dst : A) (mutate : A → option A)
    (d : option (option (gmap string dirent))) :
    result mem_error Z * option (option (gmap string dirent)) :=
  match d with
  | None => (Ok 0, None)
  | Some d =>
      let '(cur, _) := readCurrentLocked F d dst in
      match mutate cur with
      | None => (Err EMutate, Some d)
      | Some cur' => let '(r, d') := writeLocked F now cur' d in (r, Some d')
      end
  end.

(** [SetKey]: one key of a domain used as a map. *)
Definition SetKey `{!RawJson, !Json V} (F : faults) (now : Z) (key : string) (value : V)
    (d : option (option (gmap string dirent))) :
    result mem_error Z * option (option (gmap string dirent)) :=
  match Marshal value with
  | None => (Err EMarshal, d)
  | Some val => Update F now (∅ : gmap string string) (λ bucket, Some (<[key := val]> bucket)) d
  end.

Definition GetKey `{!RawJson, !Json V} (F : faults) (d : option (option (gmap string dirent)))
    (key : string) (dst : V) : V * option mem_error :=
  match d with
  | None => (dst, Some ENilStore)
  | Some _ =>
      match ReadCurrent F d (∅ : gmap string string) with
      | (_, Some e) => (dst, Some e)
      | (bucket, None) =>
          match bucket !! key with
          | None => (dst, Some (EKeyNotFound key))
          | Some val =>
              let '(v, ok) := Unmarshal val dst in (v, if ok : bool then None else Some EParse)
          end
      end
  end.

(** [AllKeys] never fails: an unreadable domain has no keys. *)
Definition AllKeys `{!RawJson} (F : faults) (d : option (option (gmap string dirent))) :
    gmap string string :=
  match d with
  | None => ∅
  | Some _ => match ReadCurrent F d (∅ : gmap string string) with
              | (_, Some _) => ∅
              | (bucket, None) => bucket
              end
  end.

(** ** History *)

Record Snapshot := mkSnapshot { Timestamp : Z; Data : string }.

Definition snapshot_le (a b : Snapshot) : Prop := Timestamp a ≤ Timestamp b.

#[export] Instance snapshot_le_dec : RelDecision snapshot_le.
Proof. unfold snapshot_le. intros a b. apply _. Defined.

Definition history_entry (F : faults) (dir : gmap string dirent) (ne : string * dirent) : option Snapshot :=
  ns ← snapshot_ns ne.1 ne.2;
  match ReadFile F dir ne.1 with
  | Ok data => Some (mkSnapshot ns data)
  | Err _ => None
  end.

Definition ReadHistory (F : faults) (d : option (option (gmap string dirent))) :
    result mem_error (list Snapshot) :=
  match d with
  | None | Some None => Ok []
  | Some (Some dir) =>
      if f_readdir F then Err EReadDir
      else Ok (merge_sort snapshot_le (omap (history_entry F dir) (ReadDir dir)))
  end.

(** The scan of [ReadNearest] keeps the name, timestamp and distance of the best
    candidate; negating the least duration wraps around. *)
Definition nearest_step (target : Z) (best : string * Z * Z) (ne : string * dirent) : string * Z * Z :=
  match snapshot_ns ne.1 ne.2 with
  | None => best
  | Some ns =>
      let d0 := time_sub target ns in
      let dist := if d0 <? 0 then wrap64 (- d0) else d0 in
      let '(bestName, _, bestDist) := best in
      if String.eqb bestName "" || (dist <? bestDist) then (ne.1, ns, dist) else best
  end.

Definition ReadNearest (F : faults) (target : Z) (d : option (option (gmap string dirent))) :
    result mem_error Snapshot :=
  match d with
  | None => Err ENilStore
  | Some None => Err EReadDir
  | Some (Some dir) =>
      if f_readdir F then Err EReadDir
      else
        let '(bestName, bestNs, _) := foldl (nearest_step target) ("", 0, 0) (ReadDir dir) in
        if String.eqb bestName "" then Err ENoSnapshots
        else data ← ReadFile F dir bestName; Ok (mkSnapshot bestNs data)
  end.

End Domain.

(** ** The attribute store *)

Module Attrs.

(** The attribute file is [attrs.json] under the root: [None] when it does not
    exist.  [Unmarshal] into the fresh map leaves it empty on a parse failure. *)
Definition load_attrs `{!RawJson} (F : faults) (file : option string) : Z * gmap string string :=
  match file with
  | Some raw =>
      if f_read F "attrs.json" then (0, ∅)
      else (len raw, default ∅ (UnmarshalRaw raw))
  | None => (0, ∅)
  end.

(** Writing the encoded map back: temporary file, rename, byte delta. *)
Definition store_attrs `{!RawJson} (F : faults) (oldSize : Z) (attrs : gmap string string)
    (file : option string) : result mem_error Z * option string :=
  match MarshalRawIndent attrs with
  | None => (Err EMarshal, file)
  | Some out =>
      match f_write F with
      | Some _ => (Err EWriteTmp, file)
      | None =>
          if f_rename F then (Err ERename, file)
          else (Ok (len out - oldSize), Some out)
      end
  end.

(** The receiver may be nil ([None]). *)
Definition Set_ `{!RawJson, !Json V} (F : faults) (key : string) (value : V)
    (a : option (option string)) : result mem_error Z * option (option string) :=
  match a with
  | None => (Ok 0, None)
  | Some file =>
      if f_mkdir F then (Err EMkdir, a)
      else
        let '(oldSize, attrs) := load_attrs F file in
        match Marshal value with
        | None => (Err EMarshal, a)
        | Some val =>
            let '(r, file') := store_attrs F oldSize (<[key := val]> attrs) file in
            (r, Some file')
        end
  end.

Definition Delete `{!RawJson} (F : faults) (key : string) (a : option (option string)) :
    result mem_error Z * option (option string) :=
  match a with
  | None => (Ok 0, None)
  | Some file =>
      let '(oldSize, attrs) := load_attrs F file in
      match attrs !! key with
      | None => (Ok 0, a)
      | Some _ =>
          let '(r, file') := store_attrs F oldSize (delete key attrs) file in (r, Some file')
      end
  end.

Definition All `{!RawJson} (F : faults) (a : option (option string)) :
    result mem_error (gmap string string) :=
  match a with
  | None | Some None => Ok ∅
  | Some (Some raw) =>
      if f_read F "attrs.json" then Err ERead
      else match UnmarshalRaw raw with
           | Some attrs => Ok attrs
           | None => Err EParse
           end
  end.

Definition Get `{!RawJson, !Json V} (F : faults) (key : string) (a : option (option string)) (dst : V) :
    V * option mem_error :=
  match a with
  | None => (dst, Some ENilStore)
  | Some None => (dst, Some ERead)
  | Some (Some raw) =>
      if f_read F "attrs.json" then (dst, Some ERead)
      else match UnmarshalRaw raw with
           | None => (dst, Some EParse)
           | Some attrs =>
               match attrs !! key with
               | None => (dst, Some (EKeyNotFound key))
               | Some val =>
                   let '(v, ok) := Unmarshal val dst in
                   (v, if ok : bool then None else Some EParse)
               end
           end
  end.

End Attrs.

(** ** The root store *)

Module Store.

(** What is on disk under the root, and the running byte counter.  [s_domains]
    has one directory per domain.  A root that exists and is empty reads like a
    root that does not exist. *)
Record Store := mkStore {
  s_exists : bool;
  s_domains : gmap string (gmap string dirent);
  s_attrs : option string;
  s_size : Z;
}.

Definition attrs_bytes (file : option string) : Z :=
  match file with Some raw => len raw | None => 0 end.

Definition domains_bytes (doms : gmap string (gmap string dirent)) : Z :=
  map_fold (λ _ dir n, dir_bytes dir + n) 0 doms.

(** [dirSize]: every regular file under the root. *)
Definition dirSize (s : Store) : Z :=
  if s_exists s then domains_bytes (s_domains s) + attrs_bytes (s_attrs s) else 0.

(** [New]: measure what is already there once. *)
Definition New (disk : Store) : Store :=
  mkStore (s_exists disk) (s_domains disk) (s_attrs disk) (dirSize disk).

Definition SizeBytes (s : Store) : Z := s_size s.

(** Running an operation of the domain [name]: its directory and the counter
    are updated.  A created directory creates the root. *)
Definition on_domain (name : string)
    (op : option (option (gmap string dirent)) →
          result mem_error Z * option (option (gmap string dirent)))
    (s : Store) : result mem_error unit * Store :=
  let '(r, d) := op (Some (s_domains s !! name)) in
  let doms := match d with
              | Some (Some dir) => <[name := dir]> (s_domains s)
              | _ => s_domains s
              end in
  let ex := match d with Some (Some _) => true | _ => s_exists s end in
  match r with
  | Ok delta => (Ok tt, mkStore ex doms (s_attrs s) (s_size s + delta))
  | Err e => (Err e, mkStore ex doms (s_attrs s) (s_size s))
  end.

Definition on_attrs
    (op : option (option string) → result mem_error Z * option (option string))
    (s : Store) : result mem_error unit * Store :=
  let '(r, a) := op (Some (s_attrs s)) in
  let file := match a with Some f => f | None => s_attrs s end in
  match r with
  | Ok delta => (Ok tt, mkStore (s_exists s || bool_decide (is_Some file)) (s_domains s) file (s_size s + delta))
  | Err e => (Err e, mkStore (s_exists s) (s_domains s) file (s_size s))
  end.

(** [Clear]: every entry whose removal does not fail goes, then re-measure. *)
Definition Clear (F : faults) (s : Store) : result mem_error unit * Store :=
  if negb (s_exists s) then (Ok tt, s)
  else if f_readdir F then (Err EReadDir, s)
  else
    let doms := filter (λ nd, f_remove F nd.1 = true) (s_domains s) in
    let attrs := if f_remove F "attrs.json" then s_attrs s else None in
    let s' := mkStore true doms attrs (s_size s) in
    let failed := (map_to_list doms).*1 ++
                  match attrs with Some _ => ["attrs.json"] | None => [] end in
    (match failed with [] => Ok tt | _ => Err (EClear failed) end,
     mkStore true doms attrs (dirSize s')).

Record Dump_ := mkDump { Domains : gmap string string; DumpAttrs : gmap string string }.

(** The current document of a domain, read as a raw message. *)
Definition current_raw `{!RawJson} (F : faults) (dir : gmap string dirent) : option string :=
  match Domain.newestFile F (Some dir) with
  | Ok name => match Domain.ReadFile F dir name with
               | Ok data => if Valid data then Some data else None
               | Err _ => None
               end
  | Err _ => None
  end.

(** [Dump]: domains that cannot be read are left out; an unreadable attribute
    file is an error. *)
Definition Dump `{!RawJson} (F : faults) (s : Store) : result mem_error Dump_ :=
  if negb (s_exists s) then Ok (mkDump ∅ ∅)
  else if f_readdir F then Err EReadDir
  else
    attrs ← Attrs.All F (Some (s_attrs s));
    Ok (mkDump (omap (current_raw F) (s_domains s)) attrs).

End Store.
