(* ===== verification/MemoryFacts.v ===== *)
(** * Correctness of the domain store: retention, accounting, round trips *)

From S2P Require Import Prelude GoStrings Json Memory.

Import Domain.

(** ** Directory listings *)

Lemma ReadDir_Permutation dir : ReadDir dir ≡ₚ map_to_list dir.
Proof. apply merge_sort_Permutation. Qed.

Lemma elem_of_ReadDir dir n e : (n, e) ∈ ReadDir dir ↔ dir !! n = Some e.
Proof. by rewrite ReadDir_Permutation, elem_of_map_to_list. Qed.

Lemma NoDup_ReadDir dir : NoDup (ReadDir dir).*1.
Proof. rewrite ReadDir_Permutation. apply NoDup_fst_map_to_list. Qed.

Lemma dir_bytes_insert dir n e :
  dir !! n = None → dir_bytes (<[n := e]> dir) = entry_size e + dir_bytes dir.
Proof.
  intros Hn. unfold dir_bytes. rewrite map_fold_insert_L; [done| |done]. intros. lia.
Qed.

Lemma dir_bytes_delete dir n e :
  dir !! n = Some e → dir_bytes dir = entry_size e + dir_bytes (delete n dir).
Proof.
  intros Hn. rewrite <- (insert_delete_id dir n e) at 1 by done.
  apply dir_bytes_insert, lookup_delete_eq.
Qed.

(** Two entries of one listing with the same name are the same. *)
Lemma NoDup_fst_functional {A B} (l : list (A * B)) a b1 b2 :
  NoDup l.*1 → (a, b1) ∈ l → (a, b2) ∈ l → b1 = b2.
Proof.
  intros HL H1 H2.
  apply list_elem_of_lookup in H1 as [i Hi], H2 as [j Hj].
  assert (i = j) as <-; [|congruence].
  eapply (NoDup_lookup l.*1); [done|..]; rewrite list_lookup_fmap; [rewrite Hi|rewrite Hj]; done.
Qed.

(** ** The loop of [prune] *)

Section Prune.
Context (F : faults) (now : Z).

(** The loop of [prune] looks at [name]: a snapshot whose [Info] succeeds. *)
Definition seen (name : string) (e : dirent) (ns : Z) : Prop :=
  snapshot_ns name e = Some ns ∧ f_info F name = false.

Definition live (ns : Z) : Prop := time_sub now ns ≤ maxAge.
Definition key_of (ns : Z) : Z * Z := bucket_key (time_sub now ns).

(** [fe] is the record of an entry of the listing [L]. *)
Definition records (L : list (string * dirent)) (fe : entry) : Prop :=
  ∃ e, (e_path fe, e) ∈ L ∧ seen (e_path fe) e (e_ns fe) ∧ e_size fe = entry_size e.

(** What [buckets] and [toDelete] hold after the entries [L]. *)
Record prune_inv (L : list (string * dirent)) (st : prune_state) : Prop := {
  pi_winner k w : st.1 !! k = Some w → records L w ∧ live (e_ns w) ∧ key_of (e_ns w) = k;
  pi_newest n e ns : (n, e) ∈ L → seen n e ns → live ns →
    ∃ w, st.1 !! key_of ns = Some w ∧ ns ≤ e_ns w ∧ (e_path w = n ∨ n ∈ e_path <$> st.2);
  pi_expired n e ns : (n, e) ∈ L → seen n e ns → ¬ live ns → n ∈ e_path <$> st.2;
  pi_deleted fe : fe ∈ st.2 → records L fe;
  pi_nodup : NoDup (e_path <$> st.2);
  pi_apart k w : st.1 !! k = Some w → e_path w ∉ e_path <$> st.2;
}.

Lemma records_mono L ne fe : records L fe → records (L ++ [ne]) fe.
Proof. intros (e & H & ?). exists e. split; [set_solver|done]. Qed.

Lemma records_fresh L n e fe : NoDup (L ++ [(n, e)]).*1 → records L fe → e_path fe ≠ n.
Proof.
  rewrite fmap_app, NoDup_app. intros (_ & Hd & _) (e' & Hin & _) <-.
  apply (Hd (e_path fe)); [|set_solver]. apply list_elem_of_fmap. by exists (e_path fe, e').
Qed.

Lemma prune_inv_nil : prune_inv [] (∅, []).
Proof. split; try set_solver. apply NoDup_nil_2. Qed.

(** An entry that is not looked at changes nothing. *)
Lemma prune_inv_skip L st n e :
  prune_inv L st → (∀ ns, ¬ seen n e ns) → prune_inv (L ++ [(n, e)]) st.
Proof.
  intros [] Hs. split; eauto.
  - intros k w Hk. destruct (pi_winner0 k w Hk) as (? & ? & ?). eauto using records_mono.
  - intros n' e' ns [?|[= -> ->]%list_elem_of_singleton]%elem_of_app ?; [eauto|]. by destruct (Hs ns).
  - intros n' e' ns [?|[= -> ->]%list_elem_of_singleton]%elem_of_app ?; [eauto|]. by destruct (Hs ns).
  - eauto using records_mono.
Qed.

Section NewEntry.
Context (L : list (string * dirent)) (b : gmap (Z * Z) entry) (del : list entry).
Context (n : string) (e : dirent) (ns : Z).
Hypothesis (HL : NoDup (L ++ [(n, e)]).*1) (Hinv : prune_inv L (b, del)) (Hseen : seen n e ns).

Let fe := mkEntry n ns (entry_size e).

Lemma new_records : records (L ++ [(n, e)]) fe.
Proof. exists e. split; [set_solver|done]. Qed.

Lemma new_not_deleted : n ∉ e_path <$> del.
Proof.
  intros (fe' & -> & Hfe)%list_elem_of_fmap.
  eapply (records_fresh L _ e fe'); [done| |done]. by apply (pi_deleted _ _ Hinv).
Qed.

Lemma new_not_winner k w : b !! k = Some w → e_path w ≠ n.
Proof.
  intros Hk. destruct (pi_winner _ _ Hinv k w Hk) as (? & _).
  by apply (records_fresh L n e w).
Qed.

Lemma seen_unique ns' : seen n e ns' → ns' = ns.
Proof. intros [H _]. destruct Hseen as [H' _]. congruence. Qed.

Lemma in_paths_app (l1 l2 : list entry) p :
  p ∈ e_path <$> (l1 ++ l2) ↔ p ∈ e_path <$> l1 ∨ p ∈ e_path <$> l2.
Proof. by rewrite fmap_app, elem_of_app. Qed.

Lemma in_new p : p ∈ e_path <$> [fe] ↔ p = n.
Proof. apply list_elem_of_singleton. Qed.

(** The entry is too old, or its bucket holds a snapshot at least as new. *)
Lemma prune_inv_drop :
  (live ns → ∃ w, b !! key_of ns = Some w ∧ ns ≤ e_ns w) →
  prune_inv (L ++ [(n, e)]) (b, del ++ [fe]).
Proof.
  intros Hlose. pose proof new_not_deleted as Hnd. pose proof Hinv as HI. destruct HI; simpl in *.
  split; simpl in *.
  - intros k w Hk. destruct (pi_winner0 k w Hk) as (? & ? & ?). eauto using records_mono.
  - intros n' e' ns' [?|[= -> ->]%list_elem_of_singleton]%elem_of_app Hs Hl;
      setoid_rewrite in_paths_app; setoid_rewrite in_new.
    + destruct (pi_newest0 n' e' ns') as (w & ? & ? & [?|?]); [done..| |]; eauto 10.
    + apply seen_unique in Hs as ->. destruct (Hlose Hl) as (w & ? & ?). eauto 10.
  - intros n' e' ns' [?|[= -> ->]%list_elem_of_singleton]%elem_of_app Hs Hl; rewrite in_paths_app, in_new;
      eauto.
  - intros fe' [?| ->%list_elem_of_singleton]%elem_of_app; eauto using records_mono, new_records.
  - rewrite fmap_app, NoDup_app. split_and!; [done| |apply NoDup_singleton].
    intros p Hp ->%in_new. done.
  - intros k w Hk. rewrite in_paths_app, in_new. intros [?|?]; [by eapply pi_apart0|].
    by apply (new_not_winner k w Hk).
Qed.

(** Two buckets have different winners. *)
Lemma winners_apart k1 k2 w1 w2 :
  b !! k1 = Some w1 → b !! k2 = Some w2 → k1 ≠ k2 → e_path w1 ≠ e_path w2.
Proof.
  intros H1 H2 Hk Heq.
  destruct (pi_winner _ _ Hinv _ _ H1) as ((e1 & I1 & [S1 _] & _) & _ & K1).
  destruct (pi_winner _ _ Hinv _ _ H2) as ((e2 & I2 & [S2 _] & _) & _ & K2).
  rewrite fmap_app, NoDup_app in HL. destruct HL as [HL1 _].
  rewrite Heq in I1, S1. pose proof (NoDup_fst_functional _ _ _ _ HL1 I1 I2) as ->. congruence.
Qed.

(** The entry is the newest of its bucket so far. *)
Lemma prune_inv_win :
  live ns → (∀ w, b !! key_of ns = Some w → e_ns w < ns) →
  prune_inv (L ++ [(n, e)]) (<[key_of ns := fe]> b, del ++ option_list (b !! key_of ns)).
Proof.
  intros Hlive Hwin. pose proof new_not_deleted as Hnd. pose proof Hinv as HI. destruct HI; simpl in *.
  split; simpl in *.
  - intros k w [[<- <-]|[Hk Hw]]%lookup_insert_Some; [by split_and!; [apply new_records|..]|].
    destruct (pi_winner0 k w Hw) as (? & ? & ?). eauto using records_mono.
  - intros n' e' ns' [Hin|[= -> ->]%list_elem_of_singleton]%elem_of_app Hs Hl.
    + destruct (pi_newest0 n' e' ns') as (w & Hw & ? & Hor); [done..|].
      destruct (decide (key_of ns = key_of ns')) as [Hk|Hk].
      * rewrite <- Hk in Hw |- *. rewrite lookup_insert_eq, Hw. exists fe. rewrite in_paths_app.
        specialize (Hwin w Hw). split_and!; [done|simpl; lia|].
        right. destruct Hor as [<-|]; [right; by apply list_elem_of_singleton|by left].
      * rewrite lookup_insert_ne by done. exists w. rewrite in_paths_app. naive_solver.
    + apply seen_unique in Hs as ->. rewrite lookup_insert_eq. exists fe. simpl. auto with lia.
  - intros n' e' ns' [?|[= -> ->]%list_elem_of_singleton]%elem_of_app Hs Hl; rewrite in_paths_app; [eauto|].
    by apply seen_unique in Hs as ->.
  - intros fe' [?|Hfe]%elem_of_app; [eauto using records_mono|].
    destruct (b !! key_of ns) eqn:E; [|by apply not_elem_of_nil in Hfe].
    apply list_elem_of_singleton in Hfe as ->. by eapply records_mono, pi_winner0.
  - rewrite fmap_app, NoDup_app. destruct (b !! key_of ns) as [w|] eqn:E; simpl.
    + split_and!; [done| |apply NoDup_singleton]. intros p Hp ->%list_elem_of_singleton. by eapply pi_apart0.
    + split_and!; [done| |apply NoDup_nil_2]. by intros p _ ?%not_elem_of_nil.
  - intros k w Hk. rewrite in_paths_app. intros Hin.
    apply lookup_insert_Some in Hk as [[<- <-]|[Hk Hw]]; simpl in Hin;
      (destruct Hin as [Hin|Hin]; [by first [done|eapply pi_apart0]|]);
      (destruct (b !! key_of ns) as [w'|] eqn:E; [|by apply not_elem_of_nil in Hin]);
      apply list_elem_of_singleton in Hin.
    + by apply (new_not_winner _ _ E).
    + by apply (winners_apart k (key_of ns) w w').
Qed.

End NewEntry.

Lemma prune_entry_inv L st n e :
  NoDup (L ++ [(n, e)]).*1 → prune_inv L st →
  prune_inv (L ++ [(n, e)]) (prune_entry F now st (n, e)).
Proof.
  intros HL Hinv. destruct st as [b del]. simpl.
  destruct (snapshot_ns n e) as [ns|] eqn:Hns.
  2: { apply prune_inv_skip; [done|]. intros ns [? _]. congruence. }
  destruct (f_info F n) eqn:Hi.
  { apply prune_inv_skip; [done|]. intros ns' [_ ?]. congruence. }
  assert (Hseen : seen n e ns) by done.
  destruct (Z.ltb_spec maxAge (time_sub now ns)) as [Hold|Hlive].
  { apply prune_inv_drop; [done..|]. unfold live. lia. }
  fold (key_of ns). destruct (b !! key_of ns) as [prev|] eqn:Hk.
  - destruct (Z.ltb_spec (e_ns prev) ns).
    + pose proof (prune_inv_win L b del n e ns) as H'. rewrite Hk in H'. apply H'; naive_solver.
    + apply prune_inv_drop; eauto.
  - pose proof (prune_inv_win L b del n e ns) as H'. rewrite Hk, app_nil_r in H'. apply H'; naive_solver.
Qed.

Lemma prune_loop_inv L : NoDup L.*1 → prune_inv L (foldl (prune_entry F now) (∅, []) L).
Proof.
  induction L as [|[n e] L IH] using rev_ind; intros HL; [apply prune_inv_nil|].
  rewrite foldl_app. simpl. apply prune_entry_inv; [done|]. apply IH.
  rewrite fmap_app, NoDup_app in HL. naive_solver.
Qed.

End Prune.

(** ** The deletion loop *)

Lemma prune_delete_lookup F del dir freed n :
  (foldl (prune_delete F) (dir, freed) del).1 !! n =
  if decide (n ∈ e_path <$> del ∧ f_remove F n = false) then None else dir !! n.
Proof.
  revert dir freed. induction del as [|fe del IH]; intros dir freed.
  - rewrite decide_False; [done|]. by intros [?%not_elem_of_nil _].
  - rewrite fmap_cons. cbn [foldl]. unfold prune_delete at 2.
    destruct (f_remove F (e_path fe)) eqn:Hr; rewrite IH; clear IH;
      (destruct (decide (n = e_path fe)) as [->|Hne];
       [rewrite ?lookup_delete_eq|rewrite ?lookup_delete_ne by done]);
      repeat case_decide; try done; rewrite ?elem_of_cons in *; try tauto. all: intuition congruence.
Qed.

(** The freed bytes are exactly the bytes that left the directory. *)
Lemma prune_delete_bytes F del dir freed :
  NoDup (e_path <$> del) →
  (∀ fe, fe ∈ del → ∃ e, dir !! e_path fe = Some e ∧ e_size fe = entry_size e) →
  dir_bytes dir + freed =
  dir_bytes (foldl (prune_delete F) (dir, freed) del).1 +
  (foldl (prune_delete F) (dir, freed) del).2.
Proof.
  revert dir freed. induction del as [|fe del IH]; intros dir freed Hnd Hin; simpl; [lia|].
  rewrite fmap_cons in Hnd. apply NoDup_cons in Hnd as [Hfe Hnd].
  destruct (f_remove F (e_path fe)).
  - apply IH; [done|]. intros fe' H. apply Hin. set_solver.
  - destruct (Hin fe) as (e & He & Hs); [set_solver|].
    rewrite <- IH; [|done|].
    + rewrite (dir_bytes_delete dir _ e He), Hs. lia.
    + intros fe' Hfe'. destruct (Hin fe') as (e' & ? & ?); [set_solver|].
      exists e'. rewrite lookup_delete_ne; [done|].
      intros Heq. apply Hfe. rewrite Heq. apply list_elem_of_fmap. eauto.
Qed.

(** ** What [prune] leaves *)

Lemma prune_unfold F now dir :
  f_readdir F = false →
  ∃ b del, prune_inv F now (ReadDir dir) (b, del) ∧
           prune F now dir = foldl (prune_delete F) (dir, 0) del.
Proof.
  intros Hr. unfold prune. rewrite Hr.
  pose proof (prune_loop_inv F now (ReadDir dir) (NoDup_ReadDir dir)) as Hinv.
  destruct (foldl (prune_entry F now) _ _) as [b del] eqn:E. eauto.
Qed.

(** The directory only loses entries, whatever fails. *)
Lemma prune_subseteq F now dir : (prune F now dir).1 ⊆ dir.
Proof.
  destruct (f_readdir F) eqn:Hr; [unfold prune; by rewrite Hr|].
  destruct (prune_unfold F now dir Hr) as (b & del & _ & ->).
  apply map_subseteq_spec. intros n e. rewrite prune_delete_lookup. by case_decide.
Qed.

(** Only snapshots are deleted. *)
Lemma prune_keeps_others F now dir n e :
  dir !! n = Some e → snapshot_ns n e = None → (prune F now dir).1 !! n = Some e.
Proof.
  intros Hn Hs. destruct (f_readdir F) eqn:Hr; [unfold prune; by rewrite Hr|].
  destruct (prune_unfold F now dir Hr) as (b & del & Hinv & ->).
  rewrite prune_delete_lookup. case_decide as H; [|done]. destruct H as [H _].
  apply list_elem_of_fmap in H as (fe & -> & Hfe).
  apply (pi_deleted _ _ _ _ Hinv) in Hfe as (e' & Hin & [Hs' _] & _).
  apply elem_of_ReadDir in Hin. congruence.
Qed.

Lemma prune_bytes F now dir :
  dir_bytes dir = dir_bytes (prune F now dir).1 + (prune F now dir).2.
Proof.
  destruct (f_readdir F) eqn:Hr; [unfold prune; rewrite Hr; simpl; lia|].
  destruct (prune_unfold F now dir Hr) as (b & del & Hinv & ->).
  rewrite <- prune_delete_bytes; [lia|apply Hinv|].
  intros fe (e & Hin & _ & ?)%(pi_deleted _ _ _ _ Hinv). exists e. by rewrite <- elem_of_ReadDir.
Qed.

(** No system call fails during the prune. *)
Definition prune_ok (F : faults) : Prop :=
  f_readdir F = false ∧ (∀ n, f_info F n = false) ∧ (∀ n, f_remove F n = false).

(** [n] is a snapshot of [dir] taken at [ns]. *)
Definition snapshot_in (dir : gmap string dirent) (n : string) (ns : Z) : Prop :=
  ∃ e, dir !! n = Some e ∧ snapshot_ns n e = Some ns.

Lemma kept_lookup F del dir n e :
  (∀ n, f_remove F n = false) →
  ((foldl (prune_delete F) (dir, 0) del).1 !! n = Some e) ↔ ((n ∉ e_path <$> del) ∧ (dir !! n = Some e)).
Proof.
  intros Hrm. rewrite prune_delete_lookup. case_decide as Hd; [naive_solver|].
  rewrite Hrm in Hd. tauto.
Qed.

#[local] Instance live_dec now ns : Decision (live now ns).
Proof. unfold live. apply _. Defined.

Section Kept.
Context (F : faults) (now : Z) (dir : gmap string dirent).
Hypothesis (Hok : prune_ok F).

(** A snapshot is kept exactly when it won its bucket. *)
Lemma kept_winner :
  ∃ b : gmap (Z * Z) entry,
    (∀ n ns, snapshot_in (prune F now dir).1 n ns ↔
             snapshot_in dir n ns ∧ live now ns ∧ ∃ w, b !! key_of now ns = Some w ∧ e_path w = n) ∧
    (∀ k w, b !! k = Some w → snapshot_in dir (e_path w) (e_ns w) ∧ live now (e_ns w) ∧ key_of now (e_ns w) = k) ∧
    (∀ n ns, snapshot_in dir n ns → live now ns → ∃ w, b !! key_of now ns = Some w ∧ ns ≤ e_ns w).
Proof.
  destruct Hok as (Hr & Hi & Hrm).
  destruct (prune_unfold F now dir Hr) as (b & del & Hinv & ->). exists b.
  assert (Hseen : ∀ n e ns, seen F n e ns ↔ snapshot_ns n e = Some ns).
  { intros. unfold seen. rewrite Hi. naive_solver. }
  split_and!.
  - intros n ns. unfold snapshot_in. setoid_rewrite (λ n e, kept_lookup F del dir n e Hrm). split.
    + intros (e & [Hd He] & Hs). split; [eauto|].
      apply elem_of_ReadDir in He. apply Hseen in Hs.
      destruct (decide (live now ns)) as [Hl|Hl]; [|by destruct Hd; eapply (pi_expired _ _ _ _ Hinv)].
      split; [done|]. destruct (pi_newest _ _ _ _ Hinv n e ns) as (w & ? & ? & [?|?]); naive_solver.
    + intros ((e & He & Hs) & Hl & w & Hw & <-). exists e. split; [|done]. split; [|done].
      by eapply (pi_apart _ _ _ _ Hinv).
  - intros k w Hw. destruct (pi_winner _ _ _ _ Hinv k w Hw) as ((e & Hin & Hs & _) & ? & ?).
    apply elem_of_ReadDir in Hin. apply Hseen in Hs. unfold snapshot_in. eauto.
  - intros n ns (e & He & Hs) Hl. apply elem_of_ReadDir in He. apply Hseen in Hs.
    destruct (pi_newest _ _ _ _ Hinv n e ns) as (w & ? & ? & _); eauto.
Qed.

End Kept.

(** ** The retention policy *)

Lemma live_age now ns : live now ns ↔ now - ns ≤ maxAge.
Proof. unfold live. apply time_sub_le. unfold maxAge, Hour, Minute, Second, min64, max64. lia. Qed.

Section Retained.
Context (F : faults) (now : Z) (dir : gmap string dirent).
Hypothesis (Hok : prune_ok F).

Lemma kept_age n ns : snapshot_in (prune F now dir).1 n ns → now - ns ≤ maxAge.
Proof.
  destruct (kept_winner F now dir Hok) as (b & Hkept & _). intros (_ & Hl & _)%Hkept.
  by apply live_age.
Qed.

Lemma kept_unique n1 ns1 n2 ns2 :
  snapshot_in (prune F now dir).1 n1 ns1 → snapshot_in (prune F now dir).1 n2 ns2 →
  key_of now ns1 = key_of now ns2 → n1 = n2.
Proof.
  destruct (kept_winner F now dir Hok) as (b & Hkept & _).
  intros (_ & _ & w1 & E1 & <-)%Hkept (_ & _ & w2 & E2 & <-)%Hkept Hk. congruence.
Qed.

Lemma kept_newest n ns :
  snapshot_in dir n ns → now - ns ≤ maxAge →
  ∃ n' ns', snapshot_in (prune F now dir).1 n' ns' ∧ key_of now ns' = key_of now ns ∧ ns ≤ ns'.
Proof.
  destruct (kept_winner F now dir Hok) as (b & Hkept & Hwin & Hnew).
  intros Hin Hl%live_age. destruct (Hnew n ns Hin Hl) as (w & Hw & Hle).
  destruct (Hwin _ _ Hw) as (Hw1 & Hw2 & Hw3). exists (e_path w), (e_ns w).
  split_and!; [|done..]. apply Hkept. rewrite Hw3. eauto.
Qed.

End Retained.


(** The buckets the tiers have: thirteen of 5 minutes, 168 of an hour, 84 of a day. *)
Definition all_keys : list (Z * Z) :=
  (pair 0 <$> seqZ 0 13) ++ (pair 1 <$> seqZ 1 168) ++ (pair 2 <$> seqZ 7 84).

Lemma in_pair_seqZ (t k from n : Z) :
  from ≤ k < from + n → (t, k) ∈ pair t <$> seqZ from n.
Proof. intros H. apply list_elem_of_fmap. exists k. by rewrite elem_of_seqZ. Qed.

Lemma key_in_all_keys now ns : live now ns → key_of now ns ∈ all_keys.
Proof.
  unfold live, key_of, bucket_key. generalize (time_sub now ns). intros age Hage.
  set (a := if age <? 0 then 0 else age).
  assert (0 ≤ a ≤ maxAge) as Ha.
  { subst a. unfold maxAge, Hour, Minute, Second in *. destruct (Z.ltb_spec age 0); lia. }
  clearbody a. unfold all_keys. rewrite !elem_of_app. unfold retentionTiers.
  cbn [tier_key horizon bucket]. unfold maxAge, Hour, Minute, Second in *.
  destruct (Z.leb_spec a (60 * (60 * 1000000000)));
    [left|destruct (Z.leb_spec a (7 * 24 * (60 * (60 * 1000000000))));
      [right; left|rewrite (proj2 (Z.leb_le _ _)) by lia; right; right]];
    apply in_pair_seqZ; Z.to_euclidean_division_equations; lia.
Qed.

(** Retention bounds the store: however many snapshots were written, a prune
    leaves at most 265 of them. *)
Theorem prune_bound F now dir names :
  prune_ok F → NoDup names →
  (∀ n, n ∈ names → ∃ ns, snapshot_in (prune F now dir).1 n ns) →
  (length names ≤ 265)%nat.
Proof.
  intros Hok Hnd Hin.
  set (key n := match (prune F now dir).1 !! n with
                | Some e => key_of now (default 0 (snapshot_ns n e)) | None => (0, 0) end).
  assert (Hkey : ∀ n ns, snapshot_in (prune F now dir).1 n ns → key n = key_of now ns).
  { intros n ns (e & He & Hs). unfold key. by rewrite He, Hs. }
  assert (NoDup (key <$> names)) as Hnd'.
  { apply NoDup_fmap_2_strong; [|done]. intros n1 n2 H1 H2 Hk.
    destruct (Hin n1 H1) as [ns1 S1], (Hin n2 H2) as [ns2 S2].
    apply (kept_unique F now dir Hok n1 ns1 n2 ns2); [done..|]. by rewrite <- (Hkey n1), <- (Hkey n2). }
  change 265%nat with (length all_keys). rewrite <- (length_fmap key).
  apply submseteq_length, NoDup_submseteq; [done|].
  intros k (n & -> & Hn)%list_elem_of_fmap. destruct (Hin n Hn) as [ns Hns].
  rewrite (Hkey n ns Hns). apply key_in_all_keys, live_age. by eapply kept_age.
Qed.

(** ** Snapshot names *)

Lemma snapshot_ns_name now data :
  in64 now → snapshot_ns (snapshot_name now) (EFile data) = Some now.
Proof.
  intros H. unfold snapshot_ns, snapshot_name.
  rewrite HasSuffix_append, TrimSuffix_append. by apply ParseInt_Itoa.
Qed.

#[export] Instance snapshot_name_inj : Inj (=) (=) snapshot_name.
Proof. unfold snapshot_name. intros m n H%append_inj_r. by apply (inj Itoa). Qed.

(** The last bytes of a name decide whether it is a snapshot: a temporary file
    is not one. *)
Lemma drop_bytes_suffix s t u :
  String.length t = String.length u →
  drop_bytes (String.length (s +:+ t) - String.length u) (s +:+ t) = t.
Proof.
  intros E. rewrite length_append, E.
  replace (String.length s + String.length u - String.length u)%nat with (String.length s) by lia.
  apply drop_bytes_append.
Qed.

Lemma tmp_HasSuffix name : HasSuffix (name +:+ ".json.tmp") ".json" = false.
Proof.
  unfold HasSuffix.
  replace (name +:+ ".json.tmp") with ((name +:+ ".jso") +:+ "n.tmp")
    by (rewrite <- append_assoc; done).
  rewrite drop_bytes_suffix by done. by rewrite andb_false_r.
Qed.

Lemma tmp_name now : snapshot_name now +:+ ".tmp" = Itoa now +:+ ".json.tmp".
Proof. unfold snapshot_name. by rewrite <- append_assoc. Qed.

Lemma tmp_not_snapshot now e : snapshot_ns (snapshot_name now +:+ ".tmp") e = None.
Proof. unfold snapshot_ns. destruct e; [|done]. by rewrite tmp_name, tmp_HasSuffix. Qed.

Lemma tmp_ne_name now n : snapshot_name now +:+ ".tmp" ≠ snapshot_name n.
Proof.
  intros H. pose proof (HasSuffix_append (Itoa n) ".json") as Hn.
  change (Itoa n +:+ ".json") with (snapshot_name n) in Hn.
  by rewrite <- H, tmp_name, tmp_HasSuffix in Hn.
Qed.

(** ** Reading the newest snapshot *)

(** The scan ends on a snapshot of greatest positive timestamp, if there is one. *)
Lemma newest_fold L best :
  let r := foldl newest_step best L in
  (r = best ∨ ∃ e, (r.1, e) ∈ L ∧ snapshot_ns r.1 e = Some r.2 ∧ best.2 < r.2) ∧
  best.2 ≤ r.2 ∧ (∀ n e ns, (n, e) ∈ L → snapshot_ns n e = Some ns → ns ≤ r.2).
Proof.
  revert best. induction L as [|[n e] L IH]; intros best; simpl.
  { split_and!; [by left|lia|]. by intros ??? ?%not_elem_of_nil. }
  assert (∃ r0, newest_step best (n, e) = r0 ∧ best.2 ≤ r0.2 ∧
    (r0 = best ∨ r0.1 = n ∧ snapshot_ns n e = Some r0.2 ∧ best.2 < r0.2) ∧
    (∀ ns, snapshot_ns n e = Some ns → ns ≤ r0.2)) as (r0 & -> & S1 & S2 & S3).
  { eexists. split; [done|]. unfold newest_step. simpl.
    destruct (snapshot_ns n e) as [ns|]; [|naive_solver lia].
    destruct (Z.ltb_spec best.2 ns); simpl; naive_solver lia. }
  destruct (IH r0) as (IH1 & IH2 & IH3). set (r := foldl newest_step r0 L) in *. clearbody r.
  split_and!; [|lia|].
  - destruct IH1 as [->|(e' & Hin & Hs & Hlt)].
    + destruct S2 as [->|(<- & ? & ?)]; [by left|]. right. exists e. split_and!; [|done..].
      apply elem_of_cons. by left.
    + right. exists e'. split_and!; [|done|lia]. apply elem_of_cons. by right.
  - intros n' e' ns [[= -> ->]|?]%elem_of_cons Hns; [|eauto]. specialize (S3 ns Hns). lia.
Qed.

Lemma newestFile_spec dir name now :
  snapshot_in dir name now → 0 < now →
  (∀ n ns, snapshot_in dir n ns → n ≠ name → ns < now) →
  newestFile no_faults (Some dir) = Ok name.
Proof.
  intros (e & He & Hs) Hpos Hlt. unfold newestFile. simpl.
  pose proof (newest_fold (ReadDir dir) ("", 0)) as (H1 & _ & H3). simpl in *.
  destruct (foldl newest_step ("", 0) (ReadDir dir)) as [n ns] eqn:E. simpl in *.
  apply elem_of_ReadDir in He. pose proof (H3 _ _ _ He Hs) as Hle.
  destruct H1 as [[= -> ->]|(e' & Hin & Hs' & _)]; [lia|].
  apply elem_of_ReadDir in Hin.
  destruct (decide (n = name)) as [->|Hne].
  - case_decide as Hn; [|done]. subst. by destruct e.
  - specialize (Hlt n ns ltac:(by exists e') Hne). lia.
Qed.

(** ** What a successful write leaves *)

Section Write.
Context `{!Json A} (now : Z) (v : A) (data : string) (d : option (gmap string dirent)).
Hypothesis (Hv : Marshal v = Some data) (Hnow : in64 now).

(** The directory the prune of a write starts from. *)
Definition written : gmap string dirent :=
  <[snapshot_name now := EFile data]> (delete (snapshot_name now +:+ ".tmp") (default ∅ d)).

Lemma writeLocked_ok :
  is_dir (default ∅ d) (snapshot_name now) = false →
  writeLocked no_faults now v d =
    (Ok (len data - (prune no_faults now written).2), Some (prune no_faults now written).1).
Proof.
  intros Hd. unfold writeLocked. rewrite Hv. simpl. rewrite Hd.
  fold written. by destruct (prune no_faults now written).
Qed.

Lemma snapshot_in_written n ns :
  snapshot_in written n ns ↔
  (n = snapshot_name now ∧ ns = now) ∨ (n ≠ snapshot_name now ∧ snapshot_in (default ∅ d) n ns).
Proof.
  unfold snapshot_in, written. split.
  - intros (e & [[<- <-]|[Hne He]]%lookup_insert_Some & Hs).
    + rewrite snapshot_ns_name in Hs by done. naive_solver.
    + apply lookup_delete_Some in He as [? ?]. naive_solver.
  - intros [[-> ->]|(Hne & e & He & Hs)].
    + exists (EFile data). rewrite lookup_insert_eq. by rewrite snapshot_ns_name.
    + exists e. rewrite lookup_insert_ne by done. split; [|done].
      rewrite lookup_delete_ne; [done|]. intros <-. by rewrite tmp_not_snapshot in Hs.
Qed.

(** With no snapshot from the future, the new snapshot survives its own prune. *)
Lemma written_kept :
  (∀ n ns, snapshot_in (default ∅ d) n ns → n ≠ snapshot_name now → ns < now) →
  snapshot_in (prune no_faults now written).1 (snapshot_name now) now.
Proof.
  intros Hpast.
  destruct (kept_newest no_faults now written ltac:(by split_and!) (snapshot_name now) now)
    as (n & ns & Hin & _ & Hle).
  - apply snapshot_in_written. by left.
  - unfold maxAge, Hour, Minute, Second. lia.
  - pose proof Hin as Hin'. destruct Hin' as (e & He & Hs).
    eapply lookup_weaken in He; [|apply prune_subseteq].
    assert (snapshot_in written n ns) as [[-> ->]|[Hne Hd]]%snapshot_in_written by (by exists e); [done|].
    specialize (Hpast n ns Hd Hne). lia.
Qed.

Lemma kept_written n ns :
  snapshot_in (prune no_faults now written).1 n ns → snapshot_in written n ns.
Proof.
  intros (e & He & Hs). exists e. split; [|done]. eapply lookup_weaken; [done|apply prune_subseteq].
Qed.

End Write.

(** No snapshot of the domain other than the one being written is from [now] or later. *)
Definition in_past (d : option (gmap string dirent)) (now : Z) : Prop :=
  ∀ n ns, snapshot_in (default ∅ d) n ns → n ≠ snapshot_name now → ns < now.

(** After a successful write the current document is the one written. *)
Lemma read_written `{!Json A} `{!Json B} (now : Z) (v : A) d delta d' (dst : B) :
  writeLocked no_faults now v d = (Ok delta, d') → in64 now → 0 < now → in_past d now →
  ∃ data, Marshal v = Some data ∧
    readCurrentLocked no_faults d' dst =
      (let '(w, ok) := Unmarshal data dst in (w, if ok : bool then None else Some EParse)).
Proof.
  intros Hw Hnow Hpos Hpast. destruct (Marshal v) as [data|] eqn:Hv;
    [|unfold writeLocked in Hw; by rewrite Hv in Hw].
  exists data. split; [done|].
  assert (is_dir (default ∅ d) (snapshot_name now) = false) as Hdir.
  { unfold writeLocked in Hw. rewrite Hv in Hw. simpl in Hw. by destruct (is_dir _ _). }
  rewrite (writeLocked_ok now v data d Hv Hdir) in Hw. simplify_eq.
  pose proof (written_kept now data d Hnow Hpast) as Hkept. unfold readCurrentLocked.
  rewrite (newestFile_spec _ (snapshot_name now) now); [|done..|].
  - destruct Hkept as (e & He & _). unfold ReadFile. simpl. rewrite He.
    eapply lookup_weaken in He; [|apply prune_subseteq].
    unfold written in He. rewrite lookup_insert_eq in He. by simplify_eq.
  - intros n ns Hin%kept_written Hne. apply snapshot_in_written in Hin; [|done].
    destruct Hin as [[? _]|[_ ?]]; [done|]. by apply (Hpast n).
Qed.

(** Write then read: a snapshot written when the domain holds no snapshot
    from the future is the one [ReadCurrent] returns. *)
Theorem write_read `{!Json A, !JsonRoundtrip A} (now : Z) (v : A) data d :
  Marshal v = Some data → in64 now → 0 < now →
  is_dir (default ∅ d) (snapshot_name now) = false → in_past d now →
  ∃ delta d', Write no_faults now v (Some d) = (Ok delta, Some d') ∧
              ReadCurrent no_faults (Some d') zero = (v, None).
Proof.
  intros Hv Hnow Hpos Hdir Hpast. pose proof (writeLocked_ok now v data d Hv Hdir) as Hw.
  unfold Write. rewrite Hw. eexists _, _. split; [done|].
  destruct (read_written now v d _ _ (zero : A) Hw Hnow Hpos Hpast) as (data' & Hv' & Hr).
  rewrite Hv in Hv'. injection Hv' as <-. cbn [ReadCurrent]. by rewrite Hr, (unmarshal_marshal v data Hv).
Qed.

(** Keyed domains: after [SetKey], [GetKey] of that key returns the value,
    and every other key of the domain keeps the value it had. *)
Theorem setkey_getkey `{!RawJson, !RawJsonRoundtrip, !Json V, !JsonRoundtrip V, !JsonCompact V}
    now key (v : V) d delta d' :
  SetKey no_faults now key v (Some d) = (Ok delta, Some d') →
  in64 now → 0 < now → in_past d now →
  GetKey no_faults (Some d') key zero = (v, None) ∧
  (∀ key', key' ≠ key →
     match AllKeys no_faults (Some d) !! key' with
     | Some raw => ∃ raw', AllKeys no_faults (Some d') !! key' = Some raw' ∧ compact raw' = compact raw
     | None => AllKeys no_faults (Some d') !! key' = None
     end).
Proof.
  intros Hset Hnow Hpos Hpast. unfold SetKey in Hset.
  destruct (Marshal v) as [val|] eqn:Hv; [|done]. unfold Update in Hset.
  assert (Hcur : AllKeys no_faults (Some d) = (readCurrentLocked no_faults d (∅ : gmap string string)).1).
  { unfold AllKeys, ReadCurrent, readCurrentLocked.
    destruct (newestFile no_faults d); [|done]. destruct (ReadFile _ _ _); [|done].
    simpl. by destruct (UnmarshalRaw _). }
  rewrite Hcur. clear Hcur.
  destruct (readCurrentLocked no_faults d ∅) as [cur err]. cbn [fst].
  destruct (writeLocked no_faults now (<[key := val]> cur) d) as [r d1] eqn:Hw.
  injection Hset as -> ->.
  destruct (read_written now _ d delta d' (∅ : gmap string string) Hw Hnow Hpos Hpast)
    as (doc & Hdoc & Hr). simpl in Hdoc, Hr.
  destruct (raw_roundtrip _ _ Hdoc) as (m' & Hm' & Hc). rewrite Hm', map_union_empty in Hr.
  split.
  - unfold GetKey, ReadCurrent. rewrite Hr.
    pose proof (compact_lookup _ _ key Hc) as Hk. rewrite lookup_insert_eq in Hk.
    destruct Hk as (raw' & -> & Hraw).
    by rewrite (unmarshal_same_compact raw' val), (unmarshal_marshal v val Hv).
  - intros key' Hne. unfold AllKeys, ReadCurrent. rewrite Hr.
    pose proof (compact_lookup _ _ key' Hc) as Hk. by rewrite lookup_insert_ne in Hk by done.
Qed.

(** Byte accounting: whatever deletions fail, the delta a successful write
    reports is exactly the change of the bytes stored in the domain, as long as
    the snapshot's file name is new. *)
Lemma write_accounting `{!Json A} F now (v : A) d delta d' :
  writeLocked F now v d = (Ok delta, d') →
  default ∅ d !! snapshot_name now = None →
  default ∅ d !! (snapshot_name now +:+ ".tmp") = None →
  dir_bytes (default ∅ d') = dir_bytes (default ∅ d) + delta.
Proof.
  intros Hw Hn Ht. unfold writeLocked in Hw.
  destruct (Marshal v) as [data|]; [|done]. destruct (f_mkdir F); [done|].
  destruct (f_write F); [done|]. destruct (f_rename F || _); [done|].
  rewrite (delete_id _ (_ +:+ ".tmp")) in Hw by done.
  pose proof (prune_bytes F now (<[snapshot_name now := EFile data]> (default ∅ d))) as Hb.
  destruct (prune F now _) as [dir'' pruned]. simplify_eq/=.
  rewrite dir_bytes_insert in Hb by done. simpl in Hb. lia.
Qed.

Lemma failed_write_files `{!Json A} F now (v : A) d err d' n :
  writeLocked F now v d = (Err err, d') → n ≠ snapshot_name now +:+ ".tmp" →
  default ∅ d' !! n = default ∅ d !! n.
Proof.
  intros Hw Hne. unfold writeLocked in Hw.
  destruct (Marshal v) as [data|]; [|by simplify_eq]. destruct (f_mkdir F); [by simplify_eq|].
  destruct (f_write F) as [[part|]|]; simplify_eq/=; [by rewrite lookup_insert_ne|done|].
  destruct (f_rename F || _); [|by destruct (prune F now _)].
  simplify_eq/=. destruct (f_remove F _); [by rewrite lookup_insert_ne|by rewrite lookup_delete_ne].
Qed.

Lemma failed_write_snapshots `{!Json A} F now (v : A) d err d' n ns :
  writeLocked F now v d = (Err err, d') →
  snapshot_in (default ∅ d') n ns ↔ snapshot_in (default ∅ d) n ns.
Proof.
  intros Hw. unfold snapshot_in. destruct (decide (n = snapshot_name now +:+ ".tmp")) as [->|Hne].
  - split; intros (e & _ & Hs); by rewrite tmp_not_snapshot in Hs.
  - by rewrite (failed_write_files F now v d err d' n Hw Hne).
Qed.

(** C22. Atomic writes: when a write fails, whatever the system call, every entry
    other than its own temporary file is as it was, so no snapshot appears,
    disappears or changes. *)
Theorem write_atomic `{!Json A} F now (v : A) d err d' :
  writeLocked F now v d = (Err err, d') →
  (∀ n, n ≠ snapshot_name now +:+ ".tmp" → default ∅ d' !! n = default ∅ d !! n) ∧
  (∀ n ns, snapshot_in (default ∅ d') n ns ↔ snapshot_in (default ∅ d) n ns).
Proof.
  intros Hw. split; intros.
  - by eapply failed_write_files.
  - by eapply failed_write_snapshots.
Qed.

(** ** How history accumulates *)

(** Writes at the given instants, oldest first, of values that encode to [doc t]. *)
Definition run_writes `{!Json A} (val : Z → A) (ts : list Z) (d : option (gmap string dirent)) :
    option (gmap string dirent) :=
  foldl (λ d t, (writeLocked no_faults t (val t) d).2) d ts.

(** The snapshots of the directory are exactly those taken at the instants [ts]. *)
Definition holds_exactly (d : option (gmap string dirent)) (ts : list Z) : Prop :=
  (∀ n ns, snapshot_in (default ∅ d) n ns ↔ n = snapshot_name ns ∧ ns ∈ ts) ∧
  (∀ n, default ∅ d !! n ≠ Some EDir).

(** One write: the survivors are the bucket winners among the old instants and
    the new one. *)
Lemma write_survivors `{!Json A} (val : Z → A) d ts now ts' :
  (∀ t, is_Some (Marshal (val t))) → in64 now → holds_exactly d ts →
  (∀ t, t ∈ ts' → t ∈ now :: ts ∧ now - t ≤ maxAge) →
  (∀ t u, t ∈ ts' → u ∈ now :: ts → key_of now u = key_of now t → u ≤ t) →
  (∀ t, t ∈ now :: ts → now - t ≤ maxAge → ∃ u, u ∈ ts' ∧ key_of now u = key_of now t) →
  holds_exactly (writeLocked no_faults now (val now) d).2 ts'.
Proof.
  intros Hm Hnow [Hh Hnd] Hsub Hmax Hcov.
  destruct (Hm now) as [data Hdata].
  assert (is_dir (default ∅ d) (snapshot_name now) = false) as Hdir.
  { unfold is_dir. specialize (Hnd (snapshot_name now)). by destruct (_ !! _) as [[]|]. }
  rewrite (writeLocked_ok now (val now) data d Hdata Hdir). simpl.
  assert (Hw : ∀ n ns, snapshot_in (written now data d) n ns ↔ n = snapshot_name ns ∧ ns ∈ now :: ts).
  { intros n ns. rewrite snapshot_in_written, Hh, elem_of_cons by done. split.
    - intros [[-> ->]|(_ & -> & ?)]; auto.
    - intros [-> Hns]. destruct (decide (ns = now)) as [->|Hne]; [by left|right].
      split; [by intros ?%(inj snapshot_name)|]. destruct Hns; done. }
  assert (Hok : prune_ok no_faults) by done.
  split.
  - intros n ns. split.
    + intros Hin. pose proof (kept_written _ _ _ _ _ Hin) as Hin'. apply Hw in Hin' as [-> Hin'].
      split; [done|]. pose proof (kept_age _ now (written now data d) Hok _ _ Hin) as Hage.
      destruct (Hcov ns Hin' Hage) as (u & Hu & Hk). destruct (Hsub u Hu) as [Hu' Hua].
      destruct (kept_newest _ now (written now data d) Hok (snapshot_name u) u)
        as (n' & u' & Hn' & Hk' & Hle); [by apply Hw|done|].
      pose proof (kept_written _ _ _ _ _ Hn') as Hn''. apply Hw in Hn'' as [-> Hu''].
      assert (u' = u) as -> by (apply Z.le_antisymm; [apply Hmax; congruence|done]).
      assert (snapshot_name u = snapshot_name ns) as Heq%(inj snapshot_name)
        by (by apply (kept_unique _ now (written now data d) Hok _ u _ ns)).
      by subst.
    + intros [-> Hns]. destruct (Hsub ns Hns) as [Hin Hage].
      destruct (kept_newest _ now (written now data d) Hok (snapshot_name ns) ns)
        as (n' & u' & Hn' & Hk' & Hle); [by apply Hw|done|].
      pose proof (kept_written _ _ _ _ _ Hn') as Hn''. apply Hw in Hn'' as [-> Hu''].
      assert (u' = ns) as -> by (apply Z.le_antisymm; [by apply Hmax|done]). done.
  - intros n Hn. eapply lookup_weaken in Hn; [|apply prune_subseteq]. unfold written in Hn.
    apply lookup_insert_Some in Hn as [[_ ?]|[_ Hn]]; [done|].
    apply lookup_delete_Some in Hn as [_ ?]. by eapply Hnd.
Qed.

Lemma key_of_exact now t d : now - t = d → 0 ≤ d ≤ maxAge → key_of now t = bucket_key d.
Proof.
  intros <- Hd. unfold key_of. rewrite time_sub_exact; [done|].
  unfold in64, min64, max64, maxAge, Hour, Minute, Second in *. lia.
Qed.

Lemma bucket_key_new d : 0 ≤ d < 5 * Minute → bucket_key d = (0, 0).
Proof.
  unfold bucket_key, retentionTiers, Minute, Second. intros H.
  destruct (Z.ltb_spec d 0); [lia|]. cbn [tier_key horizon bucket]. unfold Minute, Second.
  rewrite (proj2 (Z.leb_le _ _)) by lia. by rewrite Z.quot_small by lia.
Qed.

Lemma holds_exactly_nil : holds_exactly None [].
Proof.
  split; [|done]. intros n ns. split; [|by intros [_ ?%not_elem_of_nil]].
  by intros (e & He & _).
Qed.

(** Consecutive instants of [t :: ts] are more than 0 and less than [g] apart. *)
Fixpoint spaced (g t : Z) (ts : list Z) : Prop :=
  match ts with
  | [] => True
  | u :: us => 0 < u - t < g ∧ spaced g u us
  end.

Fixpoint last_instant (t : Z) (ts : list Z) : Z :=
  match ts with
  | [] => t
  | u :: us => last_instant u us
  end.

Lemma rapid_step `{!Json A} (val : Z → A) d t now :
  (∀ t, is_Some (Marshal (val t))) → in64 now → 0 < now - t < 5 * Minute →
  holds_exactly d [t] → holds_exactly (writeLocked no_faults now (val now) d).2 [now].
Proof.
  intros Hm Hnow Hgap Hd.
  assert (maxAge > 5 * Minute) as HmA by (unfold maxAge, Hour, Minute, Second; lia).
  assert (Hk : ∀ u, u ∈ [now; t] → key_of now u = (0, 0)).
  { intros u [->|[->|?%not_elem_of_nil]%elem_of_cons]%elem_of_cons; [..|done].
    - rewrite (key_of_exact now now 0) by lia. apply bucket_key_new. lia.
    - rewrite (key_of_exact now t (now - t)) by lia. by apply bucket_key_new; lia. }
  apply (write_survivors val d [t]); [done..| | |].
  - intros u ->%list_elem_of_singleton. split; [apply elem_of_cons; by left|lia].
  - intros u w ->%list_elem_of_singleton Hw _.
    apply elem_of_cons in Hw as [->| ->%list_elem_of_singleton]; lia.
  - intros u Hu _. exists now. rewrite list_elem_of_singleton. split; [done|].
    rewrite !Hk; [done|done|apply elem_of_cons; by left].
Qed.

Lemma first_write `{!Json A} (val : Z → A) now :
  (∀ t, is_Some (Marshal (val t))) → in64 now →
  holds_exactly (writeLocked no_faults now (val now) None).2 [now].
Proof.
  intros Hm Hnow. apply (write_survivors val None []); [done|done|apply holds_exactly_nil|..].
  - intros t Ht. split; [done|]. apply list_elem_of_singleton in Ht as ->.
    unfold maxAge, Hour, Minute, Second. lia.
  - intros t u ->%list_elem_of_singleton ->%list_elem_of_singleton _. lia.
  - intros t Ht _. eauto.
Qed.

(** Buckets are measured from the time of the write, so a domain that is
    written more often than every five minutes keeps no history at all: after
    any such run of writes only the last snapshot is left. *)
Theorem rapid_writes_keep_one `{!Json A} (val : Z → A) t ts :
  (∀ t, is_Some (Marshal (val t))) → Forall in64 (t :: ts) → spaced (5 * Minute) t ts →
  holds_exactly (run_writes val (t :: ts) None) [last_instant t ts].
Proof.
  intros Hm H64 Hsp. apply Forall_cons in H64 as [Ht H64].
  cbn [run_writes foldl]. pose proof (first_write val t Hm Ht) as Hd.
  revert Hd. generalize ((writeLocked no_faults t (val t) None).2) as d.
  revert t Ht Hsp. induction ts as [|u us IH]; intros t Ht Hsp d Hd; [done|].
  apply Forall_cons in H64 as [Hu H64]. destruct Hsp as [Hg Hsp].
  cbn [foldl].
  apply (IH H64 u Hu Hsp). by apply (rapid_step val d t u).
Qed.

(** ** A domain written every five minutes *)

Section FiveMinutes.
Context `{!Json A} (val : Z → A) (t0 : Z).
Hypothesis (Hm : ∀ t, is_Some (Marshal (val t))).

(** The instant of the [i]-th write, and of the writes from [i] up to [j]. *)
Definition instant (i : Z) : Z := t0 + i * (5 * Minute).
Definition instants (i j : Z) : list Z := instant <$> seqZ i (j - i).

Lemma elem_of_instants i j t : t ∈ instants i j ↔ ∃ k, t = instant k ∧ i ≤ k < j.
Proof.
  unfold instants. rewrite list_elem_of_fmap. setoid_rewrite elem_of_seqZ.
  split; intros (k & ? & ?); exists k; (split; [done|lia]).
Qed.

(** The bucket of a snapshot that is [d] periods old. *)
Definition key_after (d : Z) : Z * Z := bucket_key (d * (5 * Minute)).

Lemma key_of_instant n k : n - 14 ≤ k ≤ n → key_of (instant n) (instant k) = key_after (n - k).
Proof.
  intros H. apply key_of_exact; unfold instant, maxAge, Hour, Minute, Second; lia.
Qed.

(** Fifteen consecutive ages: all in buckets of their own, but the last two. *)
Lemma key_after_table d d' :
  0 ≤ d ≤ 13 → 0 ≤ d' ≤ 14 → key_after d' = key_after d → d ≤ d'.
Proof.
  intros Hd Hd'.
  assert (∀ x y, x ∈ seqZ 0 14 → y ∈ seqZ 0 15 → key_after y = key_after x → x ≤ y) as H.
  { intros x y Hx Hy.
    cut (Forall (λ x, Forall (λ y, key_after y = key_after x → x ≤ y) (seqZ 0 15)) (seqZ 0 14)).
    { intros H. rewrite Forall_forall in H. specialize (H x Hx).
      rewrite Forall_forall in H. by apply H. }
    clear. refine (bool_decide_eq_true_1 _ _). vm_compute. done. }
  apply H; apply elem_of_seqZ; lia.
Qed.

Lemma key_after_last : key_after 14 = key_after 13.
Proof. done. Qed.

Lemma five_minute_step n d :
  0 ≤ n → in64 (instant n) →
  holds_exactly d (instants (Z.max 0 (n - 14)) n) →
  holds_exactly (writeLocked no_faults (instant n) (val (instant n)) d).2
                (instants (Z.max 0 (n - 13)) (n + 1)).
Proof.
  intros Hn H64 Hd.
  assert (Hin : ∀ t, t ∈ instant n :: instants (Z.max 0 (n - 14)) n ↔
                     ∃ k, t = instant k ∧ Z.max 0 (n - 14) ≤ k ≤ n).
  { intros t. rewrite elem_of_cons, elem_of_instants. split.
    - intros [->|(k & -> & ?)]; [exists n|exists k]; (split; [done|lia]).
    - intros (k & -> & ?). destruct (decide (k = n)) as [->|]; [by left|right].
      exists k. split; [done|lia]. }
  apply (write_survivors val d (instants (Z.max 0 (n - 14)) n)); [done..| | |].
  - intros t (k & -> & Hk)%elem_of_instants. split; [apply Hin; exists k; split; [done|lia]|].
    unfold instant, maxAge, Hour, Minute, Second. lia.
  - intros t u (k & -> & Hk)%elem_of_instants (j & -> & Hj)%Hin.
    rewrite !key_of_instant by lia. intros Hkey%key_after_table; [|lia..].
    unfold instant, Minute, Second. lia.
  - intros t (k & -> & Hk)%Hin _.
    destruct (decide (k = n - 14)) as [->|Hne].
    + exists (instant (n - 13)). split; [apply elem_of_instants; exists (n - 13); split; [done|lia]|].
      rewrite !key_of_instant by lia. replace (n - (n - 13)) with 13 by lia.
      replace (n - (n - 14)) with 14 by lia. by rewrite key_after_last.
    + exists (instant k). split; [apply elem_of_instants; exists k; split; [done|lia]|done].
Qed.

(** The hourly and daily tiers never fill: a domain written every five
    minutes holds exactly its last fourteen snapshots, so nothing older than 65
    minutes, however long it has been running. *)
Theorem five_minute_writes_history (n : nat) :
  (∀ k, 0 ≤ k < Z.of_nat n → in64 (instant k)) →
  holds_exactly (run_writes val (instants 0 (Z.of_nat n)) None)
                (instants (Z.max 0 (Z.of_nat n - 14)) (Z.of_nat n)).
Proof.
  induction n as [|n IH]; intros H64.
  { unfold instants. simpl. apply holds_exactly_nil. }
  assert (instants 0 (Z.of_nat (S n)) = instants 0 (Z.of_nat n) ++ [instant (Z.of_nat n)]) as ->.
  { unfold instants. replace (Z.of_nat (S n) - 0) with (Z.of_nat n + 1) by lia.
    rewrite seqZ_app by lia. rewrite fmap_app. simpl. f_equal; f_equal; f_equal; lia. }
  unfold run_writes. rewrite foldl_app. simpl.
  replace (Z.of_nat (S n) - 14) with (Z.of_nat n - 13) by lia.
  replace (Z.of_nat (S n)) with (Z.of_nat n + 1) by lia.
  apply five_minute_step; [lia|apply H64; lia|]. apply IH. intros k Hk. apply H64. lia.
Qed.

End FiveMinutes.

(** ** A clock that went backwards *)

Lemma snapshot_in_fun dir n ns ns' : snapshot_in dir n ns → snapshot_in dir n ns' → ns = ns'.
Proof. intros (e & He & Hs) (e' & He' & Hs'). congruence. Qed.

Lemma key_of_future now ns : now ≤ ns → key_of now ns = (0, 0).
Proof.
  intros H. unfold key_of, bucket_key.
  assert (time_sub now ns ≤ 0) as Hle
    by (apply time_sub_le; [unfold min64, max64|]; lia).
  destruct (Z.ltb_spec (time_sub now ns) 0); [done|].
  by replace (time_sub now ns) with 0 by lia.
Qed.

(** A write is lost when the domain holds a snapshot from the future: the
    call reports success, and the prune it runs has deleted what it wrote. *)
Theorem future_snapshot_discards_write `{!Json A} now (v : A) data d n ns :
  Marshal v = Some data → in64 now →
  is_dir (default ∅ d) (snapshot_name now) = false →
  snapshot_in (default ∅ d) n ns → now < ns → n ≠ snapshot_name now →
  ∃ delta d', writeLocked no_faults now v d = (Ok delta, Some d') ∧
              ¬ snapshot_in d' (snapshot_name now) now.
Proof.
  intros Hv Hnow Hdir Hn Hlt Hne. rewrite (writeLocked_ok now v data d Hv Hdir).
  eexists _, _. split; [done|]. intros Hkept.
  destruct (kept_newest no_faults now (written now data d) ltac:(done) n ns)
    as (n' & ns' & Hn' & Hk & Hle).
  - apply snapshot_in_written; auto.
  - unfold maxAge, Hour, Minute, Second. lia.
  - assert (n' = snapshot_name now) as ->.
    { eapply (kept_unique no_faults now (written now data d)); [done..|].
      by rewrite Hk, !key_of_future by lia. }
    pose proof (snapshot_in_fun _ _ _ _ Hkept Hn'). lia.
Qed.
