(* ===== verification/StoreFacts.v ===== *)
(** * Correctness of the attribute store and of the root store's byte counter *)

From S2P Require Import Prelude GoStrings Json Memory MemoryFacts.

Import Domain.

Section Attributes.
Context `{!RawJson, !RawJsonRoundtrip}.

(** The attributes a file holds, as [Set] and [Delete] see them. *)
Definition attr_map (file : option string) : gmap string string :=
  (Attrs.load_attrs no_faults file).2.

(** Reading one key of a file that was just stored. *)
Lemma get_stored oldSize (m : gmap string string) file delta file' :
  Attrs.store_attrs no_faults oldSize m file = (Ok delta, file') →
  ∃ doc m', file' = Some doc ∧ delta = len doc - oldSize ∧ MarshalRawIndent m = Some doc ∧
            UnmarshalRaw doc = Some m' ∧ (compact <$> m') = (compact <$> m).
Proof.
  unfold Attrs.store_attrs. destruct (MarshalRawIndent m) as [doc|] eqn:E; [|done].
  simpl. intros [= <- <-]. destruct (raw_indent_roundtrip m doc E) as (m' & ? & ?). eauto 10.
Qed.

(** What [Get] of [key] gives on the file: the attribute [raw], or none. *)
Definition get_is `{!Json V} (file : option string) (key : string) (dst : V) (raw : option string) : Prop :=
  Attrs.Get no_faults key (Some file) dst =
  match raw with
  | Some raw => let '(v, ok) := Unmarshal raw dst in (v, if ok : bool then None else Some EParse)
  | None => (dst, Some (EKeyNotFound key))
  end.

Lemma get_after_store `{!Json V, !JsonCompact V} oldSize m file delta file' key (dst : V) :
  Attrs.store_attrs no_faults oldSize m file = (Ok delta, file') →
  get_is file' key dst (m !! key).
Proof.
  intros (doc & m' & -> & _ & _ & Hm' & Hc)%get_stored. unfold get_is. simpl. rewrite Hm'.
  pose proof (compact_lookup m m' key Hc) as Hk. destruct (m !! key) as [raw|].
  - destruct Hk as (raw' & -> & Hraw). by rewrite (unmarshal_same_compact raw' raw).
  - by rewrite Hk.
Qed.

(** Attributes: after a [Set], [Get] of that key returns the value stored,
    and [Get] of any other key, at any type, returns what the file held for it. *)
Theorem attrs_set_get `{!Json V, !JsonRoundtrip V, !JsonCompact V} key (v : V) file delta file' :
  Attrs.Set_ no_faults key v (Some file) = (Ok delta, Some file') →
  Attrs.Get no_faults key (Some file') zero = (v, None) ∧
  (∀ W (HW : Json W) (HC : JsonCompact W) key' (dst : W), key' ≠ key →
     get_is file' key' dst (attr_map file !! key')).
Proof.
  intros Hs. unfold Attrs.Set_ in Hs. cbn [f_mkdir no_faults] in Hs. unfold attr_map.
  destruct (Attrs.load_attrs no_faults file) as [oldSize attrs].
  destruct (Marshal v) as [val|] eqn:Hv; [|done].
  destruct (Attrs.store_attrs _ _ _ _) as [r file''] eqn:E. injection Hs as -> ->. split.
  - pose proof (get_after_store _ _ _ _ _ key zero E) as Hg. unfold get_is in Hg.
    rewrite Hg, lookup_insert_eq. by rewrite (unmarshal_marshal v val Hv).
  - intros W HW HC key' dst Hne. pose proof (get_after_store _ _ _ _ _ key' dst E) as Hg.
    by rewrite lookup_insert_ne in Hg by done.
Qed.

(** Deleting an attribute removes it and nothing else. *)
Theorem attrs_delete_get key file delta file' :
  Attrs.Delete no_faults key (Some file) = (Ok delta, Some file') →
  is_Some (attr_map file !! key) →
  ∀ W (HW : Json W) (HC : JsonCompact W) key' (dst : W),
    get_is file' key' dst (if decide (key' = key) then None else attr_map file !! key').
Proof.
  intros Hd. unfold Attrs.Delete in Hd. unfold attr_map.
  destruct (Attrs.load_attrs no_faults file) as [oldSize attrs]. cbn [snd].
  intros [raw Hraw]. rewrite Hraw in Hd.
  destruct (Attrs.store_attrs _ _ _ _) as [r file''] eqn:E. simplify_eq.
  intros W HW HC key' dst. pose proof (get_after_store _ _ _ _ _ key' dst E) as Hg.
  case_decide; [subst; by rewrite lookup_delete_eq in Hg|by rewrite lookup_delete_ne in Hg].
Qed.

End Attributes.

(** ** The byte counter *)

Section Counter.
Context `{!RawJson}.

Lemma load_attrs_size F file : f_read F "attrs.json" = false → (Attrs.load_attrs F file).1 = Store.attrs_bytes file.
Proof. intros Hr. destruct file; [|done]. cbn. by rewrite Hr. Qed.

Lemma domains_bytes_insert doms name dir :
  Store.domains_bytes (<[name := dir]> doms) =
  Store.domains_bytes doms - dir_bytes (default ∅ (doms !! name)) + dir_bytes dir.
Proof.
  unfold Store.domains_bytes. rewrite <- insert_delete_eq.
  rewrite map_fold_insert_L; [|intros; lia|apply lookup_delete_eq].
  destruct (doms !! name) as [old|] eqn:E.
  - rewrite <- (insert_delete_id doms name old E) at 2.
    rewrite map_fold_insert_L; [simpl; lia|intros; lia|apply lookup_delete_eq].
  - rewrite delete_id by done. simpl. change (dir_bytes ∅) with 0. lia.
Qed.

(** Counter and disk agree; nothing is stored under a root that does not exist. *)
Definition counted (s : Store.Store) : Prop :=
  Store.SizeBytes s = Store.dirSize s ∧
  (Store.s_exists s = false → Store.s_domains s = ∅ ∧ Store.s_attrs s = None).

(** No file of this name is in the domain yet. *)
Definition fresh (s : Store.Store) (name : string) (now : Z) : Prop :=
  let dir := default ∅ (Store.s_domains s !! name) in
  dir !! snapshot_name now = None ∧ dir !! (snapshot_name now +:+ ".tmp") = None.

(** A domain write that fails leaves no temporary file. *)
Definition tidy (F : faults) (now : Z) : Prop :=
  (∀ part, f_write F ≠ Some (Some part)) ∧ (f_rename F = true → f_remove F (snapshot_name now +:+ ".tmp") = false).

(** The attribute file can be read and replaced. *)
Definition attrs_usable (F : faults) : Prop :=
  f_read F "attrs.json" = false ∧ f_write F = None ∧ f_rename F = false.

(** One operation on the store: a domain write or update at an instant with no
    file yet, an attribute write or removal, a clear.  Deletions may fail, and domain
    writes that clean up. *)
Inductive step (s : Store.Store) : Store.Store → Prop :=
| step_write A (J : Json A) F name now (v : A) r s' :
    tidy F now → fresh s name now →
    Store.on_domain name (Write F now v) s = (r, s') → step s s'
| step_update A (J : Json A) F name now (dst : A) mutate r s' :
    tidy F now → fresh s name now →
    Store.on_domain name (Update F now dst mutate) s = (r, s') → step s s'
| step_set V (J : Json V) F key (v : V) r s' :
    attrs_usable F → Store.on_attrs (Attrs.Set_ F key v) s = (r, s') → step s s'
| step_delete F key r s' :
    attrs_usable F → Store.on_attrs (Attrs.Delete F key) s = (r, s') → step s s'
| step_clear F r s' :
    Store.Clear F s = (r, s') → step s s'.

Lemma writeLocked_counted A (J : Json A) F now (v : A) d r d' :
  tidy F now →
  default ∅ d !! snapshot_name now = None → default ∅ d !! (snapshot_name now +:+ ".tmp") = None →
  writeLocked F now v d = (r, d') →
  dir_bytes (default ∅ d') = dir_bytes (default ∅ d) + match r with Ok delta => delta | Err _ => 0 end ∧
  (d' = None → d = None).
Proof.
  intros [Hp Hr] Hn Ht Hw. destruct r as [delta|err].
  - split; [by eapply write_accounting|]. unfold writeLocked in Hw.
    repeat case_match; simplify_eq; done.
  - rewrite Z.add_0_r. unfold writeLocked in Hw. destruct (Marshal v); [|by simplify_eq].
    destruct (f_mkdir F); [by simplify_eq|]. destruct (f_write F) as [[part|]|]; [by destruct (Hp part)|by simplify_eq|].
    unfold is_dir in Hw. rewrite Hn, orb_false_r in Hw. destruct (f_rename F); [|by destruct (prune F now _)].
    rewrite Hr in Hw by done. rewrite delete_id in Hw by done. by simplify_eq.
Qed.

(** Running a counted operation on one domain. *)
Lemma on_domain_counted s name op r s' :
  counted s →
  (∀ r0 d, op (Some (Store.s_domains s !! name)) = (r0, d) → ∃ d', d = Some d' ∧
     dir_bytes (default ∅ d') = dir_bytes (default ∅ (Store.s_domains s !! name)) +
       match r0 with Ok delta => delta | Err _ => 0 end ∧
     (d' = None → Store.s_domains s !! name = None)) →
  Store.on_domain name op s = (r, s') → counted s'.
Proof.
  intros [Hsz Hex] Hop Hrun. unfold Store.on_domain in Hrun.
  destruct (op _) as [r0 d] eqn:E. destruct (Hop r0 d eq_refl) as (d' & -> & Hb & Hnone). clear Hop E.
  unfold counted, Store.SizeBytes, Store.dirSize in *.
  assert (Hdom : Store.domains_bytes (match d' with Some dir => <[name := dir]> (Store.s_domains s)
                  | None => Store.s_domains s end) =
    Store.domains_bytes (Store.s_domains s) + match r0 with Ok delta => delta | Err _ => 0 end).
  { destruct d' as [dir|]; [rewrite domains_bytes_insert; simpl in Hb; lia|].
    rewrite Hnone in Hb by done. simpl in Hb. destruct r0; lia. }
  assert (Hroot : Store.s_exists s = false →
    Store.domains_bytes (Store.s_domains s) + Store.attrs_bytes (Store.s_attrs s) = 0).
  { intros H0. destruct (Hex H0) as [-> ->]. done. }
  destruct d' as [dir|], r0 as [delta|err]; simplify_eq/=; split; try done;
    destruct (Store.s_exists s); try (specialize (Hroot eq_refl)); lia || naive_solver.
Qed.

(** An attribute operation reports the change of the file's size. *)
Lemma on_attrs_counted s op r s' :
  counted s →
  (∀ r0 a, op (Some (Store.s_attrs s)) = (r0, a) → ∃ file', a = Some file' ∧
     Store.attrs_bytes file' = Store.attrs_bytes (Store.s_attrs s) +
       match r0 with Ok delta => delta | Err _ => 0 end ∧
     (file' = None → Store.s_attrs s = None) ∧
     (∀ e, r0 = Err e → file' = Store.s_attrs s)) →
  Store.on_attrs op s = (r, s') → counted s'.
Proof.
  intros [Hsz Hex] Hop Hrun. unfold Store.on_attrs in Hrun.
  destruct (op _) as [r0 a] eqn:E. destruct (Hop r0 a eq_refl) as (file' & -> & Hb & Hnone & Herr).
  unfold counted, Store.SizeBytes, Store.dirSize in *.
  destruct r0 as [delta|err]; simplify_eq/=.
  - destruct (Store.s_exists s) eqn:Hs; simpl; [split; [lia|done]|].
    destruct (Hex eq_refl) as [Hd Ha]. rewrite Hd, Ha in *. simpl in *.
    destruct file' as [raw|]; simpl in *; (split; [|done]);
      change (Store.domains_bytes ∅) with 0; lia.
  - rewrite (Herr err eq_refl) in *. done.
Qed.

Lemma store_attrs_counted F attrs file r file' : attrs_usable F →
  Attrs.store_attrs F (Store.attrs_bytes file) attrs file = (r, file') →
  Store.attrs_bytes file' = Store.attrs_bytes file + match r with Ok delta => delta | Err _ => 0 end ∧
  (file' = None → file = None) ∧ (∀ e, r = Err e → file' = file).
Proof.
  intros (_ & Hf & Hr). unfold Attrs.store_attrs. rewrite Hf, Hr. destruct (MarshalRawIndent attrs); simpl; intros [= <- <-];
    (split_and!; [simpl; lia|done|done]).
Qed.

Lemma step_counted s1 s2 : step s1 s2 → counted s1 → counted s2.
Proof.
  intros Hstep Hc.
  inversion Hstep as [A J F name now v r s' Hf [F1 F2] Hop|A J F name now dst mutate r s' Hf [F1 F2] Hop
                     |V J F key v r s' Hf Hop|F key r s' Hf Hop|F r s' Hop]; subst.
  - eapply on_domain_counted; [done| |exact Hop]. intros r0 d. simpl.
    destruct (writeLocked F now v _) as [r1 d1] eqn:E. intros [= <- <-]. exists d1. split; [done|].
    by eapply (writeLocked_counted A J F now v).
  - eapply on_domain_counted; [done| |exact Hop]. intros r0 d. simpl.
    destruct (readCurrentLocked F _ dst) as [cur err].
    destruct (mutate cur) as [cur'|].
    + destruct (writeLocked F now cur' _) as [r1 d1] eqn:E. intros [= <- <-]. exists d1. split; [done|].
      by eapply (writeLocked_counted A J F now cur').
    + intros [= <- <-]. eexists. split; [done|]. split; [lia|done].
  - eapply on_attrs_counted; [done| |exact Hop]. intros r0 a. simpl.
    destruct (f_mkdir F); [intros [= <- <-]; eexists; split_and!; [done|lia|done|done]|].
    pose proof (load_attrs_size F (Store.s_attrs s1) (proj1 Hf)) as Hl.
    destruct (Attrs.load_attrs F (Store.s_attrs s1)) as [oldSize attrs]. simpl in Hl. subst.
    destruct (Marshal v) as [val|].
    + destruct (Attrs.store_attrs _ _ _ _) as [r1 f1] eqn:E. intros [= <- <-]. exists f1.
      split; [done|]. by eapply (store_attrs_counted F).
    + intros [= <- <-]. eexists. split_and!; [done|lia|done|done].
  - eapply on_attrs_counted; [done| |exact Hop]. intros r0 a. simpl.
    pose proof (load_attrs_size F (Store.s_attrs s1) (proj1 Hf)) as Hl.
    destruct (Attrs.load_attrs F (Store.s_attrs s1)) as [oldSize attrs]. simpl in Hl. subst.
    destruct (attrs !! key) as [val|].
    + destruct (Attrs.store_attrs _ _ _ _) as [r1 f1] eqn:E. intros [= <- <-]. exists f1.
      split; [done|]. by eapply (store_attrs_counted F).
    + intros [= <- <-]. eexists. split_and!; [done|lia|done|done].
  - unfold Store.Clear in Hop. destruct (Store.s_exists s1) eqn:Hex; simpl in Hop; [|by simplify_eq].
    destruct (f_readdir F); simplify_eq; [done|]. by split.
Qed.

(** C19. The byte counter is exact: from start-up on, through any sequence of
    domain writes and updates, attribute writes and removals and clears,
    [SizeBytes] is the number of bytes stored under the root, provided that no domain
    write finds a file of its own timestamp or its temporary name, that a domain write
    that fails leaves no temporary file, and that the attribute file can be read and
    replaced.  Directories may be unreadable, deletions of the prune may fail, and so may
    any domain write that cleans up. *)
Theorem size_counter_exact disk s :
  (Store.s_exists disk = false → Store.s_domains disk = ∅ ∧ Store.s_attrs disk = None) →
  rtc step (Store.New disk) s → Store.SizeBytes s = Store.dirSize s.
Proof.
  intros Hd Hrun. enough (counted s) as [? _] by done.
  assert (counted (Store.New disk)) as Hc by (split; done). clear Hd.
  induction Hrun; eauto using step_counted.
Qed.

End Counter.
