(* ===== verification/MemStore.v ===== *)
(** * What the memory promises to the packages built on it

    The ledger, the policies, the approvals and the timeline use the memory only
    through [Domain(name).ReadCurrent/Write] and [Attrs().Get/Set/Delete/All].
    [MemStore] is that interface, [MemStoreLaws] what its clients may rely on, and
    [store_mem] the implementation by [Memory.Store]: its laws are proved here from
    the theorems on domains and attributes. *)

From S2P Require Import Prelude GoStrings Json Memory MemoryFacts StoreFacts.

Import Domain.

(** [ReadDoc name] is [Domain(name).ReadCurrent] into a zero value: the value
    after the call and whether it succeeded; [GetAttr] likewise.  Mutations
    return the error, if any, and the store left behind.  [doc_past now name m]:
    the domain holds no snapshot of a later instant than [now]. *)
Class MemStore (M : Type) := {
  mem_ok : M → Prop;
  doc_past : Z → string → M → Prop;
  ReadDoc : ∀ {A} {J : Json A}, string → M → A * bool;
  WriteDoc : ∀ {A} {J : Json A}, Z → string → A → M → option mem_error * M;
  GetAttr : ∀ {A} {J : Json A}, string → M → A * bool;
  AllAttrs : M → result mem_error (gmap string string);
  SetAttr : ∀ {A} {J : Json A}, string → A → M → option mem_error * M;
  DelAttr : string → M → option mem_error * M;
}.

(** The attributes as a map; an unreadable attribute file has none. *)
Definition attrs_of `{!MemStore M} (m : M) : gmap string string :=
  match AllAttrs m with Ok attrs => attrs | Err _ => ∅ end.

Class MemStoreLaws (M : Type) `{!RawJson, !MemStore M} : Prop := {
  write_ok A (J : Json A) now name (v : A) m e m' :
    WriteDoc now name v m = (e, m') → in64 now → mem_ok m → mem_ok m';
  write_read_or A (J : Json A) (R : JsonRoundtrip A) now name (v : A) m e m' :
    WriteDoc now name v m = (e, m') → in64 now → mem_ok m →
    ReadDoc name m' = (ReadDoc name m : A * bool) ∨ e = None ∧ ReadDoc name m' = (v, true);
  write_read_past A (J : Json A) (R : JsonRoundtrip A) now name (v : A) m m' :
    WriteDoc now name v m = (None, m') → in64 now → 0 < now → doc_past now name m →
    ReadDoc name m' = (v, true);
  write_read_raw now name (b : gmap string string) m m' :
    WriteDoc now name b m = (None, m') → in64 now → 0 < now → doc_past now name m →
    ∃ b', ReadDoc name m' = (b', true) ∧ (compact <$> b') = (compact <$> b);
  write_raw_or now name (b : gmap string string) m e m' :
    WriteDoc now name b m = (e, m') → in64 now → mem_ok m →
    ReadDoc name m' = (ReadDoc name m : gmap string string * bool) ∨
    e = None ∧ ∃ b', ReadDoc name m' = (b', true) ∧ (compact <$> b') = (compact <$> b);
  write_frame A (J : Json A) B (J' : Json B) now name name' (v : A) m e m' :
    WriteDoc now name v m = (e, m') → name' ≠ name →
    ReadDoc name' m' = (ReadDoc name' m : B * bool);
  past_frame A (J : Json A) now name name' (v : A) m e m' t :
    WriteDoc now name v m = (e, m') → name' ≠ name → doc_past t name' m → doc_past t name' m';
  write_attrs A (J : Json A) now name (v : A) m e m' :
    WriteDoc now name v m = (e, m') → AllAttrs m' = AllAttrs m;
  get_all A (J : Json A) key m :
    GetAttr key m = match attrs_of m !! key with
                    | Some raw => Unmarshal raw zero
                    | None => (zero : A, false)
                    end;
  set_ok A (J : Json A) key (v : A) m e m' : SetAttr key v m = (e, m') → mem_ok m → mem_ok m';
  set_frame A (J : Json A) B (J' : Json B) key (v : A) m e m' name :
    SetAttr key v m = (e, m') → ReadDoc name m' = (ReadDoc name m : B * bool);
  set_all A (J : Json A) key (v : A) m m' :
    SetAttr key v m = (None, m') →
    ∃ doc attrs, Marshal v = Some doc ∧ AllAttrs m' = Ok attrs ∧
                 (compact <$> attrs) = (compact <$> <[key := doc]> (attrs_of m));
  set_err A (J : Json A) key (v : A) m e m' :
    SetAttr key v m = (Some e, m') → AllAttrs m' = AllAttrs m;
  del_ok key m e m' : DelAttr key m = (e, m') → mem_ok m → mem_ok m';
  del_frame B (J : Json B) key m e m' name :
    DelAttr key m = (e, m') → ReadDoc name m' = (ReadDoc name m : B * bool);
  del_all key m m' :
    DelAttr key m = (None, m') →
    (compact <$> attrs_of m') = (compact <$> delete key (attrs_of m));
  del_err key m e m' : DelAttr key m = (Some e, m') → AllAttrs m' = AllAttrs m;
}.

(** ** Typed attributes *)

Section Typed.
Context `{!RawJson, !MemStore M, !MemStoreLaws M}.

Lemma get_compact `{!Json A, !JsonCompact A} key m m' :
  (compact <$> attrs_of m') !! key = (compact <$> attrs_of m) !! key →
  GetAttr key m' = (GetAttr key m : A * bool).
Proof.
  rewrite !get_all, !lookup_fmap. intros E.
  destruct (attrs_of m' !! key) as [r'|], (attrs_of m !! key) as [r|]; simplify_eq/=; [|done].
  by apply unmarshal_same_compact.
Qed.

Lemma set_attrs_of `{!Json A} key (v : A) m m' :
  SetAttr key v m = (None, m') →
  ∃ doc, Marshal v = Some doc ∧ (compact <$> attrs_of m') = (compact <$> <[key := doc]> (attrs_of m)).
Proof.
  intros (doc & attrs & Hd & Ha & Hc)%set_all. exists doc. unfold attrs_of at 1. by rewrite Ha.
Qed.

Lemma get_set `{!Json A, !JsonRoundtrip A, !JsonCompact A} key (v : A) m m' :
  SetAttr key v m = (None, m') → GetAttr key m' = (v, true).
Proof.
  intros (doc & Hd & Hc)%set_attrs_of. rewrite get_all.
  pose proof (compact_lookup _ _ key Hc) as Hk. rewrite lookup_insert_eq in Hk.
  destruct Hk as (raw & -> & Hr). by rewrite (unmarshal_same_compact raw doc), (unmarshal_marshal v doc Hd).
Qed.

Lemma get_set_ne `{!Json A} `{!Json B, !JsonCompact B} key key' (v : A) m e m' :
  SetAttr key v m = (e, m') → key' ≠ key → GetAttr key' m' = (GetAttr key' m : B * bool).
Proof.
  intros Hs Hne. apply get_compact. destruct e as [e|].
  - apply set_err in Hs. unfold attrs_of. by rewrite Hs.
  - apply set_attrs_of in Hs as (doc & _ & ->). by rewrite !lookup_fmap, lookup_insert_ne.
Qed.

Lemma get_set_err `{!Json A} `{!Json B} key key' (v : A) m e m' :
  SetAttr key v m = (Some e, m') → GetAttr key' m' = (GetAttr key' m : B * bool).
Proof. intros Hs%set_err. rewrite !get_all. unfold attrs_of. by rewrite Hs. Qed.

Lemma get_del `{!Json A} key m m' :
  DelAttr key m = (None, m') → GetAttr key m' = (zero : A, false).
Proof.
  intros Hc%del_all. rewrite get_all. pose proof (compact_lookup _ _ key Hc) as Hk.
  rewrite lookup_delete_eq in Hk. by rewrite Hk.
Qed.

Lemma get_del_ne `{!Json B, !JsonCompact B} key key' m e m' :
  DelAttr key m = (e, m') → key' ≠ key → GetAttr key' m' = (GetAttr key' m : B * bool).
Proof.
  intros Hs Hne. apply get_compact. destruct e as [e|].
  - apply del_err in Hs. unfold attrs_of. by rewrite Hs.
  - apply del_all in Hs as ->. by rewrite !lookup_fmap, lookup_delete_ne.
Qed.

Lemma get_write `{!Json A} `{!Json B} now name (v : A) m e m' key :
  WriteDoc now name v m = (e, m') → GetAttr key m' = (GetAttr key m : B * bool).
Proof. intros Hw%write_attrs. rewrite !get_all. unfold attrs_of. by rewrite Hw. Qed.

End Typed.

(** ** The implementation *)

Section Implementation.

(** Which system calls of a write fail; reads and the prune work. *)
Context (mkdir_fails : bool) (write_fails : option (option string)) (rename_fails : bool).

Definition write_faults : faults :=
  mkFaults false (λ _, false) (λ _, false) (λ _, false) mkdir_fails write_fails rename_fails.

Definition error_of {A} (r : result mem_error A) : option mem_error :=
  match r with Ok _ => None | Err e => Some e end.

Definition doc_of {A} (r : A * option mem_error) : A * bool :=
  (r.1, match r.2 with None => true | Some _ => false end).

(** Every snapshot file has the name [Write] gives it. *)
Definition canonical (dir : gmap string dirent) : Prop :=
  ∀ n ns, snapshot_in dir n ns → n = snapshot_name ns.

Definition store_mem `{!RawJson} : MemStore Store.Store := {|
  mem_ok s := ∀ name dir, Store.s_domains s !! name = Some dir → canonical dir;
  doc_past now name s := in_past (Store.s_domains s !! name) now;
  ReadDoc A J name s := doc_of (ReadCurrent write_faults (Some (Store.s_domains s !! name)) zero);
  WriteDoc A J now name v s :=
    let '(r, s') := Store.on_domain name (Write write_faults now v) s in (error_of r, s');
  GetAttr A J key s := doc_of (Attrs.Get write_faults key (Some (Store.s_attrs s)) zero);
  AllAttrs s := Attrs.All write_faults (Some (Store.s_attrs s));
  SetAttr A J key v s :=
    let '(r, s') := Store.on_attrs (Attrs.Set_ write_faults key v) s in (error_of r, s');
  DelAttr key s :=
    let '(r, s') := Store.on_attrs (Attrs.Delete write_faults key) s in (error_of r, s');
|}.

Lemma newest_cases dir :
  (∃ n ns, newestFile no_faults (Some dir) = Ok n ∧ snapshot_in dir n ns ∧ 0 < ns ∧
           ∀ n' ns', snapshot_in dir n' ns' → ns' ≤ ns) ∨
  (newestFile no_faults (Some dir) = Err ENoSnapshots ∧ ∀ n ns, snapshot_in dir n ns → ns ≤ 0).
Proof.
  unfold newestFile. simpl. pose proof (newest_fold (ReadDir dir) ("", 0)) as (H1 & _ & H3). simpl in *.
  destruct (foldl newest_step ("", 0) (ReadDir dir)) as [n ns]. simpl in *.
  assert (∀ n' ns', snapshot_in dir n' ns' → ns' ≤ ns) as Hmax.
  { intros n' ns' (e & He%elem_of_ReadDir & Hs). by eapply H3. }
  destruct H1 as [[= -> ->]|(e & Hin & Hs & Hlt)]; [right; by split|].
  left. exists n, ns. apply elem_of_ReadDir in Hin. case_decide as Hn.
  { subst. by destruct e. }
  split_and!; [done|by exists e|done|done].
Qed.

Lemma newest_unique dir n ns :
  canonical dir → snapshot_in dir n ns → 0 < ns → (∀ n' ns', snapshot_in dir n' ns' → ns' ≤ ns) →
  newestFile no_faults (Some dir) = Ok n.
Proof.
  intros Hc Hin Hpos Hmax. apply (newestFile_spec dir n ns Hin Hpos).
  intros n' ns' Hin' Hne. pose proof (Hmax _ _ Hin'). destruct (decide (ns' = ns)) as [->|]; [|lia].
  by rewrite (Hc _ _ Hin), (Hc _ _ Hin') in Hne.
Qed.

(** Reading a directory that has no snapshot of a positive instant. *)
Lemma read_none `{!Json A} dir (dst : A) :
  (∀ n ns, snapshot_in dir n ns → ns ≤ 0) →
  readCurrentLocked no_faults (Some dir) dst = (dst, Some ENoSnapshots).
Proof.
  intros H. unfold readCurrentLocked. destruct (newest_cases dir) as [(n & ns & _ & Hin & ? & _)|[-> _]]; [|done].
  specialize (H n ns Hin). lia.
Qed.

Lemma read_absent `{!Json A} d (dst : A) :
  readCurrentLocked no_faults d dst = readCurrentLocked no_faults (Some (default ∅ d)) dst.
Proof.
  destruct d as [dir|]; [done|]. symmetry. apply read_none. intros n ns (e & He & _). simpl in He.
  by rewrite lookup_empty in He.
Qed.

(** Reading depends on the newest snapshot only. *)
Lemma read_same `{!Json A} dir dir' n ns (dst : A) :
  canonical dir → canonical dir' → snapshot_in dir n ns → 0 < ns → dir' !! n = dir !! n →
  (∀ n' ns', snapshot_in dir n' ns' → ns' ≤ ns) → (∀ n' ns', snapshot_in dir' n' ns' → ns' ≤ ns) →
  readCurrentLocked no_faults (Some dir') dst = readCurrentLocked no_faults (Some dir) dst.
Proof.
  intros Hc Hc' Hin Hpos Hl Hmax Hmax'. unfold readCurrentLocked.
  rewrite (newest_unique dir n ns), (newest_unique dir' n ns); [|try done..].
  - unfold ReadFile. simpl. by rewrite Hl.
  - destruct Hin as (e & He & Hs). exists e. by rewrite Hl.
Qed.

Lemma write_succeeds `{!Json A} now (v : A) d delta d' :
  writeLocked write_faults now v d = (Ok delta, d') → writeLocked no_faults now v d = (Ok delta, d').
Proof.
  unfold writeLocked. destruct (Marshal v) as [data|]; [|done].
  cbn [f_mkdir f_write f_rename write_faults no_faults]. destruct mkdir_fails; [done|].
  destruct write_fails; [done|]. by destruct rename_fails.
Qed.

Lemma write_result `{!Json A} now (v : A) d delta d' :
  writeLocked no_faults now v d = (Ok delta, d') →
  ∃ data, Marshal v = Some data ∧ d' = Some (prune no_faults now (written now data d)).1.
Proof.
  intros Hw. destruct (Marshal v) as [data|] eqn:Hv; [|unfold writeLocked in Hw; by rewrite Hv in Hw].
  exists data. split; [done|]. destruct (is_dir (default ∅ d) (snapshot_name now)) eqn:Hd.
  { unfold writeLocked in Hw. rewrite Hv in Hw. simpl in Hw. by rewrite Hd in Hw. }
  rewrite (writeLocked_ok now v data d Hv Hd) in Hw. by simplify_eq.
Qed.

Lemma write_canonical `{!Json A} now (v : A) d r d' :
  writeLocked write_faults now v d = (r, d') → in64 now → canonical (default ∅ d) → canonical (default ∅ d').
Proof.
  intros Hw Hnow Hc. destruct r as [delta|e].
  - apply write_succeeds, write_result in Hw as (data & _ & ->). simpl.
    intros n ns Hin%kept_written. apply snapshot_in_written in Hin; [|done].
    destruct Hin as [[-> ->]|[_ Hin]]; [done|by apply Hc].
  - intros n ns Hin%(failed_write_snapshots _ _ _ _ _ _ n ns Hw). by apply Hc.
Qed.

(** A later snapshot than the one being written stays the current one. *)
Lemma write_behind `{!Json A} now (v : A) d delta d' n ns (dst : A) :
  writeLocked no_faults now v d = (Ok delta, d') → in64 now → canonical (default ∅ d) →
  canonical (default ∅ d') → snapshot_in (default ∅ d) n ns → 0 < ns → now < ns →
  (∀ n' ns', snapshot_in (default ∅ d) n' ns' → ns' ≤ ns) →
  readCurrentLocked no_faults d' dst = readCurrentLocked no_faults d dst.
Proof.
  intros Hw Hnow Hc Hc' Hin Hpos Hlt Hmax.
  apply write_result in Hw as (data & _ & ->). simpl in Hc'.
  set (dir := written now data d) in *.
  assert (∀ n' ns', snapshot_in dir n' ns' → ns' ≤ ns) as HmaxW.
  { intros n' ns' [[_ ->]|[_ H']]%snapshot_in_written; [lia|by apply (Hmax n')|done]. }
  assert (n ≠ snapshot_name now) as Hne.
  { intros ->. apply Hc, (inj snapshot_name) in Hin. lia. }
  assert (snapshot_in dir n ns) as HinW by (apply snapshot_in_written; auto).
  destruct (kept_newest no_faults now dir ltac:(done) n ns HinW) as (n' & ns' & Hk & _ & Hle).
  { unfold maxAge, Hour, Minute, Second. lia. }
  assert (ns' = ns) as -> by (pose proof (HmaxW _ _ (kept_written _ _ _ _ _ Hk)); lia).
  rewrite (Hc' _ _ Hk), <-(Hc _ _ Hin) in Hk.
  rewrite (read_absent d). apply (read_same _ _ n ns); try done.
  - destruct Hin as (e & He & Hs). rewrite He. destruct Hk as (e' & He' & Hs'). rewrite He'.
    eapply lookup_weaken in He'; [|apply prune_subseteq]. subst dir. unfold written in He'.
    rewrite lookup_insert_ne in He' by done. by apply lookup_delete_Some in He' as [_ ?]; simplify_eq.
  - intros n1 ns1 H'%kept_written. by apply (HmaxW n1).
Qed.

(** Whatever the clock, a write leaves the old document or the new one current. *)
Lemma write_old_or_data `{!Json A} now (v : A) d r d' :
  writeLocked write_faults now v d = (r, d') → in64 now → canonical (default ∅ d) →
  readCurrentLocked no_faults d' (zero : A) = readCurrentLocked no_faults d (zero : A) ∨
  error_of r = None ∧ ∃ data, Marshal v = Some data ∧ readCurrentLocked no_faults d' zero =
    (let '(x, ok) := Unmarshal data (zero : A) in (x, if ok : bool then None else Some EParse)).
Proof.
  intros Hw Hnow Hc. pose proof (write_canonical now v d r d' Hw Hnow Hc) as Hc'.
  destruct r as [delta|e].
  - apply write_succeeds in Hw. assert (0 < now → in_past d now →
      ∃ data, Marshal v = Some data ∧ readCurrentLocked no_faults d' zero =
        (let '(x, ok) := Unmarshal data (zero : A) in (x, if ok : bool then None else Some EParse))) as Hnew.
    { intros Hpos Hpast. exact (read_written now v d delta d' (zero : A) Hw Hnow Hpos Hpast). }
    destruct (newest_cases (default ∅ d)) as [(n & ns & _ & Hin & Hpos & Hmax)|[_ Hmax]].
    + destruct (decide (now < ns)) as [Hlt|Hge]; [left; by eapply write_behind|].
      right. split; [done|]. apply Hnew; [lia|]. intros n' ns' Hin' Hne.
      pose proof (Hmax _ _ Hin'). destruct (decide (ns' = now)) as [->|]; [|lia].
      by rewrite (Hc _ _ Hin') in Hne.
    + destruct (decide (0 < now)) as [Hpos|Hneg].
      * right. split; [done|]. apply Hnew; [done|]. intros n' ns' Hin' _. specialize (Hmax n' ns' Hin'). lia.
      * left. rewrite (read_absent d'), (read_absent d), !read_none; [done|done|].
        apply write_result in Hw as (data & _ & ->). intros n ns Hin. simpl in Hin.
        apply kept_written, snapshot_in_written in Hin as [[_ ->]|[_ H']]; [lia|by apply (Hmax n)|done].
  - left. rewrite (read_absent d'), (read_absent d).
    destruct (newest_cases (default ∅ d)) as [(n & ns & _ & Hin & Hpos & Hmax)|[_ Hmax]].
    + apply (read_same _ _ n ns); try done.
      * apply (failed_write_files _ _ _ _ _ _ n Hw). intros ->. destruct Hin as (e' & _ & Hs).
        by rewrite tmp_not_snapshot in Hs.
      * intros n' ns' H'%(failed_write_snapshots _ _ _ _ _ _ n' ns' Hw). by apply (Hmax n').
    + rewrite !read_none; [done|done|]. intros n ns H'%(failed_write_snapshots _ _ _ _ _ _ n ns Hw). by apply (Hmax n).
Qed.

Lemma write_old_or_new `{!Json A, !JsonRoundtrip A} now (v : A) d r d' :
  writeLocked write_faults now v d = (r, d') → in64 now → canonical (default ∅ d) →
  readCurrentLocked no_faults d' (zero : A) = readCurrentLocked no_faults d (zero : A) ∨
  error_of r = None ∧ readCurrentLocked no_faults d' zero = (v, None).
Proof.
  intros Hw Hnow Hc. destruct (write_old_or_data now v d r d' Hw Hnow Hc) as [?|(He & data & Hv & Hr)]; [by left|].
  right. split; [done|]. by rewrite Hr, (unmarshal_marshal v data Hv).
Qed.

(** A write creates the directory unless it stops before. *)
Lemma write_keeps_dir `{!Json A} now (v : A) d r :
  writeLocked write_faults now v d = (r, None) → d = None.
Proof.
  unfold writeLocked. destruct (Marshal v) as [data|]; [|by intros; simplify_eq].
  destruct (f_mkdir _); [by intros; simplify_eq|]. destruct (f_write _) as [[?|]|]; [done..|].
  destruct (f_rename _ || _); [done|]. by destruct (prune _ _ _).
Qed.

Lemma on_domain_write `{!Json A} name now (v : A) s r s' :
  Store.on_domain name (Write write_faults now v) s = (r, s') →
  ∃ r', writeLocked write_faults now v (Store.s_domains s !! name) = (r', Store.s_domains s' !! name) ∧
    error_of r = error_of r' ∧ Store.s_attrs s' = Store.s_attrs s ∧
    (∀ name', name' ≠ name → Store.s_domains s' !! name' = Store.s_domains s !! name').
Proof.
  unfold Store.on_domain, Write. destruct (writeLocked write_faults now v _) as [r' d'] eqn:Hw.
  intros H. exists r'. destruct d' as [dir|].
  - destruct r' as [delta|e]; simplify_eq/=; rewrite lookup_insert_eq; split_and!; try done;
      intros; by rewrite lookup_insert_ne.
  - destruct r' as [delta|e]; simplify_eq/=;
      rewrite (write_keeps_dir _ _ _ _ Hw); by split_and!.
Qed.

Context `{!RawJson, !RawJsonRoundtrip}.

Lemma attrs_of_file s :
  @attrs_of _ store_mem s = (Attrs.load_attrs write_faults (Store.s_attrs s)).2.
Proof.
  unfold attrs_of. simpl. unfold Attrs.load_attrs. destruct (Store.s_attrs s) as [raw|]; [|done].
  simpl. by destruct (UnmarshalRaw raw).
Qed.

(** Storing a map of attributes. *)
Lemma store_attrs_cases oldSize m file r file' :
  Attrs.store_attrs write_faults oldSize m file = (r, file') →
  (∃ e, error_of r = Some e ∧ file' = file) ∨
  (error_of r = None ∧ ∃ doc m', file' = Some doc ∧ UnmarshalRaw doc = Some m' ∧
     (compact <$> m') = (compact <$> m)).
Proof.
  unfold Attrs.store_attrs. destruct (MarshalRawIndent m) as [doc|] eqn:E.
  2: { intros; simplify_eq. left. by eexists. }
  destruct (f_write _); [intros; simplify_eq; left; by eexists|].
  destruct (f_rename _); intros; simplify_eq; [left; by eexists|]. right. split; [done|].
  destruct (raw_indent_roundtrip m doc E) as (m' & ? & ?). eauto.
Qed.

Lemma on_attrs_frame op s r s' name :
  Store.on_attrs op s = (r, s') → Store.s_domains s' !! name = Store.s_domains s !! name.
Proof. unfold Store.on_attrs. destruct (op _) as [[delta|e] a]; intros; by simplify_eq. Qed.

Lemma set_attr_cases `{!Json A} key (v : A) s r s' :
  Store.on_attrs (Attrs.Set_ write_faults key v) s = (r, s') →
  (∃ e, error_of r = Some e ∧ Store.s_attrs s' = Store.s_attrs s) ∨
  (error_of r = None ∧ ∃ val doc m', Marshal v = Some val ∧ Store.s_attrs s' = Some doc ∧
     UnmarshalRaw doc = Some m' ∧ (compact <$> m') = (compact <$> <[key := val]> (@attrs_of _ store_mem s))).
Proof.
  rewrite attrs_of_file. unfold Store.on_attrs, Attrs.Set_.
  destruct (f_mkdir _); [intros; simplify_eq; left; by eexists|].
  destruct (Attrs.load_attrs _ _) as [oldSize attrs].
  destruct (Marshal v) as [val|]; [|intros; simplify_eq; left; by eexists].
  destruct (Attrs.store_attrs _ _ _ _) as [r1 file1] eqn:Hst.
  apply store_attrs_cases in Hst as [(e & He & ->)|(He & doc & m' & -> & Hm & Hc)];
    destruct r1; simplify_eq/=; intros; simplify_eq/=; [left; by eexists|].
  right. split; [done|]. by exists val, doc, m'.
Qed.

Lemma del_attr_cases key s r s' :
  Store.on_attrs (Attrs.Delete write_faults key) s = (r, s') →
  (∃ e, error_of r = Some e ∧ Store.s_attrs s' = Store.s_attrs s) ∨
  (error_of r = None ∧ (compact <$> @attrs_of _ store_mem s') = (compact <$> delete key (@attrs_of _ store_mem s))).
Proof.
  rewrite !attrs_of_file. unfold Store.on_attrs, Attrs.Delete.
  destruct (Attrs.load_attrs _ _) as [oldSize attrs] eqn:Hl.
  destruct (attrs !! key) as [raw|] eqn:Hk.
  2: { intros; simplify_eq/=. right. split; [done|]. rewrite Hl. simpl. by rewrite delete_id. }
  destruct (Attrs.store_attrs _ _ _ _) as [r1 file1] eqn:Hst.
  apply store_attrs_cases in Hst as [(e & He & ->)|(He & doc & m' & -> & Hm & Hc)];
    destruct r1; simplify_eq/=; intros; simplify_eq/=; [left; by eexists|].
  right. split; [done|]. by rewrite Hm.
Qed.

Lemma ok_canonical s name :
  @mem_ok _ store_mem s → canonical (default ∅ (Store.s_domains s !! name)).
Proof.
  intros Hok. destruct (Store.s_domains s !! name) as [dir|] eqn:Hs; [by eapply Hok|].
  intros n ns (e & He & _). simpl in He. by rewrite lookup_empty in He.
Qed.

Lemma write_doc_inv `{!Json A} now name (v : A) s e s' :
  @WriteDoc _ store_mem A _ now name v s = (e, s') →
  ∃ r, writeLocked write_faults now v (Store.s_domains s !! name) = (r, Store.s_domains s' !! name) ∧
    e = error_of r ∧ Store.s_attrs s' = Store.s_attrs s ∧
    (∀ name', name' ≠ name → Store.s_domains s' !! name' = Store.s_domains s !! name').
Proof.
  cbn. destruct (Store.on_domain _ _ _) as [r s1] eqn:E. intros [= <- <-].
  apply on_domain_write in E as (r' & ? & ? & ? & ?). by exists r'.
Qed.

Lemma set_attr_inv `{!Json A} key (v : A) s e s' :
  @SetAttr _ store_mem A _ key v s = (e, s') →
  ∃ r, Store.on_attrs (Attrs.Set_ write_faults key v) s = (r, s') ∧ e = error_of r.
Proof. cbn. destruct (Store.on_attrs _ _) as [r s1]. intros [= <- <-]. by exists r. Qed.

Lemma del_attr_inv key s e s' :
  @DelAttr _ store_mem key s = (e, s') →
  ∃ r, Store.on_attrs (Attrs.Delete write_faults key) s = (r, s') ∧ e = error_of r.
Proof. cbn. destruct (Store.on_attrs _ _) as [r s1]. intros [= <- <-]. by exists r. Qed.

Lemma read_doc_same `{!Json A} name s s' :
  Store.s_domains s' !! name = Store.s_domains s !! name →
  @ReadDoc _ store_mem A _ name s' = @ReadDoc _ store_mem A _ name s.
Proof. intros E. cbn. by rewrite E. Qed.

(** The memory keeps its promises. *)
Lemma store_mem_laws : @MemStoreLaws Store.Store _ store_mem.
Proof.
  split.
  - intros A J now name v s e s' (r & Hw & _ & _ & Hne)%write_doc_inv Hnow Hok name' dir Hd.
    destruct (decide (name' = name)) as [->|Hn]; [|rewrite Hne in Hd by done; by eapply Hok].
    apply write_canonical in Hw; [by rewrite Hd in Hw|done|by apply ok_canonical].
  - intros A J R now name v s e s' (r & Hw & -> & _ & _)%write_doc_inv Hnow Hok.
    apply write_old_or_new in Hw as [Hw|[? Hw]]; [| |done|by apply ok_canonical].
    + left. unfold ReadDoc, store_mem, ReadCurrent. exact (f_equal doc_of Hw).
    + right. split; [done|]. exact (f_equal doc_of Hw).
  - intros A J R now name v s s' (r & Hw & Hr & _ & _)%write_doc_inv Hnow Hpos Hpast.
    destruct r as [delta|]; [|done]. apply write_succeeds in Hw.
    destruct (read_written now v _ delta _ (zero : A) Hw Hnow Hpos Hpast) as (data & Hv & Hr').
    rewrite (unmarshal_marshal v data Hv) in Hr'. exact (f_equal doc_of Hr').
  - intros now name b s s' (r & Hw & Hr & _ & _)%write_doc_inv Hnow Hpos Hpast.
    destruct r as [delta|]; [|done]. apply write_succeeds in Hw.
    destruct (read_written now b _ delta _ (∅ : gmap string string) Hw Hnow Hpos Hpast) as (data & Hv & Hr').
    destruct (raw_roundtrip _ _ Hv) as (b' & Hb & Hc). cbn in Hr'. rewrite Hb, map_union_empty in Hr'.
    exists b'. split; [exact (f_equal doc_of Hr')|done].
  - intros now name b s e s' (r & Hw & -> & _ & _)%write_doc_inv Hnow Hok.
    apply write_old_or_data in Hw as [Hw|(He & data & Hv & Hr)]; [| |done|by apply ok_canonical].
    + left. exact (f_equal doc_of Hw).
    + right. split; [done|]. destruct (raw_roundtrip _ _ Hv) as (b' & Hb & Hc). cbn in Hr. rewrite Hb, map_union_empty in Hr.
      exists b'. split; [exact (f_equal doc_of Hr)|done].
  - intros A J B J' now name name' v s e s' (r & _ & _ & _ & Hne)%write_doc_inv Hn.
    by apply read_doc_same, Hne.
  - intros A J now name name' v s e s' t (r & _ & _ & _ & Hne)%write_doc_inv Hn Hp. cbn in *. by rewrite Hne.
  - intros A J now name v s e s' (r & _ & _ & Ha & _)%write_doc_inv. cbn. by rewrite Ha.
  - intros A J key s. rewrite attrs_of_file. cbn. destruct (Store.s_attrs s) as [raw|]; [|done].
    simpl. destruct (UnmarshalRaw raw) as [attrs|]; simpl; [|by rewrite lookup_empty].
    destruct (attrs !! key) as [val|]; [|done]. by destruct (Unmarshal val zero) as [? []].
  - intros A J key v s e s' (r & Hs & _)%set_attr_inv Hok name dir Hd.
    rewrite (on_attrs_frame _ _ _ _ _ Hs) in Hd. by eapply Hok.
  - intros A J B J' key v s e s' name (r & Hs & _)%set_attr_inv. by eapply read_doc_same, on_attrs_frame.
  - intros A J key v s s' (r & Hs & Hr)%set_attr_inv.
    apply set_attr_cases in Hs as [(? & ? & _)|(_ & val & doc & m' & Hv & Hf & Hm & Hc)]; [congruence|].
    exists val, m'. split_and!; [done| |done]. cbn. by rewrite Hf, Hm.
  - intros A J key v s e s' (r & Hs & Hr)%set_attr_inv.
    apply set_attr_cases in Hs as [(? & _ & Hf)|(? & _)]; [|congruence]. cbn. by rewrite Hf.
  - intros key s e s' (r & Hs & _)%del_attr_inv Hok name dir Hd.
    rewrite (on_attrs_frame _ _ _ _ _ Hs) in Hd. by eapply Hok.
  - intros B J key s e s' name (r & Hs & _)%del_attr_inv. by eapply read_doc_same, on_attrs_frame.
  - intros key s s' (r & Hs & Hr)%del_attr_inv.
    apply del_attr_cases in Hs as [(? & ? & _)|(_ & Hc)]; [congruence|done].
  - intros key s e s' (r & Hs & Hr)%del_attr_inv.
    apply del_attr_cases in Hs as [(? & _ & Hf)|(? & _)]; [|congruence]. cbn. by rewrite Hf.
Qed.

End Implementation.

(** C17. The memory refines the interface its clients are verified against: with
    any combination of failing writes, domains and attributes obey every law of
    [MemStoreLaws]. *)
Theorem memory_refines_interface `{!RawJson, !RawJsonRoundtrip}
    (mkdir_fails : bool) (write_fails : option (option string)) (rename_fails : bool) :
  @MemStoreLaws Store.Store _ (store_mem mkdir_fails write_fails rename_fails).
Proof. exact (store_mem_laws _ _ _). Qed.
