(* ===== verification/Incidents.v ===== *)
(** * The incident ledger ([endpoint-server/incidents/incidents.go])

    The ledger is one document of the memory, the list of incidents.  Every
    operation loads it, changes the slice in place and saves it.  The local time
    zone is [zone]; a [clock] gives the readings of [time.Now] an operation takes:
    its own, the one of [save], and the one of the domain write. *)

From S2P Require Import Prelude GoStrings GoTime GoText Json Memory MemStore.

Module Incidents.

Definition incidentsDomain : string := "Incidents".
Definition maxIncidents : nat := 100.
Definition resolvedRetention : Z := 30 * 24 * Hour.

Record Action := mkAction { Time : string; Note : string }.

Record Incident := mkIncident {
  Fingerprint : string;
  Title : string;
  Detail : string;
  Severity : string;
  Status : string;
  FirstSeen : string;
  LastSeen : string;
  TimesSeen : Z;
  Actions : list Action;
  ResolvedAt : string;
  Resolution : string;
}.

#[export] Instance action_eq_dec : EqDecision Action.
Proof. solve_decision. Defined.
#[export] Instance incident_eq_dec : EqDecision Incident.
Proof. solve_decision. Defined.

Definition no_incident : Incident := mkIncident "" "" "" "" "" "" "" 0 [] "" "".

Inductive inc_error :=
| ENoBackingStore
| EEmptyFingerprint
| ENoIncident (fingerprint : string)
| ESave (e : mem_error).

Record clock := mkClock { c_now : Z; c_save : Z; c_write : Z }.

(** [normalizeFingerprint]: lower case, words joined by dashes. *)
Definition normalizeFingerprint (fp : string) : string :=
  let fp := ToLower (TrimSpace fp) in
  Join (Fields fp) "-".

(** The order of [load] and [save]: open first, then the latest [LastSeen]. *)
Definition less (a b : Incident) : bool :=
  if negb (String.eqb (Status a) (Status b)) then String.eqb (Status a) "open"
  else str_ltb (LastSeen b) (LastSeen a).

(** The body of [Report]'s loop on the incident found. *)
Definition touch (now title detail severity : string) (i : Incident) : Incident :=
  let reopened := String.eqb (Status i) "resolved" in
  mkIncident (Fingerprint i)
    (if String.eqb title "" then Title i else title)
    (if String.eqb detail "" then Detail i else detail)
    (if String.eqb severity "" then Severity i else severity)
    "open" (FirstSeen i) now (wrap64 (TimesSeen i + 1))
    (if reopened then Actions i ++ [mkAction now "recurred after being resolved — reopened"] else Actions i)
    (if reopened then "" else ResolvedAt i)
    (if reopened then "" else Resolution i).

Definition log_action (now note : string) (i : Incident) : Incident :=
  mkIncident (Fingerprint i) (Title i) (Detail i) (Severity i) (Status i) (FirstSeen i) now
    (TimesSeen i) (Actions i ++ [mkAction now note]) (ResolvedAt i) (Resolution i).

Definition mark_resolved (now resolution : string) (i : Incident) : Incident :=
  mkIncident (Fingerprint i) (Title i) (Detail i) (Severity i) "resolved" (FirstSeen i) (LastSeen i)
    (TimesSeen i) (Actions i) now resolution.

(** What [save] drops before the cap. *)
Definition expired (cutoff : string) (i : Incident) : bool :=
  String.eqb (Status i) "resolved" && negb (String.eqb (ResolvedAt i) "") && str_ltb (ResolvedAt i) cutoff.

Section Ledger.
Context `{!Json (list Incident), !MemStore M} (zone : Z → Z).

Definition load (mem : M) : list Incident :=
  match ReadDoc incidentsDomain mem with
  | (_, false) => []
  | (lst, true) => SliceStable less lst
  end.

(** [save]: the error, the backing array of the caller's slice afterwards (the
    loop and the sort work in place on it), and the memory. *)
Definition save (c : clock) (lst : list Incident) (mem : M) :
    option mem_error * list Incident * M :=
  let cutoff := Format zone (c_save c - resolvedRetention) in
  let kept := filter (λ i, expired cutoff i = false) lst in
  let over := (maxIncidents <? length kept)%nat in
  let kept' := if over then SliceStable less kept else kept in
  let array := kept' ++ drop (length kept) lst in
  let written := if over then take maxIncidents kept' else kept' in
  let '(e, mem') := WriteDoc (c_write c) incidentsDomain written mem in
  (e, array, mem').

(** [list[i]] once [save] has returned. *)
Definition at_index (array : list Incident) (i : nat) : Incident := default no_incident (array !! i).

(** [find]: the loop up to the incident with the fingerprint. *)
Definition find (fp : string) (lst : list Incident) : option (nat * Incident) :=
  list_find (λ i, Fingerprint i = fp) lst.

(** The store is nil when [mem] is [None]. *)
Definition All (mem : option M) : list Incident :=
  match mem with None => [] | Some m => load m end.

Definition Open (mem : option M) : list Incident := filter (λ i, Status i = "open") (All mem).

Definition Report (c : clock) (fingerprint title detail severity : string) (mem : option M) :
    result inc_error (Incident * bool) * option M :=
  match mem with
  | None => (Err ENoBackingStore, None)
  | Some m =>
      let fp := normalizeFingerprint fingerprint in
      if String.eqb fp "" then (Err EEmptyFingerprint, mem)
      else
        let lst := load m in
        let now := Format zone (c_now c) in
        match find fp lst with
        | Some (i, old) =>
            let lst := <[i := touch now title detail severity old]> lst in
            match save c lst m with
            | (Some e, _, m') => (Err (ESave e), Some m')
            | (None, array, m') => (Ok (at_index array i, false), Some m')
            end
        | None =>
            let inc := mkIncident fp title detail severity "open" now now 1 [] "" "" in
            match save c (lst ++ [inc]) m with
            | (Some e, _, m') => (Err (ESave e), Some m')
            | (None, _, m') => (Ok (inc, true), Some m')
            end
        end
  end.

Definition LogAction (c : clock) (fingerprint note : string) (mem : option M) :
    result inc_error Incident * option M :=
  match mem with
  | None => (Err ENoBackingStore, None)
  | Some m =>
      let fp := normalizeFingerprint fingerprint in
      let lst := load m in
      let now := Format zone (c_now c) in
      match find fp lst with
      | Some (i, old) =>
          match save c (<[i := log_action now note old]> lst) m with
          | (Some e, _, m') => (Err (ESave e), Some m')
          | (None, array, m') => (Ok (at_index array i), Some m')
          end
      | None => (Err (ENoIncident fp), mem)
      end
  end.

Definition Resolve (c : clock) (fingerprint resolution : string) (mem : option M) :
    result inc_error Incident * option M :=
  match mem with
  | None => (Err ENoBackingStore, None)
  | Some m =>
      let fp := normalizeFingerprint fingerprint in
      let lst := load m in
      let now := Format zone (c_now c) in
      match find fp lst with
      | Some (i, old) =>
          if String.eqb (Status old) "resolved" then (Ok old, mem)
          else
            match save c (<[i := mark_resolved now resolution old]> lst) m with
            | (Some e, _, m') => (Err (ESave e), Some m')
            | (None, array, m') => (Ok (at_index array i), Some m')
            end
      | None => (Err (ENoIncident fp), mem)
      end
  end.

(** One line of [OpenSummary], with its newline. *)
Definition summary_line (i : Incident) : string :=
  "- [" +:+ Fingerprint i +:+ "] " +:+ Title i +:+ " (severity: " +:+ Severity i +:+
  "; first seen " +:+ FirstSeen i +:+ "; last seen " +:+ LastSeen i +:+
  "; seen " +:+ Itoa (TimesSeen i) +:+ " times)" +:+
  match last (Actions i) with
  | Some a => " — last action: " +:+ Note a
  | None => ""
  end +:+ String "010" "".

Definition OpenSummary (mem : option M) : string :=
  match Open mem with
  | [] => ""
  | open => TrimRightFunc (λ ch, code ch =? 10) (Join (summary_line <$> open) "")
  end.

End Ledger.

End Incidents.
