(* ===== verification/IncidentsFacts.v ===== *)
(** * Correctness of the incident ledger *)

From S2P Require Import Prelude GoStrings GoTime GoText Json Memory MemStore Incidents.

Import Incidents.

(** ** Fingerprints *)

Lemma normalize_words fp : normalizeFingerprint fp = Join (ToLower <$> Fields fp) "-".
Proof. unfold normalizeFingerprint. by rewrite Fields_ToLower, Fields_TrimSpace. Qed.

Lemma normalized_word ws : ws ≠ [] → Forall is_word ws → is_word (Join ws "-").
Proof.
  intros Hne Hws. split.
  - destruct ws as [|w ws]; [done|]. inversion Hws as [|?? [Hw _] _]; subst.
    rewrite Join_cons. destruct ws; [done|]. destruct w; [done|]. by rewrite append_cons.
  - apply forall_bytes_Join; [|done]. eapply Forall_impl; [done|]. by intros w [_ ?].
Qed.

Lemma normalize_idemp a : normalizeFingerprint (normalizeFingerprint a) = normalizeFingerprint a.
Proof.
  rewrite (normalize_words a). destruct (Fields a) as [|w ws] eqn:E; [done|].
  assert (is_word (Join (ToLower <$> (w :: ws)) "-")) as Hword.
  { apply normalized_word; [done|]. rewrite <-E. apply Forall_fmap.
    eapply Forall_impl; [apply Fields_words|]. intros. by apply is_word_ToLower. }
  rewrite normalize_words, (Fields_word _ Hword). cbn [fmap list_fmap]. rewrite Join_cons, ToLower_Join.
  f_equal. cbn [fmap list_fmap]. rewrite ToLower_idemp. f_equal.
  rewrite <-list_fmap_compose. apply list_fmap_ext. intros _ x _. apply ToLower_idemp.
Qed.

(** Fingerprints are compared by their words: two spellings that differ in
    letter case or white space name the same incident, and normalising is
    idempotent, so a stored fingerprint finds its incident again. *)
Theorem fingerprint_normal_form a b :
  ((ToLower <$> Fields a) = (ToLower <$> Fields b) → normalizeFingerprint a = normalizeFingerprint b) ∧
  normalizeFingerprint (normalizeFingerprint a) = normalizeFingerprint a.
Proof. split; [|apply normalize_idemp]. rewrite !normalize_words. by intros ->. Qed.

Lemma append_nonempty s t : t ≠ "" → s +:+ t ≠ "".
Proof. intros Ht. destruct s; [by rewrite append_nil_l|by rewrite append_cons]. Qed.

Lemma Format_nonempty zone t : Format zone t ≠ "".
Proof.
  unfold Format, format_at. destruct (civil _) as [[y m] d].
  apply append_nonempty. by rewrite append_cons.
Qed.

(** ** The ledger invariant *)

Definition entry_ok (i : Incident) : Prop :=
  normalizeFingerprint (Fingerprint i) = Fingerprint i ∧ Fingerprint i ≠ "" ∧
  (Status i = "open" ∧ ResolvedAt i = "" ∨ Status i = "resolved" ∧ ResolvedAt i ≠ "").

Definition entries_ok (l : list Incident) : Prop :=
  NoDup (Fingerprint <$> l) ∧ Forall entry_ok l.

Definition ledger_ok (l : list Incident) : Prop := entries_ok l ∧ (length l ≤ maxIncidents)%nat.

Lemma entries_ok_sublist l l' : l' `sublist_of` l → entries_ok l → entries_ok l'.
Proof.
  intros Hs [Hn Hf]. split.
  - eapply sublist_NoDup; [exact Hn|]. by apply fmap_sublist.
  - rewrite Forall_forall in *. intros x Hx. apply Hf. eapply elem_of_submseteq; [done|by apply sublist_submseteq].
Qed.

#[export] Instance entries_ok_perm : Proper ((≡ₚ) ==> iff) entries_ok.
Proof. intros l l' E. unfold entries_ok. by rewrite E. Qed.

Lemma find_spec fp l i x :
  find fp l = Some (i, x) → l !! i = Some x ∧ Fingerprint x = fp.
Proof. intros (? & ? & _)%list_find_Some. done. Qed.

(** Replacing an entry by one of the same fingerprint. *)
Lemma fingerprints_insert (l : list Incident) i x y :
  l !! i = Some x → Fingerprint y = Fingerprint x → Fingerprint <$> <[i := y]> l = Fingerprint <$> l.
Proof.
  intros Hi E. rewrite list_fmap_insert, E. apply list_insert_id. by rewrite list_lookup_fmap, Hi.
Qed.

Lemma entries_ok_insert (l : list Incident) i x y :
  entries_ok l → l !! i = Some x → Fingerprint y = Fingerprint x → entry_ok y → entries_ok (<[i := y]> l).
Proof.
  intros [Hn Hf] Hi E Hy. split; [by erewrite fingerprints_insert|]. by apply Forall_insert.
Qed.

Lemma entries_ok_snoc l x :
  entries_ok l → find (Fingerprint x) l = None → entry_ok x → entries_ok (l ++ [x]).
Proof.
  intros [Hn Hf] Hx%list_find_None Hok. split; [|by apply Forall_app_2; [|constructor]].
  rewrite fmap_app. apply NoDup_app. split_and!; [done| |apply NoDup_singleton].
  intros fp (y & -> & Hy)%list_elem_of_fmap E%list_elem_of_singleton.
  rewrite Forall_forall in Hx. by apply (Hx y Hy).
Qed.

Lemma touch_ok now t d s i : entry_ok i → entry_ok (touch now t d s i).
Proof.
  intros (H1 & H2 & H3). split_and!; [done..|]. left. split; [done|]. simpl.
  destruct (String.eqb_spec (Status i) "resolved"); [done|]. by destruct H3 as [[_ ?]|[? _]].
Qed.

Lemma log_action_ok now note i : entry_ok i → entry_ok (log_action now note i).
Proof. done. Qed.

Lemma mark_resolved_ok now res i : now ≠ "" → entry_ok i → entry_ok (mark_resolved now res i).
Proof. intros ? (H1 & H2 & H3). split_and!; [done..|]. by right. Qed.

Section Ledger.
Context `{!RawJson, !Json (list Incident), !JsonRoundtrip (list Incident), !MemStore M, !MemStoreLaws M}.

(** The ledger document of the memory, if it reads, is a good ledger. *)
Definition stored (m : M) : Prop :=
  match ReadDoc incidentsDomain m with (l, true) => ledger_ok l | (_, false) => True end.

Lemma load_ok m : stored m → ledger_ok (load m).
Proof.
  unfold stored, load. destruct (ReadDoc incidentsDomain m) as [l []].
  - intros [He Hl]. split; [by rewrite SliceStable_perm|by rewrite SliceStable_length].
  - intros _. split; [split|]; simpl; [constructor..|]. unfold maxIncidents. lia.
Qed.

(** What [save] hands to the memory. *)
Definition saved (zone : Z → Z) (c : clock) (lst : list Incident) : list Incident :=
  let kept := filter (λ i, expired (Format zone (c_save c - resolvedRetention)) i = false) lst in
  if (maxIncidents <? length kept)%nat then take maxIncidents (SliceStable less kept) else kept.

Lemma save_write zone c lst m e arr m' :
  save zone c lst m = (e, arr, m') → WriteDoc (c_write c) incidentsDomain (saved zone c lst) m = (e, m').
Proof.
  unfold save, saved. set (kept := filter _ lst).
  destruct (maxIncidents <? length kept)%nat; destruct (WriteDoc _ _ _ _); naive_solver.
Qed.

Lemma saved_ok zone c lst : entries_ok lst → ledger_ok (saved zone c lst).
Proof.
  intros Hok. unfold saved. set (kept := filter _ lst).
  assert (entries_ok kept) as Hk by (eapply entries_ok_sublist; [apply sublist_filter|done]).
  destruct (Nat.ltb_spec maxIncidents (length kept)); split; [|rewrite length_take; lia|done|done].
  eapply entries_ok_sublist; [apply sublist_take|]. by rewrite SliceStable_perm.
Qed.

Lemma save_stored zone c lst m e arr m' :
  save zone c lst m = (e, arr, m') → in64 (c_write c) → mem_ok m → entries_ok lst → stored m →
  mem_ok m' ∧ stored m'.
Proof.
  intros Hs%save_write Hc Hm Hl Hst. split; [by eapply write_ok|]. unfold stored in *.
  eapply write_read_or in Hs as [->|[_ ->]]; [done|by apply saved_ok|done..].
Qed.

(** A step of the system: an operation of the ledger, or anything else that
    uses the memory outside the ledger's domain. *)
Inductive step (m m' : M) : Prop :=
| step_report zone c fp t d s r :
    in64 (c_write c) → Report zone c fp t d s (Some m) = (r, Some m') → step m m'
| step_log zone c fp note r :
    in64 (c_write c) → LogAction zone c fp note (Some m) = (r, Some m') → step m m'
| step_resolve zone c fp res r :
    in64 (c_write c) → Resolve zone c fp res (Some m) = (r, Some m') → step m m'
| step_doc A (J : Json A) now name (v : A) e :
    in64 now → name ≠ incidentsDomain → WriteDoc now name v m = (e, m') → step m m'
| step_set A (J : Json A) key (v : A) e : SetAttr key v m = (e, m') → step m m'
| step_del key e : DelAttr key m = (e, m') → step m m'.

Lemma step_stored m m' : step m m' → mem_ok m ∧ stored m → mem_ok m' ∧ stored m'.
Proof.
  intros Hstep [Hm Hst]. pose proof (load_ok m Hst) as [Hl _].
  destruct Hstep as [zone c fp t d s r Hc Hop|zone c fp note r Hc Hop|zone c fp res r Hc Hop|A J now name v e Hc Hn Hop|A J key v e Hop|key e Hop].
  - unfold Report in Hop. case_match eqn:Hfp; [by simplify_eq|].
    destruct (find _ (load m)) as [[i old]|] eqn:Hf.
    + apply find_spec in Hf as [Hi Hfi]. destruct (save _ _ _ _) as [[e arr] m1] eqn:Hs.
      assert (m' = m1) as -> by (destruct e; by simplify_eq). eapply save_stored; try done.
      eapply entries_ok_insert; try done. apply touch_ok. destruct Hl as [_ Hl]. by eapply Forall_lookup_1 in Hl.
    + destruct (save _ _ _ _) as [[e arr] m1] eqn:Hs.
      assert (m' = m1) as -> by (destruct e; by simplify_eq). eapply save_stored; try done.
      apply entries_ok_snoc; [done..|]. apply String.eqb_neq in Hfp.
      split_and!; [apply normalize_idemp|done|by left].
  - unfold LogAction in Hop. destruct (find _ (load m)) as [[i old]|] eqn:Hf; [|by simplify_eq].
    apply find_spec in Hf as [Hi Hfi]. destruct (save _ _ _ _) as [[e arr] m1] eqn:Hs.
    assert (m' = m1) as -> by (destruct e; by simplify_eq). eapply save_stored; try done.
    eapply entries_ok_insert; try done. by eapply log_action_ok, Forall_lookup_1; [apply Hl|].
  - unfold Resolve in Hop. destruct (find _ (load m)) as [[i old]|] eqn:Hf; [|by simplify_eq].
    case_match; [by simplify_eq|].
    apply find_spec in Hf as [Hi Hfi]. destruct (save _ _ _ _) as [[e arr] m1] eqn:Hs.
    assert (m' = m1) as -> by (destruct e; by simplify_eq). eapply save_stored; try done.
    eapply entries_ok_insert; try done. apply mark_resolved_ok; [apply Format_nonempty|].
    destruct Hl as [_ Hl]. by eapply Forall_lookup_1 in Hl.
  - split; [by eapply write_ok|]. unfold stored in *. by erewrite write_frame.
  - split; [by eapply set_ok|]. unfold stored in *. by erewrite set_frame.
  - split; [by eapply del_ok|]. unfold stored in *. by erewrite del_frame.
Qed.

(** C14. The ledger invariant: along every run of the system that starts with no
    ledger, at whatever clock readings and with whatever failing writes, the
    ledger [load] returns has at most 100 incidents, no two with the same
    fingerprint, every fingerprint in normal form, every incident either open and
    without a resolution time or resolved and with one. *)
Theorem ledger_invariant m0 m :
  mem_ok m0 → (ReadDoc incidentsDomain m0 : list Incident * bool).2 = false →
  rtc step m0 m → ledger_ok (load m).
Proof.
  intros Hm H0 Hrun. apply load_ok.
  assert (stored m0) as Hst.
  { unfold stored. destruct (ReadDoc incidentsDomain m0) as [l b]. simpl in H0. by subst. }
  by apply (rtc_preserves step (λ m, mem_ok m ∧ stored m) m0 m step_stored).
Qed.

(** Below the cap [save] stores exactly what has not expired. *)
Lemma saved_small zone c lst i :
  (length lst ≤ maxIncidents)%nat →
  i ∈ saved zone c lst ↔ i ∈ lst ∧ expired (Format zone (c_save c - resolvedRetention)) i = false.
Proof.
  intros Hl. unfold saved. set (kept := filter _ lst).
  pose proof (length_filter (λ i, expired (Format zone (c_save c - resolvedRetention)) i = false) lst).
  destruct (Nat.ltb_spec maxIncidents (length kept)); [subst kept; lia|].
  unfold kept. rewrite list_elem_of_filter. tauto.
Qed.

(** The order of the ledger on incidents that are open or resolved. *)
Lemma less_sorted l : Forall entry_ok l → in_order less (SliceStable less l).
Proof.
  intros Hok. set (opened i := String.eqb (Status i) "open").
  set (less' := λ a b, if Bool.eqb (opened a) (opened b) then str_ltb (LastSeen b) (LastSeen a) else opened a).
  assert (∀ a b, entry_ok a → entry_ok b → less a b = less' a b) as E.
  { intros a b (_ & _ & Ha) (_ & _ & Hb). unfold less, less', opened.
    destruct Ha as [[-> _]|[-> _]], Hb as [[-> _]|[-> _]]; done. }
  rewrite Forall_forall in Hok. rewrite (SliceStable_ext less less') by auto.
  pose proof (SliceStable_in_order less') as Hs. specialize (Hs ltac:(unfold less'; intros a b; destruct (opened a), (opened b); cbn; try done; apply str_ltb_asym)).
  specialize (Hs ltac:(unfold less'; intros a b c; destruct (opened a), (opened b), (opened c); cbn; try done; intros; by eapply str_ltb_trans) l).
  assert (Forall entry_ok (SliceStable less' l)) as Hl by (rewrite SliceStable_perm; by apply Forall_forall).
  induction Hs as [|x k Hk IH Hx]; constructor; apply Forall_cons in Hl as [H1 H2]; [by apply IH|].
  rewrite Forall_forall in *. intros y Hy. rewrite E by auto. by apply Hx.
Qed.

(** What [save] leaves out although it has not expired: over the cap, the last ones in
    the order of the ledger. *)
Lemma saved_dropped zone c lst i : Forall entry_ok lst → i ∈ lst → expired (Format zone (c_save c - resolvedRetention)) i = false →
  i ∉ saved zone c lst → length (saved zone c lst) = maxIncidents ∧ ∀ j, j ∈ saved zone c lst → less i j = false.
Proof.
  intros Hok Hi He. unfold saved. set (kept := filter _ lst).
  assert (i ∈ kept) as Hk by (by apply list_elem_of_filter). destruct (Nat.ltb_spec maxIncidents (length kept)) as [Hlt|]; [|done].
  intros Hn. split; [rewrite length_take, SliceStable_length; lia|]. intros j Hj.
  assert (in_order less (SliceStable less kept)) as Hs.
  { apply less_sorted. rewrite Forall_forall in *. intros x [_ Hx]%list_elem_of_filter. auto. }
  rewrite <-(SliceStable_perm less kept), <-(take_drop maxIncidents (SliceStable less kept)), elem_of_app in Hk. destruct Hk as [|Hk]; [done|].
  rewrite <-(take_drop maxIncidents (SliceStable less kept)) in Hs.
  by apply (StronglySorted_app_1_elem_of (λ a b, less b a = false) _ _) with (x1 := j) (x2 := i) in Hs.
Qed.

Lemma saved_elem zone c lst i : i ∈ saved zone c lst →
  i ∈ lst ∧ expired (Format zone (c_save c - resolvedRetention)) i = false.
Proof.
  unfold saved. set (kept := filter _ lst). intros Hi.
  assert (i ∈ kept) as [? ?]%list_elem_of_filter; [|done]. destruct (_ <? _)%nat; [|done].
  rewrite <-(SliceStable_perm less kept). eapply elem_of_sublist; [exact Hi|apply sublist_take].
Qed.

Lemma save_perm zone c lst m arr m' :
  save zone c lst m = (None, arr, m') → in64 (c_write c) → 0 < c_write c →
  doc_past (c_write c) incidentsDomain m → load m' ≡ₚ saved zone c lst.
Proof.
  intros Hs%save_write Hc Hpos Hpast. unfold load.
  rewrite (write_read_past _ _ _ _ _ _ _ _ Hs Hc Hpos Hpast). apply SliceStable_perm.
Qed.

Lemma save_load zone c lst m arr m' i :
  save zone c lst m = (None, arr, m') → in64 (c_write c) → 0 < c_write c →
  doc_past (c_write c) incidentsDomain m → i ∈ load m' ↔ i ∈ saved zone c lst.
Proof. intros Hs Hc Hpos Hpast. by rewrite (save_perm _ _ _ _ _ _ Hs Hc Hpos Hpast). Qed.

Lemma open_not_expired cutoff i : Status i = "open" → expired cutoff i = false.
Proof. unfold expired. by intros ->. Qed.

(** The entry [Report] makes of what the ledger had under the fingerprint. *)
Definition reported (now fp title detail severity : string) (old : option (nat * Incident)) : Incident :=
  match old with
  | Some (_, i) => touch now title detail severity i
  | None => mkIncident fp title detail severity "open" now now 1 [] "" ""
  end.

(** The list [Report] saves: the incident found is replaced, or the new one appended. *)
Definition upserted (key : string) (new : Incident) (l : list Incident) : list Incident :=
  match find key l with Some (i, _) => <[i := new]> l | None => l ++ [new] end.

Lemma upserted_elem key new l i : NoDup (Fingerprint <$> l) → Fingerprint new = key →
  i ∈ upserted key new l ↔ i = new ∨ Fingerprint i ≠ key ∧ i ∈ l.
Proof.
  intros Hnd Hnew. unfold upserted. destruct (find key l) as [[k old]|] eqn:Hf.
  - apply find_spec in Hf as [Hk Hkey]. pose proof (lookup_lt_Some _ _ _ Hk) as Hlt. rewrite list_elem_of_lookup. split.
    + intros [j Hj]. destruct (decide (j = k)) as [->|Hne]; [rewrite list_lookup_insert_eq in Hj by done; left; by simplify_eq|].
      rewrite list_lookup_insert_ne in Hj by done. right. split; [|by eauto using list_elem_of_lookup_2].
      intros E. apply Hne. eapply (NoDup_lookup _ _ _ key Hnd); rewrite list_lookup_fmap, ?Hj, ?Hk; simpl; congruence.
    + intros [->|(Hne & [j Hj]%list_elem_of_lookup_1)]; [exists k; by apply list_lookup_insert_eq|].
      exists j. rewrite list_lookup_insert_ne; [done|]. intros ->. simplify_eq.
  - apply list_find_None in Hf. rewrite Forall_forall in Hf. rewrite elem_of_app, list_elem_of_singleton.
    split; [intros [Hi| ->]; [right|by left]; by eauto|]. intros [->|[_ Hi]]; [by right|by left].
Qed.

Lemma upserted_length key new l : (length (upserted key new l) ≤ S (length l))%nat ∧
  (find key l ≠ None → length (upserted key new l) = length l).
Proof. unfold upserted. destruct (find key l) as [[k old]|]; rewrite ?length_insert, ?length_app; cbn; split; try done; lia. Qed.

Lemma upserted_ok key new l : entries_ok l → Fingerprint new = key → entry_ok new → Forall entry_ok (upserted key new l).
Proof.
  intros [_ Hok] Hk Hnew. unfold upserted. destruct (find key l) as [[k old]|]; [by apply Forall_insert|].
  apply Forall_app. split; [done|by constructor].
Qed.

Lemma reported_ok zone c fp title detail severity l : entries_ok l → normalizeFingerprint fp ≠ "" →
  let key := normalizeFingerprint fp in
  let new := reported (Format zone (c_now c)) key title detail severity (find key l) in
  Fingerprint new = key ∧ Status new = "open" ∧ LastSeen new = Format zone (c_now c) ∧ entry_ok new.
Proof.
  intros [_ Hok] Hne key new. subst new. unfold reported. destruct (find key l) as [[k old]|] eqn:Hf.
  - apply find_spec in Hf as [Hk Hkey]. split_and!; [done..|]. eapply touch_ok, Forall_lookup_1; [exact Hok|exact Hk].
  - split_and!; [done..|]. split_and!; [apply normalize_idemp|done|by left].
Qed.


(** Retention in time: in a fixed zone, an incident resolved at [t] survives
    a save at [u], below the cap, exactly when it was resolved no more than 30
    days before, to the second; an open incident always survives. *)
Theorem resolved_retention off c lst m arr m' i t :
  save (λ _, off) c lst m = (None, arr, m') → in64 (c_write c) → 0 < c_write c →
  doc_past (c_write c) incidentsDomain m → (length lst ≤ maxIncidents)%nat → i ∈ lst →
  year_ok off t → year_ok off (c_save c - resolvedRetention) →
  (Status i = "open" → i ∈ load m') ∧
  (Status i = "resolved" → ResolvedAt i = format_at off t →
     i ∈ load m' ↔ (c_save c - resolvedRetention) / Second ≤ t / Second).
Proof.
  intros Hs Hc Hpos Hpast Hlen Hi Hy Hy'.
  rewrite (save_load _ _ _ _ _ _ _ Hs Hc Hpos Hpast), saved_small by done. split.
  - intros Ho. split; [done|by apply open_not_expired].
  - intros Hst Hra. unfold expired. rewrite Hst, Hra. unfold Format. rewrite str_ltb_format by done.
    assert (String.eqb (format_at off t) "" = false) as ->.
    { apply String.eqb_neq. exact (Format_nonempty (λ _, off) t). }
    cbn [String.eqb Ascii.eqb Bool.eqb andb negb]. rewrite Z.ltb_ge. tauto.
Qed.

(** [save] compacts the caller's slice in place, and [Report] reads its
    result out of that slice: with an expired incident before the one reported,
    the call returns the incident after it. *)
Theorem report_returns_neighbour zone c fp title detail severity m r x y post inc fresh m' :
  load m = r :: x :: y :: post → (length post ≤ 97)%nat →
  Fingerprint r ≠ Fingerprint x → Fingerprint x = normalizeFingerprint fp →
  expired (Format zone (c_save c - resolvedRetention)) r = true →
  expired (Format zone (c_save c - resolvedRetention)) y = false →
  Report zone c fp title detail severity (Some m) = (Ok (inc, fresh), Some m') → inc = y.
Proof.
  intros Hl Hlen Hne Hx Her Hey Hr. unfold Report in Hr. rewrite <-Hx in Hr.
  destruct (String.eqb _ ""); [done|]. rewrite Hl in Hr.
  assert (find (Fingerprint x) (r :: x :: y :: post) = Some (1%nat, x)) as Hf.
  { apply list_find_Some. split_and!; [done..|]. intros [|j] z Hz Hj; [|lia]. naive_solver. }
  rewrite Hf in Hr. unfold save in Hr. cbn [insert list_insert] in Hr.
  rewrite filter_cons_False in Hr by congruence.
  rewrite filter_cons_True in Hr by (by apply open_not_expired).
  rewrite filter_cons_True in Hr by done.
  set (kept := filter _ post) in *.
  pose proof (length_filter (λ i, expired (Format zone (c_save c - resolvedRetention)) i = false) post).
  assert ((maxIncidents <? length (touch (Format zone (c_now c)) title detail severity x :: y :: kept))%nat = false) as Hsmall.
  { apply Nat.ltb_ge. subst kept. unfold maxIncidents. simpl. lia. }
  rewrite Hsmall in Hr. destruct (WriteDoc _ _ _ _) as [[e|] m1]; [done|]. by simplify_eq/=.
Qed.

End Ledger.
