(* ===== verification/MemoryExamples.v ===== *)
(** * The theorems on the memory and the ledger at concrete directories and values

    The codec is [CountableJson], the values are strings and incidents. *)

From S2P Require Import Prelude GoStrings GoTime GoText Json Memory MemoryFacts StoreFacts MemStore Incidents IncidentsFacts.

Import Domain.

#[local] Existing Instance CountableJson.raw_json.
#[local] Existing Instance CountableJson.raw_json_roundtrip.
#[local] Instance json_string : Json string := CountableJson.json "".
#[local] Instance json_string_roundtrip : JsonRoundtrip string := CountableJson.json_roundtrip "".
#[local] Instance json_string_compact : JsonCompact string := CountableJson.json_compact "".

(** Reading the outcome of a run off its evaluation. *)
Definition succeeds {E A B} (r : result E A * option B) : bool :=
  match r with (Ok _, Some _) => true | _ => false end.

Lemma succeeds_inv {E A B} (r : result E A * option B) :
  succeeds r = true → ∃ a b, r = (Ok a, Some b).
Proof. destruct r as [[a|e] [b|]]; try done. by exists a, b. Qed.

Lemma fails_inv {E A B} `{!EqDecision E, !EqDecision A} (r : result E A * B) e :
  bool_decide (r.1 = Err e) = true → ∃ b, r = (Err e, b).
Proof. intros H%bool_decide_eq_true. destruct r as [r1 b]. simpl in H. subst. by exists b. Qed.

(** 2026-07-24 13:33:20 UTC. *)
Definition demo_now : Z := 1784900000 * Second.

(** A domain with a snapshot one minute old, one a day old and one foreign file. *)
Definition demo_dir : gmap string dirent :=
  <[snapshot_name (demo_now - Minute) := EFile "1"]>
  (<[snapshot_name (demo_now - 24 * Hour) := EFile "00"]> {["notes.txt" := EFile "x"]}).

Lemma demo_past : in_past (Some demo_dir) demo_now.
Proof.
  intros n ns (e & He & Hs) _. unfold demo_dir in He. cbn [default from_option id] in He.
  apply lookup_insert_Some in He as [[<- <-]|[_ He]].
  { vm_compute in Hs. injection Hs as <-. done. }
  apply lookup_insert_Some in He as [[<- <-]|[_ He]].
  { vm_compute in Hs. injection Hs as <-. done. }
  apply lookup_singleton_Some in He as [<- <-]. done.
Qed.


Lemma prune_bound_witness :
  (length [snapshot_name (demo_now - Minute)] ≤ 265)%nat.
Proof.
  apply (prune_bound no_faults demo_now demo_dir); [done|apply NoDup_singleton|].
  intros n ->%list_elem_of_singleton. exists (demo_now - Minute), (EFile "1"). split; vm_compute; done.
Defined.

Lemma write_read_witness :
  ∃ delta d', Write no_faults demo_now "hello" (Some (Some demo_dir)) = (Ok delta, Some d') ∧
              ReadCurrent no_faults (Some d') (zero : string) = ("hello", None).
Proof.
  apply (write_read demo_now "hello" (CountableJson.encode_text "hello") (Some demo_dir));
    [done|split; done|done|vm_compute; done|apply demo_past].
Defined.

Lemma setkey_getkey_witness :
  ∃ delta d', SetKey no_faults demo_now "k" "v" (Some (Some demo_dir)) = (Ok delta, Some d') ∧
              GetKey no_faults (Some d') "k" (zero : string) = ("v", None).
Proof.
  destruct (succeeds_inv (SetKey no_faults demo_now "k" "v" (Some (Some demo_dir))))
    as (delta & d' & E); [by vm_compute|].
  exists delta, d'. split; [done|].
  exact (proj1 (setkey_getkey demo_now "k" "v" (Some demo_dir) delta d' E
    ltac:(split; done) ltac:(done) demo_past)).
Defined.

(** A full disk: the temporary file is cut short. *)
Definition full_disk : faults :=
  mkFaults false (λ _, false) (λ _, false) (λ _, false) false (Some (Some "ha")) false.

Lemma write_atomic_witness :
  ∃ d', writeLocked full_disk demo_now "hello" (Some demo_dir) = (Err EWriteTmp, d') ∧
        default ∅ d' !! "notes.txt" = default ∅ (Some demo_dir) !! "notes.txt".
Proof.
  destruct (fails_inv (writeLocked full_disk demo_now "hello" (Some demo_dir)) EWriteTmp)
    as (d' & E); [by vm_compute|].
  exists d'. split; [exact E|].
  refine (proj1 (write_atomic full_disk demo_now "hello" (Some demo_dir) EWriteTmp d' E) "notes.txt" _).
  vm_compute. done.
Defined.

Lemma rapid_writes_witness :
  holds_exactly (run_writes (λ t, Itoa t) [demo_now; demo_now + Minute; demo_now + 3 * Minute] None)
                [demo_now + 3 * Minute].
Proof.
  apply (rapid_writes_keep_one (λ t, Itoa t) demo_now [demo_now + Minute; demo_now + 3 * Minute]).
  - intros t. by eexists.
  - repeat constructor; done.
  - simpl. unfold Minute, Second. lia.
Defined.

(** A day of writes, one every five minutes. *)
Lemma five_minute_writes_witness :
  holds_exactly (run_writes (λ t, Itoa t) (instants demo_now 0 288) None) (instants demo_now 274 288).
Proof.
  assert (∀ t, is_Some (Marshal (Itoa t))) as Hm by (intros t; by eexists).
  refine (five_minute_writes_history (λ t, Itoa t) demo_now Hm 288 _).
  intros k Hk. unfold in64, min64, max64, instant, demo_now, Minute, Second. lia.
Defined.

Lemma future_snapshot_witness :
  ∃ delta d', writeLocked no_faults (demo_now - 2 * Minute) "late" (Some demo_dir) = (Ok delta, Some d') ∧
              ¬ snapshot_in d' (snapshot_name (demo_now - 2 * Minute)) (demo_now - 2 * Minute).
Proof.
  apply (future_snapshot_discards_write (demo_now - 2 * Minute) "late" (CountableJson.encode_text "late")
           (Some demo_dir) (snapshot_name (demo_now - Minute)) (demo_now - Minute)).
  - done.
  - split; vm_compute; done.
  - vm_compute. done.
  - exists (EFile "1"). split; vm_compute; done.
  - unfold demo_now, Minute, Second. lia.
  - vm_compute. done.
Defined.

Lemma attrs_set_get_witness :
  ∃ delta file', Attrs.Set_ no_faults "k" "v" (Some None) = (Ok delta, Some file') ∧
                 Attrs.Get no_faults "k" (Some file') (zero : string) = ("v", None).
Proof.
  destruct (succeeds_inv (Attrs.Set_ no_faults "k" "v" (Some None))) as (delta & file' & E);
    [by vm_compute|].
  exists delta, file'. split; [done|].
  exact (proj1 (attrs_set_get "k" "v" None delta file' E)).
Defined.

(** An attribute file with one key. *)
Definition demo_attrs : string := CountableJson.encode_text [("k", CountableJson.encode_text "v")].

Lemma attrs_delete_witness :
  ∃ delta file', Attrs.Delete no_faults "k" (Some (Some demo_attrs)) = (Ok delta, Some file') ∧
                 Attrs.Get no_faults "k" (Some file') "" = ("", Some (EKeyNotFound "k")).
Proof.
  destruct (succeeds_inv (Attrs.Delete no_faults "k" (Some (Some demo_attrs)))) as (delta & file' & E);
    [by vm_compute|].
  exists delta, file'. split; [done|].
  exact (attrs_delete_get "k" (Some demo_attrs) delta file' E
            ltac:(eexists; vm_compute; reflexivity) string json_string json_string_compact "k" "").
Defined.

Lemma size_counter_witness :
  let disk := Store.mkStore true {["timeline" := demo_dir]} None 0 in
  ∃ s, rtc StoreFacts.step (Store.New disk) s ∧ Store.SizeBytes s = Store.dirSize s.
Proof.
  intros disk.
  pose (s1 := (Store.on_domain "timeline" (Write no_faults demo_now "hello") (Store.New disk)).2).
  exists s1. assert (rtc StoreFacts.step (Store.New disk) s1) as Hrun.
  { apply rtc_once. eapply (StoreFacts.step_write _ string json_string no_faults "timeline" demo_now "hello");
      [split; done|split; vm_compute; done|]. apply surjective_pairing. }
  split; [exact Hrun|]. apply (size_counter_exact disk s1); [done|exact Hrun].
Defined.

Lemma memory_refines_witness : @MemStoreLaws Store.Store _ (store_mem false (Some (Some "half")) false).
Proof. apply memory_refines_interface. Defined.

Import Incidents.

#[local] Instance action_countable : Countable Action.
Proof. apply (inj_countable' (λ a, (Time a, Note a)) (λ '(t, n), mkAction t n)). by intros []. Defined.

#[local] Instance incident_countable : Countable Incident.
Proof.
  apply (inj_countable'
    (λ i, (Fingerprint i, Title i, Detail i, Severity i, Status i,
           (FirstSeen i, LastSeen i, TimesSeen i, Actions i, ResolvedAt i, Resolution i)))
    (λ '(a, b, c, d, e, (f, g, h, k, l, m)), mkIncident a b c d e f g h k l m)).
  by intros [].
Defined.

#[local] Existing Instance CountableJson.raw_json.
#[local] Existing Instance CountableJson.raw_json_roundtrip.
#[local] Instance json_ledger : Json (list Incident) := CountableJson.json [].
#[local] Instance json_ledger_roundtrip : JsonRoundtrip (list Incident) := CountableJson.json_roundtrip [].
#[local] Instance demo_mem : MemStore Store.Store := store_mem false None false.
#[local] Instance demo_laws : MemStoreLaws Store.Store := store_mem_laws false None false.

(** 2026-07-24 13:33:20 UTC, in a zone seven hours behind. *)
Definition t0 : Z := 1784900000 * Second.
Abbreviation pacific := (λ _ : Z, -25200).
Definition day : Z := 24 * Hour.
Definition at_ (t : Z) : clock := mkClock t t t.

Definition fresh_mem : Store.Store := Store.mkStore true ∅ None 0.

Lemma fresh_ok : mem_ok fresh_mem.
Proof. intros name dir H. cbn in H. by rewrite lookup_empty in H. Qed.

Lemma fresh_past now name : doc_past now name fresh_mem.
Proof. intros n ns (e & He & _). cbn in He. by rewrite lookup_empty in He. Qed.

Lemma t0_in64 : in64 t0.
Proof. by split. Qed.

Lemma fingerprint_witness :
  normalizeFingerprint "  Disk Full  /var " = normalizeFingerprint "disk full /VAR".
Proof. apply fingerprint_normal_form. reflexivity. Defined.

Lemma ledger_invariant_witness :
  ledger_ok (load (default fresh_mem (Report pacific (at_ t0) "disk-full" "Disk full" "" "warning" (Some fresh_mem)).2)).
Proof.
  apply (ledger_invariant fresh_mem); [apply fresh_ok|done|]. apply rtc_once.
  destruct (Report pacific (at_ t0) "disk-full" "Disk full" "" "warning" (Some fresh_mem)) as [r [m|]] eqn:E.
  - eapply (step_report _ _ pacific (at_ t0)); [apply t0_in64|exact E].
  - exfalso. assert (bool_decide (is_Some (Report pacific (at_ t0) "disk-full" "Disk full" "" "warning" (Some fresh_mem)).2) = true)
      as Hs by (vm_compute; reflexivity). rewrite E in Hs. done.
Defined.


(** An incident resolved 40 days ago. *)
Definition old_resolved : Incident :=
  mkIncident "old" "Old" "" "info" "resolved" (Format pacific (t0 - 60 * day)) (Format pacific (t0 - 45 * day)) 3 []
    (format_at (-25200) (t0 - 40 * day)) "gone".

(** Two resolved last week, last seen earlier. *)
Definition recent (fp : string) (seen : Z) : Incident :=
  mkIncident fp fp "" "info" "resolved" (Format pacific (t0 - 60 * day)) (Format pacific (t0 - seen * day)) 1 []
    (Format pacific (t0 - 7 * day)) "fixed".

Lemma retention_witness :
  ∃ arr m', save pacific (at_ t0) [old_resolved] fresh_mem = (None, arr, m') ∧ old_resolved ∉ load m'.
Proof.
  assert (old_resolved ∈ [old_resolved]) as Hmem by (by apply list_elem_of_singleton).
  assert (year_ok (-25200) (t0 - 40 * day)) as Hy1 by (by vm_compute).
  assert (year_ok (-25200) (c_save (at_ t0) - resolvedRetention)) as Hy2 by (by vm_compute).
  assert (length [old_resolved] ≤ maxIncidents)%nat as Hlen by (by apply Nat.leb_le).
  assert (0 < c_write (at_ t0)) as Hpos by done.
  assert (¬ (c_save (at_ t0) - resolvedRetention) / Second ≤ (t0 - 40 * day) / Second) as Hold by (by vm_compute).
  assert ((save pacific (at_ t0) [old_resolved] fresh_mem).1.1 = None) as Hs by (vm_compute; reflexivity).
  destruct (save pacific (at_ t0) [old_resolved] fresh_mem) as [[e arr] m'] eqn:E.
  cbn [fst] in Hs. subst e. exists arr, m'. split; [reflexivity|].
  destruct (resolved_retention (-25200) (at_ t0) [old_resolved] fresh_mem arr m' old_resolved (t0 - 40 * day)
    E t0_in64 Hpos (fresh_past _ _) Hlen Hmem Hy1 Hy2) as [_ Hiff].
  intros Hin. apply Hold, (Hiff eq_refl eq_refl), Hin.
Defined.

Definition three : Store.Store :=
  (WriteDoc (t0 - day) incidentsDomain [old_resolved; recent "flapping" 50; recent "quiet" 55] fresh_mem).2.

(** A successful call, read off its evaluation. *)
Lemma reported_inv c fp m :
  match Report pacific c fp "" "" "" (Some m) with (Ok _, Some _) => true | _ => false end = true →
  ∃ inc fresh m', Report pacific c fp "" "" "" (Some m) = (Ok (inc, fresh), Some m').
Proof. destruct (Report _ _ _ _ _ _ _) as [[[inc fresh]|e] [m'|]]; [|done..]. intros _. by exists inc, fresh, m'. Qed.

Lemma neighbour_witness :
  ∃ inc fresh m', Report pacific (at_ t0) "flapping" "" "" "" (Some three) = (Ok (inc, fresh), Some m') ∧
    Fingerprint inc = "quiet".
Proof.
  destruct (reported_inv (at_ t0) "flapping" three) as (inc & fresh & m' & E); [vm_compute; reflexivity|].
  exists inc, fresh, m'. split; [exact E|].
  rewrite (report_returns_neighbour pacific (at_ t0) "flapping" "" "" "" three old_resolved
    (recent "flapping" 50) (recent "quiet" 55) [] inc fresh m');
    [reflexivity|vm_compute; reflexivity|apply Nat.le_0_l|discriminate|reflexivity|reflexivity|reflexivity|exact E].
Defined.
