(* ===== verification/Regexp.v ===== *)
(** * Go's [regexp]: the constructs the code's patterns use

    [Compile] parses literals, [.], classes, groups, alternation, the flags [i]
    and [s], greedy and lazy repetition, [\b], [^], [$], [\A] and [\z], and
    rejects every other pattern.  [ends] is the backtracking matcher: the positions
    a match can end at, in the order of preference of leftmost-first matching.
    [Matches] is the declarative meaning; [ends_spec] says they agree.  Matching is
    by bytes, and the flag [i] folds ASCII letters. The last
    part shows that a pattern inside a group means what it means alone: [Compile] of
    [\A(?:p)\z] is the anchored [p], whenever [p] compiles. *)

From S2P Require Import Prelude GoStrings.

Inductive re :=
| Eps
| Cls (fold neg : bool) (ranges : list (Z * Z))
| Cat (a b : re)
| Alt (a b : re)
| Star (greedy : bool) (a : re)
| WordB
| BeginText
| EndText.

(** ** Matching *)

(** A position: the byte before it and the bytes after it. *)
Definition pos : Type := option ascii * string.

Definition in_ranges (n : Z) (ranges : list (Z * Z)) : bool :=
  existsb (λ '(lo, hi), (lo <=? n) && (n <=? hi)) ranges.

Definition upper_code (n : Z) : Z := if (97 <=? n) && (n <=? 122) then n - 32 else n.
Definition lower_code (n : Z) : Z := if (65 <=? n) && (n <=? 90) then n + 32 else n.

Definition cls_match (fold neg : bool) (ranges : list (Z * Z)) (c : ascii) : bool :=
  let n := code c in
  xorb neg (in_ranges n ranges ||
            (fold && (in_ranges (lower_code n) ranges || in_ranges (upper_code n) ranges))).

Definition word_char (c : ascii) : bool :=
  let n := code c in
  ((48 <=? n) && (n <=? 57)) || ((65 <=? n) && (n <=? 90)) || ((97 <=? n) && (n <=? 122)) || (n =? 95).

Definition boundary (p : pos) : bool :=
  let before := match p.1 with Some c => word_char c | None => false end in
  let after := match p.2 with String c _ => word_char c | "" => false end in
  xorb before after.

Section Star.
Context (f : pos → list pos) (greedy : bool).

(** Iterations that consume something; [fuel] bounds their number by the bytes left. *)
Fixpoint star (fuel : nat) (p : pos) : list pos :=
  match fuel with
  | O => [p]
  | S n =>
      let more := flat_map (λ q, if (String.length q.2 <? String.length p.2)%nat then star n q else []) (f p) in
      if greedy then more ++ [p] else p :: more
  end.
End Star.

Fixpoint ends (r : re) (p : pos) : list pos :=
  match r with
  | Eps => [p]
  | Cls fold neg ranges =>
      match p.2 with
      | String c s => if cls_match fold neg ranges c then [(Some c, s)] else []
      | "" => []
      end
  | Cat a b => flat_map (ends b) (ends a p)
  | Alt a b => ends a p ++ ends b p
  | Star greedy a => star (ends a) greedy (S (String.length p.2)) p
  | WordB => if boundary p then [p] else []
  | BeginText => match p.1 with None => [p] | Some _ => [] end
  | EndText => match p.2 with "" => [p] | _ => [] end
  end.

(** The leftmost match at or after a position: where it starts and ends. *)
Fixpoint search (r : re) (prev : option ascii) (s : string) : option (pos * pos) :=
  match ends r (prev, s) with
  | q :: _ => Some ((prev, s), q)
  | [] => match s with
          | String c s' => search r (Some c) s'
          | "" => None
          end
  end.

Definition MatchString (r : re) (s : string) : bool :=
  match search r None s with Some _ => true | None => false end.

(** [ReplaceAllString], for a pattern that does not match the empty string and a
    replacement without [$]. *)
Fixpoint replace_all (fuel : nat) (r : re) (repl : string) (prev : option ascii) (s : string) : string :=
  match fuel, s with
  | O, _ => s
  | S n, "" => ""
  | S n, String c s' =>
      match ends r (prev, s) with
      | q :: _ =>
          if (String.length q.2 <? String.length s)%nat
          then repl +:+ replace_all n r repl q.1 q.2
          else String c (replace_all n r repl (Some c) s')
      | [] => String c (replace_all n r repl (Some c) s')
      end
  end.

Definition ReplaceAllString (r : re) (s repl : string) : string :=
  replace_all (String.length s) r repl None s.

(** ** Parsing *)

Record flags := mkFlags { fl_i : bool; fl_s : bool }.

Definition lit_re (fl : flags) (c : ascii) : re := Cls (fl_i fl) false [(code c, code c)].

Definition digit_ranges : list (Z * Z) := [(48, 57)].
Definition space_ranges : list (Z * Z) := [(9, 10); (12, 13); (32, 32)].
Definition word_ranges : list (Z * Z) := [(48, 57); (65, 90); (95, 95); (97, 122)].

(** The complement of a set of ranges, inside a class: only [\S], [\D] and [\W]
    alone are supported there, outside it they are negated classes. *)
Definition is_punct (c : ascii) : bool :=
  let n := code c in
  (33 <=? n) && (n <=? 126) && negb (word_char c).

Definition escape (fl : flags) (c : ascii) : option re :=
  if Ascii.eqb c "d" then Some (Cls false false digit_ranges)
  else if Ascii.eqb c "D" then Some (Cls false true digit_ranges)
  else if Ascii.eqb c "s" then Some (Cls false false space_ranges)
  else if Ascii.eqb c "S" then Some (Cls false true space_ranges)
  else if Ascii.eqb c "w" then Some (Cls false false word_ranges)
  else if Ascii.eqb c "W" then Some (Cls false true word_ranges)
  else if Ascii.eqb c "b" then Some WordB
  else if Ascii.eqb c "A" then Some BeginText
  else if Ascii.eqb c "z" then Some EndText
  else if is_punct c then Some (lit_re fl c)
  else None.

(** One element of a class: its ranges. *)
Definition class_escape (c : ascii) : option (list (Z * Z)) :=
  if Ascii.eqb c "d" then Some digit_ranges
  else if Ascii.eqb c "s" then Some space_ranges
  else if Ascii.eqb c "w" then Some word_ranges
  else if is_punct c then Some [(code c, code c)]
  else None.

(** The body of a class up to its [\]]; [first] while no element has been read. *)
Fixpoint parse_class (first : bool) (acc : list (Z * Z)) (s : string) : option (list (Z * Z) * string) :=
  match s with
  | "" => None
  | String c s' =>
      if Ascii.eqb c "]" && negb first then Some (acc, s')
      else if Ascii.eqb c "[" then None
      else if Ascii.eqb c "\" then
        match s' with
        | String e s'' => rs ← class_escape e; parse_class false (acc ++ rs) s''
        | "" => None
        end
      else match s' with
           | String "-" (String hi s'') =>
               if Ascii.eqb hi "]" || Ascii.eqb hi "\" then parse_class false (acc ++ [(code c, code c)]) s'
               else if code c <=? code hi then parse_class false (acc ++ [(code c, code hi)]) s''
               else None
           | _ => parse_class false (acc ++ [(code c, code c)]) s'
           end
  end.

Definition plus (g : bool) (r : re) : re := Cat r (Star g r).
Definition opt (g : bool) (r : re) : re := if g then Alt r Eps else Alt Eps r.

Fixpoint repeat_re (n : nat) (r : re) : re :=
  match n with O => Eps | S n' => Cat r (repeat_re n' r) end.

Fixpoint upto (g : bool) (n : nat) (r : re) : re :=
  match n with O => Eps | S n' => opt g (Cat r (upto g n' r)) end.

(** A decimal number of at most three digits. *)
Definition count (s : string) : option (nat * string) :=
  match s with
  | String a s1 =>
      x ← digit a;
      match s1 with
      | String b s2 =>
          match digit b with
          | Some y =>
              match s2 with
              | String c s3 =>
                  match digit c with
                  | Some z => Some (Z.to_nat (100 * x + 10 * y + z), s3)
                  | None => Some (Z.to_nat (10 * x + y), s2)
                  end
              | "" => Some (Z.to_nat (10 * x + y), s2)
              end
          | None => Some (Z.to_nat x, s1)
          end
      | "" => Some (Z.to_nat x, s1)
      end
  | "" => None
  end.

Definition lazy_mark (s : string) : bool * string :=
  match s with String "?" s' => (false, s') | _ => (true, s) end.

(** The body of a counted repetition after its opening brace. *)
Definition counted (r : re) (s : string) : option (re * string) :=
  '(lo, s1) ← count s;
  match s1 with
  | String "}" s2 => let '(g, s3) := lazy_mark s2 in Some (repeat_re lo r, s3)
  | String "," s2 =>
      match s2 with
      | String "}" s3 => let '(g, s4) := lazy_mark s3 in Some (Cat (repeat_re lo r) (Star g r), s4)
      | _ =>
          '(hi, s3) ← count s2;
          match s3 with
          | String "}" s4 =>
              let '(g, s5) := lazy_mark s4 in
              if (lo <=? hi)%nat then Some (Cat (repeat_re lo r) (upto g (hi - lo) r), s5) else None
          | _ => None
          end
      end
  | _ => None
  end.

(** The quantifier after an atom, if any.  An opening brace must start a counted
    repetition. *)
Definition quantifier (r : re) (s : string) : option (re * string) :=
  match s with
  | String "*" s' => let '(g, s'') := lazy_mark s' in Some (Star g r, s'')
  | String "+" s' => let '(g, s'') := lazy_mark s' in Some (plus g r, s'')
  | String "?" s' => let '(g, s'') := lazy_mark s' in Some (opt g r, s'')
  | String "{" s' => counted r s'
  | _ => Some (r, s)
  end.

(** What follows an opening parenthesis: a group with its flags, or flags for the
    rest of the enclosing group. *)
Inductive group_head :=
| GGroup (fl : flags) (rest : string)
| GFlags (fl : flags) (rest : string).

Definition parse_head (fl : flags) (s : string) : option group_head :=
  match s with
  | String "?" s1 =>
      match s1 with
      | String ":" s2 => Some (GGroup fl s2)
      | String "i" (String ")" s2) => Some (GFlags (mkFlags true (fl_s fl)) s2)
      | String "s" (String ")" s2) => Some (GFlags (mkFlags (fl_i fl) true) s2)
      | String "i" (String "s" (String ")" s2)) => Some (GFlags (mkFlags true true) s2)
      | String "i" (String ":" s2) => Some (GGroup (mkFlags true (fl_s fl)) s2)
      | _ => None
      end
  | _ => Some (GGroup fl s)
  end.

(** An atom that is not a group, and what follows it. *)
Definition atom (fl : flags) (c : ascii) (s : string) : option (re * string) :=
  if Ascii.eqb c "[" then
    match s with
    | String "^" s' => '(rs, s'') ← parse_class true [] s'; Some (Cls (fl_i fl) true rs, s'')
    | _ => '(rs, s'') ← parse_class true [] s; Some (Cls (fl_i fl) false rs, s'')
    end
  else if Ascii.eqb c "\" then
    match s with
    | String e s' => r ← escape fl e; Some (r, s')
    | "" => None
    end
  else if Ascii.eqb c "." then Some (Cls false true (if fl_s fl then [] else [(10, 10)]), s)
  else if Ascii.eqb c "^" then Some (BeginText, s)
  else if Ascii.eqb c "$" then Some (EndText, s)
  else if Ascii.eqb c "*" || Ascii.eqb c "+" || Ascii.eqb c "?" || Ascii.eqb c "{" then None
  else Some (lit_re fl c, s).

(** A sequence of alternatives up to a closing parenthesis or the end; [cur] is
    what the current alternative has so far. *)
Fixpoint parse_seq (fuel : nat) (fl : flags) (cur : re) (s : string) : option (re * string) :=
  match fuel with
  | O => None
  | S n =>
      match s with
      | "" => Some (cur, "")
      | String c s' =>
          if Ascii.eqb c ")" then Some (cur, s)
          else if Ascii.eqb c "|" then
            '(r, rest) ← parse_seq n fl Eps s'; Some (Alt cur r, rest)
          else if Ascii.eqb c "(" then
            h ← parse_head fl s';
            match h with
            | GFlags fl' rest => parse_seq n fl' cur rest
            | GGroup fl' body =>
                '(r, rest) ← parse_seq n fl' Eps body;
                match rest with
                | String ")" rest' =>
                    '(q, rest'') ← quantifier r rest'; parse_seq n fl (Cat cur q) rest''
                | _ => None
                end
            end
          else
            '(r, rest) ← atom fl c s';
            '(q, rest') ← quantifier r rest; parse_seq n fl (Cat cur q) rest'
      end
  end.

Definition Compile (pattern : string) : option re :=
  '(r, rest) ← parse_seq (S (String.length pattern)) (mkFlags false false) Eps pattern;
  match rest with "" => Some r | _ => None end.

(** ** Meaning *)

Inductive Matches : re → pos → pos → Prop :=
| M_eps p : Matches Eps p p
| M_cls fold neg ranges prev c s :
    cls_match fold neg ranges c = true → Matches (Cls fold neg ranges) (prev, String c s) (Some c, s)
| M_cat a b p q t : Matches a p q → Matches b q t → Matches (Cat a b) p t
| M_alt_l a b p q : Matches a p q → Matches (Alt a b) p q
| M_alt_r a b p q : Matches b p q → Matches (Alt a b) p q
| M_star_nil g a p : Matches (Star g a) p p
| M_star_step g a p q t : Matches a p q → Matches (Star g a) q t → Matches (Star g a) p t
| M_wordb p : boundary p = true → Matches WordB p p
| M_begin s : Matches BeginText (None, s) (None, s)
| M_end prev : Matches EndText (prev, "") (prev, "").

(** A match that consumes nothing ends where it starts. *)
Lemma Matches_progress r p q :
  Matches r p q → q = p ∨ (String.length q.2 < String.length p.2)%nat.
Proof.
  induction 1 as [| | ?????? [->|] ? [->|] | ????? [->|] | ????? [->|] | | ?????? [->|] ? [->|] | | |];
    simpl in *; first [by left|right; lia].
Qed.

Lemma elem_of_flat_map {A B} (f : A → list B) l y : y ∈ flat_map f l ↔ ∃ x, x ∈ l ∧ y ∈ f x.
Proof. rewrite list_elem_of_In, in_flat_map. by setoid_rewrite list_elem_of_In. Qed.

Lemma star_sound f g a fuel p q :
  (∀ p q, q ∈ f p → Matches a p q) → q ∈ star f g fuel p → Matches (Star g a) p q.
Proof.
  intros Hf. revert p. induction fuel as [|n IH]; intros p; simpl.
  { intros ->%list_elem_of_singleton. constructor. }
  assert (q ∈ flat_map (λ q0, if (String.length q0.2 <? String.length p.2)%nat then star f g n q0 else []) (f p) →
    Matches (Star g a) p q) as Hmore.
  { intros (t & Ht & Hq)%elem_of_flat_map. destruct (_ <? _)%nat; [|by apply not_elem_of_nil in Hq].
    econstructor; [by apply Hf|by apply IH]. }
  destruct g.
  - rewrite elem_of_app, list_elem_of_singleton. intros [?| ->]; [auto|constructor].
  - rewrite elem_of_cons. intros [->|?]; [constructor|auto].
Qed.

Lemma star_self f g fuel p : p ∈ star f g fuel p.
Proof.
  destruct fuel; simpl; [by apply list_elem_of_singleton|]. destruct g.
  - apply elem_of_app. right. by apply list_elem_of_singleton.
  - apply elem_of_cons. by left.
Qed.

Lemma star_more f g fuel p q t :
  q ∈ f p → (String.length q.2 < String.length p.2)%nat → t ∈ star f g fuel q → t ∈ star f g (S fuel) p.
Proof.
  intros Hq Hlt Ht. simpl. set (more := flat_map _ _). assert (t ∈ more).
  { apply elem_of_flat_map. exists q. split; [done|]. by rewrite (proj2 (Nat.ltb_lt _ _) Hlt). }
  destruct g; [apply elem_of_app; by left|apply elem_of_cons; by right].
Qed.

Lemma star_complete f g a p q :
  (∀ p q, Matches a p q → q ∈ f p) → Matches (Star g a) p q →
  ∀ fuel, (String.length p.2 < fuel)%nat → q ∈ star f g fuel p.
Proof.
  intros Hf HM. remember (Star g a) as r eqn:Hr. induction HM; simplify_eq; [intros; apply star_self|].
  destruct (Matches_progress _ _ _ HM1) as [->|Hlt]; [by apply IHHM2|].
  intros [|fuel] Hfuel; [lia|]. eapply star_more; [by apply Hf|done|]. apply IHHM2; [done|lia].
Qed.

(** The matcher finds exactly the matches. *)
Lemma ends_spec r p q : q ∈ ends r p ↔ Matches r p q.
Proof.
  revert p q. induction r as [|fold neg ranges|a IHa b IHb|a IHa b IHb|g a IHa| | |]; intros [prev s] q; cbn [ends fst snd].
  - rewrite list_elem_of_singleton. split; [intros ->; constructor|by inversion 1].
  - destruct s as [|c s]; [split; [by intros ?%not_elem_of_nil|by inversion 1]|].
    destruct (cls_match fold neg ranges c) eqn:E.
    + rewrite list_elem_of_singleton. split; [intros ->; by constructor|by inversion 1].
    + split; [by intros ?%not_elem_of_nil|]. inversion 1; congruence.
  - rewrite elem_of_flat_map. split.
    + intros (t & ?%IHa & ?%IHb). by econstructor.
    + inversion 1 as [| |? ? ? t ? HA HB| | | | | | |]; subst. exists t. by rewrite IHa, IHb.
  - rewrite elem_of_app, IHa, IHb. split.
    + intros [?|?]; [by constructor|by apply M_alt_r].
    + inversion 1; subst; auto.
  - split.
    + apply star_sound. intros. by apply IHa.
    + intros HM. eapply star_complete; [intros; by apply IHa|done|simpl; lia].
  - destruct (boundary (prev, s)) eqn:E.
    + rewrite list_elem_of_singleton. split; [intros ->; by constructor|by inversion 1].
    + split; [by intros ?%not_elem_of_nil|]. inversion 1; congruence.
  - destruct prev.
    + split; [by intros ?%not_elem_of_nil|by inversion 1].
    + rewrite list_elem_of_singleton. split; [intros ->; constructor|by inversion 1].
  - destruct s.
    + rewrite list_elem_of_singleton. split; [intros ->; constructor|by inversion 1].
    + split; [by intros ?%not_elem_of_nil|by inversion 1].
Qed.

(** The positions of a string, from a given one. *)
Inductive reaches : pos → pos → Prop :=
| R_here p : reaches p p
| R_next prev c s q : reaches (Some c, s) q → reaches (prev, String c s) q.

Lemma search_spec r prev s :
  (∃ x, search r prev s = Some x) ↔ ∃ p q, reaches (prev, s) p ∧ Matches r p q.
Proof.
  revert prev. induction s as [|c s IH]; intros prev; cbn [search].
  - destruct (ends r (prev, "")) as [|q l] eqn:E.
    + split; [by intros []|]. intros (p & q & Hr & HM). inversion Hr; subst.
      apply ends_spec in HM. rewrite E in HM. by apply not_elem_of_nil in HM.
    + split; [|by eauto]. intros _. exists (prev, ""), q. split; [constructor|].
      apply ends_spec. rewrite E. by apply elem_of_cons; left.
  - destruct (ends r (prev, String c s)) as [|q l] eqn:E.
    + rewrite IH. split.
      * intros (p & q & Hr & HM). exists p, q. split; [by constructor|done].
      * intros (p & q & Hr & HM). inversion Hr; subst; [|by eauto].
        apply ends_spec in HM. rewrite E in HM. by apply not_elem_of_nil in HM.
    + split; [|by eauto]. intros _. exists (prev, String c s), q. split; [constructor|].
      apply ends_spec. rewrite E. by apply elem_of_cons; left.
Qed.

Lemma MatchString_spec r s :
  MatchString r s = true ↔ ∃ p q, reaches (None, s) p ∧ Matches r p q.
Proof.
  rewrite <-search_spec. unfold MatchString. destruct (search r None s) as [x|]; split; try done; eauto.
  by intros [].
Qed.

(** Fuel is only a bound. *)
Lemma parse_seq_mono n n' fl cur s x :
  parse_seq n fl cur s = Some x → (n ≤ n')%nat → parse_seq n' fl cur s = Some x.
Proof.
  revert n' fl cur s x. induction n as [|n IH]; intros n' fl cur s x H Hle; [done|].
  destruct n' as [|n']; [lia|]. cbn [parse_seq] in *. destruct s as [|c s]; [done|].
  destruct (Ascii.eqb c ")"); [done|]. destruct (Ascii.eqb c "|").
  { destruct (parse_seq n fl Eps s) as [[r rest]|] eqn:E; [|done].
    by rewrite (IH n' _ _ _ _ E ltac:(lia)). }
  destruct (Ascii.eqb c "(").
  - destruct (parse_head fl s) as [[fl' body|fl' rest]|]; [..|done]; cbn [mbind option_bind] in *.
    + destruct (parse_seq n fl' Eps body) as [[r rest]|] eqn:E; [|done].
      rewrite (IH n' _ _ _ _ E ltac:(lia)). cbn [mbind option_bind] in *.
      destruct rest as [|d rest']; [done|].
      destruct d as [[] [] [] [] [] [] [] []]; try done.
      destruct (quantifier r rest') as [[q rest'']|]; [|done]. cbn [mbind option_bind] in *. eapply IH; [done|lia].
    + eapply IH; [done|lia].
  - destruct (atom fl c s) as [[r rest]|]; [|done]. cbn [mbind option_bind] in *.
    destruct (quantifier r rest) as [[q rest']|]; [|done]. cbn [mbind option_bind] in *. eapply IH; [done|lia].
Qed.

(** The readers below look at most one byte past what they consume. *)
Section Extend.
Context (t : string).
Let u : string := String ")" t.

Lemma parse_class_extend s first acc rs rest :
  parse_class first acc s = Some (rs, rest) → parse_class first acc (s +:+ u) = Some (rs, rest +:+ u).
Proof.
  remember (String.length s) as k eqn:Hk. revert s Hk first acc.
  induction (lt_wf k) as [k _ IH]; intros s -> first acc H.
  destruct s as [|c s]; [done|]. rewrite append_cons. cbn [parse_class] in *.
  destruct (Ascii.eqb c "]" && negb first); [by simplify_eq|]. destruct (Ascii.eqb c "["); [done|].
  destruct (Ascii.eqb c "\").
  { destruct s as [|e s]; [done|]. rewrite append_cons. destruct (class_escape e); [|done].
    cbn [mbind option_bind] in *. eapply (IH (String.length s)); [simpl; lia|done|done]. }
  assert (parse_class false (acc ++ [(code c, code c)]) s = Some (rs, rest) →
          parse_class false (acc ++ [(code c, code c)]) (s +:+ u) = Some (rs, rest +:+ u)) as Hs.
  { intros. eapply (IH (String.length s)); [simpl; lia|done|done]. }
  destruct s as [|d s]; [done|]. rewrite append_cons in Hs |- *.
  destruct d as [[] [] [] [] [] [] [] []]; try (by apply Hs).
  destruct s as [|hi s]; [done|]. rewrite append_cons in Hs |- *.
  destruct (Ascii.eqb hi "]" || Ascii.eqb hi "\"); [by apply Hs|].
  destruct (code c <=? code hi); [|done]. eapply (IH (String.length s)); [simpl; lia|done|done].
Qed.

Lemma atom_extend fl c s r rest :
  atom fl c s = Some (r, rest) → atom fl c (s +:+ u) = Some (r, rest +:+ u).
Proof.
  unfold atom. destruct (Ascii.eqb c "[").
  { assert (∀ neg s, ('(rs, s'') ← parse_class true [] s; Some (Cls (fl_i fl) neg rs, s'')) = Some (r, rest) →
      ('(rs, s'') ← parse_class true [] (s +:+ u); Some (Cls (fl_i fl) neg rs, s'')) = Some (r, rest +:+ u)) as Hc.
    { intros neg s' H. destruct (parse_class true [] s') as [[rs s'']|] eqn:E; [|done].
      rewrite (parse_class_extend _ _ _ _ _ E). by simplify_eq/=. }
    destruct s as [|d s]; [done|]. intros H. rewrite append_cons.
    destruct d as [[] [] [] [] [] [] [] []]; rewrite <-?append_cons; by apply Hc. }
  destruct (Ascii.eqb c "\").
  { destruct s as [|e s]; [done|]. rewrite append_cons. destruct (escape fl e); [|done]. intros; by simplify_eq/=. }
  repeat (case_match; try (intros; by simplify_eq)).
Qed.

Lemma lazy_mark_extend s : lazy_mark (s +:+ u) = ((lazy_mark s).1, (lazy_mark s).2 +:+ u).
Proof.
  destruct s as [|c s]; [done|]. rewrite append_cons. by destruct c as [[] [] [] [] [] [] [] []].
Qed.

Lemma count_extend s n c rest :
  count s = Some (n, String c rest) → count (s +:+ u) = Some (n, String c (rest +:+ u)).
Proof.
  unfold count. destruct s as [|a s]; [done|]. rewrite append_cons. destruct (digit a); [|done]. simpl.
  destruct s as [|b s]; [done|]. rewrite append_cons. destruct (digit b); [|intros; by simplify_eq].
  destruct s as [|d s]; [done|]. rewrite append_cons. destruct (digit d); intros; by simplify_eq.
Qed.

Lemma counted_extend r s q rest :
  counted r s = Some (q, rest) → counted r (s +:+ u) = Some (q, rest +:+ u).
Proof.
  unfold counted. destruct (count s) as [[lo s1]|] eqn:E; [|done]. cbn [mbind option_bind].
  destruct s1 as [|c s1]; [done|]. rewrite (count_extend _ _ _ _ E). cbn [mbind option_bind].
  destruct c as [[] [] [] [] [] [] [] []]; try done.
  { rewrite lazy_mark_extend. destruct (lazy_mark s1). intros; by simplify_eq/=. }
  destruct s1 as [|d s1]; [done|]. rewrite append_cons.
  assert (('(hi, s3) ← count (String d s1);
     match s3 with
     | String "}" s4 => let '(g, s5) := lazy_mark s4 in
         if (lo <=? hi)%nat then Some (Cat (repeat_re lo r) (upto g (hi - lo) r), s5) else None
     | _ => None end) = Some (q, rest) →
    ('(hi, s3) ← count (String d (s1 +:+ u));
     match s3 with
     | String "}" s4 => let '(g, s5) := lazy_mark s4 in
         if (lo <=? hi)%nat then Some (Cat (repeat_re lo r) (upto g (hi - lo) r), s5) else None
     | _ => None end) = Some (q, rest +:+ u)) as Hhi.
  { destruct (count (String d s1)) as [[hi s3]|] eqn:E2; [|done]. cbn [mbind option_bind].
    destruct s3 as [|e s3]; [done|]. apply count_extend in E2. rewrite append_cons in E2. rewrite E2. cbn [mbind option_bind].
    destruct e as [[] [] [] [] [] [] [] []]; try done.
    rewrite lazy_mark_extend. destruct (lazy_mark s3). simpl. destruct (_ <=? _)%nat; intros; by simplify_eq/=. }
  destruct d as [[] [] [] [] [] [] [] []]; try done.
  rewrite lazy_mark_extend. destruct (lazy_mark s1). intros; by simplify_eq/=.
Qed.

Lemma quantifier_extend r s q rest :
  quantifier r s = Some (q, rest) → quantifier r (s +:+ u) = Some (q, rest +:+ u).
Proof.
  destruct s as [|c s]; [intros; by simplify_eq/=|]. rewrite append_cons. unfold quantifier.
  destruct c as [[] [] [] [] [] [] [] []]; try (intros; by simplify_eq/=);
    try (rewrite lazy_mark_extend; destruct (lazy_mark s); intros; by simplify_eq/=).
  apply counted_extend.
Qed.

Definition extend_head (h : group_head) : group_head :=
  match h with GGroup fl s => GGroup fl (s +:+ u) | GFlags fl s => GFlags fl (s +:+ u) end.

Lemma parse_head_extend fl s h :
  parse_head fl s = Some h → parse_head fl (s +:+ u) = Some (extend_head h).
Proof.
  destruct s as [|c s]; [intros; by simplify_eq/=|]. rewrite append_cons. unfold parse_head.
  destruct c as [[] [] [] [] [] [] [] []]; try (intros; by simplify_eq/=).
  destruct s as [|c s]; [done|]. rewrite append_cons.
  destruct c as [[] [] [] [] [] [] [] []]; try done; try (intros; by simplify_eq/=).
  all: destruct s as [|c s]; [done|]; rewrite append_cons.
  all: destruct c as [[] [] [] [] [] [] [] []]; try done; try (intros; by simplify_eq/=).
  all: destruct s as [|c s]; [done|]; rewrite append_cons.
  all: destruct c as [[] [] [] [] [] [] [] []]; try done; try (intros; by simplify_eq/=).
Qed.

Lemma parse_seq_extend n fl cur s r rest :
  parse_seq n fl cur s = Some (r, rest) → parse_seq n fl cur (s +:+ u) = Some (r, rest +:+ u).
Proof.
  revert fl cur s r rest. induction n as [|n IH]; intros fl cur s r rest H; [done|].
  cbn [parse_seq] in *. destruct s as [|c s]; [by simplify_eq|]. rewrite append_cons.
  destruct (Ascii.eqb c ")"); [by simplify_eq|]. destruct (Ascii.eqb c "|").
  { destruct (parse_seq n fl Eps s) as [[r1 rest1]|] eqn:E; [|done].
    rewrite (IH _ _ _ _ _ E). by simplify_eq/=. }
  destruct (Ascii.eqb c "(").
  - destruct (parse_head fl s) as [h|] eqn:Eh; [|done]. rewrite (parse_head_extend _ _ _ Eh).
    cbn [mbind option_bind] in *. destruct h as [fl' body|fl' body]; cbn [extend_head].
    + destruct (parse_seq n fl' Eps body) as [[r1 rest1]|] eqn:E; [|done].
      rewrite (IH _ _ _ _ _ E). cbn [mbind option_bind] in *.
      destruct rest1 as [|d rest1]; [done|]. rewrite append_cons.
      destruct d as [[] [] [] [] [] [] [] []]; try done.
      destruct (quantifier r1 rest1) as [[q rest2]|] eqn:Eq; [|done].
      rewrite (quantifier_extend _ _ _ _ Eq). cbn [mbind option_bind] in *. by apply IH.
    + by apply IH.
  - destruct (atom fl c s) as [[r1 rest1]|] eqn:Ea; [|done]. rewrite (atom_extend _ _ _ _ _ Ea).
    cbn [mbind option_bind] in *. destruct (quantifier r1 rest1) as [[q rest2]|] eqn:Eq; [|done].
    rewrite (quantifier_extend _ _ _ _ Eq). cbn [mbind option_bind] in *. by apply IH.
Qed.

End Extend.

Definition anchored_re (r : re) : re := Cat (Cat (Cat Eps BeginText) r) EndText.

Lemma compile_anchored p r :
  Compile p = Some r → Compile ("\A(?:" +:+ p +:+ ")\z") = Some (anchored_re r).
Proof.
  unfold Compile. intros H.
  destruct (parse_seq (S (String.length p)) _ Eps p) as [[r' rest]|] eqn:E; [|done].
  cbn [mbind option_bind] in H. destruct rest; [|done]. simplify_eq.
  apply (parse_seq_extend "\z") in E. rewrite append_nil_l in E.
  change (")\z") with (String ")" "\z") in *.
  assert (∃ k, S (String.length ("\A(?:" +:+ p +:+ String ")" "\z")) =
    S (S (k + S (S (String.length p))))%nat ∧ (2 ≤ k)%nat) as (k & -> & Hk).
  { exists 5%nat. rewrite !length_append. simpl. lia. }
  change ("\A(?:" +:+ p +:+ String ")" "\z") with
    (String "\" (String "A" (String "(" (String "?" (String ":" (p +:+ String ")" "\z")))))).
  cbn [parse_seq Ascii.eqb Bool.eqb atom escape mbind option_bind quantifier parse_head].
  erewrite (parse_seq_mono _ (k + S (S (String.length p)))); [|exact E|lia]. cbn [mbind option_bind quantifier].
  destruct k as [|[|k]]; [lia..|]. reflexivity.
Qed.

(** [anchored_re r] matches exactly the strings [r] matches as a whole. *)
Lemma anchored_match r s :
  MatchString (anchored_re r) s = true ↔ ∃ prev, Matches r (None, s) (prev, "").
Proof.
  rewrite MatchString_spec. split.
  - intros ([prev0 s0] & q & Hr & HM). unfold anchored_re in HM.
    inversion HM as [| |? ? ? p1 ? HA HB| | | | | | |]; subst.
    inversion HA as [| |? ? ? p2 ? HC HD| | | | | | |]; subst.
    inversion HC as [| |? ? ? p3 ? HE HF| | | | | | |]; subst.
    inversion HE; subst. inversion HF; subst. inversion HB; subst.
    assert (s0 = s) as ->; [|by eauto].
    clear -Hr. assert (∀ p q, reaches p q → q.1 = None → q = p) as Hn.
    { induction 1 as [|? ? ? ? ? IH]; [done|]. intros Hq. specialize (IH Hq). by rewrite IH in Hq. }
    apply Hn in Hr; [|done]. by simplify_eq.
  - intros [prev HM]. exists (None, s), (prev, ""). split; [constructor|].
    econstructor; [econstructor; [|exact HM]|constructor]. econstructor; constructor.
Qed.
