(* ===== verification/DiagnosticCommand.v ===== *)
(** * Unattended diagnostic commands ([skills/run_diagnostic_command])

    The allowlist on the first token, the deny patterns on the whole command, the
    tool handler, and how the shell is invoked on each platform.  Starting a process
    is the parameter [exec]: its combined output and its error, if any. *)

From S2P Require Import Prelude GoStrings Regexp.

Module Diagnostic.

(** ** The allowlist *)

Definition diagnosticAllowlist : list string := [
  "ps"; "top"; "htop"; "pgrep"; "pstree"; "pidstat"; "df"; "du"; "ls"; "find"; "stat"; "file";
  "lsblk"; "blkid"; "findmnt"; "mount"; "grep"; "egrep"; "fgrep"; "rgrep"; "cat"; "head";
  "tail"; "less"; "more"; "awk"; "sed"; "sort"; "uniq"; "wc"; "cut"; "tr"; "xargs"; "column";
  "ss"; "netstat"; "ip"; "ifconfig"; "lsof"; "ping"; "traceroute"; "tracepath"; "mtr";
  "nslookup"; "dig"; "host"; "curl"; "wget"; "journalctl"; "dmesg"; "uname"; "hostname";
  "uptime"; "free"; "vmstat"; "iostat"; "mpstat"; "sar"; "dstat"; "lscpu"; "lspci"; "lsusb";
  "dmidecode"; "lsmod"; "modinfo"; "who"; "w"; "last"; "lastlog"; "id"; "getent"; "rpm"; "dpkg";
  "apt-cache"; "apt"; "dnf"; "yum"; "systemctl"; "service"; "docker"; "podman";
  "podman-compose"; "docker-compose"; "nerdctl"; "crictl"; "kubectl"; "helm"; "virsh";
  "smartctl"; "hdparm"; "nvme"; "nfsstat"; "nfsmount"; "showmount"; "mountstats"; "date"; "env";
  "printenv"; "which"; "whereis"; "type"; "powershell"; "powershell.exe"; "cmd"; "cmd.exe";
  "wmic"; "tasklist"; "netsh"; "ipconfig"; "systeminfo"; "sc"; "wevtutil"; "qwinsta"; "query"
].

(** [strings.Fields(cmd)[0]], lower-cased. *)
Definition firstToken (cmd : string) : string :=
  match Fields cmd with
  | [] => ""
  | w :: _ => ToLower w
  end.

Definition readOnlyVerbs : list string := [
  "get"; "measure"; "select"; "sort"; "format"; "compare";
  "find"; "resolve"; "test"; "where"; "foreach"; "show"; "read";
  "search"; "convertto"; "convertfrom"; "out"; "tee"
].

Definition isPowerShellReadOnlyCmdlet (token : string) : bool :=
  match IndexByte token "-" with
  | None => false
  | Some idx =>
      if (idx <? 1)%nat || (idx =? String.length token - 1)%nat then false
      else bool_decide (take_bytes idx token ∈ readOnlyVerbs)
  end.

(** ** The deny patterns *)

Record denyPattern := mkDeny { re_source : string; reason : string }.

Definition shellDeny : list denyPattern := [
  mkDeny "(?:^|[^<0-9])(>{1,2})"
    "output redirect writes to a file";
  mkDeny "\$\("
    "subshell execution via $(…)";
  mkDeny "`"
    "subshell execution via backtick";
  mkDeny "\|\s*(?:sh|bash|zsh|dash|ksh|csh|tcsh)\b"
    "pipe to a shell interpreter";
  mkDeny "\bfind\b.+\s-(?:exec|execdir|delete)\b"
    "find -exec / -execdir / -delete modifies the filesystem";
  mkDeny "\bxargs\b.+\b(?:rm|rmdir|unlink|shred|truncate)\b"
    "xargs piped to a destructive command"
].

Definition serviceDeny : list denyPattern := [
  mkDeny "\bsystemctl\b\s+(?:start|stop|restart|reload|enable|disable|mask|unmask|kill|reset-failed|set-property|edit)\b"
    "systemctl subcommand modifies service state";
  mkDeny "\bservice\b\s+\S+\s+(?:start|stop|restart|reload|force-reload)\b"
    "service command modifies service state";
  mkDeny "\bapt(?:-get)?\b\s+(?:install|upgrade|dist-upgrade|full-upgrade|remove|purge|autoremove)\b"
    "apt/apt-get modifies installed packages";
  mkDeny "\b(?:dnf|yum)\b\s+(?:install|update|upgrade|remove|erase|autoremove|swap|distro-sync)\b"
    "dnf/yum modifies installed packages";
  mkDeny "\bdpkg\b\s+(?:-i|--install|-r|--remove|-P|--purge|--configure|--unpack)\b"
    "dpkg modifies installed packages";
  mkDeny "\brpm\b\s+(?:-i|-U|-F|-e|--install|--upgrade|--freshen|--erase)\b"
    "rpm modifies installed packages"
].

Definition editDeny : list denyPattern := [
  mkDeny "\bsed\b\s+(?:\S+\s+)*-i\b"
    "sed -i edits files in place";
  mkDeny "\bcurl\b.+-X\s*(?:POST|PUT|DELETE|PATCH)\b"
    "curl -X flag with mutation method";
  mkDeny "\bcurl\b.+--(?:upload-file|data(?:-raw|-binary|-urlencode)?|json)\b"
    "curl long-form flag indicates a write or upload request";
  mkDeny "\bcurl\b.*\s-[dTF][\s=]"
    "curl -d/-T/-F flag indicates a write or upload request";
  mkDeny "\bwget\b.+(?:--(?:post-data|post-file|method=(?:POST|PUT|DELETE)))"
    "wget flag indicates a write request"
].

Definition containerDeny : list denyPattern := [
  mkDeny "\b(?:docker|podman|nerdctl|crictl)\s+(?:run|create|start|stop|restart|kill|pause|unpause|rm|rmi|exec|build|commit|tag|push|cp|rename|update|login|logout|system\s+prune|container\s+prune|image\s+(?:rm|prune|build|push|import|load)|network\s+(?:create|rm|connect|disconnect|prune)|volume\s+(?:create|rm|prune))\b"
    "docker/podman subcommand modifies container or image state";
  mkDeny "\b(?:docker-compose|podman-compose)\s+(?:up|down|start|stop|restart|kill|rm|build|push|pull|create|run|exec)\b"
    "docker-compose/podman-compose subcommand modifies service state";
  mkDeny "\bkubectl\s+(?:apply|create|delete|replace|patch|edit|label|annotate|scale|taint|drain|cordon|uncordon|exec|cp|rollout\s+(?:restart|undo)|set\s+(?:image|env|resources|selector|serviceaccount))\b"
    "kubectl subcommand modifies cluster state";
  mkDeny "\bhelm\s+(?:install|upgrade|uninstall|rollback|repo\s+add|repo\s+remove|push|package)\b"
    "helm subcommand modifies release state"
].

Definition powershellDeny : list denyPattern := [
  mkDeny "(?i)\b(?:Set|Remove|New|Add|Clear|Copy|Move|Rename)-(?:Item|Content|Property|Location|Acl)\b"
    "PowerShell cmdlet modifies filesystem or registry state";
  mkDeny "(?i)\b(?:Start|Stop|Restart|Suspend|Resume)-(?:Service|Process)\b"
    "PowerShell cmdlet modifies service or process state";
  mkDeny "(?i)\b(?:Install|Uninstall)-(?:Module|Package|WindowsFeature|WindowsOptionalFeature|Script)\b"
    "PowerShell cmdlet modifies installed packages or features";
  mkDeny "(?i)\bOut-File\b"
    "Out-File writes to a file";
  mkDeny "(?i)\b(?:Invoke-Expression|iex)\b"
    "Invoke-Expression executes arbitrary code";
  mkDeny "(?i)\bSet-ExecutionPolicy\b"
    "Set-ExecutionPolicy changes the PowerShell execution policy";
  mkDeny "\bsc(?:\.exe)?\s+(?:start|stop|create|delete|config|failure|pause|continue)\b"
    "sc.exe subcommand modifies service state"
].

Definition driveDeny : list denyPattern := [
  mkDeny "\bsmartctl\b.*\s-[tsToS]\b"
    "smartctl flag triggers a drive self-test or changes SMART settings";
  mkDeny "\bvirsh\s+(?:start|shutdown|destroy|reboot|reset|suspend|resume|create|define|undefine|migrate|attach-(?:device|disk|interface)|detach-(?:device|disk|interface)|snapshot-create|snapshot-delete|snapshot-revert|vol-create|vol-delete|vol-clone|net-start|net-destroy|net-define|net-undefine|pool-start|pool-destroy|pool-define|pool-undefine)\b"
    "virsh subcommand modifies VM or network state"
].

Definition denyPatterns : list denyPattern :=
  shellDeny ++ serviceDeny ++ editDeny ++ containerDeny ++ powershellDeny ++ driveDeny.

(** [p.re.MatchString(cmd)], the pattern having been compiled at start-up. *)
Definition deny_matches (p : denyPattern) (cmd : string) : bool :=
  match Compile (re_source p) with
  | Some r => MatchString r cmd
  | None => false
  end.

(** ** Validation *)

Inductive validate_error :=
| EEcho (first : string)
| ENotOnAllowlist (first : string)
| EForbidden (pattern : string) (why : string).

#[export] Instance validate_error_eq_dec : EqDecision validate_error.
Proof. solve_decision. Defined.

Fixpoint scan_deny (patterns : list denyPattern) (cmd : string) : option validate_error :=
  match patterns with
  | [] => None
  | p :: rest => if deny_matches p cmd then Some (EForbidden (re_source p) (reason p)) else scan_deny rest cmd
  end.

Definition validateCommand (cmd : string) : option validate_error :=
  let first := firstToken cmd in
  if bool_decide (first ∈ ["echo"; "write-output"; "write-host"]) then Some (EEcho first)
  else if negb (bool_decide (first ∈ diagnosticAllowlist)) && negb (isPowerShellReadOnlyCmdlet first)
  then Some (ENotOnAllowlist first)
  else scan_deny denyPatterns cmd.

Definition IsDiagnosticEligible (cmd : string) : bool :=
  match validateCommand cmd with None => true | Some _ => false end.

(** ** Execution *)

(** The program [runShell] starts and its arguments, on Unix. *)
Definition runShell_unix (cmd : string) : list string := ["sh"; "-c"; cmd].

(** [strings.SplitN(cmd, " ", 2)]: what follows the first space, if there is one. *)
Fixpoint after_space (cmd : string) : option string :=
  match cmd with
  | "" => None
  | String c s => if Ascii.eqb c " " then Some s else after_space s
  end.

Definition runShell_windows (cmd : string) : list string :=
  let first := firstToken cmd in
  if String.eqb first "powershell" || String.eqb first "powershell.exe" then
    match after_space cmd with
    | None => [cmd]
    | Some rest => ["powershell.exe"; "-NoProfile"; "-NonInteractive"; "-Command"; TrimSpace rest]
    end
  else if isPowerShellReadOnlyCmdlet first then
    ["powershell.exe"; "-NoProfile"; "-NonInteractive"; "-Command"; cmd]
  else ["cmd"; "/c"; cmd].

Inductive tool_error :=
| EEmptyCommand
| EInvalid (e : validate_error).

Section Tool.
Context (runShell : string → list string) (exec : list string → string * option string).

(** The handler of [run_diagnostic_command]: the text for the model, and the
    programs started. *)
Definition run_diagnostic (command : string) : result tool_error string * list (list string) :=
  let cmd := TrimSpace command in
  if String.eqb cmd "" then (Err EEmptyCommand, [])
  else
    match validateCommand cmd with
    | Some e => (Err (EInvalid e), [])
    | None =>
        let argv := runShell cmd in
        let '(out, execErr) := exec argv in
        let output := TrimRightFunc (λ c, code c =? 10) out in
        (Ok (match execErr with
             | Some err =>
                 if String.eqb output "" then "Command failed: " +:+ err
                 else "Command failed (" +:+ err +:+ "):" +:+ String "010" output
             | None => if String.eqb output "" then "Command completed with no output." else output
             end), [argv])
    end.
End Tool.

End Diagnostic.
