(* ===== verification/DiagnosticFacts.v ===== *)
(** * What the diagnostic gate lets through *)

From S2P Require Import Prelude GoStrings Regexp DiagnosticCommand.

Import Diagnostic.

#[local] Opaque denyPatterns diagnosticAllowlist.

Lemma deny_compiles p : p ∈ denyPatterns → ∃ r, Compile (re_source p) = Some r.
Proof.
  assert (forallb (λ p, match Compile (re_source p) with Some _ => true | None => false end) denyPatterns = true)
    as H by (vm_compute; reflexivity).
  rewrite forallb_forall in H. intros Hp%list_elem_of_In%H. destruct (Compile _); [eauto|done].
Qed.

Lemma scan_deny_none ps cmd :
  scan_deny ps cmd = None ↔ ∀ p, p ∈ ps → deny_matches p cmd = false.
Proof.
  induction ps as [|p ps IH]; simpl.
  - split; [|done]. by intros _ p ?%not_elem_of_nil.
  - destruct (deny_matches p cmd) eqn:E.
    + split; [done|]. intros H. rewrite H in E; [done|]. by apply elem_of_cons; left.
    + rewrite IH. split; [intros H q [->|Hq]%elem_of_cons; auto|].
      intros H q Hq. apply H. by apply elem_of_cons; right.
Qed.

Lemma eligible_unfold cmd :
  IsDiagnosticEligible cmd = true ↔
  (firstToken cmd ∉ ["echo"; "write-output"; "write-host"]) ∧
  (firstToken cmd ∈ diagnosticAllowlist ∨ isPowerShellReadOnlyCmdlet (firstToken cmd) = true) ∧
  ∀ p, p ∈ denyPatterns → deny_matches p cmd = false.
Proof.
  rewrite <-scan_deny_none. unfold IsDiagnosticEligible, validateCommand.
  case_bool_decide as He; [split; [discriminate|intros [? _]; contradiction]|].
  case_bool_decide as Ha; simpl.
  - destruct (scan_deny denyPatterns cmd); split; [discriminate|intros (_ & _ & ?); discriminate|auto|auto].
  - destruct (isPowerShellReadOnlyCmdlet (firstToken cmd)); simpl.
    + destruct (scan_deny denyPatterns cmd); split; [discriminate|intros (_ & _ & ?); discriminate|auto|auto].
    + split; [discriminate|]. intros (_ & [?|?] & _); [contradiction|discriminate].
Qed.

(** C16. The gate is what its two layers say: a command runs unattended exactly
    when its first token is an allowlisted program or a read-only PowerShell
    cmdlet, is not an echo, and no deny pattern (each of which compiles) has a
    match starting anywhere in the command. *)
Theorem eligible_iff cmd :
  IsDiagnosticEligible cmd = true ↔
  (firstToken cmd ∉ ["echo"; "write-output"; "write-host"]) ∧
  (firstToken cmd ∈ diagnosticAllowlist ∨ isPowerShellReadOnlyCmdlet (firstToken cmd) = true) ∧
  ∀ p, p ∈ denyPatterns → ∃ r, Compile (re_source p) = Some r ∧
    ∀ start stop, reaches (None, cmd) start → ¬ Matches r start stop.
Proof.
  rewrite eligible_unfold. apply and_iff_compat_l, and_iff_compat_l.
  apply forall_proper; intros p. split; intros H Hp.
  - destruct (deny_compiles p Hp) as [r Hr]. exists r. split; [done|]. intros start stop Hs HM.
    specialize (H Hp). unfold deny_matches in H. rewrite Hr in H.
    assert (MatchString r cmd = true) as Ht by (apply MatchString_spec; eauto). congruence.
  - destruct (H Hp) as (r & Hr & Hno). unfold deny_matches. rewrite Hr.
    destruct (MatchString r cmd) eqn:E; [|done]. apply MatchString_spec in E as (s & t & ? & ?). by destruct (Hno s t).
Qed.

(** A position the patterns of an eligible command cannot match at. *)
Lemma eligible_no_match cmd p r start stop :
  IsDiagnosticEligible cmd = true → p ∈ denyPatterns → Compile (re_source p) = Some r →
  reaches (None, cmd) start → ¬ Matches r start stop.
Proof.
  intros (_ & _ & H)%eligible_unfold Hp Hr Hs HM. specialize (H p Hp). unfold deny_matches in H. rewrite Hr in H.
  assert (MatchString r cmd = true) as Ht by (apply MatchString_spec; eauto). congruence.
Qed.

Lemma deny_nth k p : denyPatterns !! k = Some p → p ∈ denyPatterns.
Proof. apply list_elem_of_lookup_2. Qed.

(** The first three deny patterns, compiled. *)
Definition gt : re := Cls false false [(62, 62)].
Definition redirect_re : re :=
  Cat (Cat Eps (Alt (Cat Eps BeginText) (Cat Eps (Cls false true [(60, 60); (48, 57)]))))
      (Cat Eps (Cat (repeat_re 1 gt) (upto true 1 gt))).
Definition subshell_re : re := Cat (Cat Eps (Cls false false [(36, 36)])) (Cls false false [(40, 40)]).
Definition backtick_re : re := Cat Eps (Cls false false [(96, 96)]).

Lemma reaches_trans p q t : reaches p q → reaches q t → reaches p t.
Proof. induction 1; [done|]. intros. constructor. auto. Qed.

(** The position of a later byte is one after some byte, or the start. *)
Lemma reaches_prev s start : reaches (None, s) start →
  start = (None, s) ∨ ∃ prev c t, start = (Some c, t) ∧ reaches (None, s) (prev, String c t).
Proof.
  assert (∀ p q, reaches p q → q = p ∨ ∃ prev c t, q = (Some c, t) ∧ reaches p (prev, String c t)) as H.
  { induction 1 as [|prev c s' q Hr [->|(prev' & c' & t & -> & Ht)]]; [by left|right..].
    - exists prev, c, s'. split; [done|constructor].
    - exists prev', c', t. split; [done|by constructor]. }
  intros ?%H. done.
Qed.

(** No substitution and no redirection to a file by a bare [>]: in a command
    that runs unattended there is no backquote, no [$(], and every [>] follows a
    digit or [<]. *)
Theorem eligible_no_substitution cmd prev c rest :
  IsDiagnosticEligible cmd = true → reaches (None, cmd) (prev, String c rest) →
  code c ≠ 96 ∧
  (code c = 36 → HasPrefix rest "(" = false) ∧
  (code c = 62 → ∃ d, prev = Some d ∧ (48 ≤ code d ≤ 57 ∨ code d = 60)).
Proof.
  intros He Hr. split_and!.
  - intros Hc. eapply (eligible_no_match cmd _ backtick_re _ (Some c, rest) He (deny_nth 2 _ eq_refl) eq_refl Hr).
    econstructor; constructor. unfold cls_match. by rewrite Hc.
  - intros Hc. destruct (HasPrefix rest "(") eqn:Hp; [|done]. exfalso. destruct rest as [|d rest]; [done|].
    unfold HasPrefix in Hp. simpl in Hp. case_match; [|done]. subst d.
    eapply (eligible_no_match cmd _ subshell_re _ (Some "("%char, rest) He (deny_nth 1 _ eq_refl) eq_refl Hr).
    econstructor; [econstructor; constructor|by constructor]. unfold cls_match. by rewrite Hc.
  - intros Hc. assert (Matches gt (prev, String c rest) (Some c, rest)) as Hgt.
    { constructor. unfold cls_match. by rewrite Hc. }
    assert (∀ start, reaches (None, cmd) start →
      Matches (Alt (Cat Eps BeginText) (Cat Eps (Cls false true [(60, 60); (48, 57)]))) start (prev, String c rest) → False) as Hno.
    { intros start Hs HM.
      eapply (eligible_no_match cmd _ redirect_re _ (Some c, rest) He (deny_nth 0 _ eq_refl) eq_refl Hs).
      econstructor; [econstructor; [constructor|exact HM]|].
      econstructor; [constructor|]. econstructor; [econstructor; [exact Hgt|constructor]|]. apply M_alt_r. constructor. }
    destruct (reaches_prev _ _ Hr) as [[= -> <-]|(prev' & d & t & [= -> <-] & Hd)].
    { exfalso. eapply Hno; [apply R_here|]. apply M_alt_l. econstructor; constructor. }
    exists d. split; [done|]. destruct (cls_match false true [(60, 60); (48, 57)] d) eqn:Ecls.
    + exfalso. eapply Hno; [exact Hd|]. apply M_alt_r. econstructor; [constructor|]. by constructor.
    + unfold cls_match, in_ranges in Ecls. cbn [existsb andb] in Ecls.
      rewrite !orb_false_r in Ecls. cbn [xorb] in Ecls. apply negb_false_iff, orb_true_iff in Ecls.
      rewrite !andb_true_iff, !Z.leb_le in Ecls. lia.
Qed.

(** The tool starts a process for a command only after the gate accepted it,
    exactly one, and with the trimmed command; on Unix it is [sh -c]. *)
Theorem diagnostic_tool_guarded runShell exec command argv :
  argv ∈ (run_diagnostic runShell exec command).2 →
  IsDiagnosticEligible (TrimSpace command) = true ∧ argv = runShell (TrimSpace command) ∧
  (run_diagnostic runShell exec command).2 = [argv] ∧
  ∃ text, (run_diagnostic runShell exec command).1 = Ok text.
Proof.
  unfold run_diagnostic, IsDiagnosticEligible.
  destruct (String.eqb (TrimSpace command) ""); [by intros ?%not_elem_of_nil|].
  destruct (validateCommand (TrimSpace command)); [by intros ?%not_elem_of_nil|].
  destruct (exec (runShell (TrimSpace command))) as [out err]. cbn [fst snd].
  intros ->%list_elem_of_singleton. eauto.
Qed.

(** The deny patterns do not see command separators, programs run through
    [env], or a numbered redirection into a file: these commands, which remove
    files or overwrite one, run unattended. *)
Theorem separators_not_denied :
  Forall (λ cmd, IsDiagnosticEligible cmd = true)
    ["ls ; rm -rf /srv/data"; "ls && rm -rf /srv/data"; "env rm -rf /srv/data"; "cat a 1>/etc/passwd"].
Proof. repeat constructor; vm_compute; reflexivity. Qed.
