(* ===== verification/Policy.v ===== *)
(** * Standing approval policies ([endpoint-server/policy/policy.go])

    The policy list and the approval counts are two attributes of the memory.  Go's
    [regexp] is the class [RegexpEngine], which [Regexp] implements; the iteration
    order of a Go map is the parameter [order]. *)

From S2P Require Import Prelude GoStrings GoTime Json Memory MemStore Regexp.

(** [regexp.Compile] followed by [MatchString]. *)
Class RegexpEngine := { rx_compile : string → option (string → bool) }.

Definition go_regexp : RegexpEngine := {| rx_compile p := MatchString <$> Compile p |}.

Module Policies.

Definition attrsKey : string := "approval_policies".
Definition historyKey : string := "approval_history".
Definition PromotionThreshold : Z := 3.
Definition maxHistoryEntries : nat := 200.

Record Policy := mkPolicy {
  ID : string;
  Description : string;
  Pattern : string;
  Risk : string;
  CreatedAt : string;
  Enabled : bool;
}.

#[export] Instance policy_eq_dec : EqDecision Policy.
Proof. solve_decision. Defined.

Inductive pol_error :=
| ENoBackingStore
| EEmptyPattern
| EInvalidPattern
| EEmptyDescription
| ENoPolicy (id : string)
| EStore (e : mem_error).

(** [NormalizeCommand]: words separated by single spaces. *)
Definition NormalizeCommand (cmd : string) : string := Join (Fields (TrimSpace cmd)) " ".

(** The pattern [Match] compiles: anchored at both ends. *)
Definition anchored (p : string) : string := "\A(?:" +:+ p +:+ ")\z".

Section Store.
Context `{!RegexpEngine, !Json (list Policy), !Json (gmap string Z), !MemStore M}.
Context (zone : Z → Z) (order : gmap string Z → list (string * Z)).

Definition load (m : M) : list Policy :=
  match GetAttr attrsKey m with
  | (_, false) => []
  | (list, true) => list
  end.

Definition All (mem : option M) : list Policy :=
  match mem with None => [] | Some m => load m end.

(** [Add]: [now] and [now'] are its two readings of the clock. *)
Definition Add (now now' : Z) (description pattern risk : string) (mem : option M) :
    result pol_error Policy * option M :=
  match mem with
  | None => (Err ENoBackingStore, None)
  | Some m =>
      if String.eqb (TrimSpace pattern) "" then (Err EEmptyPattern, mem)
      else match rx_compile pattern with
      | None => (Err EInvalidPattern, mem)
      | Some _ =>
          if String.eqb (TrimSpace description) "" then (Err EEmptyDescription, mem)
          else
            let lst := load m in
            let p := mkPolicy ("policy-" +:+ Itoa now) (TrimSpace description) pattern
                       (ToLower (TrimSpace risk)) (Format zone now') true in
            match SetAttr attrsKey (lst ++ [p]) m with
            | (Some e, m') => (Err (EStore e), Some m')
            | (None, m') => (Ok p, Some m')
            end
      end
  end.

Definition Delete (id : string) (mem : option M) : result pol_error unit * option M :=
  match mem with
  | None => (Err ENoBackingStore, None)
  | Some m =>
      let lst := load m in
      let kept := filter (λ p, ID p ≠ id) lst in
      let found := existsb (λ p, String.eqb (ID p) id) lst in
      if negb found then (Err (ENoPolicy id), mem)
      else match SetAttr attrsKey kept m with
           | (Some e, m') => (Err (EStore e), Some m')
           | (None, m') => (Ok tt, Some m')
           end
  end.

(** One iteration of [Match]'s loop. *)
Definition matches (cmd : string) (p : Policy) : bool :=
  if negb (Enabled p) then false
  else match rx_compile (anchored (Pattern p)) with
       | None => false
       | Some re => re cmd
       end.

Definition Match (command : string) (mem : option M) : option Policy :=
  match mem with
  | None => None
  | Some m => List.find (matches (NormalizeCommand command)) (load m)
  end.

(** The scan for the smallest count, from the greatest [int]. *)
Definition min_step (key : string) (best kv : string * Z) : string * Z :=
  if negb (String.eqb kv.1 key) && (kv.2 <? best.2) then kv else best.

(** The eviction loop; every iteration removes an entry, so the size is enough fuel. *)
Fixpoint evict (fuel : nat) (key : string) (counts : gmap string Z) : gmap string Z :=
  match fuel with
  | O => counts
  | S n =>
      if (maxHistoryEntries <? size counts)%nat then
        let '(minKey, _) := foldl (min_step key) ("", max64) (order counts) in
        if String.eqb minKey "" then counts else evict n key (delete minKey counts)
      else counts
  end.

Definition RecordApproval (command : string) (mem : option M) : Z * option pol_error * option M :=
  match mem with
  | None => (0, Some ENoBackingStore, None)
  | Some m =>
      let '(counts, _) := (GetAttr historyKey m : gmap string Z * bool) in
      let key := NormalizeCommand command in
      let n := wrap64 (default 0 (counts !! key) + 1) in
      let counts := <[key := n]> counts in
      let counts := evict (size counts) key counts in
      match SetAttr historyKey counts m with
      | (Some e, m') => (n, Some (EStore e), Some m')
      | (None, m') => (n, None, Some m')
      end
  end.

End Store.

End Policies.
