(* ===== verification/PolicyFacts.v ===== *)
(** * Correctness of the standing policies *)

From S2P Require Import Prelude GoStrings GoTime Json Memory MemStore Regexp Policy.

Import Policies.

(** ** Commands *)

Lemma normalize_fields cmd : NormalizeCommand cmd = Join (Fields cmd) " ".
Proof. unfold NormalizeCommand. by rewrite Fields_TrimSpace. Qed.

Lemma space_sep_space : space_sep " ".
Proof. by exists " "%char. Qed.

Lemma fields_normalize cmd : Fields (NormalizeCommand cmd) = Fields cmd.
Proof. rewrite normalize_fields, Fields_Join; [done|apply Fields_words|apply space_sep_space]. Qed.

Lemma command_normalize_idemp cmd : NormalizeCommand (NormalizeCommand cmd) = NormalizeCommand cmd.
Proof. rewrite (normalize_fields (NormalizeCommand cmd)), fields_normalize. by rewrite <-normalize_fields. Qed.

Section Store.
Context {RJ : RawJson} `{!Json (list Policy), !JsonRoundtrip (list Policy), !JsonCompact (list Policy)}.
Context `{!Json (gmap string Z), !JsonRoundtrip (gmap string Z), !JsonCompact (gmap string Z)}.
Context `{!MemStore M, !MemStoreLaws M}.

Lemma load_set (lst : list Policy) (m m' : M) : SetAttr attrsKey lst m = (None, m') → load m' = lst.
Proof. intros H. unfold load. by rewrite (get_set _ _ _ _ H). Qed.

Section Engine.
Context {RX : RegexpEngine}.

(** [Match] returns the first policy of the list that is enabled and whose
    anchored pattern compiles and matches the normalised command, and the answer
    depends only on the words of the command. *)
Theorem match_first (command : string) (m : M) p :
  (Match command (Some m) = Some p ↔
   ∃ pre post, load m = pre ++ p :: post ∧
     Enabled p = true ∧ (∃ re, rx_compile (anchored (Pattern p)) = Some re ∧ re (NormalizeCommand command) = true) ∧
     ∀ q, q ∈ pre → Enabled q = true → ∀ re, rx_compile (anchored (Pattern q)) = Some re →
       re (NormalizeCommand command) = false) ∧
  (∀ command', Fields command' = Fields command → Match command' (Some m) = Match command (Some m)).
Proof.
  split; [|intros c' E; unfold Match; by rewrite !normalize_fields, E].
  assert (∀ cmd q, matches cmd q = true ↔
    Enabled q = true ∧ ∃ re, rx_compile (anchored (Pattern q)) = Some re ∧ re cmd = true) as Hm.
  { intros cmd q. unfold matches. destruct (Enabled q); simpl; [|naive_solver].
    destruct (rx_compile _); naive_solver. }
  unfold Match. set (cmd := NormalizeCommand command). generalize (load m) as l. intros l.
  induction l as [|q l IH]; simpl.
  { split; [done|]. intros (pre & post & E & _). by destruct pre. }
  destruct (matches cmd q) eqn:Hq.
  - pose proof (proj1 (Hm _ _) Hq) as [He Hre]. split.
    + intros [= <-]. exists [], l. split_and!; try done. by intros ? ?%not_elem_of_nil.
    + intros (pre & post & E & _ & _ & Hpre). destruct pre as [|q' pre]; simplify_eq/=; [done|].
      destruct Hre as (re & Hc & Ht). rewrite (Hpre q' ltac:(by apply elem_of_cons; left) He re Hc) in Ht. done.
  - rewrite IH. split.
    + intros (pre & post & -> & ? & ? & Hpre). exists (q :: pre), post. split_and!; try done.
      intros q' [->|Hin]%elem_of_cons He re Hc; [|by eapply Hpre].
      destruct (re cmd) eqn:Ht; [|done]. exfalso. rewrite (proj2 (Hm cmd q)) in Hq; [done|eauto].
    + intros (pre & post & E & He & Hre & Hpre). destruct pre as [|q' pre]; simplify_eq/=.
      { rewrite (proj2 (Hm cmd p)) in Hq; [done|eauto]. }
      exists pre, post. split_and!; try done. intros q Hin. apply Hpre. by apply elem_of_cons; right.
Qed.

Lemma add_load zone now now' d p r (m : M) pol m' :
  Add zone now now' d p r (Some m) = (Ok pol, Some m') → load m' = load m ++ [pol].
Proof.
  unfold Add. destruct (String.eqb (TrimSpace p) ""); [done|]. destruct (rx_compile p); [|done].
  destruct (String.eqb (TrimSpace d) ""); [done|].
  destruct (SetAttr _ _ _) as [[e|] m1] eqn:Hs; intros; simplify_eq. by eapply load_set.
Qed.

Lemma delete_load id (m : M) u m' :
  Delete id (Some m) = (Ok u, Some m') →
  load m' = filter (λ p, ID p ≠ id) (load m) ∧ ∃ p, p ∈ load m ∧ ID p = id.
Proof.
  unfold Delete. destruct (existsb _ _) eqn:Hf; [|done]. simpl.
  destruct (SetAttr _ _ _) as [[e|] m1] eqn:Hs; intros; simplify_eq. split; [by eapply load_set|].
  apply existsb_exists in Hf as (p & Hp & E%String.eqb_eq). exists p. by rewrite list_elem_of_In.
Qed.

(** The life of a policy: a successful [Add] appends one enabled policy whose
    pattern compiles and touches nothing else; a successful [Delete] removes every
    policy of that identifier and no other, and no command matches it afterwards. *)
Theorem policy_lifecycle zone now now' d pat r id (m : M) :
  (∀ p m', Add zone now now' d pat r (Some m) = (Ok p, Some m') →
     load m' = load m ++ [p] ∧ Enabled p = true ∧ Pattern p = pat ∧ is_Some (rx_compile pat)) ∧
  (∀ u m', Delete id (Some m) = (Ok u, Some m') →
     (∀ p, p ∈ load m' ↔ p ∈ load m ∧ ID p ≠ id) ∧
     ∀ command p, Match command (Some m') = Some p → ID p ≠ id).
Proof.
  split.
  - intros p m' H. split; [by eapply add_load|]. unfold Add in H.
    destruct (String.eqb (TrimSpace pat) ""); [done|]. destruct (rx_compile pat); [|done].
    destruct (String.eqb (TrimSpace d) ""); [done|].
    destruct (SetAttr _ _ _) as [[e|] m1]; simplify_eq/=. by eauto.
  - intros u m' [Hl _]%delete_load. split.
    + intros p. rewrite Hl, list_elem_of_filter. tauto.
    + unfold Match. intros command p [Hp _]%find_some. rewrite Hl in Hp.
      by apply list_elem_of_In, list_elem_of_filter in Hp as [? _].
Qed.

End Engine.

(** C13. Whole commands: with the regular expressions of [Regexp], a policy added
    by the operator matches a command exactly when its pattern, as it stands,
    matches the entire normalised command. *)
Theorem policy_whole_command p r (cmd : string) :
  Compile (Pattern p) = Some r → Enabled p = true →
  @matches go_regexp cmd p = true ↔ ∃ prev, Matches r (None, cmd) (prev, "").
Proof.
  intros Hc He. unfold matches. rewrite He. cbn [negb rx_compile go_regexp].
  unfold anchored. rewrite (compile_anchored _ _ Hc). cbn [fmap option_fmap option_map].
  apply anchored_match.
Qed.

(** ** Approval counts *)

Section Counts.
Context (order : gmap string Z → list (string * Z)).
Hypothesis (Horder : ∀ counts, order counts ≡ₚ map_to_list counts).

(** The scan ends on an entry other than [key] of the least count, if any is
    below the starting value. *)
Lemma min_fold key L best :
  let r := foldl (min_step key) best L in
  (r = best ∨ r ∈ L ∧ r.1 ≠ key ∧ r.2 < best.2) ∧
  (∀ k v, (k, v) ∈ L → k ≠ key → v < best.2 → r.2 ≤ v) ∧ r.2 ≤ best.2.
Proof.
  revert best. induction L as [|[k v] L IH]; intros best; simpl.
  { split_and!; [by left|by intros ? ? ?%not_elem_of_nil|lia]. }
  set (b := min_step key best (k, v)). destruct (IH b) as (H1 & H2 & H3).
  set (r := foldl (min_step key) b L) in *. clearbody r.
  assert ((b = best ∨ b = (k, v) ∧ k ≠ key ∧ v < best.2) ∧ b.2 ≤ best.2 ∧ (k ≠ key → v < best.2 → b.2 ≤ v))
    as (B1 & B2 & B3).
  { subst b. unfold min_step. simpl. destruct (String.eqb_spec k key), (Z.ltb_spec v best.2); simpl; naive_solver lia. }
  split_and!; [| |lia].
  - destruct H1 as [->|(Hin & Hk & Hlt)].
    + destruct B1 as [->|(-> & ? & ?)]; [by left|]. right. split_and!; [by apply elem_of_cons; left|done|done].
    + right. split_and!; [by apply elem_of_cons; right|done|lia].
  - intros k' v' [[= -> ->]|Hin]%elem_of_cons Hk Hlt; [specialize (B3 Hk Hlt); lia|].
    destruct (decide (v' < b.2)); [by eapply H2|lia].
Qed.

(** What the eviction of one run guarantees. *)
Definition evicted (key : string) (counts counts' : gmap string Z) : Prop :=
  counts' ⊆ counts ∧ counts' !! key = counts !! key ∧
  ∀ k v k' v', counts !! k = Some v → counts' !! k = None → counts' !! k' = Some v' → k' ≠ key → v ≤ v'.

Lemma evicted_refl key counts : evicted key counts counts.
Proof. split_and!; [done|done|]. intros. congruence. Qed.

Lemma evict_spec fuel key counts :
  is_Some (counts !! key) → (∀ k v, counts !! k = Some v → k ≠ key → k ≠ "" ∧ v < max64) →
  (size counts ≤ maxHistoryEntries + fuel)%nat →
  let counts' := evict order fuel key counts in
  evicted key counts counts' ∧ (size counts' ≤ maxHistoryEntries)%nat ∧
  ((size counts ≤ maxHistoryEntries)%nat → counts' = counts).
Proof.
  revert counts. induction fuel as [|n IH]; intros counts Hkey Hok Hsize; simpl.
  { split_and!; [apply evicted_refl|lia|done]. }
  destruct (Nat.ltb_spec maxHistoryEntries (size counts)) as [Hover|]; [|split_and!; [apply evicted_refl|lia|done]].
  destruct (min_fold key (order counts) ("", max64)) as (H1 & H2 & _).
  destruct (foldl (min_step key) ("", max64) (order counts)) as [minKey minVal]. simpl in *.
  assert (∃ k v, counts !! k = Some v ∧ k ≠ key) as (k0 & v0 & Hk0 & Hne0).
  { destruct Hkey as [vk Hvk]. assert (0 < size (delete key counts))%nat as Hpos.
    { rewrite map_size_delete_Some by eauto. unfold maxHistoryEntries in Hover. lia. }
    destruct (map_choose (delete key counts)) as (k & v & Hkv).
    { intros E. rewrite E, map_size_empty in Hpos. lia. }
    apply lookup_delete_Some in Hkv as [? ?]. eauto. }
  destruct (Hok k0 v0 Hk0 Hne0) as [_ Hv0].
  assert (∀ k v, (k, v) ∈ order counts ↔ counts !! k = Some v) as Hin.
  { intros k v. by rewrite Horder, elem_of_map_to_list. }
  destruct H1 as [[= -> ->]|(Hmin & Hmk & _)].
  { specialize (H2 k0 v0 (proj2 (Hin _ _) Hk0) Hne0 Hv0). lia. }
  apply Hin in Hmin. destruct (Hok _ _ Hmin Hmk) as [Hne _].
  destruct (String.eqb_spec minKey "") as [|_]; [done|].
  destruct (IH (delete minKey counts)) as ((Hsub & Hk & Hev) & Hs & _).
  - by rewrite lookup_delete_ne.
  - intros k v [_ Hkv]%lookup_delete_Some ?. by eapply Hok.
  - rewrite map_size_delete_Some by eauto. lia.
  - split_and!; [|done|lia]. split_and!.
    + etrans; [done|apply delete_subseteq].
    + by rewrite Hk, lookup_delete_ne.
    + intros k v k' v' Hkv Hgone Hkv' Hne'. destruct (decide (k = minKey)) as [->|Hd].
      * simplify_eq. eapply lookup_weaken in Hkv'; [|done]. apply lookup_delete_Some in Hkv' as [_ Hkv'].
        apply (H2 k'); [by apply Hin|done|]. by destruct (Hok _ _ Hkv' Hne').
      * eapply (Hev k v k' v'); [by rewrite lookup_delete_ne|done..].
Qed.

(** [RecordApproval] counts one more approval of the normalised command and
    stores it; at most 200 commands are remembered, the command just approved is
    never evicted, an evicted command had no more approvals than any other kept,
    nothing is evicted below the cap, and the policies are not touched. *)
Theorem record_approval (command : string) (m : M) n m' :
  RecordApproval order command (Some m) = (n, None, Some m') →
  let key := NormalizeCommand command in
  let counts := (GetAttr historyKey m : gmap string Z * bool).1 in
  (∀ k v, counts !! k = Some v → k ≠ "" ∧ 0 ≤ v < max64) →
  ∃ counts', GetAttr historyKey m' = (counts', true) ∧
    n = default 0 (counts !! key) + 1 ∧ counts' !! key = Some n ∧
    (size counts' ≤ maxHistoryEntries)%nat ∧
    (∀ k v, k ≠ key → counts' !! k = Some v → counts !! k = Some v) ∧
    (∀ k v k' v', k ≠ key → counts !! k = Some v → counts' !! k = None →
       counts' !! k' = Some v' → k' ≠ key → v ≤ v') ∧
    ((size (<[key := n]> counts) ≤ maxHistoryEntries)%nat → counts' = <[key := n]> counts) ∧
    load m' = load m.
Proof.
  intros H key counts Hok. unfold RecordApproval in H. fold key in H.
  destruct (GetAttr historyKey m) as [c b] eqn:Hg. subst counts. cbn [fst] in *. rename c into counts.
  set (n1 := wrap64 (default 0 (counts !! key) + 1)) in *. set (up := <[key := n1]> counts) in *.
  destruct (SetAttr historyKey _ m) as [[e|] m1] eqn:Hs; [done|].
  injection H as Hnn <-. rewrite <-Hnn. clear Hnn n.
  assert (n1 = default 0 (counts !! key) + 1) as Hn.
  { apply wrap64_id. unfold in64, min64, max64 in *.
    destruct (counts !! key) as [v|] eqn:Hv; simpl; [destruct (Hok _ _ Hv)|]; lia. }
  destruct (evict_spec (size up) key up) as ((Hsub & Hk & Hev) & Hsize & Hsmall).
  - unfold up. rewrite lookup_insert_eq. by eexists.
  - intros k v Hkv Hne. unfold up in Hkv. rewrite lookup_insert_ne in Hkv by done. destruct (Hok _ _ Hkv). split; [done|lia].
  - lia.
  - exists (evict order (size up) key up). split_and!; try done.
    + by eapply get_set.
    + rewrite Hk. unfold up. by rewrite lookup_insert_eq.
    + intros k v Hne Hkv. eapply lookup_weaken in Hkv; [|done]. unfold up in Hkv. by rewrite lookup_insert_ne in Hkv.
    + intros k v k' v' Hne Hkv Hgone Hkv' Hne'. eapply (Hev k v k' v'); [|done..].
      unfold up. by rewrite lookup_insert_ne.
    + unfold load. by erewrite get_set_ne.
Qed.

End Counts.

End Store.
