(* ===== verification/Sanitize.v ===== *)
(** * The tool-output sanitizer ([endpoint-server/utils/sanitize/sanitize.go])

    [runes] decodes a Go string as [range] does: an invalid byte is U+FFFD of width
    one.  [strings.Map] re-encodes what the mapping keeps. The second half holds what the
    sanitizer guarantees. *)

From S2P Require Import Prelude GoStrings Regexp.

(** ** UTF-8 *)

Definition RuneError : Z := 65533.

Definition cont (c : ascii) : bool := (128 <=? code c) && (code c <=? 191).
Definition between (lo hi : Z) (c : ascii) : bool := (lo <=? code c) && (code c <=? hi).

(** [utf8.DecodeRuneInString]: the rune and the bytes after it. *)
Definition decode_rune (c : ascii) (s : string) : Z * string :=
  let b0 := code c in
  let bad := (RuneError, s) in
  if b0 <? 128 then (b0, s)
  else if b0 <? 194 then bad
  else if b0 <? 224 then
    match s with
    | String c1 s1 => if cont c1 then ((b0 - 192) * 64 + (code c1 - 128), s1) else bad
    | "" => bad
    end
  else if b0 <? 240 then
    match s with
    | String c1 (String c2 s2) =>
        if between (if b0 =? 224 then 160 else 128) (if b0 =? 237 then 159 else 191) c1 && cont c2
        then ((b0 - 224) * 4096 + (code c1 - 128) * 64 + (code c2 - 128), s2) else bad
    | _ => bad
    end
  else if b0 <? 245 then
    match s with
    | String c1 (String c2 (String c3 s3)) =>
        if between (if b0 =? 240 then 144 else 128) (if b0 =? 244 then 143 else 191) c1 && cont c2 && cont c3
        then ((b0 - 240) * 262144 + (code c1 - 128) * 4096 + (code c2 - 128) * 64 + (code c3 - 128), s3) else bad
    | _ => bad
    end
  else bad.

(** The runes of a string; every rune takes at least one byte. *)
Fixpoint runes_fuel (fuel : nat) (s : string) : list Z :=
  match fuel, s with
  | S n, String c s' => let '(r, rest) := decode_rune c s' in r :: runes_fuel n rest
  | _, _ => []
  end.

Definition runes (s : string) : list Z := runes_fuel (String.length s) s.

Definition chr (n : Z) : ascii := ascii_of_N (Z.to_N n).

(** [utf8.AppendRune] of a valid rune. *)
Definition encode_rune (r : Z) : string :=
  if r <? 128 then String (chr r) ""
  else if r <? 2048 then String (chr (192 + r / 64)) (String (chr (128 + r mod 64)) "")
  else if r <? 65536 then
    String (chr (224 + r / 4096)) (String (chr (128 + r / 64 mod 64)) (String (chr (128 + r mod 64)) ""))
  else String (chr (240 + r / 262144)) (String (chr (128 + r / 4096 mod 64))
         (String (chr (128 + r / 64 mod 64)) (String (chr (128 + r mod 64)) ""))).

Definition encode (rs : list Z) : string := Join (encode_rune <$> rs) "".

Module Sanitize.

Definition maxOutputBytes : nat := Z.to_nat 65536.
Definition redactionMarker : string := "[REDACTED: potential prompt injection]".

(** Fake message delimiters of chat formats. *)
Definition delimiterPatterns : list string := [
  "(?is)<\s*system\s*>.*?<\s*/\s*system\s*>";
  "(?i)\[INST\]";
  "(?i)\[/INST\]";
  "(?i)<<SYS>>";
  "(?i)<</SYS>>";
  "(?i)<\|im_start\|>";
  "(?i)<\|im_end\|>";
  "(?i)###\s*SYSTEM\s*###";
  "(?i)###\s*INSTRUCTION\s*###";
  "(?i)\[SYSTEM\]"
].

(** Constraint bypass, persona injection and exfiltration phrases. *)
Definition phrasePatterns : list string := [
  "(?i)ignore\s+(all\s+)?(previous|prior|above|earlier|the\s+above)\s+(instructions?|prompts?|rules?|constraints?|directives?)";
  "(?i)disregard\s+(all\s+)?(previous|prior|above|earlier)\s+(instructions?|prompts?|rules?|constraints?|directives?)";
  "(?i)forget\s+(everything|all)\s+(above|before|prior|previous)";
  "(?i)override\s+(your\s+)?(safety\s+)?(instructions?|directives?|constraints?|programming|rules?|guidelines?)";
  "(?i)you\s+are\s+now\s+(a\s+)?(new\s+)?(different\s+)?(unrestricted|uncensored|evil|jailbroken)";
  "(?i)your\s+(new\s+)?(true\s+)?(purpose|goal|mission|prime\s+directive)\s+is\s+to";
  "(?i)\bDAN\s+mode\b";
  "(?i)\bdo\s+anything\s+now\b";
  "(?i)\bjailbreak(ed)?\b";
  "(?i)(print|output|reveal|show|display|leak|send|exfil(?:trate)?)\s+(me\s+)?(the\s+)?(full\s+)?(system\s+prompt|api\s+key|secret\s+key|private\s+key|credentials?)";
  "(?i)(what\s+is|tell\s+me)\s+(your\s+)?(system\s+prompt|api\s+key|secret\s+key)";
  "(?i)(base64|hex|rot13)\s+(en|de)code\s+(the\s+)?(system\s+prompt|instructions?)"
].

Definition injectionPatterns : list string := delimiterPatterns ++ phrasePatterns.

(** The mapping function of [stripControls]: [false] drops the rune. *)
Definition keep_rune (r : Z) : bool :=
  if (r =? 9) || (r =? 10) || (r =? 13) then true
  else if (r <? 32) || (r =? 127) then false
  else negb (bool_decide (r ∈ [65279; 8203; 8204; 8205; 8232; 8233; 8234; 8235; 8236; 8237; 8238])).

Definition stripControls (s : string) : string * bool :=
  let rs := runes s in
  (encode (List.filter keep_rune rs), existsb (λ r, negb (keep_rune r)) rs).

(** One iteration of the redaction loop. *)
Definition redact (st : string * Z) (pattern : string) : string * Z :=
  let '(cleaned, events) := st in
  match Compile pattern with
  | Some re =>
      if MatchString re cleaned then (ReplaceAllString re cleaned redactionMarker, events + 1)
      else (cleaned, events)
  | None => (cleaned, events)
  end.

Definition truncationNotice : string :=
  String "010" (String "010" ("... [output truncated at " +:+ Itoa 65536 +:+ " bytes]")).

Definition ToolOutput (s : string) : string * Z :=
  let '(cleaned, controlsFound) := stripControls s in
  let '(cleaned, events) := foldl redact (cleaned, if controlsFound then 1 else 0) injectionPatterns in
  if (maxOutputBytes <? String.length cleaned)%nat
  then (take_bytes maxOutputBytes cleaned +:+ truncationNotice, events + 1)
  else (cleaned, events).

End Sanitize.

Import Sanitize.

(** ** UTF-8 *)

(** Unicode scalar values. *)
Definition valid_rune (r : Z) : Prop := 0 ≤ r < 55296 ∨ 57344 ≤ r ≤ 1114111.

Lemma code_chr n : 0 ≤ n < 256 → code (chr n) = n.
Proof. intros. unfold code, chr. rewrite N_ascii_embedding by lia. lia. Qed.

Ltac bool_lia :=
  repeat match goal with
  | H : _ && _ = true |- _ => apply andb_true_iff in H as [??]
  | H : (_ <=? _) = true |- _ => apply Z.leb_le in H
  | H : (_ <? _) = true |- _ => apply Z.ltb_lt in H
  | H : (_ <? _) = false |- _ => apply Z.ltb_ge in H
  end.

Ltac decide_ltb :=
  repeat match goal with
  | |- context [?a <? ?b] =>
      first [rewrite (proj2 (Z.ltb_lt a b)) by (Z.to_euclidean_division_equations; lia)
            |rewrite (proj2 (Z.ltb_ge a b)) by (Z.to_euclidean_division_equations; lia)]
  | |- context [?a <=? ?b] =>
      rewrite (proj2 (Z.leb_le a b)) by (Z.to_euclidean_division_equations; lia)
  end.

Lemma decode_valid c s : valid_rune (decode_rune c s).1.
Proof.
  assert (valid_rune RuneError) as He by (unfold valid_rune, RuneError; lia).
  unfold decode_rune. pose proof (code_range c).
  destruct (code c <? 128) eqn:E1; [bool_lia; unfold valid_rune; simpl; lia|].
  destruct (code c <? 194) eqn:E2; [done|]. destruct (code c <? 224) eqn:E3.
  { destruct s as [|c1 s]; [done|]. destruct (cont c1) eqn:Ec; [|done]. unfold cont in Ec.
    bool_lia. unfold valid_rune. simpl. lia. }
  destruct (code c <? 240) eqn:E4.
  { destruct s as [|c1 [|c2 s]]; [done..|]. destruct (between _ _ c1 && cont c2) eqn:Ec; [|done].
    unfold between, cont in Ec. unfold valid_rune. simpl.
    destruct (Z.eqb_spec (code c) 224), (Z.eqb_spec (code c) 237); bool_lia; lia. }
  destruct (code c <? 245) eqn:E5; [|done].
  destruct s as [|c1 [|c2 [|c3 s]]]; [done..|]. destruct (between _ _ c1 && cont c2 && cont c3) eqn:Ec; [|done].
  unfold between, cont in Ec. unfold valid_rune. simpl.
  destruct (Z.eqb_spec (code c) 240), (Z.eqb_spec (code c) 244); bool_lia; lia.
Qed.

Lemma decode_shorter c s : (String.length (decode_rune c s).2 ≤ String.length s)%nat.
Proof.
  unfold decode_rune. repeat (case_match; simpl; try lia).
Qed.

(** The encoding of a rune decodes to it, whatever follows. *)
Lemma decode_encode r t : valid_rune r →
  ∃ c s, encode_rune r +:+ t = String c s ∧ decode_rune c s = (r, t).
Proof.
  intros Hv. unfold encode_rune. destruct (Z.ltb_spec r 128).
  { eexists _, _. split; [by rewrite append_cons, append_nil_l|]. unfold decode_rune.
    unfold valid_rune in Hv. rewrite code_chr by lia. by decide_ltb. }
  destruct (Z.ltb_spec r 2048).
  { eexists _, _. split; [by rewrite !append_cons, append_nil_l|]. unfold decode_rune, cont.
    rewrite !code_chr by (Z.to_euclidean_division_equations; lia). decide_ltb. simpl. f_equal.
    Z.to_euclidean_division_equations; lia. }
  destruct (Z.ltb_spec r 65536).
  { eexists _, _. split; [by rewrite !append_cons, append_nil_l|]. unfold decode_rune, cont, between.
    rewrite !code_chr by (Z.to_euclidean_division_equations; lia). unfold valid_rune in Hv.
    destruct (Z.eqb_spec (224 + r / 4096) 224), (Z.eqb_spec (224 + r / 4096) 237);
      decide_ltb; simpl; f_equal; Z.to_euclidean_division_equations; lia. }
  eexists _, _. split; [by rewrite !append_cons, append_nil_l|]. unfold decode_rune, cont, between.
  unfold valid_rune in Hv. rewrite !code_chr by (Z.to_euclidean_division_equations; lia).
  destruct (Z.eqb_spec (240 + r / 262144) 240), (Z.eqb_spec (240 + r / 262144) 244);
    decide_ltb; simpl; f_equal; Z.to_euclidean_division_equations; lia.
Qed.

Lemma runes_fuel_enough n m s :
  (String.length s ≤ n)%nat → (String.length s ≤ m)%nat → runes_fuel n s = runes_fuel m s.
Proof.
  revert m s. induction n as [|n IH]; intros m s Hn Hm.
  { destruct s; [by destruct m|simpl in *; lia]. }
  destruct m as [|m]; [destruct s; [done|simpl in *; lia]|]. destruct s as [|c s]; [done|]. simpl in *.
  pose proof (decode_shorter c s). destruct (decode_rune c s) as [r rest]. simpl in *.
  f_equal. apply IH; lia.
Qed.

Lemma runes_cons c s : runes (String c s) = (decode_rune c s).1 :: runes (decode_rune c s).2.
Proof.
  unfold runes. simpl. pose proof (decode_shorter c s). destruct (decode_rune c s) as [r rest]. simpl in *.
  f_equal. apply runes_fuel_enough; lia.
Qed.

Lemma runes_valid s : Forall valid_rune (runes s).
Proof.
  remember (String.length s) as n eqn:Hn. revert s Hn. induction (lt_wf n) as [n _ IH]; intros s ->.
  destruct s as [|c s]; [constructor|]. rewrite runes_cons. constructor; [apply decode_valid|].
  pose proof (decode_shorter c s). eapply IH; [|done]. simpl. lia.
Qed.

Lemma encode_cons r rs : encode (r :: rs) = encode_rune r +:+ encode rs.
Proof.
  unfold encode. cbn [fmap list_fmap]. rewrite Join_cons. destruct rs as [|r' rs]; [symmetry; apply append_nil_r|].
  by rewrite append_nil_l.
Qed.

Lemma runes_encode rs : Forall valid_rune rs → runes (encode rs) = rs.
Proof.
  induction 1 as [|r rs Hr Hrs IH]; [done|]. rewrite encode_cons.
  destruct (decode_encode r (encode rs) Hr) as (c & s & -> & Hd). rewrite runes_cons, Hd. simpl. by rewrite IH.
Qed.

(** Re-encoding the runes of a string: invalid bytes become U+FFFD. *)
Definition well_encoded (s : string) : Prop := encode (runes s) = s.

Lemma Forall_filter_valid (f : Z → bool) rs : Forall valid_rune rs → Forall valid_rune (List.filter f rs).
Proof.
  induction 1 as [|r rs Hr Hrs IH]; simpl; [constructor|]. destruct (f r); [by constructor|done].
Qed.

(** [stripControls] removes exactly the control and steganographic runes:
    the runes of its result are those of the input that are kept, in order, and
    the flag is set exactly when one was dropped. *)
Theorem strip_controls_exact s :
  runes (stripControls s).1 = List.filter keep_rune (runes s) ∧
  ((stripControls s).2 = true ↔ ∃ r, r ∈ runes s ∧ keep_rune r = false).
Proof.
  split.
  - simpl. apply runes_encode, Forall_filter_valid, runes_valid.
  - simpl. rewrite existsb_exists. setoid_rewrite <-list_elem_of_In. by setoid_rewrite negb_true_iff.
Qed.

(** ** Bytes of the output *)

(** Tab, line feed, carriage return, or not an ASCII control. *)
Definition clean_byte (c : ascii) : bool :=
  (code c =? 9) || (code c =? 10) || (code c =? 13) || ((32 <=? code c) && negb (code c =? 127)).

Lemma clean_chr n : 0 ≤ n < 256 → (n = 9 ∨ n = 10 ∨ n = 13 ∨ (32 ≤ n ∧ n ≠ 127)) → clean_byte (chr n) = true.
Proof.
  intros Hn H. unfold clean_byte. rewrite code_chr by done.
  rewrite !orb_true_iff, andb_true_iff, negb_true_iff, !Z.eqb_eq, Z.eqb_neq, Z.leb_le. lia.
Qed.

Lemma encode_rune_clean r : valid_rune r → keep_rune r = true → forall_bytes clean_byte (encode_rune r) = true.
Proof.
  intros Hv Hk. unfold valid_rune in Hv. unfold encode_rune. destruct (Z.ltb_spec r 128).
  - simpl. rewrite andb_true_r. apply clean_chr; [lia|]. unfold keep_rune in Hk.
    destruct (Z.eqb_spec r 9), (Z.eqb_spec r 10), (Z.eqb_spec r 13); try lia. simpl in Hk.
    destruct (Z.ltb_spec r 32), (Z.eqb_spec r 127); simpl in Hk; try done. lia.
  - destruct (Z.ltb_spec r 2048); [|destruct (Z.ltb_spec r 65536)]; simpl;
      rewrite !clean_chr; try done; Z.to_euclidean_division_equations; lia.
Qed.

Lemma strip_clean s : forall_bytes clean_byte (stripControls s).1 = true.
Proof.
  simpl. pose proof (runes_valid s) as Hv. induction Hv as [|r rs Hr Hrs IH]; [done|]. simpl.
  destruct (keep_rune r) eqn:Hk; [|done]. rewrite encode_cons, forall_bytes_append, IH, andb_true_r.
  by apply encode_rune_clean.
Qed.

(** A match ends in a suffix of the text. *)
Lemma Matches_suffix r p q : Matches r p q → ∃ a, p.2 = a +:+ q.2.
Proof.
  induction 1 as [|? ? ? ? c s ?|? ? ? ? ? _ [a IHa] _ [b IHb]| | | |? ? ? ? ? _ [a IHa] _ [b IHb]| | |];
    simpl in *; try (by exists ""); try done.
  - by exists (String c "").
  - exists (a +:+ b). by rewrite IHa, IHb, append_assoc.
  - exists (a +:+ b). by rewrite IHa, IHb, append_assoc.
Qed.

Lemma replace_all_bytes P fuel r repl prev s :
  forall_bytes P repl = true → forall_bytes P s = true → forall_bytes P (replace_all fuel r repl prev s) = true.
Proof.
  intros Hrepl. revert prev s. induction fuel as [|n IH]; intros prev s Hs; [done|].
  destruct s as [|c s]; [done|]. pose proof Hs as Hcs. simpl in Hcs. apply andb_true_iff in Hcs as [Hc Hs'].
  cbn [replace_all]. assert (forall_bytes P (String c (replace_all n r repl (Some c) s)) = true) as Hskip.
  { simpl. by rewrite Hc, IH. }
  destruct (ends r (prev, String c s)) as [|q l] eqn:E; [done|].
  destruct (_ <? _)%nat; [|done]. rewrite forall_bytes_append, Hrepl, IH; [done|].
  destruct (Matches_suffix r (prev, String c s) q) as [a Ha].
  { apply ends_spec. rewrite E. by apply elem_of_cons; left. }
  cbn [snd] in Ha. rewrite Ha, forall_bytes_append in Hs. by apply andb_true_iff in Hs as [_ ?].
Qed.

Lemma redact_bytes P ps st :
  forall_bytes P redactionMarker = true → forall_bytes P st.1 = true → forall_bytes P (foldl redact st ps).1 = true.
Proof.
  intros Hm. revert st. induction ps as [|p ps IH]; intros [s e] Hs; simpl in *; [done|].
  destruct (Compile p) as [r|]; [|by apply IH]. destruct (MatchString r s); [|by apply IH].
  apply IH. by apply replace_all_bytes.
Qed.

(** C23. Every output is bounded and free of control bytes: at most 64 KiB plus
    the truncation notice, and no ASCII control other than tab, line feed and
    carriage return, whatever the tool printed. *)
Theorem output_bounded_and_clean s :
  len (ToolOutput s).1 ≤ 65536 + len truncationNotice ∧
  forall_bytes clean_byte (ToolOutput s).1 = true.
Proof.
  unfold ToolOutput. pose proof (strip_clean s) as Hc. destruct (stripControls s) as [cleaned b]. cbn [fst] in Hc.
  pose proof (redact_bytes clean_byte injectionPatterns (cleaned, if b then 1 else 0) eq_refl Hc) as Hr.
  destruct (foldl redact _ _) as [out ev]. cbn [fst] in Hr.
  destruct (Nat.ltb_spec maxOutputBytes (String.length out)) as [Hl|Hl]; cbn [fst].
  - split.
    + rewrite len_append. unfold len at 1. rewrite length_take_bytes. unfold maxOutputBytes in *. lia.
    + rewrite forall_bytes_append. apply andb_true_iff. split; [by apply forall_bytes_take|reflexivity].
  - split; [|done]. unfold maxOutputBytes, len in *. lia.
Qed.

Lemma redact_count ps st : st.2 ≤ (foldl redact st ps).2.
Proof.
  revert st. induction ps as [|p ps IH]; intros [s e]; simpl; [lia|].
  destruct (Compile p) as [r|]; [|apply (IH (s, e))].
  destruct (MatchString r s); [|apply (IH (s, e))]. specialize (IH (ReplaceAllString r s redactionMarker, e + 1)). simpl in IH. lia.
Qed.

Lemma redact_quiet ps st : (foldl redact st ps).2 = st.2 → (foldl redact st ps).1 = st.1.
Proof.
  revert st. induction ps as [|p ps IH]; intros [s e] H; simpl in *; [done|].
  destruct (Compile p) as [r|]; [|by apply (IH (s, e))].
  destruct (MatchString r s); [|by apply (IH (s, e))].
  pose proof (redact_count ps (ReplaceAllString r s redactionMarker, e + 1)) as Hc. simpl in Hc. lia.
Qed.

Lemma filter_all (f : Z → bool) rs : existsb (λ r, negb (f r)) rs = false → List.filter f rs = rs.
Proof.
  induction rs as [|r rs IH]; simpl; [done|]. destruct (f r); simpl; [|done]. intros H. by rewrite IH.
Qed.

(** No event, no change: when the count is zero the output is the input with
    its invalid UTF-8 bytes replaced, so a well-encoded input comes back as it
    was. *)
Theorem no_event_no_change s :
  (ToolOutput s).2 = 0 → (ToolOutput s).1 = encode (runes s) ∧ (well_encoded s → (ToolOutput s).1 = s).
Proof.
  intros H0. assert ((ToolOutput s).1 = encode (runes s)) as E; [|by split; [|intros Hw; rewrite E]].
  unfold ToolOutput in *. destruct (stripControls s) as [cleaned b] eqn:Hs.
  pose proof (redact_count injectionPatterns (cleaned, if b then 1 else 0)) as Hc.
  pose proof (redact_quiet injectionPatterns (cleaned, if b then 1 else 0)) as Hq.
  destruct (foldl redact _ _) as [out ev]. cbn [fst snd] in *.
  destruct (Nat.ltb_spec maxOutputBytes (String.length out)); cbn [fst snd] in *; [destruct b; lia|].
  destruct b; [lia|]. rewrite Hq by done. unfold stripControls in Hs. injection Hs as <- Hb. by rewrite filter_all.
Qed.
