(* ===== verification/World.v ===== *)
(** * The world the skills and HTTP handlers run in

    A computation of type [W A] threads the memory, the clock (each [time.Now]
    consumes a reading), the random source of identifiers, the notifications sent
    and the processes started with their results.  The notifier of
    [utils/notifier] is here too, since every skill calls it. *)

From S2P Require Import Prelude GoStrings GoTime GoText Json Memory MemStore.

(** A notification of [utils/notifier]. *)
Record notification := mkNote { Subject : string; Body : string; NoteTime : Z }.

Record world (M : Type) := mkWorld {
  w_mem : M;
  w_clock : nat → Z;
  w_ticks : nat;
  w_uuid : nat → string;
  w_ids : nat;
  w_sent : list (string * string);
  w_exec : nat → list string → string * option string;
  w_run : list (list string);
}.
Arguments mkWorld {M}. Arguments w_mem {M}. Arguments w_clock {M}. Arguments w_ticks {M}.
Arguments w_uuid {M}. Arguments w_ids {M}. Arguments w_sent {M}. Arguments w_exec {M}. Arguments w_run {M}.

(** State passing. *)
Definition W (M A : Type) : Type := world M → A * world M.

#[export] Instance W_ret {M} : MRet (W M) := λ A a w, (a, w).
#[export] Instance W_bind {M} : MBind (W M) := λ A B f c w, let '(a, w') := c w in f a w'.

Section World.
Context `{!MemStore M}.

Definition with_mem (w : world M) (m : M) : world M :=
  mkWorld m (w_clock w) (w_ticks w) (w_uuid w) (w_ids w) (w_sent w) (w_exec w) (w_run w).

(** [time.Now]. *)
Definition now_ : W M Z := λ w,
  (w_clock w (w_ticks w),
   mkWorld (w_mem w) (w_clock w) (S (w_ticks w)) (w_uuid w) (w_ids w) (w_sent w) (w_exec w) (w_run w)).

(** [newUUID]: a fresh identifier from the random source. *)
Definition newUUID : W M string := λ w,
  (w_uuid w (w_ids w),
   mkWorld (w_mem w) (w_clock w) (w_ticks w) (w_uuid w) (S (w_ids w)) (w_sent w) (w_exec w) (w_run w)).

(** [exec.Command(argv...).CombinedOutput()]. *)
Definition run_process (argv : list string) : W M (string * option string) := λ w,
  (w_exec w (length (w_run w)) argv,
   mkWorld (w_mem w) (w_clock w) (w_ticks w) (w_uuid w) (w_ids w) (w_sent w) (w_exec w) (w_run w ++ [argv])).

Definition get_attr {A} {J : Json A} (key : string) : W M (A * bool) := λ w, (GetAttr key (w_mem w), w).
Definition all_attrs : W M (result mem_error (gmap string string)) := λ w, (AllAttrs (w_mem w), w).
Definition read_doc {A} {J : Json A} (name : string) : W M (A * bool) := λ w, (ReadDoc name (w_mem w), w).

(** A change of the memory. *)
Definition on_mem {A} (f : M → A * M) : W M A := λ w,
  let '(a, m) := f (w_mem w) in (a, with_mem w m).

Definition set_attr {A} {J : Json A} (key : string) (v : A) : W M (option mem_error) := on_mem (SetAttr key v).
Definition del_attr (key : string) : W M (option mem_error) := on_mem (DelAttr key).

(** [Domain(name).Write]: the file name is a reading of the clock. *)
Definition write_doc {A} {J : Json A} (name : string) (v : A) : W M (option mem_error) :=
  t ← now_; on_mem (WriteDoc t name v).

Definition log_note (subject body : string) : W M unit := λ w,
  (tt, mkWorld (w_mem w) (w_clock w) (w_ticks w) (w_uuid w) (w_ids w) (w_sent w ++ [(subject, body)]) (w_exec w) (w_run w)).

(** [Notifier.Notify] on a non-nil notifier: errors are only logged. *)
Definition Notify {J : Json notification} (subject body : string) : W M unit :=
  t ← now_;
  _ ← write_doc "notifications" (mkNote subject body t);
  log_note subject body.

End World.

Definition hex_digit (n : Z) : ascii := ascii_of_N (Z.to_N (if n <? 10 then 48 + n else 87 + n)).

Fixpoint hex_fuel (fuel : nat) (n : Z) (acc : string) : string :=
  match fuel with
  | O => acc
  | S fuel' => let acc := String (hex_digit (n mod 16)) acc in if n <? 16 then acc else hex_fuel fuel' (n / 16) acc
  end.
(** [%x] of an [int]; sixteen digits are enough. *)
Definition hex (n : Z) : string := if n <? 0 then "-" +:+ hex_fuel 16 (- n) "" else hex_fuel 16 n "".

Example hex_samples : hex 0 = "0" ∧ hex 255 = "ff" ∧ hex (-16) = "-10" ∧ hex max64 = "7fffffffffffffff".
Proof. by split_and!; vm_compute. Qed.

(** ** Identifiers *)

(** [%x] of a slice of bytes. *)
Definition byte_hex (b : Z) : string := String (hex_digit (b / 16)) (String (hex_digit (b mod 16)) "").
Fixpoint bytes_hex (bs : list Z) : string := match bs with [] => "" | b :: bs => byte_hex b +:+ bytes_hex bs end.

(** The version and variant bits of a random UUID. *)
Definition version_bits (b : Z) : Z := Z.lor (Z.land b 15) 64.
Definition variant_bits (b : Z) : Z := Z.lor (Z.land b 63) 128.
Definition stamp (bs : list Z) : list Z := alter variant_bits 8%nat (alter version_bits 6%nat bs).

Definition format_uuid (bs : list Z) : string :=
  let bs := stamp bs in
  bytes_hex (take 4 bs) +:+ "-" +:+ bytes_hex (take 2 (drop 4 bs)) +:+ "-" +:+ bytes_hex (take 2 (drop 6 bs)) +:+ "-" +:+
  bytes_hex (take 2 (drop 8 bs)) +:+ "-" +:+ bytes_hex (drop 10 bs).

(** The identifier of an approval or a manual run: [random] is the result of [rand.Read]. *)
Definition uuid_from (prefix : string) (random : option (list Z)) (now : Z) : string :=
  match random with Some bs => format_uuid bs | None => prefix +:+ "-" +:+ Itoa now end.

Example uuid_sample :
  uuid_from "approval" (Some [1; 35; 69; 103; 137; 171; 205; 239; 255; 220; 186; 152; 118; 84; 50; 16]) 0 =
    "01234567-89ab-4def-bfdc-ba9876543210" ∧
  uuid_from "approval" None 12 = "approval-12".
Proof. by vm_compute. Qed.

(** The output of PowerShell's [ConvertTo-Json] as an array: one object comes without
    brackets, no object as nothing. *)
Definition ps_array (data : string) : option string :=
  let trimmed := TrimSpace data in
  if String.eqb trimmed "" || String.eqb trimmed "null" then None
  else Some (if HasPrefix trimmed "[" then trimmed else "[" +:+ trimmed +:+ "]").

Definition powershell (argv0 script : string) : list string := [argv0; "-NoProfile"; "-NonInteractive"; "-Command"; script].

(** [fmt]'s [%q] on ASCII text. *)
Definition quote_byte (c : ascii) : string :=
  let n := code c in
  if n =? 34 then String "\" (String c "")
  else if n =? 92 then "\\"
  else if n =? 10 then "\n"
  else if n =? 9 then "\t"
  else if n =? 13 then "\r"
  else if (n <? 32) || (n =? 127) then "\x" +:+ String (hex_digit (n / 16)) (String (hex_digit (n mod 16)) "")
  else String c "".

Fixpoint quote_bytes (s : string) : string :=
  match s with "" => "" | String c s' => quote_byte c +:+ quote_bytes s' end.

Definition dquote : string := String "034" "".
Definition Quote (s : string) : string := dquote +:+ quote_bytes s +:+ dquote.

(** A line feed, and a blank line. *)
Definition nl : string := String "010" "".
Definition para : string := nl +:+ nl.

(** Text without line feeds is one line, and ends at the next one. *)
Definition one_line (s : string) : Prop := forall_bytes (λ c, negb (Ascii.eqb c lf)) s = true.

Lemma lines_line s : one_line s → Lines s = [s].
Proof.
  unfold one_line, Lines. induction s as [|c s IH]; [done|]. cbn [forall_bytes SplitByte].
  rewrite andb_true_iff, negb_true_iff. intros [Hc Hs]. by rewrite Hc, IH.
Qed.

Lemma lines_cons s t : one_line s → Lines (s +:+ nl +:+ t) = s :: Lines t.
Proof.
  unfold one_line, Lines. induction s as [|c s IH]; [done|]. cbn [forall_bytes].
  rewrite andb_true_iff, negb_true_iff. intros [Hc Hs]. rewrite append_cons. cbn [SplitByte]. by rewrite Hc, IH.
Qed.
