(* ===== verification/KeyStore.v ===== *)
(** * Domains used as maps, and the state of skills

    [Domain(name).SetKey/GetKey/AllKeys] over the interface of [MemStore]: the
    form in which the loop, the monitors and the trend analyses use the memory.
    [SkillState] is the package [skillstate] on top of it. *)

From S2P Require Import Prelude GoStrings GoTime GoText Json Memory MemoryFacts MemStore World.

Import Domain.

Section Keys.
Context `{!RawJson, !MemStore M}.

(** [Domain(domain).AllKeys()]. *)
Definition all_keys (domain : string) : W M (gmap string string) :=
  '(bucket, ok) ← read_doc (A := gmap string string) domain;
  mret (if ok : bool then bucket else ∅).

(** [Domain(domain).GetKey(key, &v)] with [v] a zero value: [v] after the call and
    whether it succeeded. *)
Definition get_key {V} {J : Json V} (domain key : string) : W M (V * bool) :=
  '(bucket, ok) ← read_doc (A := gmap string string) domain;
  mret (if ok : bool
        then match bucket !! key with Some val => Unmarshal val zero | None => (zero, false) end
        else (zero, false)).

(** [Domain(domain).SetKey(key, v)]: read, insert, write, under the domain's lock. *)
Definition set_key {V} {J : Json V} (domain key : string) (v : V) : W M (option mem_error) :=
  match Marshal v with
  | None => mret (Some EMarshal)
  | Some val =>
      '(bucket, _) ← read_doc (A := gmap string string) domain;
      write_doc domain (<[key := val]> bucket)
  end.

End Keys.

(** The keys a domain holds. *)
Definition keys_of `{!RawJson, !MemStore M} (domain : string) (m : M) : gmap string string :=
  let '(bucket, ok) := ReadDoc (A := gmap string string) domain m in if ok : bool then bucket else ∅.

(** [v] is what [GetKey] finds under [key]. *)
Definition key_value `{!RawJson, !MemStore M} {V} {J : Json V} (domain key : string) (m : M) : V * bool :=
  match keys_of domain m !! key with Some val => Unmarshal val zero | None => (zero, false) end.

Section KeyFacts.
Context `{!RawJson, !MemStore M}.

Lemma all_keys_run domain w : all_keys domain w = (keys_of domain (w_mem w), w).
Proof.
  unfold all_keys, keys_of, read_doc, mbind, W_bind, mret, W_ret. by destruct (ReadDoc _ _) as [? []].
Qed.

Lemma get_key_run {V} {J : Json V} domain key w :
  get_key domain key w = (key_value domain key (w_mem w) : V * bool, w).
Proof.
  unfold get_key, key_value, keys_of, read_doc, mbind, W_bind, mret, W_ret.
  destruct (ReadDoc _ _) as [b []]; [done|by rewrite lookup_empty].
Qed.

(** A read that fails leaves the destination map empty. *)
Class RawTotal : Prop :=
  raw_total : ∀ domain (m : M), (ReadDoc (A := gmap string string) domain m).1 = keys_of domain m.

Context `{!MemStoreLaws M}.

Lemma set_key_spec `{!RawTotal} {V} {J : Json V} domain key (v : V) w w' :
  set_key domain key v w = (None, w') →
  let now := w_clock w (w_ticks w) in
  in64 now → 0 < now → doc_past now domain (w_mem w) →
  ∃ val, Marshal v = Some val ∧
    (compact <$> keys_of domain (w_mem w')) = (compact <$> <[key := val]> (keys_of domain (w_mem w))).
Proof.
  unfold set_key. destruct (Marshal v) as [val|] eqn:Hv; [|done].
  unfold read_doc, write_doc, on_mem, now_, mbind, W_bind. pose proof (raw_total domain (w_mem w)) as Ht.
  destruct (ReadDoc _ _) as [b ok]. cbn in Ht |- *. subst b.
  destruct (WriteDoc _ _ _ _) as [e m] eqn:Hw. intros [= -> <-] Hn Hp Hd. exists val. split; [done|].
  destruct (write_read_raw _ _ _ _ _ Hw Hn Hp Hd) as (b' & Hr & Hc). cbn. unfold keys_of at 1. by rewrite Hr.
Qed.

(** The key holds the value, and every other key reads as before. *)
Lemma set_get_key `{!RawTotal} {V} {J : Json V} `{!JsonRoundtrip V, !JsonCompact V} domain key (v : V) w w' :
  set_key domain key v w = (None, w') →
  let now := w_clock w (w_ticks w) in
  in64 now → 0 < now → doc_past now domain (w_mem w) →
  key_value domain key (w_mem w') = (v, true) ∧
  (∀ U (JU : Json U) key', JsonCompact U → key' ≠ key →
     key_value domain key' (w_mem w') = (key_value domain key' (w_mem w) : U * bool)).
Proof.
  intros Hs now Hn Hp Hd. destruct (set_key_spec _ _ _ _ _ Hs Hn Hp Hd) as (val & Hv & Hc). unfold key_value. split.
  - pose proof (compact_lookup _ _ key Hc) as Hk. rewrite lookup_insert_eq in Hk. destruct Hk as (raw & -> & Hraw).
    by rewrite (unmarshal_same_compact raw val), (unmarshal_marshal v val Hv).
  - intros U JU key' HU Hne. pose proof (compact_lookup _ _ key' Hc) as Hk. rewrite lookup_insert_ne in Hk by done.
    destruct (keys_of domain (w_mem w) !! key') as [raw|]; [|by rewrite Hk].
    destruct Hk as (raw' & -> & Hraw). by apply unmarshal_same_compact.
Qed.

(** Whatever the clock and the errors, the key holds the old value or the new one, and
    every other key reads as before. *)
Lemma set_key_or `{!RawTotal} {V} {J : Json V} `{!JsonRoundtrip V, !JsonCompact V} domain key (v : V) w e w' :
  set_key domain key v w = (e, w') → in64 (w_clock w (w_ticks w)) → mem_ok (w_mem w) →
  mem_ok (w_mem w') ∧ w_clock w' = w_clock w ∧
  (key_value domain key (w_mem w') = (key_value domain key (w_mem w) : V * bool) ∨
   e = None ∧ key_value domain key (w_mem w') = (v, true)) ∧
  (∀ U (JU : Json U) key', JsonCompact U → key' ≠ key →
     key_value domain key' (w_mem w') = (key_value domain key' (w_mem w) : U * bool)).
Proof.
  unfold set_key. destruct (Marshal v) as [val|] eqn:Hv; [|intros [= <- <-] _ Hm; split_and!; [done|done|by left|done]].
  unfold read_doc, write_doc, on_mem, now_, mbind, W_bind. pose proof (raw_total domain (w_mem w)) as Ht.
  destruct (ReadDoc _ _) as [b ok] eqn:Hb. cbn in Ht |- *. subst b.
  destruct (WriteDoc _ _ _ _) as [e1 m] eqn:Hw. intros [= -> <-] Hn Hm. cbn [w_mem w_clock with_mem].
  split; [exact (write_ok _ _ _ _ _ _ _ _ Hw Hn Hm)|]. split; [done|]. apply write_raw_or in Hw as [Hr|(He & b' & Hr & Hc)]; [| |done|done].
  - unfold key_value, keys_of. rewrite Hr. split; [by left|done].
  - assert (keys_of domain m = b') as E by (unfold keys_of; by rewrite Hr). unfold key_value. rewrite E. split.
    + right. split; [done|]. pose proof (compact_lookup _ _ key Hc) as Hk. rewrite lookup_insert_eq in Hk. destruct Hk as (raw & -> & Hraw).
      by rewrite (unmarshal_same_compact raw val), (unmarshal_marshal v val Hv).
    + intros U JU key' HU Hne. pose proof (compact_lookup _ _ key' Hc) as Hk. rewrite lookup_insert_ne in Hk by done.
      destruct (keys_of domain (w_mem w) !! key') as [raw|]; [|by rewrite Hk].
      destruct Hk as (raw' & -> & Hraw). by apply unmarshal_same_compact.
Qed.

End KeyFacts.
#[global] Arguments RawTotal {RJ} M {MS} : rename.

(** The memory leaves the destination of a failed read empty. *)
Lemma store_raw_total `{!RawJson} mkdir_fails write_fails rename_fails :
  @RawTotal _ Store.Store (store_mem mkdir_fails write_fails rename_fails).
Proof.
  intros domain m. unfold keys_of. cbn. unfold readCurrentLocked.
  destruct (newestFile _ _); [|done]. destruct (ReadFile _ _ _); [|done].
  simpl. by destruct (UnmarshalRaw _).
Qed.

(** ** The package [skillstate] *)

Module SkillState.

Definition Domain : string := "Skill States".
Definition keyPrefix : string := "skill_state:".

Record State := mkState { Skill : string; Health : string; Summary : string; Time : string }.

Section Ops.
Context `{!RawJson, !Json State, !MemStore M} (zone : Z → Z).

(** [Save] on a non-nil store. *)
Definition Save (skill health summary : string) : W M (option mem_error) :=
  t ← now_; set_key Domain (keyPrefix +:+ skill) (mkState skill health summary (Format zone t)).

(** One iteration of [LoadAll]. *)
Definition load_entry (kv : string * string) : option State :=
  if HasPrefix kv.1 keyPrefix
  then let '(s, ok) := Unmarshal kv.2 zero in if ok : bool then Some s else None
  else None.

Definition LoadAll : W M (list State) :=
  attrs ← all_keys Domain;
  mret (SliceStable (λ a b, str_ltb (Skill a) (Skill b)) (omap load_entry (map_to_list attrs))).

(** What [LoadAll] lists. *)
Lemma load_all_elem w s :
  s ∈ (LoadAll w).1 ↔
  ∃ k, HasPrefix k keyPrefix = true ∧ key_value Domain k (w_mem w) = (s, true).
Proof.
  unfold LoadAll, mbind, W_bind. rewrite all_keys_run. cbn.
  rewrite SliceStable_perm, list_elem_of_omap. unfold key_value. split.
  - intros ([k raw] & Hin & Hl). apply elem_of_map_to_list in Hin. unfold load_entry in Hl. cbn [fst snd] in Hl.
    destruct (HasPrefix k keyPrefix) eqn:Hp; [|done]. exists k. split; [done|]. rewrite Hin.
    destruct (Unmarshal raw zero) as [s' []]; [|discriminate Hl]. by injection Hl as ->.
  - intros (k & Hp & Hk). destruct (keys_of Domain (w_mem w) !! k) as [raw|] eqn:Hr; [|done].
    exists (k, raw). split; [by apply elem_of_map_to_list|]. unfold load_entry. cbn [fst snd]. by rewrite Hp, Hk.
Qed.

(** After a successful [Save] the states listed are the one saved and those of the
    other skills. *)
Lemma save_listed `{!MemStoreLaws M, !RawTotal M, !JsonRoundtrip State, !JsonCompact State} skill health summary w w' s :
  Save skill health summary w = (None, w') →
  in64 (w_clock w (S (w_ticks w))) → 0 < w_clock w (S (w_ticks w)) →
  doc_past (w_clock w (S (w_ticks w))) Domain (w_mem w) →
  s ∈ (LoadAll w').1 ↔
  s = mkState skill health summary (Format zone (w_clock w (w_ticks w))) ∨
  ∃ k, k ≠ keyPrefix +:+ skill ∧ HasPrefix k keyPrefix = true ∧ key_value Domain k (w_mem w) = (s, true).
Proof.
  unfold Save, mbind at 1, W_bind at 1, now_ at 1. intros Hs Hn Hp Hd.
  destruct (set_get_key _ _ _ _ _ Hs Hn Hp Hd) as [Hk Hne]. cbn [w_mem] in Hne.
  rewrite load_all_elem. split.
  - intros (k & Hpre & Hv). destruct (decide (k = keyPrefix +:+ skill)) as [->|Hk'].
    + left. rewrite Hk in Hv. by simplify_eq.
    + right. exists k. split_and!; [done..|]. by rewrite <-Hne.
  - intros [->|(k & Hk' & Hpre & Hv)].
    + exists (keyPrefix +:+ skill). split; [apply HasPrefix_append|done].
    + exists k. split; [done|]. by rewrite Hne.
Qed.

End Ops.
End SkillState.
