(* ===== verification/Agent.v ===== *)
(** * The model conversation ([endpoint-server/a2a/agent/agent.go])

    [Run] is the tool-use loop: it asks the model, executes the tools the model
    calls, feeds the results back, and stops at the first answer that is not a
    tool call, at the third identical call, or after [MaxIter] requests.  The chat
    completion client and the tools act on a state [St] of the caller's choice;
    what [Run] does to the outside is also recorded as a list of [event]s. *)

From S2P Require Import Prelude GoStrings GoDuration World Sanitize.

Module Agent.

(** ** Requests and answers *)

Record toolCall := mkCall { ID : string; Name : string; Arguments : string }.

Inductive message :=
| SystemMessage (content : string)
| UserMessage (content : string)
| AssistantMessage (content : string) (calls : list toolCall)
| ToolMessage (content : string) (id : string).

Record choice := mkChoice { FinishReason : string; Content : string; ToolCalls : list toolCall }.

Record functionDef := mkFun { f_name : string; f_description : string; f_schema : string }.

Record request := mkReq {
  r_model : string;
  r_max_tokens : Z;
  r_messages : list message;
  r_tools : list functionDef;
}.

#[export] Instance toolCall_eq_dec : EqDecision toolCall.
Proof. solve_decision. Defined.
#[export] Instance message_eq_dec : EqDecision message.
Proof. solve_decision. Defined.
#[export] Instance functionDef_eq_dec : EqDecision functionDef.
Proof. solve_decision. Defined.
#[export] Instance request_eq_dec : EqDecision request.
Proof. solve_decision. Defined.

(** The settings of [config.Agent] and [config.Server] the agent reads. *)
Record settings := mkSettings {
  Model : string;
  MaxTokens : Z;
  ResponsibilityMaxTokens : Z;
  MaxIter : Z;
  RequestTimeout : string;
  SystemPrompt : string;
  ServerName : string;
}.

(** What a run does to the outside. *)
Inductive event :=
| Inferred (req : request)
| Executed (name args : string).

#[export] Instance event_eq_dec : EqDecision event.
Proof. solve_decision. Defined.

Section Agent.
Context {St : Type}.

(** [tool.Tool]. *)
Record tool := mkTool {
  t_name : string;
  t_description : string;
  t_schema : string;
  t_exec : string → St → result string string * St;
}.

(** The HTTP client of the agent: its time limit and the headers it adds. *)
Record transport := mkTransport { h_name : string; h_responsibility : string }.

Record agent := mkAgent {
  tools : list tool;
  cfg : settings;
  systemPrompt : string;
  maxTokens : Z;
  reqTimeout : Z;
  headers : transport;
}.

Definition newAgent (ts : list tool) (c : settings) (prompt responsibility : string) : agent :=
  let budget :=
    if negb (String.eqb responsibility "") && (0 <? ResponsibilityMaxTokens c)
    then ResponsibilityMaxTokens c else MaxTokens c in
  let timeout :=
    if String.eqb (RequestTimeout c) "" then 6 * Minute
    else default (6 * Minute) (ParseDuration (RequestTimeout c)) in
  mkAgent ts c prompt budget timeout (mkTransport (ServerName c) responsibility).

Definition NewWithSystemPrompt (ts : list tool) (c : settings) (prompt : string) : agent :=
  newAgent ts c prompt "".

Definition New (ts : list tool) (c : settings) : agent := NewWithSystemPrompt ts c (SystemPrompt c).

Definition NewWithResponsibility (ts : list tool) (c : settings) (prompt responsibility : string) : agent :=
  newAgent ts c prompt responsibility.

(** [headerTransport.RoundTrip]: the headers of the request that is sent. *)
Definition RoundTrip (t : transport) (interactive : bool) (hs : gmap string string) : gmap string string :=
  let hs := <["X-Agent-Name" := h_name t]> hs in
  let hs := if String.eqb (h_responsibility t) "" then hs
            else <["X-Responsibility" := h_responsibility t]> hs in
  if interactive then <["X-Priority" := "interactive"]> hs else hs.

(** ** The loop *)

(** [toolIndex]: the last tool of a name wins. *)
Definition tool_index (ts : list tool) : gmap string tool :=
  foldl (λ m t, <[t_name t := t]> m) ∅ ts.

Definition function_of (t : tool) : functionDef := mkFun (t_name t) (t_description t) (t_schema t).

(** The variables of [Run] that change in the loop. *)
Record conv := mkConv {
  messages : list message;
  toolCallCounts : gmap string Z;
  lastToolResult : gmap string string;
}.

(** The outside: the state of model and tools, and the events so far. *)
Record host := mkHost { h_state : St; h_events : list event }.

Definition signature (tc : toolCall) : string := Name tc +:+ ":" +:+ Arguments tc.

Definition say (c : conv) (content id : string) : conv :=
  mkConv (messages c ++ [ToolMessage content id]) (toolCallCounts c) (lastToolResult c).

Definition nudge : string :=
  para +:+ "[You already have this result from a previous call. " +:+
  "Do not call this tool again with the same arguments — use the information " +:+
  "above to write your final report now.]".

Definition repeat_note (count : Z) : string :=
  para +:+ "(Note: the model repeated this tool call " +:+ Itoa count +:+
  " times without producing a final report; returning the last result.)".

(** [Execute] of one tool, as the loop sees it. *)
Definition execute (t : tool) (args : string) (h : host) : result string string * host :=
  let '(r, s) := t_exec t args (h_state h) in
  (r, mkHost s (h_events h ++ [Executed (t_name t) args])).

(** One tool call: the conversation goes on ([inl]) or [Run] returns ([inr]). *)
Definition tool_call (index : gmap string tool) (tc : toolCall) (c : conv) (h : host) :
    (conv + string) * host :=
  match index !! Name tc with
  | None => (inl (say c ("unknown tool: " +:+ Name tc) (ID tc)), h)
  | Some t =>
      let sig := signature tc in
      let count := default 0 (toolCallCounts c !! sig) + 1 in
      let c := mkConv (messages c) (<[sig := count]> (toolCallCounts c)) (lastToolResult c) in
      let cached := default "" (lastToolResult c !! sig) in
      if 3 <=? count then (inr (cached +:+ repeat_note count), h)
      else if count =? 2 then (inl (say c (cached +:+ nudge) (ID tc)), h)
      else
        let '(r, h) := execute t (Arguments tc) h in
        match r with
        | Err e => (inl (say c ("error: " +:+ e) (ID tc)), h)
        | Ok out =>
            let out := (Sanitize.ToolOutput out).1 in
            (inl (say (mkConv (messages c) (toolCallCounts c) (<[sig := out]> (lastToolResult c))) out (ID tc)), h)
        end
  end.

Fixpoint tool_calls (index : gmap string tool) (tcs : list toolCall) (c : conv) (h : host) :
    (conv + string) * host :=
  match tcs with
  | [] => (inl c, h)
  | tc :: rest =>
      match tool_call index tc c h with
      | (inl c, h) => tool_calls index rest c h
      | (inr out, h) => (inr out, h)
      end
  end.

(** [client.Chat.Completions.New]: the choices of the answer, or an error. *)
Context (complete : request → St → result string (list choice) * St).

Definition infer (req : request) (h : host) : result string (list choice) * host :=
  let '(r, s) := complete req (h_state h) in
  (r, mkHost s (h_events h ++ [Inferred req])).

Definition request_of (a : agent) (c : conv) : request :=
  mkReq (Model (cfg a)) (maxTokens a) (messages c) (function_of <$> tools a).

Definition api_error (e : string) : string := "agent run failed: " +:+ e.
Definition empty_response : string := "agent: empty response from API".
Definition max_iterations (n : Z) : string := "agent: max iterations (" +:+ Itoa n +:+ ") exceeded".

(** The loop, with [fuel] iterations left. *)
Fixpoint loop (a : agent) (fuel : nat) (c : conv) (h : host) : result string string * host :=
  match fuel with
  | O => (Err (max_iterations (MaxIter (cfg a))), h)
  | S fuel =>
      let '(resp, h) := infer (request_of a c) h in
      match resp with
      | Err e => (Err (api_error e), h)
      | Ok [] => (Err empty_response, h)
      | Ok (ch :: _) =>
          if negb (String.eqb (FinishReason ch) "tool_calls") then (Ok (Content ch), h)
          else
            let c := mkConv (messages c ++ [AssistantMessage (Content ch) (ToolCalls ch)])
                            (toolCallCounts c) (lastToolResult c) in
            match tool_calls (tool_index (tools a)) (ToolCalls ch) c h with
            | (inl c, h) => loop a fuel c h
            | (inr out, h) => (Ok out, h)
            end
      end
  end.

Definition initial (a : agent) (input : string) : conv :=
  mkConv [SystemMessage (systemPrompt a); UserMessage input] ∅ ∅.

Definition Run (a : agent) (input : string) (h : host) : result string string * host :=
  loop a (Z.to_nat (MaxIter (cfg a))) (initial a input) h.

End Agent.
Arguments tool : clear implicits.
Arguments agent : clear implicits.
Arguments host : clear implicits.

End Agent.
