(* ===== verification/AgentFacts.v ===== *)
(** * The tool-use loop: bounded, each call at most once, a well-formed conversation

    One invariant of the loop ([Inv]) carries the claims: what has been executed is
    counted, cached results are sanitised, and the messages are whole turns. *)

From S2P Require Import Prelude GoStrings World Sanitize Agent.

Import Agent.

(** ** What is claimed of a trace *)

Definition event_sig (e : event) : option string :=
  match e with Executed name args => Some (signature (mkCall "" name args)) | Inferred _ => None end.
Definition executed (es : list event) : list string := omap event_sig es.

Definition event_req (e : event) : option request :=
  match e with Inferred req => Some req | Executed _ _ => None end.
Definition inferred (es : list event) : list request := omap event_req es.

(** Text that may enter the conversation as the result of a tool call. *)
Inductive vetted : string → Prop :=
| vet_unknown name : vetted ("unknown tool: " +:+ name)
| vet_error e : vetted ("error: " +:+ e)
| vet_output out : vetted (Sanitize.ToolOutput out).1
| vet_repeat out : vetted ((Sanitize.ToolOutput out).1 +:+ nudge).

(** A turn: the assistant's calls, then one reply per call, in order. *)
Inductive turn : list message → Prop :=
| turn_intro content calls replies :
    Forall vetted replies → length replies = length calls →
    turn (AssistantMessage content calls :: zip_with ToolMessage replies (ID <$> calls)).

Inductive turns : list message → Prop :=
| turns_nil : turns []
| turns_snoc ms t : turns ms → turn t → turns (ms ++ t).

(** The conversation the chat API expects. *)
Definition well_formed (prompt input : string) (ms : list message) : Prop :=
  ∃ rest, ms = SystemMessage prompt :: UserMessage input :: rest ∧ turns rest.

Lemma executed_app es es' : executed (es ++ es') = executed es ++ executed es'.
Proof. apply omap_app. Qed.
Lemma inferred_app es es' : inferred (es ++ es') = inferred es ++ inferred es'.
Proof. apply omap_app. Qed.

Lemma executed_snoc es name args :
  executed (es ++ [Executed name args]) = executed es ++ [signature (mkCall "" name args)].
Proof. by rewrite executed_app. Qed.

Lemma output_empty : (Sanitize.ToolOutput "").1 = "".
Proof. vm_compute. reflexivity. Qed.

#[local] Opaque Sanitize.ToolOutput.

Section Facts.
Context {St : Type}.
Implicit Types (c : conv) (h : host St) (index : gmap string (tool St)) (tc : toolCall).

(** The part of the invariant tool calls maintain. *)
Record Tracked c (es : list event) : Prop := {
  tr_once : NoDup (executed es);
  tr_counted sig : sig ∈ executed es → 1 ≤ default 0 (toolCallCounts c !! sig);
  tr_nonneg sig : 0 ≤ default 0 (toolCallCounts c !! sig);
  tr_clean sig r : lastToolResult c !! sig = Some r → ∃ out, r = (Sanitize.ToolOutput out).1;
}.

Lemma cached_clean c es sig : Tracked c es →
  ∃ out, default "" (lastToolResult c !! sig) = (Sanitize.ToolOutput out).1.
Proof.
  intros T. destruct (lastToolResult c !! sig) as [r|] eqn:E; [by eapply tr_clean|].
  exists "". by rewrite output_empty.
Qed.

Lemma tracked_say c es content id : Tracked c es → Tracked (say c content id) es.
Proof. by intros []. Qed.

(** Counting a call. *)
Definition counted c sig : conv :=
  mkConv (messages c) (<[sig := default 0 (toolCallCounts c !! sig) + 1]> (toolCallCounts c)) (lastToolResult c).

Lemma tracked_count c es sig : Tracked c es → Tracked (counted c sig) es.
Proof.
  intros [Ho Hc Hn Hl]. split; [done| | |done]; unfold counted; simpl; intros sig'.
  - intros Hin. destruct (decide (sig = sig')) as [->|Hne].
    + rewrite lookup_insert_eq. simpl. specialize (Hn sig'). lia.
    + rewrite lookup_insert_ne by done. auto.
  - destruct (decide (sig = sig')) as [->|Hne].
    + rewrite lookup_insert_eq. simpl. specialize (Hn sig'). lia.
    + rewrite lookup_insert_ne by done. auto.
Qed.

(** Executing a call that had not been counted before. *)
Lemma tracked_execute c es name args :
  Tracked c es → default 0 (toolCallCounts c !! signature (mkCall "" name args)) + 1 < 2 →
  Tracked (counted c (signature (mkCall "" name args))) (es ++ [Executed name args]).
Proof.
  intros T Hlt. destruct (tracked_count c es (signature (mkCall "" name args)) T) as [Ho Hc Hn Hl].
  split; [| |done|done].
  - rewrite executed_snoc. apply NoDup_app. split; [done|]. split; [|apply NoDup_singleton].
    intros sig Hin ->%list_elem_of_singleton. apply (tr_counted _ _ T) in Hin. lia.
  - intros sig. rewrite executed_snoc, elem_of_app, list_elem_of_singleton. intros [Hin| ->]; [by apply Hc|].
    simpl. rewrite lookup_insert_eq. pose proof (tr_nonneg _ _ T (signature (mkCall "" name args))). simpl. lia.
Qed.

Lemma tracked_cache c es sig out :
  Tracked c es →
  Tracked (mkConv (messages c) (toolCallCounts c) (<[sig := (Sanitize.ToolOutput out).1]> (lastToolResult c))) es.
Proof.
  intros [Ho Hc Hn Hl]. split; [done..|]. simpl. intros sig' r.
  destruct (decide (sig = sig')) as [->|Hne].
  - rewrite lookup_insert_eq. intros [= <-]. by exists out.
  - rewrite lookup_insert_ne by done. apply Hl.
Qed.

Definition named index : Prop := ∀ name t, index !! name = Some t → t_name t = name.

Lemma tool_index_named (ts : list (tool St)) : named (tool_index ts).
Proof.
  unfold tool_index. assert (named (∅ : gmap string (tool St))) as H0 by (intros ? ?; by rewrite lookup_empty).
  revert H0. generalize (∅ : gmap string (tool St)). induction ts as [|t ts IH]; intros m Hm; [done|].
  simpl. apply IH. intros name t'. destruct (decide (t_name t = name)) as [<-|Hne].
  - rewrite lookup_insert_eq. by intros [= <-].
  - rewrite lookup_insert_ne by done. apply Hm.
Qed.

(** A tool call adds one vetted reply, and no request. *)
Lemma tool_call_tracked index tc c h r h' :
  tool_call index tc c h = (r, h') → named index → Tracked c (h_events h) →
  inferred (h_events h') = inferred (h_events h) ∧
  match r with
  | inl c' => Tracked c' (h_events h') ∧ ∃ s, vetted s ∧ messages c' = messages c ++ [ToolMessage s (ID tc)]
  | inr _ => NoDup (executed (h_events h'))
  end.
Proof.
  unfold tool_call. intros Hr Hidx T. destruct (index !! Name tc) as [t|] eqn:Ht.
  2: { simplify_eq. split; [done|]. split; [by apply tracked_say|]. eexists. split; [apply vet_unknown|done]. }
  pose proof (Hidx _ _ Ht) as Hn. set (sig := signature tc) in *.
  change (mkConv (messages c) _ (lastToolResult c)) with (counted c sig) in Hr.
  pose proof (tracked_count _ _ sig T) as Tc. destruct (cached_clean c _ sig T) as [out0 Hout].
  change (lastToolResult (counted c sig)) with (lastToolResult c) in Hr. rewrite Hout in Hr.
  destruct (3 <=? _) eqn:E3; [simplify_eq; split; [done|apply T]|].
  destruct (_ =? 2) eqn:E2.
  { simplify_eq. split; [done|]. split; [by apply tracked_say|]. eexists. split; [apply vet_repeat|done]. }
  apply Z.leb_gt in E3. apply Z.eqb_neq in E2.
  assert (Tracked (counted c sig) (h_events h ++ [Executed (t_name t) (Arguments tc)])) as Te.
  { rewrite Hn. apply tracked_execute; [done|]. change (default 0 (toolCallCounts c !! sig) + 1 < 2). lia. }
  unfold execute in Hr. destruct (t_exec t (Arguments tc) (h_state h)) as [[out|e] s]; simplify_eq;
    (split; [cbn [h_events]; rewrite inferred_app; apply app_nil_r|]).
  - split; [apply tracked_say; exact (tracked_cache (counted c sig) _ sig out Te)|]. eexists. split; [apply vet_output|done].
  - split; [by apply tracked_say|]. eexists. split; [apply vet_error|done].
Qed.

Lemma tool_calls_tracked index tcs c h r h' :
  tool_calls index tcs c h = (r, h') → named index → Tracked c (h_events h) →
  inferred (h_events h') = inferred (h_events h) ∧
  match r with
  | inl c' => Tracked c' (h_events h') ∧ ∃ ss, Forall vetted ss ∧ length ss = length tcs ∧
                messages c' = messages c ++ zip_with ToolMessage ss (ID <$> tcs)
  | inr _ => NoDup (executed (h_events h'))
  end.
Proof.
  intros Hr Hidx. revert c h Hr. induction tcs as [|tc tcs IH]; intros c h Hr T; cbn [tool_calls] in Hr.
  { simplify_eq. split; [done|]. split; [done|]. exists []. by rewrite app_nil_r. }
  destruct (tool_call index tc c h) as [[c1|out] h1] eqn:E;
    destruct (tool_call_tracked _ _ _ _ _ _ E Hidx T) as [Hi H1]; [|simplify_eq; done].
  destruct H1 as [T1 (s & Hs & Hm)]. destruct (IH _ _ Hr T1) as [Hi' H2]. split; [congruence|].
  destruct r as [c'|]; [|done]. destruct H2 as [T2 (ss & Hss & Hl & Hm')]. split; [done|].
  exists (s :: ss). split; [by constructor|]. split; [simpl; lia|].
  rewrite Hm', Hm. simpl. by rewrite <-app_assoc.
Qed.

(** ** The loop *)

Context (complete : request → St → result string (list choice) * St).

Record Inv (prompt input : string) c (es : list event) : Prop := {
  inv_tracked : Tracked c es;
  inv_wf : well_formed prompt input (messages c);
}.

Definition requests_ok (prompt input : string) (es : list event) : Prop :=
  Forall (λ req, well_formed prompt input (r_messages req)) (inferred es).

Lemma infer_events req h r h' :
  infer complete req h = (r, h') → h_events h' = h_events h ++ [Inferred req].
Proof. unfold infer. destruct (complete req (h_state h)). intros. by simplify_eq. Qed.

(** A run changes the state by inferences and by executions of its tools only. *)
Inductive activity (ts : list (tool St)) : St → St → Prop :=
| act_infer req s : activity ts s (complete req s).2
| act_tool t args s : t ∈ ts → activity ts s (t_exec t args s).2.

Lemma tool_call_active ts index tc c h : (∀ name t, index !! name = Some t → t ∈ ts) →
  rtc (activity ts) (h_state h) (h_state (tool_call index tc c h).2).
Proof.
  intros Hi. unfold tool_call. destruct (index !! Name tc) as [t|] eqn:Et; [|constructor].
  destruct (3 <=? _); [constructor|]. destruct (_ =? 2); [constructor|]. unfold execute.
  pose proof (act_tool ts t (Arguments tc) (h_state h) (Hi _ _ Et)) as Ha.
  destruct (t_exec t (Arguments tc) (h_state h)) as [[out|e] s]; by apply rtc_once.
Qed.

Lemma tool_calls_active ts index tcs c h : (∀ name t, index !! name = Some t → t ∈ ts) →
  rtc (activity ts) (h_state h) (h_state (tool_calls index tcs c h).2).
Proof.
  intros Hi. revert c h. induction tcs as [|tc tcs IH]; intros c h; [constructor|]. cbn [tool_calls].
  pose proof (tool_call_active ts index tc c h Hi) as H1. destruct (tool_call index tc c h) as [[c1|out] h1]; [|exact H1].
  etrans; [exact H1|apply IH].
Qed.

Lemma index_among (ts : list (tool St)) name t : tool_index ts !! name = Some t → t ∈ ts.
Proof.
  unfold tool_index. rewrite <- (reverse_involutive ts). induction (reverse ts) as [|x l IH]; [done|].
  rewrite reverse_cons, foldl_app. cbn [foldl]. rewrite lookup_insert_Some, elem_of_app, list_elem_of_singleton. naive_solver.
Qed.

Lemma loop_active (a : agent St) n c h : rtc (activity (tools a)) (h_state h) (h_state (loop complete a n c h).2).
Proof.
  revert c h. induction n as [|n IH]; intros c h; [constructor|]. cbn [loop]. unfold infer.
  pose proof (act_infer (tools a) (request_of a c) (h_state h)) as H1.
  destruct (complete (request_of a c) (h_state h)) as [[[|ch rest]|e] s]; cbn [snd] in H1; [by apply rtc_once| |by apply rtc_once].
  destruct (negb _); [by apply rtc_once|].
  match goal with |- context [tool_calls ?i ?t ?c1 ?h1] =>
    pose proof (tool_calls_active (tools a) i t c1 h1 (index_among (tools a))) as H2; destruct (tool_calls i t c1 h1) as [[c2|out] h2] end;
    (eapply rtc_l; [exact H1|]); [|exact H2]. etrans; [exact H2|apply IH].
Qed.

Lemma run_active (a : agent St) input h : rtc (activity (tools a)) (h_state h) (h_state (Run complete a input h).2).
Proof. apply loop_active. Qed.

Lemma tracked_infer c es req : Tracked c es → Tracked c (es ++ [Inferred req]).
Proof. intros [Ho Hc Hn Hl]. split; rewrite ?executed_app; simpl; rewrite ?app_nil_r; done. Qed.

Lemma tracked_turn c es content calls :
  Tracked c es →
  Tracked (mkConv (messages c ++ [AssistantMessage content calls]) (toolCallCounts c) (lastToolResult c)) es.
Proof. by intros []. Qed.

(** The invariant along the loop: [n] iterations make at most [n] requests, and
    exactly [n] when the limit is reported. *)
Lemma loop_inv (a : agent St) prompt input n c h r h' :
  loop complete a n c h = (r, h') → Inv prompt input c (h_events h) → requests_ok prompt input (h_events h) →
  NoDup (executed (h_events h')) ∧ requests_ok prompt input (h_events h') ∧
  (length (inferred (h_events h')) ≤ length (inferred (h_events h)) + n)%nat ∧
  (r = Err (max_iterations (MaxIter (cfg a))) ∧ length (inferred (h_events h')) = (length (inferred (h_events h)) + n)%nat ∨
   (∃ e, r = Err (api_error e)) ∨ r = Err empty_response ∨ ∃ out, r = Ok out).
Proof.
  revert c h. induction n as [|n IH]; intros c h Hr [T W] Hok; cbn [loop] in Hr.
  { simplify_eq. split; [apply T|]. split; [done|]. split; [lia|]. left. split; [done|lia]. }
  destruct (infer complete (request_of a c) h) as [resp h1] eqn:Ei. apply infer_events in Ei.
  assert (Tracked c (h_events h1)) as T1 by (rewrite Ei; by apply tracked_infer).
  assert (inferred (h_events h1) = inferred (h_events h) ++ [request_of a c]) as Hi1 by (by rewrite Ei, inferred_app).
  assert (requests_ok prompt input (h_events h1)) as Hok1.
  { unfold requests_ok. rewrite Hi1. apply Forall_app. split; [done|]. by apply Forall_singleton. }
  assert (length (inferred (h_events h1)) = S (length (inferred (h_events h)))) as Hl1.
  { rewrite Hi1, length_app. simpl. lia. }
  destruct resp as [[|ch chs]|e]; [simplify_eq; split_and!; [apply T1|done|lia|eauto]| |
    simplify_eq; split_and!; [apply T1|done|lia|eauto]].
  destruct (negb _); [simplify_eq; split_and!; [apply T1|done|lia|eauto]|].
  destruct (tool_calls _ _ _ h1) as [[c2|out] h2] eqn:Et;
    destruct (tool_calls_tracked _ _ _ _ _ _ Et (tool_index_named _)
                (tracked_turn _ _ (Content ch) (ToolCalls ch) T1)) as [Hi2 H2].
  2: { simplify_eq. split_and!; [done|unfold requests_ok; by rewrite Hi2|rewrite Hi2; lia|eauto]. }
  destruct H2 as [T2 (ss & Hss & Hlen & Hm)]. cbn [messages] in Hm.
  edestruct IH as (H3 & H4 & H5 & H6); [exact Hr| |unfold requests_ok; by rewrite Hi2|].
  { split; [done|]. destruct W as (rest & Hw & Htr). rewrite Hm, Hw. eexists. cbn. rewrite <-app_assoc. split; [done|].
    apply turns_snoc; [done|]. by constructor. }
  rewrite Hi2, Hl1 in H5, H6. split_and!; [done..|lia|].
  destruct H6 as [[-> H6]|H6]; [left; split; [done|lia]|by right].
Qed.

Lemma run_inv (a : agent St) input s r h' :
  Run complete a input (mkHost s []) = (r, h') →
  NoDup (executed (h_events h')) ∧ requests_ok (systemPrompt a) input (h_events h') ∧
  (length (inferred (h_events h')) ≤ Z.to_nat (MaxIter (cfg a)))%nat ∧
  (r = Err (max_iterations (MaxIter (cfg a))) ∧ length (inferred (h_events h')) = Z.to_nat (MaxIter (cfg a)) ∨
   (∃ e, r = Err (api_error e)) ∨ r = Err empty_response ∨ ∃ out, r = Ok out).
Proof.
  intros Hr. apply (loop_inv a (systemPrompt a) input _ _ _ _ _ Hr); [|constructor].
  split; [|by exists []; split; [|constructor]].
  split; simpl; [apply NoDup_nil_2|by intros ? ?%not_elem_of_nil|done|done].
Qed.

(** C24. A run terminates for every model and every set of tools: it asks the model at
    most [MaxIter] times, exactly [MaxIter] times when it reports that the limit was
    exceeded, and it executes a tool at most once for the same name and arguments. *)
Theorem run_bounded (a : agent St) input s :
  ∃ r h', Run complete a input (mkHost s []) = (r, h') ∧
    Z.of_nat (length (inferred (h_events h'))) ≤ Z.max 0 (MaxIter (cfg a)) ∧
    NoDup (executed (h_events h')) ∧
    (r = Err (max_iterations (MaxIter (cfg a))) ∧
       Z.of_nat (length (inferred (h_events h'))) = Z.max 0 (MaxIter (cfg a)) ∨
     (∃ e, r = Err (api_error e)) ∨ r = Err empty_response ∨ ∃ out, r = Ok out).
Proof.
  destruct (Run complete a input (mkHost s [])) as [r h'] eqn:Hr. exists r, h'. split; [done|].
  destruct (run_inv _ _ _ _ _ Hr) as (Ho & _ & Hn & Hc). split; [lia|]. split; [done|].
  destruct Hc as [[-> Hc]|Hc]; [left; split; [done|lia]|by right].
Qed.

(** C25. Every request a run sends is a conversation the chat API accepts: the system
    prompt, the user's input, then whole turns in which each tool call has exactly
    one reply, in order, with its identifier; and no tool output is in it that has
    not been through the sanitiser. *)
Theorem conversation_well_formed (a : agent St) input s r h' req :
  Run complete a input (mkHost s []) = (r, h') → Inferred req ∈ h_events h' →
  well_formed (systemPrompt a) input (r_messages req).
Proof.
  intros Hr Hin. destruct (run_inv _ _ _ _ _ Hr) as (_ & Hok & _).
  unfold requests_ok in Hok. rewrite Forall_forall in Hok. apply Hok.
  apply list_elem_of_omap. by exists (Inferred req).
Qed.

End Facts.

(** ** A failed call is not retried, and its error is lost *)

Section Forgotten.
Context {St : Type} (complete : request → St → result string (list choice) * St).
Context (a : agent St) (tc : toolCall) (t : tool St) (e : string) (content : string).

(** A model that keeps asking for the same call, and a tool that fails on it. *)
Definition stubborn : Prop :=
  ∀ req s, ∃ s' rest, complete req s = (Ok (mkChoice "tool_calls" content [tc] :: rest), s').
Definition failing : Prop :=
  tool_index (tools a) !! Name tc = Some t ∧ ∀ s, ∃ s', t_exec t (Arguments tc) s = (Err e, s').

Lemma stubborn_step n c h : stubborn → failing → lastToolResult c !! signature tc = None →
  let count := default 0 (toolCallCounts c !! signature tc) + 1 in
  if 3 <=? count then ∃ h', loop complete a (S n) c h = (Ok (repeat_note count), h')
  else ∃ c' h', loop complete a (S n) c h = loop complete a n c' h' ∧
         lastToolResult c' !! signature tc = None ∧ toolCallCounts c' !! signature tc = Some count.
Proof.
  intros Hs [Ht Hf] Hl count. cbn [loop]. unfold infer.
  destruct (Hs (request_of a c) (h_state h)) as (s' & rest & ->).
  cbn [FinishReason ToolCalls tool_calls]. change (negb _) with false. cbn iota. unfold tool_call.
  rewrite Ht. cbn [toolCallCounts lastToolResult messages]. rewrite Hl. fold count. cbn [default].
  destruct (3 <=? count) eqn:E3; [eexists; done|].
  destruct (count =? 2) eqn:E2.
  - do 2 eexists. split; [done|]. split; [done|]. cbn. by rewrite lookup_insert_eq.
  - unfold execute. cbn [h_state]. destruct (Hf s') as (s2 & ->).
    do 2 eexists. split; [done|]. split; [done|]. cbn. by rewrite lookup_insert_eq.
Qed.

(** When a tool fails and the model asks for the same call again, the call is
    never retried: the third request ends the run successfully, with a text that
    says it returns the last result and holds neither a result nor the error. *)
Theorem failure_forgotten input s :
  stubborn → failing → 3 ≤ MaxIter (cfg a) →
  ∃ h', Run complete a input (mkHost s []) = (Ok (repeat_note 3), h').
Proof.
  intros Hs Hf Hm. unfold Run.
  replace (Z.to_nat (MaxIter (cfg a))) with (S (S (S (Z.to_nat (MaxIter (cfg a) - 3))))) by lia.
  set (n := Z.to_nat _).
  destruct (stubborn_step (S (S n)) (initial a input) (mkHost s []) Hs Hf eq_refl) as (c1 & h1 & -> & Hl1 & Hc1).
  pose proof (stubborn_step (S n) c1 h1 Hs Hf Hl1) as H2. rewrite Hc1 in H2. destruct H2 as (c2 & h2 & -> & Hl2 & Hc2).
  pose proof (stubborn_step n c2 h2 Hs Hf Hl2) as H3. rewrite Hc2 in H3. exact H3.
Qed.

End Forgotten.

(** ** Witnesses *)

(** A model that calls [uptime] until it sees three messages, then reports. *)
Definition demo_model (req : request) (s : nat) : result string (list choice) * nat :=
  (Ok [if (length (r_messages req) <=? 3)%nat then mkChoice "tool_calls" "" [mkCall "c1" "uptime" "{}"]
       else mkChoice "stop" "all well" []], S s).

Definition demo_agent (exec : string → nat → result string string * nat) : agent nat :=
  newAgent [mkTool "uptime" "" "{}" exec]
    (mkSettings "m" 4096 1024 5 "90s" "" "host") "You are an agent." "health".

Definition demo_ok (args : string) (s : nat) : result string string * nat := (Ok "up 3 days", s).
Definition demo_fail (args : string) (s : nat) : result string string * nat := (Err "boom", s).

Lemma conversation_witness :
  ∃ r h' req, Run demo_model (demo_agent demo_ok) "check" (mkHost 0%nat []) = (r, h') ∧
    Inferred req ∈ h_events h' ∧ length (r_messages req) = 4%nat ∧
    well_formed "You are an agent." "check" (r_messages req).
Proof.
  destruct (Run demo_model (demo_agent demo_ok) "check" (mkHost 0%nat [])) as [r h'] eqn:Hr.
  assert (∃ req, Inferred req ∈ h_events h' ∧ length (r_messages req) = 4%nat) as (req & Hin & Hl).
  { vm_compute in Hr. injection Hr as _ <-. cbn [h_events].
    eexists. split; [right; right; left; reflexivity|reflexivity]. }
  exists r, h', req. split; [reflexivity|]. split; [exact Hin|]. split; [exact Hl|].
  exact (conversation_well_formed demo_model (demo_agent demo_ok) "check" 0%nat r h' req Hr Hin).
Defined.

Lemma forgotten_witness :
  ∃ h', Run (λ _ s, (Ok [mkChoice "tool_calls" "" [mkCall "c1" "uptime" "{}"]], s)) (demo_agent demo_fail)
          "check" (mkHost 0%nat []) = (Ok (repeat_note 3), h').
Proof.
  apply (failure_forgotten _ (demo_agent demo_fail) (mkCall "c1" "uptime" "{}")
           (mkTool "uptime" "" "{}" demo_fail) "boom" "").
  - intros req s. exists s, []. reflexivity.
  - split; [vm_compute; reflexivity|]. intros s. exists s. reflexivity.
  - vm_compute. discriminate.
Defined.
