(* ===== verification/Loop.v ===== *)
(** * The agent loop ([loop/loop.go], [loop/responsibility.go], [responsibilitiesapi])

    Each responsibility is due every [Freq] or once a day at a local time of day.
    [tick] runs on every heartbeat: it launches the responsibilities that are due
    and not in flight; [execute] is the goroutine it launches.  The interleaving of
    ticks with the end of goroutines is the relation [step]. *)

From S2P Require Import Prelude GoStrings GoTime GoDuration Json Memory MemStore Incidents World KeyStore Agent.

Module Loop.

(** [config.ResponsibilitySettings]. *)
Record ResponsibilitySettings := mkRS {
  Name : string;
  Frequency : string;
  TimeSetting : string;
  Instruction : string;
  Tools : list string;
  WhenToNotify : string;
}.

(** ** Responsibilities *)

Record Responsibility := mkResp {
  cfg : ResponsibilitySettings;
  Running : bool;
  Freq : Z;
  nextRun : Time;
  TimeOfDay : string;
  lastRunDate : string;
}.

Inductive resp_error := EBoth | EFrequency | ETime | ENeither.

Definition no_time : Time := mkTime 0 0.

(** [NewResponsibility]; [now] is [time.Now]. *)
Definition NewResponsibility (now : Time) (c : ResponsibilitySettings) (startupDelay : Z) :
    result resp_error Responsibility :=
  if negb (String.eqb (Frequency c) "") && negb (String.eqb (TimeSetting c) "") then Err EBoth
  else if negb (String.eqb (Frequency c) "") then
    match ParseDuration (Frequency c) with
    | Some d => if d <=? 0 then Err EFrequency
                else Ok (mkResp c false d (Add now startupDelay) "" "")
    | None => Err EFrequency
    end
  else if negb (String.eqb (TimeSetting c) "") then
    match parse_hm (TimeSetting c) with
    | Some t => Ok (mkResp c false 0 no_time (format_hm (λ _, 0) (t + startupDelay)) "")
    | None => Err ETime
    end
  else Err ENeither.

Section Local.
Context (zone : Z → Z).

Definition Due (r : Responsibility) (now : Time) : bool :=
  if 0 <? Freq r then negb (Before now (nextRun r))
  else String.eqb (format_hm zone (wall now)) (TimeOfDay r) &&
       negb (String.eqb (lastRunDate r) (format_date zone (wall now))).

Definition Schedule (r : Responsibility) (now : Time) : Responsibility :=
  if 0 <? Freq r
  then mkResp (cfg r) (Running r) (Freq r) (Add now (Freq r)) (TimeOfDay r) (lastRunDate r)
  else mkResp (cfg r) (Running r) (Freq r) (nextRun r) (TimeOfDay r) (format_date zone (wall now)).

(** The instant of the next run, as wall time. *)
Definition NextRunAt (now : Time) (r : Responsibility) : option Z :=
  if 0 <? Freq r then Some (wall (nextRun r))
  else
    candidate ← parse_date_hm zone (format_date zone (wall now) +:+ " " +:+ TimeOfDay r);
    if wall now <? candidate then Some candidate else Some (candidate + 24 * Hour).

Definition ScheduleLabel (r : Responsibility) : string :=
  if 0 <? Freq r then "every " +:+ Frequency (cfg r) else "daily at " +:+ TimeOfDay r.

(** ** The loop *)

Definition with_running (b : bool) (r : Responsibility) : Responsibility :=
  mkResp (cfg r) b (Freq r) (nextRun r) (TimeOfDay r) (lastRunDate r).

(** [New]: invalid responsibilities are skipped.  [jitterMin] is the random delay. *)
Definition New (now : Time) (jitterMin : Z) (cs : list ResponsibilitySettings) : list Responsibility :=
  omap (λ c, match NewResponsibility now c (jitterMin * Minute) with Ok r => Some r | Err _ => None end) cs.

Definition defaultHeartbeat : Z := Second.

(** The heartbeat [Start] uses. *)
Definition heartbeat (setting : string) : Z :=
  match ParseDuration setting with
  | Some d => if d <=? 0 then defaultHeartbeat else d
  | None => defaultHeartbeat
  end.

(** One iteration of [tick]: the responsibility afterwards, and whether a goroutine
    was launched. *)
Definition tick_one (now : Time) (r : Responsibility) : Responsibility * bool :=
  if negb (Due r now) then (r, false)
  else
    let r := Schedule r now in
    if Running r then (r, false) else (with_running true r, true).

(** [tick]: the responsibilities afterwards and the positions launched. *)
Fixpoint tick_from (i : nat) (now : Time) (rs : list Responsibility) : list Responsibility * list nat :=
  match rs with
  | [] => ([], [])
  | r :: rs =>
      let '(r, launched) := tick_one now r in
      let '(rs, ls) := tick_from (S i) now rs in
      (r :: rs, if launched : bool then i :: ls else ls)
  end.

Definition tick : Time → list Responsibility → list Responsibility * list nat := tick_from 0.

Definition RunningTasks (rs : list Responsibility) : list string :=
  (λ r, Name (cfg r)) <$> List.filter Running rs.

Definition CurrentTask (rs : list Responsibility) : string :=
  default "" (head (RunningTasks rs)).

(** The loop and the goroutines in flight, one entry each. *)
Record state := mkState { resps : list Responsibility; inflight : list nat }.

Fixpoint remove_one (i : nat) (l : list nat) : list nat :=
  match l with [] => [] | j :: l => if (j =? i)%nat then l else j :: remove_one i l end.

(** The deferred [Running.Store(false)] of the goroutine of position [i]. *)
Definition finish (i : nat) (s : state) : state :=
  mkState (alter (with_running false) i (resps s)) (remove_one i (inflight s)).

Definition on_tick (now : Time) (s : state) : state :=
  let '(rs, launched) := tick now (resps s) in mkState rs (inflight s ++ launched).

Inductive step : state → state → Prop :=
| step_tick now s : step s (on_tick now s)
| step_finish i s : i ∈ inflight s → step s (finish i s).

End Local.

(** ** Executing a responsibility *)

Definition maxSummaryLen : nat := 300.
Definition AttrRunPrefix : string := "responsibility_run:".

Record RunState := mkRun { LastRunAt : string; RunStatus : string; RunSummary : string }.

(** The summary [persistRunState] stores. *)
Definition shorten (s : string) : string :=
  if (maxSummaryLen <? String.length s)%nat then take_bytes maxSummaryLen s +:+ "..." else s.

Definition run_summary (res : string) (err : option string) : string :=
  let summary := shorten res in
  match err with
  | Some e => if String.eqb summary "" then shorten e else summary
  | None => summary
  end.

(** The [WhenToNotify] setting, normalised. *)
Definition notify_mode (s : string) : string :=
  ToLower (map_bytes (λ c, if Ascii.eqb c " " then "_"%char else c) (TrimSpace s)).

Definition report_header : string := para +:+ "Pre-gathered health report:" +:+ nl.

Definition incidents_advice : string :=
  "Do not file duplicate findings for these. If you observe one of them again, " +:+
  "record the recurrence (manage_incidents action=report with the same fingerprint) " +:+
  "or log any action you take against it (action=log_action). If it is no longer " +:+
  "occurring, resolve it (action=resolve) and mention that in your report. " +:+
  "Open a new incident only for a problem not covered by the list above.".

Section Execute.
Context `{!RawJson, !Json RunState, !Json (list Incidents.Incident), !Json notification, !MemStore M}.
Context (zone : Z → Z).

(** [PreCheck]: needsLLM, the report, and the error. *)
Definition PreCheck : Type := W M (bool * string * option string).

(** The loop's fields [execute] reads; [complete] is the chat completion client. *)
Record env := mkEnv {
  settings : Agent.settings;
  ResponsibilitySystemPrompt : string;
  registry : list (Agent.tool (world M));
  preChecks : gmap string PreCheck;
  complete : Agent.request → world M → result string (list Agent.choice) * world M;
}.

(** [filterTools]: the named tools, in the order of the names. *)
Definition filterTools (e : env) (names : list string) : list (Agent.tool (world M)) :=
  omap (λ name, Agent.tool_index (registry e) !! name) names.

Definition withOpenIncidents (instruction : string) : W M string := λ w,
  let summary := Incidents.OpenSummary (Some (w_mem w)) in
  (if String.eqb summary "" then instruction
   else instruction +:+ para +:+
        "OPEN INCIDENTS already being tracked from previous runs:" +:+ nl +:+ summary +:+ nl +:+
        incidents_advice, w).

Definition persistRunState (r : Responsibility) (res : string) (err : option string) : W M (option mem_error) :=
  t ← now_;
  set_key SkillState.Domain (AttrRunPrefix +:+ Name (cfg r))
    (mkRun (format_at 0 t) (match err with Some _ => "error" | None => "ok" end) (run_summary res err)).

Definition maybeNotify (r : Responsibility) (res : string) (err : option string) : W M unit :=
  let mode := notify_mode (WhenToNotify (cfg r)) in
  match err with
  | Some e =>
      if String.eqb mode "never" then mret tt
      else Notify ("[" +:+ Name (cfg r) +:+ "] responsibility failed") ("Error: " +:+ e)
  | None =>
      if String.eqb mode "always"
      then Notify ("[" +:+ Name (cfg r) +:+ "] responsibility report") res
      else mret tt
  end.

(** What the pre-check decides: the report of a clean check, or the instruction. *)
Definition pre_check (e : env) (r : Responsibility) : W M (string + string) :=
  match preChecks e !! Name (cfg r) with
  | None => mret (inr (Instruction (cfg r)))
  | Some pc =>
      '(needsLLM, report, err) ← pc;
      mret (match err with
            | Some _ => inr (Instruction (cfg r))
            | None =>
                if negb needsLLM then inl report
                else if String.eqb report "" then inr (Instruction (cfg r))
                else inr (Instruction (cfg r) +:+ report_header +:+ report)
            end)
  end.

(** [a.Run] of a fresh agent for the responsibility. *)
Definition run_agent (e : env) (r : Responsibility) (input : string) : W M (result string string) := λ w,
  let a := Agent.NewWithResponsibility (filterTools e (Tools (cfg r))) (settings e)
             (ResponsibilitySystemPrompt e) (Name (cfg r)) in
  let '(res, h) := Agent.Run (complete e) a input (Agent.mkHost w []) in (res, Agent.h_state h).

(** [execute], up to the deferred [Running.Store(false)]. *)
Definition execute (e : env) (r : Responsibility) : W M unit :=
  d ← pre_check e r;
  match d with
  | inl report => _ ← persistRunState r report None; maybeNotify r report None
  | inr instruction =>
      input ← withOpenIncidents instruction;
      res ← run_agent e r input;
      let '(out, err) := match res with Ok out => (out, None) | Err e => ("", Some e) end in
      _ ← persistRunState r out err; maybeNotify r out err
  end.

(** ** GET /responsibilities *)

Record ResponsibilityItem := mkItem {
  i_name : string;
  i_schedule : string;
  i_tools : list string;
  i_instruction : string;
  i_lastRunAt : option string;
  i_nextRunAt : option string;
  i_status : string;
  i_summary : string;
}.

Definition buildItem (now : Time) (r : Responsibility) (attrs : gmap string string) : ResponsibilityItem :=
  let '(last, status, summary) :=
    match attrs !! (AttrRunPrefix +:+ Name (cfg r)) with
    | Some raw =>
        let '(st, ok) := Unmarshal (A := RunState) raw zero in
        if ok : bool then (Some (LastRunAt st), RunStatus st, RunSummary st) else (None, "never", "")
    | None => (None, "never", "")
    end in
  mkItem (Name (cfg r)) (ScheduleLabel r) (Tools (cfg r)) (Instruction (cfg r)) last
    (format_at 0 <$> NextRunAt zone now r) (if Running r then "running" else status) summary.

(** [handle]: [None] is the status 405. *)
Definition handle (now : Time) (method : string) (rs : list Responsibility) : W M (option (list ResponsibilityItem)) :=
  if negb (String.eqb method "GET") then mret None
  else
    attrs ← all_keys SkillState.Domain;
    mret (Some ((λ r, buildItem now r attrs) <$> rs)).

End Execute.

End Loop.
