(* ===== verification/LoopFacts.v ===== *)
(** * The loop: no overlapping runs, schedules that fire when they should, and what a
    run does: pre-checks, recorded outcomes, the next run *)

From S2P Require Import Prelude GoStrings GoTime GoDuration Json Memory MemStore Incidents World KeyStore Agent Loop.

Import Loop.

(** The time of day of a daily responsibility is the configured one, shifted by the
    start-up delay around the clock. *)
Lemma new_daily now c jitter r :
  NewResponsibility now c (jitter * Minute) = Ok r → TimeSetting c ≠ "" →
  ∃ m, parse_minute (TimeSetting c) = Some (m, "") ∧ Freq r = 0 ∧ lastRunDate r = "" ∧
       TimeOfDay r = format_minute ((m + jitter) mod 1440).
Proof.
  intros Hr Ht. unfold NewResponsibility in Hr. apply String.eqb_neq in Ht. rewrite Ht in Hr.
  destruct (String.eqb (Frequency c) ""); [|done]. cbn [negb andb] in Hr. unfold parse_hm in Hr.
  destruct (parse_minute (TimeSetting c)) as [[m [|]]|]; [|done..]. cbn [mbind option_bind] in Hr.
  injection Hr as <-. exists m. split_and!; [done..|]. cbn [TimeOfDay]. unfold format_hm. f_equal.
  unfold local_minute, local_secs. set (D := days_of 0 1 1 - unix_epoch). clearbody D.
  replace ((D * 86400 + m * 60) * Second + jitter * Minute) with ((D * 86400 + (m + jitter) * 60) * Second)
    by (unfold Minute; lia).
  rewrite Z.div_mul by (unfold Second; lia). Z.to_euclidean_division_equations; lia.
Qed.

(** ** One run of a responsibility at a time *)

Section Overlap.
Context (zone : Z → Z).

Lemma tick_from_resps i now rs : (tick_from zone i now rs).1 = (λ r, (tick_one zone now r).1) <$> rs.
Proof.
  revert i. induction rs as [|r rs IH]; intros i; [done|]. simpl. specialize (IH (S i)).
  destruct (tick_one zone now r) as [r' b], (tick_from zone (S i) now rs) as [rs' ls]. simpl in *. by rewrite IH.
Qed.

Lemma tick_from_launched i now rs j :
  j ∈ (tick_from zone i now rs).2 ↔
  ∃ k r, j = (i + k)%nat ∧ rs !! k = Some r ∧ (tick_one zone now r).2 = true.
Proof.
  revert i. induction rs as [|r rs IH]; intros i; simpl.
  { split; [by intros ?%not_elem_of_nil|by intros (k & r & _ & ? & _)]. }
  specialize (IH (S i)). destruct (tick_one zone now r) as [r' b] eqn:Hr.
  destruct (tick_from zone (S i) now rs) as [rs' ls]. cbn [fst snd] in *.
  assert (j ∈ (if b then i :: ls else ls) ↔ (b = true ∧ j = i) ∨ j ∈ ls) as ->.
  { destruct b; [rewrite elem_of_cons|]; naive_solver. }
  rewrite IH. split.
  - intros [[-> ->]|(k & q & -> & Hk & Hq)].
    + exists 0%nat, r. rewrite Hr. split_and!; [lia|done..].
    + exists (S k), q. split_and!; [lia|done..].
  - intros ([|k] & q & -> & Hk & Hq).
    + left. injection Hk as ->. rewrite Hr in Hq. split; [done|lia].
    + right. exists k, q. split_and!; [lia|done..].
Qed.

Lemma tick_from_nodup i now rs : NoDup (tick_from zone i now rs).2.
Proof.
  revert i. induction rs as [|r rs IH]; intros i; simpl; [constructor|].
  pose proof (tick_from_launched (S i) now rs i) as Hi. specialize (IH (S i)).
  destruct (tick_one zone now r) as [r' b], (tick_from zone (S i) now rs) as [rs' ls]. cbn [fst snd] in *.
  destruct b; [|done]. constructor; [|done]. rewrite Hi. intros (k & q & Hk & _). lia.
Qed.

Lemma tick_one_running now r :
  Running (tick_one zone now r).1 = Running r || (tick_one zone now r).2 ∧
  ((tick_one zone now r).2 = true → Running r = false).
Proof.
  unfold tick_one, Schedule. destruct (Due zone r now); simpl; [|by rewrite orb_false_r].
  destruct (0 <? Freq r); simpl; by destruct (Running r).
Qed.

Lemma remove_one_nodup i l : NoDup l → NoDup (remove_one i l) ∧ ∀ j, j ∈ remove_one i l ↔ j ∈ l ∧ j ≠ i.
Proof.
  induction 1 as [|k l Hk Hl [IH1 IH2]]; simpl.
  { split; [constructor|]. intros j. rewrite elem_of_nil. naive_solver. }
  destruct (Nat.eqb_spec k i) as [->|Hne].
  - split; [done|]. intros j. rewrite elem_of_cons. naive_solver.
  - split; [constructor; [rewrite IH2; naive_solver|done]|]. intros j. rewrite !elem_of_cons, IH2. naive_solver.
Qed.

(** In flight: at most one goroutine per responsibility, exactly those marked. *)
Record Inv (s : state) : Prop := {
  inv_once : NoDup (inflight s);
  inv_running i : i ∈ inflight s ↔ ∃ r, resps s !! i = Some r ∧ Running r = true;
}.

Lemma tick_inv now s : Inv s → Inv (on_tick zone now s).
Proof.
  intros [Ho Hr]. unfold on_tick, tick.
  pose proof (tick_from_resps 0 now (resps s)) as Hrs. pose proof (tick_from_nodup 0 now (resps s)) as Hnd.
  pose proof (tick_from_launched 0 now (resps s)) as Hl.
  destruct (tick_from zone 0 now (resps s)) as [rs ls]. cbn [fst snd] in *. subst rs. split; cbn [inflight resps].
  - apply NoDup_app. split; [done|]. split; [|done]. intros i (r & Hi & Hrun)%Hr (k & q & -> & Hk & Hq)%Hl.
    simpl in Hi. rewrite Hk in Hi. injection Hi as ->. by rewrite (proj2 (tick_one_running now r) Hq) in Hrun.
  - intros i. rewrite elem_of_app, Hr, Hl. setoid_rewrite list_lookup_fmap. split.
    + intros [(r & Hi & Hrun)|(k & r & -> & Hi & Hq)].
      * exists (tick_one zone now r).1. rewrite Hi. split; [done|]. rewrite (proj1 (tick_one_running now r)), Hrun. done.
      * exists (tick_one zone now r).1. simpl. rewrite Hi. split; [done|].
        rewrite (proj1 (tick_one_running now r)), Hq. apply orb_true_r.
    + intros (q & Hi & Hrun). destruct (resps s !! i) as [r|] eqn:Hri; [|done]. simpl in Hi. injection Hi as <-.
      rewrite (proj1 (tick_one_running now r)) in Hrun. apply orb_true_iff in Hrun as [Hrun|Hrun]; [left; eauto|].
      right. exists i, r. by split_and!.
Qed.

Lemma finish_inv i s : Inv s → Inv (finish i s).
Proof.
  intros [Ho Hr]. destruct (remove_one_nodup i _ Ho) as [Hn Hi]. split; cbn [finish inflight resps]; [done|].
  intros j. rewrite Hi, Hr. destruct (decide (j = i)) as [->|Hne].
  - rewrite list_lookup_alter_eq. split; [naive_solver|]. intros (r & Hj & Hrun).
    destruct (resps s !! i); simpl in Hj; [|done]. injection Hj as <-. done.
  - rewrite list_lookup_alter_ne by done. naive_solver.
Qed.

Lemma new_not_running now jitter cs : Forall (λ r, Running r = false) (New now jitter cs).
Proof.
  unfold New. apply Forall_forall. intros r (c & _ & Hc)%list_elem_of_omap.
  unfold NewResponsibility in Hc.
  repeat (case_match; try done); simplify_eq; done.
Qed.

(** C26. A responsibility never runs twice at a time: however ticks and the ends of
    runs interleave, each responsibility has at most one run in flight, and the
    responsibilities marked as running are exactly those with a run in flight. *)
Theorem no_overlap now jitter cs s :
  rtc (step zone) (mkState (New now jitter cs) []) s →
  NoDup (inflight s) ∧
  ∀ i, i ∈ inflight s ↔ ∃ r, resps s !! i = Some r ∧ Running r = true.
Proof.
  intros Hrun. assert (Inv s) as [Ho Hr]; [|done].
  apply (rtc_preserves (step zone) Inv _ _) in Hrun; [done| |].
  - intros a b [now' a'|i a' _] Ha; [by apply tick_inv|by apply finish_inv].
  - split; [constructor|]. intros i. split; [by intros ?%not_elem_of_nil|]. intros (r & Hr & Hrun').
    pose proof (new_not_running now jitter cs) as HF. rewrite Forall_lookup in HF. cbn [resps] in Hr.
    specialize (HF _ _ Hr). congruence.
Qed.

(** ** When a responsibility fires *)

(** The ticks at which the loop schedules a responsibility. *)
Fixpoint fires (r : Responsibility) (nows : list Time) : list Time :=
  match nows with
  | [] => []
  | t :: ts => if Due zone r t then t :: fires (Schedule zone r t) ts else fires r ts
  end.

(** A tick that schedules launches a run, unless one is in flight, and what is in
    flight does not change when the responsibility fires next. *)
Lemma tick_schedules now r :
  (tick_one zone now r).2 = Due zone r now && negb (Running r) ∧
  ∀ nows, fires r (now :: nows) =
    (if Due zone r now then [now] else []) ++ fires (tick_one zone now r).1 nows.
Proof.
  unfold tick_one. split.
  - destruct (Due zone r now); simpl; [|done]. unfold Schedule. destruct (0 <? Freq r); simpl; by destruct (Running r).
  - intros nows. simpl. destruct (Due zone r now); simpl; [|done]. f_equal.
    destruct (Running _); [done|]. generalize (Schedule zone r now). clear r.
    induction nows as [|t ts IH]; intros r; [done|]. simpl.
    change (Due zone (with_running true r) t) with (Due zone r t). destruct (Due zone r t); [|apply IH].
    f_equal. rewrite IH. f_equal. unfold Schedule, with_running. cbn. by destruct (0 <? Freq r).
Qed.

Lemma fires_sub r nows t : t ∈ fires r nows → t ∈ nows.
Proof.
  revert r. induction nows as [|u nows IH]; intros r; simpl; [done|].
  destruct (Due zone r u); rewrite ?elem_of_cons; naive_solver.
Qed.

Lemma freq_schedule r t : Freq (Schedule zone r t) = Freq r ∧ TimeOfDay (Schedule zone r t) = TimeOfDay r.
Proof. unfold Schedule. by destruct (0 <? Freq r). Qed.

(** *** Every [Freq] *)

Lemma due_freq r t : 0 < Freq r → Due zone r t = (mono (nextRun r) <=? mono t).
Proof.
  intros Hf. unfold Due, Before. destruct (Z.ltb_spec 0 (Freq r)); [|lia].
  destruct (Z.ltb_spec (mono t) (mono (nextRun r))), (Z.leb_spec (mono (nextRun r)) (mono t)); simpl; lia || done.
Qed.

Lemma next_freq r t : 0 < Freq r → mono (nextRun (Schedule zone r t)) = mono t + Freq r.
Proof. intros Hf. unfold Schedule. destruct (Z.ltb_spec 0 (Freq r)); [done|lia]. Qed.

Lemma fires_after r nows t : 0 < Freq r → t ∈ fires r nows → mono (nextRun r) ≤ mono t.
Proof.
  revert r. induction nows as [|u nows IH]; intros r Hf; simpl; [by intros ?%not_elem_of_nil|].
  rewrite due_freq by done. destruct (Z.leb_spec (mono (nextRun r)) (mono u)) as [Hu|Hu]; [|by apply IH].
  rewrite elem_of_cons. intros [->|Hin]; [done|].
  apply IH in Hin; [|by rewrite (proj1 (freq_schedule r u))]. rewrite next_freq in Hin by done. lia.
Qed.

(** C27. A responsibility with a frequency fires no two times less than its frequency
    apart, and never misses: a tick at or after its first due time is less than the
    frequency after a firing.  Both are measured on the monotonic clock, so steps of
    the wall clock do not matter. *)
Theorem frequency_kept r nows :
  0 < Freq r → StronglySorted (λ t u, mono t ≤ mono u) nows →
  StronglySorted (λ t u, mono t + Freq r ≤ mono u) (fires r nows) ∧
  ∀ t, t ∈ nows → mono (nextRun r) ≤ mono t →
       ∃ t', t' ∈ fires r nows ∧ mono t - Freq r < mono t' ≤ mono t.
Proof.
  intros Hf Hs. revert r Hf. induction Hs as [|u nows Hs IH Hu]; intros r Hf; simpl.
  { split; [constructor|]. by intros t ?%not_elem_of_nil. }
  rewrite due_freq by done. rewrite Forall_forall in Hu.
  pose proof (proj1 (freq_schedule r u)) as Hfs.
  destruct (Z.leb_spec (mono (nextRun r)) (mono u)) as [Hd|Hd].
  - destruct (IH (Schedule zone r u)) as [IH1 IH2]; [lia|]. rewrite Hfs in *. rewrite next_freq in IH2 by done. split.
    + constructor; [done|]. apply Forall_forall. intros t Ht. apply fires_after in Ht; [|lia].
      rewrite next_freq in Ht by done. done.
    + intros t Ht Hn. rewrite elem_of_cons in Ht. destruct (decide (mono u + Freq r ≤ mono t)) as [Hge|Hlt].
      * destruct Ht as [->|Ht]; [lia|]. destruct (IH2 t Ht Hge) as (t' & Ht' & ?). exists t'. rewrite elem_of_cons. eauto.
      * exists u. rewrite elem_of_cons. split; [by left|]. destruct Ht as [->|Ht]; [lia|]. specialize (Hu t Ht). lia.
  - destruct (IH r Hf) as [IH1 IH2]. split; [done|]. intros t [->|Ht]%elem_of_cons Hn; [lia|]. by apply IH2.
Qed.

(** *** Once a day *)

Definition day (t : Time) : Z := local_day zone (wall t).
Definition at_minute (r : Responsibility) (t : Time) : Prop := format_hm zone (wall t) = TimeOfDay r.

(** The date of the last run, if there was one, is a day up to [n]. *)
Definition ran_by (r : Responsibility) (n : Z) : Prop :=
  lastRunDate r = "" ∨ ∃ d, day_ok d ∧ lastRunDate r = format_day d ∧ d ≤ n.

Lemma format_day_nonempty n : format_day n ≠ "".
Proof.
  unfold format_day. destruct (civil _) as [[y m] d]. intros E%(f_equal String.length).
  rewrite !length_append in E. simpl in E. lia.
Qed.

Lemma due_daily r t : Freq r ≤ 0 →
  Due zone r t = true ↔ at_minute r t ∧ lastRunDate r ≠ format_day (day t).
Proof.
  intros Hf. unfold Due. destruct (Z.ltb_spec 0 (Freq r)); [lia|].
  rewrite andb_true_iff, negb_true_iff, String.eqb_eq, String.eqb_neq. done.
Qed.

Lemma scheduled_daily r t : Freq r ≤ 0 → lastRunDate (Schedule zone r t) = format_day (day t).
Proof. intros Hf. unfold Schedule. by destruct (Z.ltb_spec 0 (Freq r)); [lia|]. Qed.

Lemma fires_minute r nows t : Freq r ≤ 0 → t ∈ fires r nows → at_minute r t.
Proof.
  revert r. induction nows as [|u nows IH]; intros r Hf; simpl; [by intros ?%not_elem_of_nil|].
  destruct (Due zone r u) eqn:Hd; [|by apply IH]. apply due_daily in Hd as [Hm _]; [|done].
  destruct (freq_schedule r u) as [Hfs Htod]. intros [->|Hin]%elem_of_cons; [done|].
  apply IH in Hin; [|lia]. unfold at_minute in *. by rewrite Htod in Hin.
Qed.

Lemma daily_gen r nows :
  Freq r ≤ 0 → Forall (λ t, day_ok (day t)) nows → StronglySorted (λ t u, day t ≤ day u) nows →
  Forall (λ t, ran_by r (day t)) nows →
  NoDup (day <$> fires r nows) ∧
  (∀ t, t ∈ fires r nows → at_minute r t ∧ lastRunDate r ≠ format_day (day t)) ∧
  (∀ t, t ∈ nows → at_minute r t →
     lastRunDate r = format_day (day t) ∨ ∃ t', t' ∈ fires r nows ∧ day t' = day t).
Proof.
  intros Hf Hok Hs. revert r Hf Hok. induction Hs as [|u nows Hs IH Hu]; intros r Hf Hok Hran.
  { split_and!; [constructor|by intros t ?%not_elem_of_nil..]. }
  apply Forall_cons in Hok as [Hoku Hok], Hran as [Hranu Hran]. simpl.
  destruct (Due zone r u) eqn:Hd.
  - apply due_daily in Hd as [Hm Hne]; [|done]. destruct (freq_schedule r u) as [Hfs Htod].
    pose proof (scheduled_daily r u Hf) as Hl. set (r' := Schedule zone r u) in *.
    rewrite Forall_forall in Hu. pose proof Hok as Hok'. rewrite Forall_forall in Hok'.
    destruct (IH r') as (IH1 & IH2 & IH3); [lia|done| |].
    { apply Forall_forall. intros t Ht. right. exists (day u). by split_and!; [| |apply Hu]. }
    unfold at_minute in IH2, IH3. rewrite Htod, Hl in IH2, IH3. split_and!.
    + constructor; [|done]. intros (t & Ht & Hin)%list_elem_of_fmap. destruct (IH2 t Hin) as [_ []]. by rewrite Ht.
    + intros t [->|Hin]%elem_of_cons; [done|]. destruct (IH2 t Hin) as [Hmt Hnt]. split; [done|].
      apply fires_sub in Hin. destruct Hranu as [->|(d & Hdok & -> & Hdu)]; [symmetry; apply format_day_nonempty|].
      intros E%format_day_inj; [|done|by apply Hok']. apply Hnt. specialize (Hu t Hin). f_equal. lia.
    + intros t [->|Hin]%elem_of_cons Hmt; right; [exists u; by rewrite elem_of_cons; split; [left|]|].
      destruct (IH3 t Hin Hmt) as [E%format_day_inj|(t' & Ht' & E)]; [|done|by apply Hok'|].
      * exists u. by rewrite elem_of_cons; split; [left|].
      * exists t'. by rewrite elem_of_cons; split; [right|].
  - destruct (IH r) as (IH1 & IH2 & IH3); [done..|]. split_and!; [done..|].
    intros t [->|Hin]%elem_of_cons Hmt; [left|by apply IH3].
    apply dec_stable. intros Hne. apply not_true_iff_false in Hd. by apply Hd, due_daily.
Qed.

Lemma daily_fires r nows :
  Freq r ≤ 0 → lastRunDate r = "" →
  Forall (λ t, day_ok (day t)) nows → StronglySorted (λ t u, day t ≤ day u) nows →
  NoDup (day <$> fires r nows) ∧
  (∀ t, t ∈ fires r nows → t ∈ nows ∧ at_minute r t) ∧
  (∀ t, t ∈ nows → at_minute r t → ∃ t', t' ∈ fires r nows ∧ day t' = day t).
Proof.
  intros Hf Hl Hok Hs. destruct (daily_gen r nows) as (H1 & H2 & H3); [done..| |].
  { apply Forall_forall. intros. by left. }
  split_and!; [done|intros t Ht; split; [by eapply fires_sub|by apply H2]|].
  intros t Ht Hm. destruct (H3 t Ht Hm) as [E|]; [|done]. rewrite Hl in E. by destruct (format_day_nonempty (day t)).
Qed.

(** A daily responsibility fires at most once on each local date, only in its
    minute, and does fire on every date on which a tick falls in its minute (for
    ticks whose local date does not go back, in years 0 to 9999). *)
Theorem daily_once now c jitter r nows :
  NewResponsibility now c (jitter * Minute) = Ok r → TimeSetting c ≠ "" →
  Forall (λ t, day_ok (day t)) nows → StronglySorted (λ t u, day t ≤ day u) nows →
  NoDup (day <$> fires r nows) ∧
  (∀ t, t ∈ fires r nows → t ∈ nows ∧ at_minute r t) ∧
  (∀ t, t ∈ nows → at_minute r t → ∃ t', t' ∈ fires r nows ∧ day t' = day t).
Proof. intros Hr Ht. destruct (new_daily _ _ _ _ Hr Ht) as (m & _ & Hf & Hl & _). apply daily_fires; [lia|done]. Qed.

(** *** A tick in every minute *)

(** Ticks no more than [gap] apart. *)
Fixpoint spaced (gap : Z) (t : Time) (ts : list Time) : Prop :=
  match ts with
  | [] => True
  | u :: ts => wall t ≤ wall u ≤ wall t + gap ∧ spaced gap u ts
  end.

Lemma spaced_hit gap t ts m :
  spaced gap t ts → wall t < m → (∃ u, u ∈ ts ∧ m ≤ wall u) → ∃ u, u ∈ ts ∧ m ≤ wall u < m + gap.
Proof.
  revert t. induction ts as [|u ts IH]; intros t Hs Ht (v & Hv & Hm); [by apply not_elem_of_nil in Hv|].
  destruct Hs as [Hu Hs]. destruct (decide (m ≤ wall u)) as [Hmu|Hmu].
  - exists u. rewrite elem_of_cons. split; [by left|lia].
  - rewrite elem_of_cons in Hv. destruct Hv as [->|Hv]; [lia|].
    destruct (IH u) as (w & Hw & ?); [done|lia|by exists v|]. exists w. rewrite elem_of_cons. eauto.
Qed.

Lemma spaced_sorted gap t ts : spaced gap t ts → StronglySorted (λ t u, wall t ≤ wall u) (t :: ts).
Proof.
  intros Hs. apply Sorted_StronglySorted; [intros a b c ? ?; lia|].
  revert t Hs. induction ts as [|u ts IH]; intros t Hs; [repeat constructor|].
  destruct Hs as [Hu Hs]. constructor; [by apply IH|]. constructor. lia.
Qed.

End Overlap.

(** The instant a local minute starts, in a zone of constant offset. *)
Definition minute_start (off n m : Z) : Z := (n * 86400 + m * 60 - off) * Second.

Lemma local_in_minute off n m t :
  0 ≤ m < 1440 → minute_start off n m ≤ t < minute_start off n m + Minute →
  local_day (λ _, off) t = n ∧ local_minute (λ _, off) t = m.
Proof.
  unfold local_day, local_minute, local_secs, minute_start, Minute. intros Hm Ht.
  assert (n * 86400 + m * 60 - off ≤ t / Second < n * 86400 + m * 60 - off + 60) as Hs.
  { split; [apply Z.div_le_lower_bound; unfold Second in *; lia|].
    apply Z.div_lt_upper_bound; unfold Second in *; lia. }
  set (s := t / Second) in *. clearbody s. Z.to_euclidean_division_equations; lia.
Qed.

Lemma local_day_mono off t u : t ≤ u → local_day (λ _, off) t ≤ local_day (λ _, off) u.
Proof.
  intros H. unfold local_day, local_secs. apply Z.div_le_mono; [lia|].
  pose proof (Z.div_le_mono t u Second). unfold Second in *. lia.
Qed.

Lemma nodup_fmap_filter {A} (f : A → Z) (l : list A) x n :
  NoDup (f <$> l) → x ∈ l → f x = n → List.filter (λ y, f y =? n) l = [x].
Proof.
  intros Hnd Hin <-. induction l as [|y l IH]; [by apply not_elem_of_nil in Hin|].
  apply NoDup_cons in Hnd as [Hy Hnd]. rewrite elem_of_cons in Hin. simpl.
  destruct (Z.eqb_spec (f y) (f x)) as [E|E].
  - assert (List.filter (λ z, f z =? f x) l = []) as ->.
    { rewrite E in Hy. clear -Hy. induction l as [|z l IH]; [done|]. simpl in *.
      rewrite elem_of_cons in Hy. destruct (Z.eqb_spec (f z) (f x)); [naive_solver|]. apply IH. naive_solver. }
    destruct Hin as [->|Hin]; [done|]. destruct Hy. rewrite E. by apply list_elem_of_fmap_2.
  - destruct Hin as [->|Hin]; [done|]. by apply IH.
Qed.

(** The minutes of one local day, in order. *)
Lemma minute_bounds off n m t :
  0 ≤ m < 1440 → local_day (λ _, off) t = n → local_minute (λ _, off) t = m →
  minute_start off n m ≤ t < minute_start off n m + Minute.
Proof.
  unfold local_day, local_minute, local_secs, minute_start, Minute. intros Hm Hd Hmin.
  assert (n * 86400 + m * 60 - off ≤ t / Second < n * 86400 + m * 60 - off + 60) as Hs.
  { set (s := t / Second) in *. clearbody s. Z.to_euclidean_division_equations; lia. }
  pose proof (Z.div_mod t Second). pose proof (Z.mod_pos_bound t Second). unfold Second in *. lia.
Qed.

(** A firing of a daily responsibility falls in its minute. *)
Lemma fires_in_minute off r k n u ts : Freq r ≤ 0 → TimeOfDay r = format_minute k → 0 ≤ k < 1440 →
  u ∈ fires (λ _, off) r ts → day (λ _, off) u = n → minute_start off n k ≤ wall u < minute_start off n k + Minute.
Proof.
  intros Hf Htod Hk Hu Hd. apply fires_minute in Hu; [|done]. unfold at_minute, format_hm in Hu. rewrite Htod in Hu.
  apply format_minute_inj in Hu; [|apply local_minute_range|done]. by apply minute_bounds.
Qed.

(** C28. With a heartbeat of at most a minute a daily responsibility never misses its
    time, which is the configured one plus the start-up delay: when the ticks, no
    more than a minute apart, span the start of its minute on a date, it fires on
    that date exactly once, in that minute (in a zone of constant offset, for dates of
    years 0 to 9999). *)
Theorem daily_never_missed off now c jitter r t ts n m :
  NewResponsibility now c (jitter * Minute) = Ok r → parse_minute (TimeSetting c) = Some (m, "") →
  Forall (λ t, day_ok (day (λ _, off) t)) (t :: ts) → spaced Minute t ts →
  let start := minute_start off n ((m + jitter) mod 1440) in
  wall t < start → (∃ u, u ∈ ts ∧ start ≤ wall u) →
  ∃ v, List.filter (λ u, day (λ _, off) u =? n) (fires (λ _, off) r (t :: ts)) = [v] ∧
    v ∈ ts ∧ start ≤ wall v < start + Minute.
Proof.
  intros Hr Hp Hok Hsp start Hlt Hex.
  destruct (new_daily _ _ _ _ Hr) as (m' & Hp' & Hf & Hl & Htod); [by intros E; rewrite E in Hp|].
  rewrite Hp in Hp'. injection Hp' as <-.
  destruct (spaced_hit _ _ _ _ Hsp Hlt Hex) as (u & Hu & Hut).
  destruct (local_in_minute off n _ (wall u) (Z.mod_pos_bound _ 1440 eq_refl) Hut) as [Hd Hmin].
  destruct (daily_fires (λ _, off) r (t :: ts)) as (H1 & H2 & H3); [lia|done..| |].
  { apply spaced_sorted in Hsp. induction Hsp as [|a l _ IH Ha]; constructor.
    - apply IH. by apply Forall_cons in Hok as [_ Hok].
    - eapply Forall_impl; [exact Ha|]. intros b Hb. by apply local_day_mono. }
  destruct (H3 u) as (v & Hv & Hvd); [by rewrite elem_of_cons; right| |].
  { unfold at_minute, format_hm. by rewrite Hmin. }
  exists v. split; [by apply nodup_fmap_filter; [| |rewrite Hvd]|].
  assert (start ≤ wall v < start + Minute) as Hin.
  { eapply fires_in_minute; [|done|by apply Z.mod_pos_bound|done|by rewrite Hvd]. lia. }
  split; [|done]. destruct (H2 v Hv) as [[->|?]%elem_of_cons _]; [lia|done].
Qed.

(** With any heartbeat of more than a minute a daily responsibility can miss its
    day: two successive ticks may span its minute, and it does not fire on that date. *)
Theorem long_heartbeat_misses off now c jitter r gap n m mono0 :
  NewResponsibility now c (jitter * Minute) = Ok r → parse_minute (TimeSetting c) = Some (m, "") →
  Minute < gap →
  let start := minute_start off n ((m + jitter) mod 1440) in
  ∃ t, wall t < start ∧ start ≤ wall (Add t gap) ∧ mono t = mono0 ∧
       List.filter (λ u, day (λ _, off) u =? n) (fires (λ _, off) r [t; Add t gap]) = [].
Proof.
  intros Hr Hp Hgap start.
  destruct (new_daily _ _ _ _ Hr) as (m' & Hp' & Hf & Hl & Htod); [by intros E; rewrite E in Hp|].
  rewrite Hp in Hp'. injection Hp' as <-. pose proof (Z.mod_pos_bound (m + jitter) 1440 eq_refl) as Hm.
  set (m1 := (m + jitter) mod 1440) in *. exists (mkTime (start - 1) mono0).
  split; [simpl; lia|]. split; [simpl; unfold Minute, Second in *; lia|]. split; [done|].
  set (t := mkTime (start - 1) mono0).
  assert (∀ u, u ∈ fires (λ _, off) r [t; Add t gap] → day (λ _, off) u ≠ n) as Hno.
  { intros u Hu Hd. pose proof (fires_sub _ _ _ _ Hu) as Hin.
    assert (start ≤ wall u < start + Minute) as Hb by (eapply fires_in_minute; [|done|done|done|done]; lia).
    rewrite !elem_of_cons in Hin. destruct Hin as [->|[->|[]%not_elem_of_nil]]; simpl in Hb; lia. }
  induction (fires _ _ _) as [|u us IH]; [done|]. simpl. rewrite (proj2 (Z.eqb_neq _ _)); [|apply Hno; left].
  apply IH. intros v Hv. apply Hno. by right.
Qed.

Import Loop.

(** ** The next run reported *)

Lemma from_local_const off secs : from_local (λ _, off) secs = (secs - off) * Second.
Proof. unfold from_local. destruct (Z.eqb_spec off 0) as [->|]; [f_equal; lia|done]. Qed.

(** For a daily responsibility the reported next run is the first start of its
    minute after now, and at most a day away (in a zone of constant offset). *)
Theorem next_run_exact off now c jitter r t m :
  NewResponsibility now c (jitter * Minute) = Ok r → parse_minute (TimeSetting c) = Some (m, "") →
  day_ok (local_day (λ _, off) (wall t)) →
  ∃ n next, NextRunAt (λ _, off) t r = Some next ∧ next = minute_start off n ((m + jitter) mod 1440) ∧
    wall t < next ≤ wall t + 24 * Hour ∧
    minute_start off (n - 1) ((m + jitter) mod 1440) ≤ wall t.
Proof.
  intros Hr Hp Hok. destruct (new_daily _ _ _ _ Hr) as (m' & Hp' & Hf & _ & Htod); [by intros E; rewrite E in Hp|].
  rewrite Hp in Hp'. injection Hp' as <-. pose proof (Z.mod_pos_bound (m + jitter) 1440 eq_refl) as Hm.
  set (m1 := (m + jitter) mod 1440) in *. clearbody m1. set (d := local_day (λ _, off) (wall t)) in *.
  assert ((d * 86400 - off) * Second ≤ wall t < ((d + 1) * 86400 - off) * Second) as Hd.
  { unfold d, local_day, local_secs. pose proof (Z.div_mod (wall t) Second). pose proof (Z.mod_pos_bound (wall t) Second).
    set (s := wall t / Second) in *. clearbody s.
    pose proof (Z.div_mod (s + off) 86400). pose proof (Z.mod_pos_bound (s + off) 86400). unfold Second in *. lia. }
  unfold NextRunAt. rewrite Hf, Htod. cbn [Z.ltb Z.compare]. unfold format_date. fold d.
  rewrite parse_date_hm_format by done. cbn [mbind option_bind]. rewrite from_local_const.
  change ((d * 86400 + m1 * 60 - off) * Second) with (minute_start off d m1).
  assert (minute_start off d m1 + 24 * Hour = minute_start off (d + 1) m1) as Hnext
    by (unfold minute_start, Hour, Minute; lia).
  assert (minute_start off (d - 1) m1 + 24 * Hour = minute_start off d m1) as Hprev
    by (unfold minute_start, Hour, Minute; lia).
  assert (wall t - 24 * Hour < minute_start off d m1 ≤ wall t + 24 * Hour) as Hr'.
  { unfold minute_start, Hour, Minute, Second in *. lia. }
  destruct (Z.ltb_spec (wall t) (minute_start off d m1)) as [Hlt|Hge].
  - exists d, (minute_start off d m1). split; [done|]. split; [done|]. split; [lia|].
    unfold minute_start, Hour, Minute, Second in *. lia.
  - exists (d + 1), (minute_start off (d + 1) m1). rewrite Hnext. replace (d + 1 - 1) with d by lia.
    split; [done|]. split; [done|]. split; [lia|done].
Qed.

Section Runs.
Context `{!RawJson, !Json RunState, !Json (list Incidents.Incident), !Json notification, !MemStore M}.
Context (zone : Z → Z).

Definition with_client (e : env) complete' : env :=
  mkEnv (M := M) (settings e) (ResponsibilitySystemPrompt e) (registry e) (preChecks e) complete'.

(** A pre-check that finds nothing to escalate keeps the model out of the run:
    whatever the model would do, the run consists of recording the report as a
    success and notifying; and a pre-check that fails does not suppress the run. *)
Theorem clean_check_skips_model (e : env) r (pc : PreCheck (M := M)) report w w1 :
  preChecks e !! Name (cfg r) = Some pc →
  (pc w = ((false, report, None), w1) →
     ∀ complete', execute (with_client e complete') r w =
       (persistRunState r report None ≫= λ _, maybeNotify r report None) w1) ∧
  (∀ b err, pc w = ((b, report, Some err), w1) →
     execute e r w = execute (mkEnv (settings e) (ResponsibilitySystemPrompt e) (registry e) ∅ (complete e)) r w1).
Proof.
  intros Hpc. split.
  - intros Hr complete'. unfold execute, pre_check, with_client. cbn [preChecks]. unfold PreCheck, W in *. rewrite Hpc.
    unfold mbind, W_bind, mret, W_ret. rewrite Hr. done.
  - intros b err Hr. unfold execute, pre_check. cbn [preChecks]. unfold PreCheck, W in *. rewrite Hpc, lookup_empty.
    unfold mbind, W_bind, mret, W_ret. rewrite Hr. done.
Qed.

Lemma shorten_len s : (String.length (shorten s) ≤ 303)%nat.
Proof.
  unfold shorten, maxSummaryLen. destruct (Nat.ltb_spec 300 (String.length s)) as [H'|H']; [|lia].
  rewrite length_append, length_take_bytes. change (String.length "...") with 3%nat. lia.
Qed.

Lemma run_summary_len res err : (String.length (run_summary res err) ≤ 303)%nat.
Proof.
  unfold run_summary. destruct err as [e|]; [|apply shorten_len].
  destruct (String.eqb (shorten res) ""); apply shorten_len.
Qed.

Lemma build_item_state now r attrs raw st :
  attrs !! (AttrRunPrefix +:+ Name (cfg r)) = Some raw → Unmarshal raw zero = (st, true) →
  let i := buildItem zone now r attrs in
  i_lastRunAt i = Some (LastRunAt st) ∧ i_status i = (if Running r then "running" else RunStatus st) ∧
  i_summary i = RunSummary st.
Proof. intros Ha Hu. unfold buildItem. rewrite Ha, Hu. done. Qed.

Lemma handle_run now rs w :
  handle zone now "GET" rs w = (Some ((λ r, buildItem zone now r (keys_of SkillState.Domain (w_mem w))) <$> rs), w).
Proof.
  change (handle zone now "GET" rs w) with
    (let '(attrs, w') := all_keys SkillState.Domain w in (Some ((λ r, buildItem zone now r attrs) <$> rs), w')).
  by rewrite all_keys_run.
Qed.

(** The outcome of a run is what [GET /responsibilities] shows afterwards: the
    time, "ok" or "error" unless a run is in flight, and a summary of at most 303
    bytes; the other entries of the domain, skill states included, read as before. *)
Theorem outcome_reported `{!MemStoreLaws M, !RawTotal M, !JsonRoundtrip RunState, !JsonCompact RunState}
    r r' res err now w w' :
  persistRunState r res err w = (None, w') → cfg r' = cfg r →
  in64 (w_clock w (S (w_ticks w))) → 0 < w_clock w (S (w_ticks w)) →
  doc_past (w_clock w (S (w_ticks w))) SkillState.Domain (w_mem w) →
  (∃ item, handle zone now "GET" [r'] w' = (Some [item], w') ∧
    i_lastRunAt item = Some (format_at 0 (w_clock w (w_ticks w))) ∧
    i_status item = (if Running r' then "running" else match err with Some _ => "error" | None => "ok" end) ∧
    i_summary item = run_summary res err ∧ (String.length (i_summary item) ≤ 303)%nat) ∧
  (∀ U (JU : Json U) key, JsonCompact U → key ≠ AttrRunPrefix +:+ Name (cfg r) →
     key_value SkillState.Domain key (w_mem w') = (key_value SkillState.Domain key (w_mem w) : U * bool)).
Proof.
  unfold persistRunState, mbind at 1, W_bind at 1, now_ at 1. intros Hs Hc Hn Hp Hd.
  destruct (set_get_key _ _ _ _ _ Hs Hn Hp Hd) as [Hk Hne]. split; [|exact Hne].
  rewrite handle_run. eexists. split; [done|]. unfold key_value in Hk.
  destruct (keys_of SkillState.Domain (w_mem w') !! (AttrRunPrefix +:+ Name (cfg r))) as [raw|] eqn:Hraw.
  - rewrite <-Hc in Hraw. destruct (build_item_state now r' _ _ _ Hraw Hk) as (-> & -> & ->).
    split_and!; [done..|apply run_summary_len].
  - discriminate Hk.
Qed.

End Runs.
