(* ===== verification/LoopExamples.v ===== *)
(** * The loop theorems on a concrete agent *)

From S2P Require Import Prelude GoStrings GoTime Json Memory MemoryFacts MemStore Incidents MemoryExamples World KeyStore Agent Loop LoopFacts.

Import Loop.

Definition summary_cfg : ResponsibilitySettings := mkRS "daily summary" "" "07:00" "Summarise." ["ping"] "always".
Definition health_cfg : ResponsibilitySettings := mkRS "health" "15m" "" "Check." [] "on error".

(** 2026-07-24 06:59:00 in a zone seven hours behind. *)
Definition before_seven : Z := 1784901540 * Second.
Definition at_wall (t : Z) : Time := mkTime t (t - before_seven).
Definition start_up : Time := at_wall before_seven.

Definition built (c : ResponsibilitySettings) (jitter : Z) : Responsibility :=
  match NewResponsibility start_up c (jitter * Minute) with Ok r => r | Err _ => mkResp c false 0 no_time "" "" end.

Lemma built_summary : NewResponsibility start_up summary_cfg (0 * Minute) = Ok (built summary_cfg 0).
Proof. vm_compute. reflexivity. Qed.

Lemma no_overlap_witness :
  let s := on_tick pacific (Add start_up (30 * Minute)) (on_tick pacific start_up (mkState (New start_up 0 [health_cfg]) [])) in
  inflight s = [0%nat] ∧ NoDup (inflight s).
Proof.
  split; [vm_compute; reflexivity|].
  apply (no_overlap pacific start_up 0 [health_cfg]).
  eapply rtc_l; [apply step_tick|]. apply rtc_once. apply step_tick.
Defined.

Definition half_minutes : list Time := (λ k, at_wall (before_seven + k * 30 * Second)) <$> seqZ 0 12.

(** Sorted and in range, by evaluation. *)
Fixpoint ascending {A} (f : A → Z) (l : list A) : bool :=
  match l with
  | a :: l' => match l' with b :: _ => (f a <=? f b) && ascending f l' | [] => true end
  | [] => true
  end.

Lemma ascending_sorted {A} (f : A → Z) l : ascending f l = true → StronglySorted (λ t u, f t ≤ f u) l.
Proof.
  intros Ha. apply Sorted_StronglySorted; [intros ? ? ? ? ?; lia|].
  induction l as [|a l IH]; [constructor|]. destruct l as [|b l]; [repeat constructor|].
  simpl in Ha. apply andb_true_iff in Ha as [Hab Ha]. apply Z.leb_le in Hab. constructor; [by apply IH|by constructor].
Qed.

Definition day_okb (t : Time) : bool :=
  let y := (civil (day pacific t + unix_epoch)).1.1 in (0 <=? y) && (y <=? 9999).

Lemma days_ok l : forallb day_okb l = true → Forall (λ t, day_ok (day pacific t)) l.
Proof.
  rewrite forallb_forall. intros Hl. apply Forall_forall. intros t Ht%list_elem_of_In%Hl.
  unfold day_okb in Ht. by rewrite andb_true_iff, !Z.leb_le in Ht.
Qed.

Lemma frequency_witness :
  ∃ t', t' ∈ fires pacific (built health_cfg 1) half_minutes ∧
        mono (at_wall (before_seven + 90 * Second)) - 15 * Minute < mono t' ≤ mono (at_wall (before_seven + 90 * Second)).
Proof.
  apply (frequency_kept pacific (built health_cfg 1) half_minutes).
  - vm_compute. reflexivity.
  - apply ascending_sorted. vm_compute. reflexivity.
  - apply (bool_decide_unpack _). vm_compute. exact I.
  - vm_compute. discriminate.
Defined.

Lemma daily_once_witness : NoDup (day pacific <$> fires pacific (built summary_cfg 0) half_minutes).
Proof.
  apply (daily_once pacific start_up summary_cfg 0 _ half_minutes built_summary).
  - discriminate.
  - apply days_ok. vm_compute. reflexivity.
  - apply ascending_sorted. vm_compute. reflexivity.
Defined.

Lemma never_missed_witness :
  ∃ v, List.filter (λ u, day pacific u =? 20658) (fires pacific (built summary_cfg 0) half_minutes) = [v] ∧
    v ∈ tail half_minutes ∧ minute_start (-25200) 20658 420 ≤ wall v < minute_start (-25200) 20658 420 + Minute.
Proof.
  apply (daily_never_missed (-25200) start_up summary_cfg 0 (built summary_cfg 0) (at_wall before_seven)
           (tail half_minutes) 20658 420 built_summary).
  - vm_compute. reflexivity.
  - apply days_ok. vm_compute. reflexivity.
  - repeat (split; [split; vm_compute; discriminate|]). exact I.
  - vm_compute. reflexivity.
  - exists (at_wall (before_seven + 120 * Second)). split; [|vm_compute; discriminate].
    apply (bool_decide_unpack _). vm_compute. exact I.
Defined.

Lemma misses_witness :
  ∃ t, wall t < minute_start (-25200) 20658 420 ∧ minute_start (-25200) 20658 420 ≤ wall (Add t (5 * Minute)) ∧
       List.filter (λ u, day pacific u =? 20658) (fires pacific (built summary_cfg 0) [t; Add t (5 * Minute)]) = [].
Proof.
  destruct (long_heartbeat_misses (-25200) start_up summary_cfg 0 (built summary_cfg 0) (5 * Minute) 20658 420 0
              built_summary) as (t & H1 & H2 & _ & H3); [vm_compute; reflexivity..|].
  exists t. exact (conj H1 (conj H2 H3)).
Defined.

Lemma next_run_witness :
  ∃ n next, NextRunAt pacific start_up (built summary_cfg 0) = Some next ∧ next = minute_start (-25200) n 420.
Proof.
  destruct (next_run_exact (-25200) start_up summary_cfg 0 (built summary_cfg 0) start_up 420 built_summary)
    as (n & next & H1 & H2 & _).
  - vm_compute. reflexivity.
  - vm_compute. split; discriminate.
  - exists n, next. exact (conj H1 H2).
Defined.

(** ** Runs *)

#[local] Instance run_state_eq_dec : EqDecision RunState.
Proof. solve_decision. Defined.
#[local] Instance run_state_countable : Countable RunState.
Proof.
  apply (inj_countable' (λ s, (LastRunAt s, RunStatus s, RunSummary s)) (λ '(a, b, c), mkRun a b c)). by intros [].
Defined.
#[local] Instance note_eq_dec : EqDecision notification.
Proof. solve_decision. Defined.
#[local] Instance note_countable : Countable notification.
Proof.
  apply (inj_countable' (λ n, (Subject n, Body n, NoteTime n)) (λ '(a, b, c), mkNote a b c)). by intros [].
Defined.

#[local] Existing Instance CountableJson.raw_json.
#[local] Existing Instance CountableJson.raw_json_roundtrip.
#[local] Existing Instance MemoryExamples.json_ledger.
#[local] Instance json_run : Json RunState := CountableJson.json (mkRun "" "" "").
#[local] Instance json_run_roundtrip : JsonRoundtrip RunState := CountableJson.json_roundtrip _.
#[local] Instance json_run_compact : JsonCompact RunState := CountableJson.json_compact _.
#[local] Instance json_note : Json notification := CountableJson.json (mkNote "" "" 0).
#[local] Instance demo_mem : MemStore Store.Store := store_mem false None false.
#[local] Instance demo_laws : MemStoreLaws Store.Store := store_mem_laws false None false.
#[local] Instance demo_total : RawTotal Store.Store := store_raw_total false None false.

Definition demo_world : world Store.Store :=
  mkWorld fresh_mem (λ n, t0 + Z.of_nat n) 0 (λ n, Itoa (Z.of_nat n)) 0 [] (λ _ _, ("", None)) [].

(** A pre-check that reports a healthy host, and a model that must not be asked. *)
Definition healthy : PreCheck (M := Store.Store) := mret (false, "all green", None).
Definition demo_env : env (M := Store.Store) :=
  mkEnv (Agent.mkSettings "m" 4096 1024 5 "" "" "host") "prompt" [] {[ "health" := healthy ]}
    (λ _ w, (Err "unreachable", w)).

Lemma demo_healthy : preChecks demo_env !! Name (cfg (built health_cfg 0)) = Some healthy.
Proof. reflexivity. Qed.

Lemma clean_check_witness :
  execute (with_client demo_env (complete demo_env)) (built health_cfg 0) demo_world =
  (persistRunState (built health_cfg 0) "all green" None ≫= λ _, maybeNotify (built health_cfg 0) "all green" None) demo_world.
Proof.
  exact (proj1 (clean_check_skips_model demo_env (built health_cfg 0) healthy "all green" demo_world demo_world demo_healthy)
           eq_refl (complete demo_env)).
Defined.

Lemma outcome_witness :
  ∃ w' item, persistRunState (built health_cfg 0) "" (Some "agent: empty response from API") demo_world = (None, w') ∧
    handle pacific start_up "GET" [built health_cfg 0] w' = (Some [item], w') ∧ i_status item = "error".
Proof.
  destruct (persistRunState (built health_cfg 0) "" (Some "agent: empty response from API") demo_world) as [e w'] eqn:Hs.
  assert (e = None) as -> by (change e with (e, w').1; rewrite <-Hs; vm_compute; reflexivity).
  destruct (outcome_reported pacific (built health_cfg 0) (built health_cfg 0) "" (Some "agent: empty response from API")
              start_up demo_world w' Hs eq_refl) as [(item & H1 & _ & H2 & _) _].
  - split; vm_compute; discriminate.
  - vm_compute. reflexivity.
  - apply fresh_past.
  - exists w', item. exact (conj eq_refl (conj H1 H2)).
Defined.
