(* ===== verification/History.v ===== *)
(** * Histories of openings and closings, and the alerts of the background monitors

    The connection and the login monitor both keep a capped list of events and
    derive from it what is open now.  [Tracked] is what the derivation needs of an
    event; [active] is the loop of [ActiveConnections] and [ActiveSessions].

    The monitors escalate in the same three ways: the state of a skill, the
    incident ledger, and a notification.  Each of these writes one domain of the
    memory and nothing else, which is what keeps the monitors' histories apart. *)

From S2P Require Import Prelude GoStrings GoTime Json Memory MemStore Incidents World KeyStore.

Inductive kind := Opens | Closes | Other.

Class Tracked (E : Type) := { ev_key : E → string; ev_kind : E → kind }.

Section History.
Context `{!Tracked E}.

(** The variables [seen] and [order] of the loop. *)
Definition act_state : Type := gmap string (E * bool) * list string.

Definition active_step (st : act_state) (ev : E) : act_state :=
  let '(seen, order) := st in
  let k := ev_key ev in
  match ev_kind ev with
  | Opens => (<[k := (ev, false)]> seen, match seen !! k with Some _ => order | None => order ++ [k] end)
  | Closes => match seen !! k with
              | Some (e, _) => (<[k := (e, true)]> seen, order)
              | None => st
              end
  | Other => st
  end.

Definition active_entry (seen : gmap string (E * bool)) (k : string) : option E :=
  match seen !! k with Some (e, false) => Some e | _ => None end.

Definition active (history : list E) : list E :=
  let '(seen, order) := foldl active_step (∅, []) history in omap (active_entry seen) order.

(** The last [limit] entries. *)
Definition keep_last (limit : nat) (h : list E) : list E :=
  if (limit <? length h)%nat then drop (length h - limit) h else h.

(** The reference: the set of keys opened and not closed since. *)
Definition live_step (s : gset string) (ev : E) : gset string :=
  match ev_kind ev with
  | Opens => {[ev_key ev]} ∪ s
  | Closes => s ∖ {[ev_key ev]}
  | Other => s
  end.

Definition live (history : list E) : gset string := foldl live_step ∅ history.

(** ** The loop computes the reference *)

Record ActInv (st : act_state) (s : gset string) : Prop := {
  act_order : NoDup st.2;
  act_seen k : k ∈ st.2 ↔ is_Some (st.1 !! k);
  act_keys k e b : st.1 !! k = Some (e, b) → ev_key e = k;
  act_live k : k ∈ s ↔ ∃ e, st.1 !! k = Some (e, false);
}.

Lemma act_inv_step st s ev : ActInv st s → ActInv (active_step st ev) (live_step s ev).
Proof.
  destruct st as [seen order]. intros [Ho Hs Hk Hl]. cbn [fst snd] in *. unfold active_step, live_step.
  destruct (ev_kind ev); [| |done].
  - split; cbn [fst snd].
    + destruct (seen !! ev_key ev) eqn:E0; [done|]. apply NoDup_app. split; [done|]. split; [|apply NoDup_singleton].
      intros k Hin ->%list_elem_of_singleton. apply Hs in Hin as [? ?]. congruence.
    + intros k. destruct (decide (k = ev_key ev)) as [->|Hne].
      * rewrite lookup_insert_eq. destruct (seen !! ev_key ev) eqn:E0; [rewrite Hs, E0|rewrite elem_of_app, list_elem_of_singleton]; naive_solver.
      * rewrite lookup_insert_ne by done. destruct (seen !! ev_key ev); [apply Hs|].
        rewrite elem_of_app, list_elem_of_singleton, Hs. naive_solver.
    + intros k e b. destruct (decide (ev_key ev = k)) as [<-|Hne].
      * rewrite lookup_insert_eq. naive_solver.
      * rewrite lookup_insert_ne by done. apply Hk.
    + intros k. rewrite elem_of_union, elem_of_singleton, Hl. destruct (decide (k = ev_key ev)) as [->|Hne].
      * rewrite lookup_insert_eq. naive_solver.
      * rewrite lookup_insert_ne by done. naive_solver.
  - destruct (seen !! ev_key ev) as [[e0 b0]|] eqn:E0.
    + split; cbn [fst snd]; [done|..].
      * intros k. rewrite Hs. destruct (decide (k = ev_key ev)) as [->|Hne]; [rewrite lookup_insert_eq, E0|rewrite lookup_insert_ne by done]; naive_solver.
      * intros k e b. destruct (decide (ev_key ev = k)) as [<-|Hne]; [rewrite lookup_insert_eq|rewrite lookup_insert_ne by done]; naive_solver.
      * intros k. rewrite elem_of_difference, elem_of_singleton, Hl.
        destruct (decide (k = ev_key ev)) as [->|Hne]; [rewrite lookup_insert_eq|rewrite lookup_insert_ne by done]; naive_solver.
    + split; [done..|]. cbn [fst]. intros k. rewrite elem_of_difference, elem_of_singleton, Hl.
      split; [naive_solver|]. intros (e & He). split; [by exists e|]. intros ->. congruence.
Qed.

Lemma act_inv_fold h st s : ActInv st s → ActInv (foldl active_step st h) (foldl live_step s h).
Proof. revert st s. induction h as [|ev h IH]; intros st s HI; [done|]. simpl. by apply IH, act_inv_step. Qed.

Lemma act_inv_init : ActInv (∅, []) ∅.
Proof.
  split; cbn [fst snd].
  - constructor.
  - intros k. rewrite lookup_empty. split; [by intros ?%not_elem_of_nil|by intros [? ?]].
  - intros k e b. by rewrite lookup_empty.
  - intros k. rewrite lookup_empty. set_solver.
Qed.

(** What is reported active is exactly what is open, once each. *)
Lemma active_live h : NoDup (ev_key <$> active h) ∧ ∀ k, k ∈ ev_key <$> active h ↔ k ∈ live h.
Proof.
  unfold active, live. pose proof (act_inv_fold h _ _ act_inv_init) as HI.
  destruct (foldl active_step (∅, []) h) as [seen order]. destruct HI as [Ho Hs Hk Hl]. cbn [fst snd] in *.
  assert (∀ (l : list string) k, k ∈ ev_key <$> omap (active_entry seen) l ↔ k ∈ l ∧ ∃ e, seen !! k = Some (e, false)) as Hin.
  { intros l k. rewrite list_elem_of_fmap. setoid_rewrite list_elem_of_omap. unfold active_entry. split.
    - intros (e & -> & k' & Hin & He). destruct (seen !! k') as [[e' []]|] eqn:E0; simplify_eq.
      rewrite (Hk _ _ _ E0). eauto.
    - intros (Hin & e & He). exists e. split; [by rewrite (Hk _ _ _ He)|]. exists k. by rewrite He. }
  split.
  - clear Hs. induction Ho as [|k order Hn Ho IH]; [constructor|]. simpl. unfold active_entry at 1.
    destruct (seen !! k) as [[e []]|] eqn:E0; [done| |done]. simpl. constructor; [|done].
    rewrite (Hk _ _ _ E0), Hin. naive_solver.
  - intros k. rewrite Hin, Hl, Hs. split; [naive_solver|]. intros (e & He). split; [by rewrite He|by exists e].
Qed.

Lemma live_app h evs : live (h ++ evs) = foldl live_step (live h) evs.
Proof. apply foldl_app. Qed.

Definition keys_with (evs : list E) : gset string := list_to_set (ev_key <$> evs).

Lemma live_opens s evs : Forall (λ ev, ev_kind ev = Opens) evs → foldl live_step s evs = s ∪ keys_with evs.
Proof.
  unfold keys_with. intros HF. revert s. induction HF as [|ev evs Hk HF IH]; intros s; simpl; [set_solver|].
  rewrite IH. unfold live_step. rewrite Hk. set_solver.
Qed.

Lemma live_closes s evs : Forall (λ ev, ev_kind ev = Closes) evs → foldl live_step s evs = s ∖ keys_with evs.
Proof.
  unfold keys_with. intros HF. revert s. induction HF as [|ev evs Hk HF IH]; intros s; simpl; [set_solver|].
  rewrite IH. unfold live_step. rewrite Hk. set_solver.
Qed.

Lemma keep_last_length limit h : (length (keep_last limit h) ≤ limit)%nat.
Proof.
  unfold keep_last. destruct (Nat.ltb_spec limit (length h)); [|lia]. rewrite length_drop. lia.
Qed.

Lemma keep_last_short limit h : (length h ≤ limit)%nat → keep_last limit h = h.
Proof. intros Hl. unfold keep_last. by destruct (Nat.ltb_spec limit (length h)); [lia|]. Qed.

End History.

Section Alerts.
Context `{!RawJson, !Json SkillState.State, !Json (list Incidents.Incident), !Json notification, !MemStore M}.
Context (zone : Z → Z).

(** [incidents.Store.Report] in the world: its three readings of the clock. *)
Definition report_at (c : Incidents.clock) (fingerprint title detail severity : string) :
    W M (result Incidents.inc_error (Incidents.Incident * bool)) :=
  on_mem (λ m, let '(r, m') := Incidents.Report zone c fingerprint title detail severity (Some m) in
               (r, default m m')).

Definition report_incident (fingerprint title detail severity : string) :
    W M (result Incidents.inc_error (Incidents.Incident * bool)) :=
  t1 ← now_; t2 ← now_; t3 ← now_;
  report_at (Incidents.mkClock t1 t2 t3) fingerprint title detail severity.

(** A finding of a baseline check. *)
Record deviation := mkDev {
  reason : string;
  fingerprint : string;
  title : string;
  detail : string;
  severity : string;
}.

Definition critical : string := "critical".
Definition warning : string := "warning".

(** What the monitors do with a deviation: [body] is the text of the mail. *)
Definition escalate (skill : string) (d : deviation) (body : string) : W M unit :=
  _ ← SkillState.Save zone skill (severity d) (reason d +:+ ": " +:+ detail d);
  _ ← report_incident (fingerprint d) (title d) (detail d) (severity d);
  if String.eqb (severity d) critical then Notify ("[CRITICAL] " +:+ title d) body else mret tt.

(** ** Frames *)

Context `{!MemStoreLaws M}.

(** [w'] is a later world in which domain [name] and the attributes are as in [w]. *)
Record kept (name : string) (w w' : world M) : Prop := {
  kept_docs B (J : Json B) : ReadDoc name (w_mem w') = (ReadDoc name (w_mem w) : B * bool);
  kept_past t : doc_past t name (w_mem w) → doc_past t name (w_mem w');
  kept_attrs : AllAttrs (w_mem w') = AllAttrs (w_mem w);
  kept_clock : w_clock w' = w_clock w;
}.

Lemma kept_refl name w : kept name w w.
Proof. by split. Qed.

Lemma kept_trans name w1 w2 w3 : kept name w1 w2 → kept name w2 w3 → kept name w1 w3.
Proof.
  intros [D1 P1 A1 C1] [D2 P2 A2 C2]. split; [intros; by rewrite D2|intros; by apply P2, P1|congruence..].
Qed.

Definition keeps {A} (name : string) (c : W M A) : Prop := ∀ w, kept name w (c w).2.

Lemma keeps_bind {A B} name (c : W M A) (f : A → W M B) :
  keeps name c → (∀ a, keeps name (f a)) → keeps name (c ≫= f).
Proof.
  intros Hc Hf w. unfold mbind, W_bind. specialize (Hc w). destruct (c w) as [a w'] eqn:E. cbn [snd] in Hc.
  eapply kept_trans; [exact Hc|apply Hf].
Qed.

Lemma keeps_ret {A} name (a : A) : keeps name (mret a).
Proof. intros w. apply kept_refl. Qed.

Lemma keeps_now name : keeps name now_.
Proof. by intros w. Qed.

Lemma keeps_read {A} {J : Json A} name name' : keeps name (read_doc (A := A) name').
Proof. by intros w. Qed.

Lemma keeps_log name s b : keeps name (log_note s b).
Proof. by intros w. Qed.

Lemma keeps_mem {A} name (f : M → A * M) :
  (∀ m, (∀ B (J : Json B), ReadDoc name (f m).2 = (ReadDoc name m : B * bool)) ∧
        (∀ t, doc_past t name m → doc_past t name (f m).2) ∧ AllAttrs (f m).2 = AllAttrs m) →
  keeps name (on_mem f).
Proof.
  intros Hf w. specialize (Hf (w_mem w)). unfold on_mem. destruct (f (w_mem w)) as [a m]. cbn in *.
  destruct Hf as (H1 & H2 & H3). by split.
Qed.

Lemma keeps_write {A} {J : Json A} name name' (v : A) : name ≠ name' → keeps name (write_doc name' v).
Proof.
  intros Hne. apply keeps_bind; [apply keeps_now|]. intros t. apply keeps_mem. intros m.
  destruct (WriteDoc t name' v m) as [e m'] eqn:E. cbn [snd]. split_and!.
  - intros B JB. exact (write_frame _ _ B JB _ _ _ _ _ _ _ E Hne).
  - intros t'. exact (past_frame _ _ _ _ _ _ _ _ _ t' E Hne).
  - exact (write_attrs _ _ _ _ _ _ _ _ E).
Qed.

Lemma keeps_set_key {A} {J : Json A} name domain key (v : A) : name ≠ domain → keeps name (set_key domain key v).
Proof.
  intros Hne. unfold set_key. destruct (Marshal v); [|apply keeps_ret].
  apply keeps_bind; [apply keeps_read|]. intros [b ok]. by apply keeps_write.
Qed.

Lemma keeps_save name skill health summary : name ≠ SkillState.Domain → keeps name (SkillState.Save zone skill health summary).
Proof. intros Hne. apply keeps_bind; [apply keeps_now|]. intros t. by apply keeps_set_key. Qed.

Lemma keeps_notify name s b : name ≠ "notifications" → keeps name (Notify s b).
Proof.
  intros Hne. apply keeps_bind; [apply keeps_now|]. intros t.
  apply keeps_bind; [by apply keeps_write|]. intros _. apply keeps_log.
Qed.

Lemma keeps_report name f t d s : name ≠ Incidents.incidentsDomain → keeps name (report_incident f t d s).
Proof.
  intros Hne. do 3 (apply keeps_bind; [apply keeps_now|]; intros ?). apply keeps_mem. intros m.
  assert (∀ c lst, let '(_, _, m') := Incidents.save zone c lst m in
    (∀ B (J : Json B), ReadDoc name m' = (ReadDoc name m : B * bool)) ∧
    (∀ t, doc_past t name m → doc_past t name m') ∧ AllAttrs m' = AllAttrs m) as Hs.
  { intros c lst. unfold Incidents.save. destruct (WriteDoc _ _ _ m) as [e m'] eqn:E. split_and!.
    - intros B JB. exact (write_frame _ _ B JB _ _ _ _ _ _ _ E Hne).
    - intros t'. exact (past_frame _ _ _ _ _ _ _ _ _ t' E Hne).
    - exact (write_attrs _ _ _ _ _ _ _ _ E). }
  unfold Incidents.Report. destruct (String.eqb _ ""); [done|].
  destruct (Incidents.find _ _) as [[i old]|];
    (match goal with |- context [Incidents.save zone ?c ?l m] =>
       specialize (Hs c l); destruct (Incidents.save zone c l m) as [[[e|] arr] m'] end); exact Hs.
Qed.

Lemma keeps_escalate name skill d body :
  name ≠ SkillState.Domain → name ≠ Incidents.incidentsDomain → name ≠ "notifications" → keeps name (escalate skill d body).
Proof.
  intros H1 H2 H3. apply keeps_bind; [by apply keeps_save|]. intros _.
  apply keeps_bind; [by apply keeps_report|]. intros _.
  destruct (String.eqb _ critical); [by apply keeps_notify|apply keeps_ret].
Qed.

End Alerts.
