(* ===== verification/ConnMonitor.v ===== *)
(** * The connection monitor ([connmonitor])

    [PollOnce] samples the connections of the host, records what opened and closed
    since the last poll in the key "connection_history" of the domain "Network", and
    compares each new connection with that history.  The iteration order of a Go map
    is the parameter [range].  [Linux], [Darwin] and [Windows] are the parsers of the
    platforms' commands; [run] is the polling loop. *)

From S2P Require Import Prelude GoStrings GoTime GoText GoDuration Json Memory MemStore Incidents World KeyStore History.

Module ConnMonitor.

Definition networkDomain : string := "Network".
Definition historyKey : string := "connection_history".
Definition defaultPollInterval : Z := 10 * Second.
Definition defaultHistoryLimit : Z := 2000.
Definition ephemeralPortFloor : Z := 32768.

Definition EventExisting : string := "existing".
Definition EventOpen : string := "open".
Definition EventClose : string := "close".

Definition DirectionInbound : string := "inbound".
Definition DirectionOutbound : string := "outbound".
Definition DirectionUnknown : string := "unknown".

Record Conn := mkConn {
  c_Proto : string;
  c_LocalAddr : string;
  c_LocalPort : Z;
  c_RemoteAddr : string;
  c_RemotePort : Z;
  c_State : string;
  c_PID : string;
  c_Process : string;
}.

Record ConnEvent := mkEvent {
  EventType : string;
  Direction : string;
  Proto : string;
  LocalAddr : string;
  LocalPort : Z;
  RemoteAddr : string;
  RemotePort : Z;
  State : string;
  PID : string;
  Process : string;
  Timestamp : Z;
  Unusual : bool;
  UnusualReason : string;
}.

#[export] Instance conn_eq_dec : EqDecision Conn.
Proof. solve_decision. Defined.
#[export] Instance event_eq_dec : EqDecision ConnEvent.
Proof. solve_decision. Defined.

Definition identity (proto laddr : string) (lport : Z) (raddr : string) (rport : Z) : string :=
  proto +:+ "|" +:+ laddr +:+ ":" +:+ Itoa lport +:+ "|" +:+ raddr +:+ ":" +:+ Itoa rport.

Definition Key (c : Conn) : string :=
  identity (c_Proto c) (c_LocalAddr c) (c_LocalPort c) (c_RemoteAddr c) (c_RemotePort c).

Definition connEventKey (ev : ConnEvent) : string :=
  identity (Proto ev) (LocalAddr ev) (LocalPort ev) (RemoteAddr ev) (RemotePort ev).

Definition direction (c : Conn) : string :=
  if c_LocalPort c <=? 0 then DirectionUnknown
  else if ephemeralPortFloor <=? c_LocalPort c then DirectionOutbound
  else DirectionInbound.

Definition newEvent (c : Conn) (t : string) (now : Z) : ConnEvent :=
  mkEvent t (direction c) (c_Proto c) (c_LocalAddr c) (c_LocalPort c) (c_RemoteAddr c) (c_RemotePort c)
    (c_State c) (c_PID c) (c_Process c) now false "".

Definition ExistingEvents (conns : list Conn) (at_ : Z) : list ConnEvent :=
  (λ c, newEvent c EventExisting at_) <$> conns.

(** The [switch] of [ActiveConnections]. *)
Definition event_kind (ev : ConnEvent) : kind :=
  if String.eqb (EventType ev) EventOpen || String.eqb (EventType ev) EventExisting then Opens
  else if String.eqb (EventType ev) EventClose then Closes
  else Other.

#[export] Instance conn_tracked : Tracked ConnEvent := {| ev_key := connEventKey; ev_kind := event_kind |}.

Definition ActiveConnections (history : list ConnEvent) : list ConnEvent := active history.

(** [cur] of [PollOnce]: a later connection of the same key replaces an earlier. *)
Definition by_key (conns : list Conn) : gmap string Conn := foldl (λ m c, <[Key c := c]> m) ∅ conns.

(** ** The monitor *)

Record settings := mkSettings {
  PollInterval : string;
  HistoryLimit : Z;
  DisableUnusualConnectionBaseline : bool;
  OwnPort : Z;
}.

Record Monitor := mkMonitor {
  pollInterval : Z;
  historyLimit : Z;
  cfg : settings;
  prev : gmap string Conn;
  bootstrapped : bool;
}.

Definition NewWithGatherer (c : settings) : Monitor :=
  let interval := match ParseDuration (PollInterval c) with
                  | Some d => if 0 <? d then d else defaultPollInterval
                  | None => defaultPollInterval
                  end in
  let limit := if HistoryLimit c <=? 0 then defaultHistoryLimit else HistoryLimit c in
  mkMonitor interval limit c ∅ false.

Definition port_less (a b : ConnEvent) : bool := LocalPort a <? LocalPort b.

Section Range.
Context (range : gmap string Conn → list (string * Conn)).

(** The entries of [a] whose key is not in [b], as events. *)
Definition missing_in (a b : gmap string Conn) (t : string) (now : Z) : list ConnEvent :=
  omap (λ kc, match b !! kc.1 with Some _ => None | None => Some (newEvent kc.2 t now) end) (range a).

Definition Diff (prev cur : gmap string Conn) (now : Z) : list ConnEvent * list ConnEvent :=
  (SliceStable port_less (missing_in cur prev EventOpen now),
   SliceStable port_less (missing_in prev cur EventClose now)).

(** ** The baseline *)

Definition processSuffix (ev : ConnEvent) : string :=
  if String.eqb (Process ev) "" then "" else " (" +:+ Process ev +:+ ")".

Definition processLabel (ev : ConnEvent) : string :=
  if negb (String.eqb (Process ev) "") then Process ev
  else if negb (String.eqb (PID ev) "") then "pid " +:+ PID ev
  else "unknown".

Definition is_open (h : ConnEvent) : bool :=
  String.eqb (EventType h) EventOpen || String.eqb (EventType h) EventExisting.

Definition port_key (h : ConnEvent) : string := Proto h +:+ ":" +:+ Itoa (LocalPort h).

(** The three sets of the loop over [prior]. *)
Definition knownInboundPorts (prior : list ConnEvent) (k : string) : bool :=
  existsb (λ h, is_open h && String.eqb (Direction h) DirectionInbound && String.eqb (port_key h) k) prior.
Definition knownRemoteHosts (prior : list ConnEvent) (addr : string) : bool :=
  existsb (λ h, is_open h && String.eqb (Direction h) DirectionOutbound &&
                negb (String.eqb (RemoteAddr h) "") && String.eqb (RemoteAddr h) addr) prior.
Definition knownProcesses (prior : list ConnEvent) (p : string) : bool :=
  existsb (λ h, is_open h && negb (String.eqb (Process h) "") && String.eqb (Process h) p) prior.

Definition newport (ev : ConnEvent) : deviation :=
  mkDev "new_inbound_port" ("unusual-conn-newport-" +:+ Proto ev +:+ "-" +:+ Itoa (LocalPort ev))
    ("new inbound port: " +:+ Proto ev +:+ "/" +:+ Itoa (LocalPort ev))
    ("A connection arrived on " +:+ Proto ev +:+ " port " +:+ Itoa (LocalPort ev) +:+
     ", which has never accepted inbound traffic on this host before (from " +:+ RemoteAddr ev +:+ processSuffix ev +:+ ").")
    critical.

Definition newprocess (ev : ConnEvent) : deviation :=
  mkDev "new_process" ("unusual-conn-newprocess-" +:+ Process ev)
    ("new process on the network: " +:+ Quote (Process ev))
    ("Process " +:+ Quote (Process ev) +:+ " made a network connection for the first time in recorded history (" +:+
     Proto ev +:+ " " +:+ LocalAddr ev +:+ ":" +:+ Itoa (LocalPort ev) +:+ " -> " +:+
     RemoteAddr ev +:+ ":" +:+ Itoa (RemotePort ev) +:+ ").")
    critical.

Definition newremote (ev : ConnEvent) : deviation :=
  mkDev "new_remote_host" ("unusual-conn-newremote-" +:+ RemoteAddr ev)
    ("outbound connection to a new remote host: " +:+ RemoteAddr ev)
    ("An outbound connection was opened to " +:+ RemoteAddr ev +:+ ":" +:+ Itoa (RemotePort ev) +:+
     ", which has never been seen in this host's connection history before" +:+ processSuffix ev +:+ ".")
    warning.

(** The [switch]: [None] for the two cases that return. *)
Definition deviates (c : settings) (prior : list ConnEvent) (ev : ConnEvent) : option deviation :=
  if String.eqb (Direction ev) DirectionInbound && (LocalPort ev =? OwnPort c) then None
  else if String.eqb (Direction ev) DirectionInbound && negb (knownInboundPorts prior (port_key ev)) then Some (newport ev)
  else if negb (String.eqb (Process ev) "") && negb (knownProcesses prior (Process ev)) then Some (newprocess ev)
  else if String.eqb (Direction ev) DirectionOutbound && negb (String.eqb (RemoteAddr ev) "") &&
          negb (knownRemoteHosts prior (RemoteAddr ev)) then Some (newremote ev)
  else None.

Definition mark (ev : ConnEvent) (r : string) : ConnEvent :=
  mkEvent (EventType ev) (Direction ev) (Proto ev) (LocalAddr ev) (LocalPort ev) (RemoteAddr ev) (RemotePort ev)
    (State ev) (PID ev) (Process ev) (Timestamp ev) true r.

Definition mail_body (ev : ConnEvent) (d : deviation) : string :=
  detail d +:+ para +:+ "Protocol: " +:+ Proto ev +:+ nl +:+
  "Local:    " +:+ LocalAddr ev +:+ ":" +:+ Itoa (LocalPort ev) +:+ nl +:+
  "Remote:   " +:+ RemoteAddr ev +:+ ":" +:+ Itoa (RemotePort ev) +:+ nl +:+
  "Process:  " +:+ processLabel ev +:+ nl +:+
  "Time:     " +:+ format_rfc1123_utc (Timestamp ev).

Section Poll.
Context `{!RawJson, !Json (list ConnEvent), !Json SkillState.State, !Json (list Incidents.Incident), !Json notification, !MemStore M}.
Context (zone : Z → Z).

(** The event as it is recorded. *)
Definition checkAgainstBaseline (c : settings) (prior : list ConnEvent) (ev : ConnEvent) : W M ConnEvent :=
  if DisableUnusualConnectionBaseline c then mret ev
  else
    match deviates c prior ev with
    | None => mret ev
    | Some d =>
        let ev := mark ev (reason d) in
        _ ← escalate zone "check_network_connections" d (mail_body ev d);
        mret ev
    end.

Definition ReadHistory : W M (list ConnEvent) :=
  '(h, ok) ← get_key (V := list ConnEvent) networkDomain historyKey;
  mret (if ok : bool then h else []).

(** The error of the write, which is only logged. *)
Definition appendEvents (m : Monitor) (events : list ConnEvent) : W M (option mem_error) :=
  match events with
  | [] => mret None
  | _ =>
      history ← ReadHistory;
      set_key networkDomain historyKey (keep_last (Z.to_nat (historyLimit m)) (history ++ events))
  end.

Fixpoint check_all (c : settings) (prior : list ConnEvent) (evs : list ConnEvent) : W M (list ConnEvent) :=
  match evs with
  | [] => mret []
  | ev :: evs =>
      ev ← checkAgainstBaseline c prior ev; evs ← check_all c prior evs; mret (ev :: evs)
  end.

(** The events of a poll. *)
Definition poll_events (m : Monitor) (cur : gmap string Conn) (now : Z) : W M (list ConnEvent) :=
  if negb (bootstrapped m) then mret ((λ kc, newEvent kc.2 EventExisting now) <$> range cur)
  else
    let '(opened, closed) := Diff (prev m) cur now in
    match opened with
    | [] => mret closed
    | _ =>
        prior ← ReadHistory;
        opened ← check_all (cfg m) prior opened;
        mret (opened ++ closed)
    end.

(** [PollOnce], given what [gather] returned ([None]: its error): the events it
    returns, the error it logs, and the monitor afterwards. *)
Definition PollOnce (gathered : option (list Conn)) (m : Monitor) :
    W M (option (list ConnEvent) * option mem_error * Monitor) :=
  match gathered with
  | None => mret (None, None, m)
  | Some conns =>
      let cur := by_key conns in
      now ← now_;
      events ← poll_events m cur now;
      logged ← appendEvents m events;
      mret (Some events, logged, mkMonitor (pollInterval m) (historyLimit m) (cfg m) cur true)
  end.

(** [pollAndLog]: a failed poll leaves the monitor as it was. *)
Definition pollAndLog (gathered : option (list Conn)) (m : Monitor) : W M Monitor :=
  '(_, _, m) ← PollOnce gathered m; mret m.

(** What [run] receives: a tick with what the gatherer then returns, or the end. *)
Inductive tick := Ticked (gathered : option (list Conn)) | Cancelled.

Fixpoint ticking (ticks : list tick) (m : Monitor) : W M Monitor :=
  match ticks with
  | Ticked g :: rest => m ← pollAndLog g m; ticking rest m
  | _ => mret m
  end.

(** [run]: a poll at once, then one with every tick. *)
Definition run (first : option (list Conn)) (ticks : list tick) (m : Monitor) : W M Monitor :=
  m ← pollAndLog first m; ticking ticks m.

End Poll.
End Range.

(** ** Reading the platforms' listings *)

Definition splitHostPort (s : string) : string * Z :=
  match LastCut ":" s with
  | None => (s, 0)
  | Some (host, port) => (Trim host "[]", (Atoi port).1)
  end.

Module Linux.

Definition quote_char : ascii := "034".

(** [ssProcRe] at the start of [s]: the process name and the pid. *)
Definition ssProc_at (s : string) : option (string * string) :=
  s ← CutPrefix ("users:((" +:+ String quote_char "") s;
  let '(name, s) := span (λ c, negb (Ascii.eqb c quote_char)) s in
  s ← CutPrefix (String quote_char ",pid=") s;
  let '(pid, _) := span (λ c, bool_decide (is_Some (digit c))) s in
  if String.eqb name "" || String.eqb pid "" then None else Some (name, pid).

Definition ssProc : string → option (string * string) := leftmost ssProc_at.

Definition parse_ss_line (line : string) : option Conn :=
  let line := TrimSpace line in
  match Fields line with
  | f0 :: state :: _ :: _ :: local :: peer :: _ =>
      let proto := ToLower f0 in
      if negb (String.eqb proto "tcp") && negb (String.eqb proto "udp") then None
      else if HasSuffix peer ":*" then None
      else
        let '(localAddr, localPort) := splitHostPort local in
        let '(remoteAddr, remotePort) := splitHostPort peer in
        let '(proc, pid) := default ("", "") (ssProc line) in
        Some (mkConn proto localAddr localPort remoteAddr remotePort state pid proc)
  | _ => None
  end.

Definition parseSS (out : string) : list Conn := omap parse_ss_line (Lines out).

End Linux.

Module Darwin.

Definition parse_lsof_line (line : string) : option Conn :=
  match Fields line with
  | f0 :: pid :: _ :: _ :: _ :: _ :: _ :: f7 :: name :: rest =>
      if String.eqb f0 "COMMAND" then None
      else
        let proto := ToLower f7 in
        if negb (String.eqb proto "tcp") && negb (String.eqb proto "udp") then None
        else
          '(l, r) ← Cut "->" name;
          let '(localAddr, localPort) := splitHostPort l in
          let '(remoteAddr, remotePort) := splitHostPort r in
          let state := match rest with f9 :: _ => Trim f9 "()" | [] => "" end in
          Some (mkConn proto localAddr localPort remoteAddr remotePort state pid f0)
  | _ => None
  end.

Definition parseLsofConns (out : string) : list Conn := omap parse_lsof_line (Lines out).

End Darwin.

Module Windows.

Definition parse_netstat_line (names : gmap string string) (line : string) : option Conn :=
  match Fields line with
  | f0 :: local :: remote :: state :: pid :: _ =>
      if negb (EqualFold f0 "TCP") then None
      else if EqualFold state "LISTENING" then None
      else
        let '(localAddr, localPort) := splitHostPort local in
        let '(remoteAddr, remotePort) := splitHostPort remote in
        Some (mkConn "tcp" localAddr localPort remoteAddr remotePort state pid (default "" (names !! pid)))
  | _ => None
  end.

Definition parseNetstatConns (out : string) (names : gmap string string) : list Conn :=
  omap (parse_netstat_line names) (Lines out).

Definition csv_sep : string := String "034" (String "," (String "034" "")).

(** One line of [tasklist /fo csv /nh]. *)
Definition pid_step (names : gmap string string) (line : string) : gmap string string :=
  match Split line csv_sep with
  | p0 :: p1 :: _ =>
      if (Atoi p1).2 then <[p1 := TrimPrefix p0 (String "034" "")]> names else names
  | _ => names
  end.

(** [pidNames], given what the command printed ([None]: it failed). *)
Definition pidNames (out : option string) : gmap string string :=
  match out with None => ∅ | Some out => foldl pid_step ∅ (Lines out) end.

End Windows.

Section Snapshot.
Context `{!MemStore M}.

(** [runCmd]: the output, or [None] when the command failed. *)
Definition runCmd (argv : list string) : W M (option string) :=
  '(out, err) ← run_process argv; mret (match err with Some _ => None | None => Some out end).

Definition snapshot_linux : W M (option (list Conn)) :=
  out ← runCmd ["ss"; "-tunapH"];
  match out with
  | Some out => mret (Some (Linux.parseSS out))
  | None => out ← runCmd ["ss"; "-tunaH"]; mret (Linux.parseSS <$> out)
  end.

Definition snapshot_darwin : W M (option (list Conn)) :=
  out ← runCmd ["lsof"; "-nP"; "-iTCP"; "-iUDP"]; mret (Darwin.parseLsofConns <$> out).

Definition snapshot_windows : W M (option (list Conn)) :=
  out ← runCmd ["netstat"; "-ano"];
  match out with
  | None => mret None
  | Some out =>
      names ← runCmd ["tasklist"; "/fo"; "csv"; "/nh"];
      mret (Some (Windows.parseNetstatConns out (Windows.pidNames names)))
  end.

End Snapshot.

Example ss_line :
  Linux.parseSS ("tcp ESTAB 0 0 192.168.1.5:22 [fe80::1]:54321 users:((" +:+ String "034" ("sshd" +:+ String "034" ",pid=1234,fd=4))")) =
  [mkConn "tcp" "192.168.1.5" 22 "fe80::1" 54321 "ESTAB" "1234" "sshd"].
Proof. vm_compute. reflexivity. Qed.

Example lsof_line :
  Darwin.parseLsofConns "sshd 812 root 3u IPv4 0x0 0t0 TCP 192.168.1.5:22->192.168.1.10:54321 (ESTABLISHED)" =
  [mkConn "tcp" "192.168.1.5" 22 "192.168.1.10" 54321 "ESTABLISHED" "812" "sshd"].
Proof. vm_compute. reflexivity. Qed.

End ConnMonitor.
