(* ===== verification/ConnFacts.v ===== *)
(** * The connection history tracks the host's connections

    After a poll the active connections derived from the history are those the host
    has, as long as the history is not truncated; after a restart of the agent they
    are those and every connection that closed while it was down. *)

From S2P Require Import Prelude GoStrings GoTime GoText Json Memory MemStore Incidents World KeyStore History ConnMonitor.

Import ConnMonitor.

Lemma move_set (a b g : gset string) : g ## a → (a ∪ g ∪ (b ∖ a)) ∖ (a ∖ b) = b ∪ (g ∖ b).
Proof. intros Hg. apply set_eq. intros k. destruct (decide (k ∈ a)), (decide (k ∈ b)); set_solver. Qed.

Section Conn.
Context (range : gmap string Conn → list (string * Conn)) (range_perm : ∀ m, range m ≡ₚ map_to_list m).

Definition keyed (m : gmap string Conn) : Prop := ∀ k c, m !! k = Some c → Key c = k.

Lemma by_key_keyed conns : keyed (by_key conns).
Proof.
  unfold by_key. assert (keyed (∅ : gmap string Conn)) as H0 by (intros ? ?; by rewrite lookup_empty).
  revert H0. generalize (∅ : gmap string Conn). induction conns as [|c conns IH]; intros m Hm; [done|].
  simpl. apply IH. intros k c'. destruct (decide (Key c = k)) as [<-|Hne].
  - rewrite lookup_insert_eq. by intros [= <-].
  - rewrite lookup_insert_ne by done. apply Hm.
Qed.

Lemma by_key_dom conns k : k ∈ dom (by_key conns) ↔ k ∈ Key <$> conns.
Proof.
  unfold by_key. cut (∀ m : gmap string Conn,
    k ∈ dom (foldl (λ m c, <[Key c := c]> m) m conns) ↔ k ∈ dom m ∨ k ∈ Key <$> conns).
  { intros Hm. rewrite Hm, dom_empty_L. set_solver. }
  induction conns as [|c conns IH]; intros m; simpl.
  - rewrite elem_of_nil. naive_solver.
  - rewrite IH, dom_insert, elem_of_cons. set_solver.
Qed.

Lemma elem_range m k c : (k, c) ∈ range m ↔ m !! k = Some c.
Proof. rewrite range_perm. apply elem_of_map_to_list. Qed.

Lemma event_key c t now : connEventKey (newEvent c t now) = Key c.
Proof. done. Qed.

Lemma missing_in_spec a b t now : keyed a →
  keys_with (missing_in range a b t now) = dom a ∖ dom b ∧
  Forall (λ ev, event_kind ev = event_kind (newEvent (mkConn "" "" 0 "" 0 "" "" "") t now)) (missing_in range a b t now).
Proof.
  intros Ha. unfold missing_in. split.
  - apply set_eq. intros k. unfold keys_with.
    rewrite elem_of_list_to_set, list_elem_of_fmap, elem_of_difference, !elem_of_dom.
    setoid_rewrite list_elem_of_omap. split.
    + intros (ev & -> & [k' c] & Hin & Hev). apply elem_range in Hin. cbn [fst snd] in Hev.
      destruct (b !! k') eqn:Eb; simplify_eq. cbn. rewrite event_key, (Ha _ _ Hin). rewrite Hin, Eb. split; [done|by intros [? ?]].
    + intros [[c Hc] Hb]. exists (newEvent c t now). cbn. rewrite event_key, (Ha _ _ Hc). split; [done|].
      exists (k, c). rewrite elem_range. split; [done|]. cbn. destruct (b !! k); [|done]. by destruct Hb.
  - apply Forall_forall. intros ev ([k c] & _ & Hev)%list_elem_of_omap. cbn in Hev. destruct (b !! k); by simplify_eq.
Qed.

Lemma port_sorted l : StronglySorted (λ a b, LocalPort a ≤ LocalPort b) (SliceStable port_less l).
Proof.
  eapply StronglySorted_weaken; [|apply SliceStable_in_order; unfold port_less; intros *; rewrite ?Z.ltb_lt, ?Z.ltb_ge; lia].
  intros a b. unfold port_less. by rewrite Z.ltb_ge.
Qed.

Lemma keys_with_perm (l l' : list ConnEvent) : l ≡ₚ l' → keys_with l = keys_with l'.
Proof. intros Hp. unfold keys_with. apply list_to_set_perm_L. by rewrite Hp. Qed.

Lemma diff_spec prev cur now : keyed prev → keyed cur →
  let '(opened, closed) := Diff range prev cur now in
  keys_with opened = dom cur ∖ dom prev ∧ keys_with closed = dom prev ∖ dom cur ∧
  Forall (λ ev, event_kind ev = Opens) opened ∧ Forall (λ ev, event_kind ev = Closes) closed.
Proof.
  intros Hp Hc. unfold Diff.
  destruct (missing_in_spec cur prev EventOpen now Hc) as [Ko Fo].
  destruct (missing_in_spec prev cur EventClose now Hp) as [Kc Fc].
  rewrite !(keys_with_perm _ _ (SliceStable_perm _ _)). split_and!; [done..| |]; by rewrite SliceStable_perm.
Qed.

(** [Diff] is exact and sorted: the opened events are the connections of the new
    snapshot that were not in the old one, the closed events those of the old one
    that are not in the new one, each ordered by local port. *)
Theorem diff_exact prev cur now : keyed prev → keyed cur →
  let '(opened, closed) := Diff range prev cur now in
  keys_with opened = dom cur ∖ dom prev ∧ keys_with closed = dom prev ∖ dom cur ∧
  Forall (λ ev, event_kind ev = Opens) opened ∧ Forall (λ ev, event_kind ev = Closes) closed ∧
  StronglySorted (λ a b, LocalPort a ≤ LocalPort b) opened ∧
  StronglySorted (λ a b, LocalPort a ≤ LocalPort b) closed.
Proof.
  intros Hp Hc. pose proof (diff_spec prev cur now Hp Hc) as (H1 & H2 & H3 & H4).
  split_and!; [done..|apply port_sorted|apply port_sorted].
Qed.

(** ** Polls *)

Context `{!RawJson, !Json (list ConnEvent), !Json SkillState.State, !Json (list Incidents.Incident), !Json notification, !MemStore M}.
Context `{!MemStoreLaws M, !RawTotal M, !JsonRoundtrip (list ConnEvent), !JsonCompact (list ConnEvent)}.
Context (zone : Z → Z).

Definition history_of (m : M) : list ConnEvent :=
  let '(h, ok) := key_value (V := list ConnEvent) networkDomain historyKey m in if ok : bool then h else [].

(** Every reading of the clock is a positive instant, and no snapshot of the domain
    is from its future. *)
Definition clock_ok (w : world M) : Prop :=
  ∀ n, in64 (w_clock w n) ∧ 0 < w_clock w n ∧ doc_past (w_clock w n) networkDomain (w_mem w).

Lemma read_history_run w : ReadHistory w = (history_of (w_mem w), w).
Proof.
  unfold ReadHistory, history_of, mbind, W_bind. rewrite get_key_run. by destruct (key_value _ _ _) as [h []].
Qed.

Lemma kept_history w w' : kept networkDomain w w' → history_of (w_mem w') = history_of (w_mem w).
Proof. intros K. unfold history_of, key_value, keys_of. by rewrite (kept_docs _ _ _ K). Qed.

Lemma kept_clock_ok w w' : kept networkDomain w w' → clock_ok w → clock_ok w'.
Proof.
  intros K Hc n. rewrite (kept_clock _ _ _ K). destruct (Hc n) as (? & ? & ?). split_and!; [done..|by apply (kept_past _ _ _ K)].
Qed.

Lemma check_keeps c prior ev : keeps networkDomain (checkAgainstBaseline zone c prior ev).
Proof.
  unfold checkAgainstBaseline. destruct (DisableUnusualConnectionBaseline c); [apply keeps_ret|].
  destruct (deviates c prior ev) as [d|]; [|apply keeps_ret].
  apply keeps_bind; [by apply keeps_escalate|]. intros _. apply keeps_ret.
Qed.

Lemma check_all_keeps c prior evs : keeps networkDomain (check_all zone c prior evs).
Proof.
  induction evs as [|ev evs IH]; [apply keeps_ret|]. apply keeps_bind; [apply check_keeps|]. intros ev'.
  apply keeps_bind; [done|]. intros evs'. apply keeps_ret.
Qed.

(** Marking an event does not change which connection it is about. *)
Lemma check_same c prior ev w :
  let ev' := (checkAgainstBaseline zone c prior ev w).1 in
  connEventKey ev' = connEventKey ev ∧ event_kind ev' = event_kind ev.
Proof.
  unfold checkAgainstBaseline. destruct (DisableUnusualConnectionBaseline c); [done|].
  destruct (deviates c prior ev) as [d|]; [|done]. unfold mbind, W_bind.
  by destruct (escalate _ _ _ _ _).
Qed.

Lemma check_all_same c prior evs w :
  let evs' := (check_all zone c prior evs w).1 in
  connEventKey <$> evs' = connEventKey <$> evs ∧ event_kind <$> evs' = event_kind <$> evs.
Proof.
  revert w. induction evs as [|ev evs IH]; intros w; [done|]. simpl. unfold mbind, W_bind.
  pose proof (check_same c prior ev w) as [Hk Hd]. destruct (checkAgainstBaseline zone c prior ev w) as [ev' w1].
  destruct (IH w1) as [IHk IHd]. destruct (check_all zone c prior evs w1) as [evs' w2].
  unfold mret, W_ret. cbn [fst] in *. rewrite !fmap_cons, Hk, Hd, IHk, IHd. done.
Qed.

Lemma live_events s (evs evs' : list ConnEvent) :
  connEventKey <$> evs' = connEventKey <$> evs → event_kind <$> evs' = event_kind <$> evs →
  foldl live_step s evs' = foldl live_step s evs.
Proof.
  revert s evs'. induction evs as [|ev evs IH]; intros s [|ev' evs'] Hk Hd; try done. simpl in *.
  injection Hk as Hk1 Hk. injection Hd as Hd1 Hd. rewrite (IH _ evs') by done. f_equal.
  unfold live_step. cbn. by rewrite Hk1, Hd1.
Qed.

(** The events of a poll move the live set from the old to the new snapshot. *)
Lemma poll_events_live m cur now s w :
  keyed (prev m) → keyed cur → (bootstrapped m = false → prev m = ∅) →
  foldl live_step s (poll_events range zone m cur now w).1 =
  (s ∪ (dom cur ∖ dom (prev m))) ∖ (dom (prev m) ∖ dom cur).
Proof.
  intros Hp Hc Hb. unfold poll_events. destruct (bootstrapped m); cbn [negb].
  - pose proof (diff_spec (prev m) cur now Hp Hc) as HD.
    destruct (Diff range (prev m) cur now) as [opened closed]. destruct HD as (H1 & H2 & H3 & H4).
    assert (∀ s, foldl live_step s (opened ++ closed) = (s ∪ (dom cur ∖ dom (prev m))) ∖ (dom (prev m) ∖ dom cur)) as HL.
    { intros s'. by rewrite foldl_app, (live_opens (Tracked0 := conn_tracked) _ opened H3), (live_closes (Tracked0 := conn_tracked) _ closed H4), H1, H2. }
    destruct opened as [|ev opened]; [apply HL|]. unfold mbind, W_bind. rewrite read_history_run.
    pose proof (check_all_same (cfg m) (history_of (w_mem w)) (ev :: opened) w) as [Hk Hd].
    destruct (check_all zone (cfg m) _ (ev :: opened) w) as [evs' w2]. cbn [fst mret W_ret] in *.
    rewrite foldl_app, (live_events s _ evs') by done. by rewrite <-foldl_app, HL.
  - rewrite (Hb eq_refl). cbn [fst mret W_ret].
    pose proof (missing_in_spec cur ∅ EventExisting now Hc) as [HK HF].
    assert (missing_in range cur ∅ EventExisting now = (λ kc, newEvent kc.2 EventExisting now) <$> range cur) as E.
    { unfold missing_in. induction (range cur) as [|[k c] l IH]; [done|]. cbn. rewrite lookup_empty. by f_equal. }
    rewrite E in HK, HF. rewrite (live_opens (Tracked0 := conn_tracked) _ _ HF), HK. set_solver.
Qed.

Lemma poll_events_keeps m cur now : keeps networkDomain (poll_events range zone m cur now).
Proof.
  unfold poll_events. destruct (bootstrapped m); cbn [negb]; [|apply keeps_ret].
  destruct (Diff range (prev m) cur now) as [[|ev opened] closed]; [apply keeps_ret|].
  apply keeps_bind. { intros w. rewrite read_history_run. apply kept_refl. }
  intros prior. apply keeps_bind; [apply check_all_keeps|]. intros evs. apply keeps_ret.
Qed.

Lemma append_spec m events w w' :
  appendEvents m events w = (None, w') → clock_ok w →
  history_of (w_mem w') =
  match events with [] => history_of (w_mem w)
                  | _ => keep_last (Z.to_nat (historyLimit m)) (history_of (w_mem w) ++ events) end.
Proof.
  unfold appendEvents. destruct events as [|ev events]; [by intros [= <-]|].
  unfold mbind, W_bind. rewrite read_history_run. intros Hs Hc.
  destruct (Hc (w_ticks w)) as (H1 & H2 & H3). destruct (set_get_key _ _ _ _ _ Hs H1 H2 H3) as [Hk _].
  unfold history_of at 1. by rewrite Hk.
Qed.

(** What one poll does to the history. *)
Lemma poll_history conns m w events m' w' :
  PollOnce range zone (Some conns) m w = ((Some events, None, m'), w') → clock_ok w →
  prev m' = by_key conns ∧ bootstrapped m' = true ∧ historyLimit m' = historyLimit m ∧
  history_of (w_mem w') = (match events with [] => history_of (w_mem w)
    | _ => keep_last (Z.to_nat (historyLimit m)) (history_of (w_mem w) ++ events) end) ∧
  ∃ now w1, events = (poll_events range zone m (by_key conns) now w1).1.
Proof.
  unfold PollOnce, mbind, W_bind, now_. intros Hp Hc.
  match type of Hp with context [poll_events range zone m ?cur ?now ?w1] =>
    pose proof (poll_events_keeps m cur now w1) as K; set (w0 := w1) in * end.
  assert (kept networkDomain w w0) as K0 by done.
  destruct (poll_events range zone m (by_key conns) (w_clock w (w_ticks w)) w0) as [evs w2] eqn:E. cbn [snd] in K.
  destruct (appendEvents m evs w2) as [logged w3] eqn:Ea. unfold mret, W_ret in Hp. simplify_eq.
  pose proof (kept_trans _ _ _ _ K0 K) as K2.
  apply append_spec in Ea; [|by eapply kept_clock_ok]. rewrite (kept_history _ _ K2) in Ea.
  split_and!; [done..|exact Ea|]. exists (w_clock w (w_ticks w)), w0. by rewrite E.
Qed.

Lemma poll_live conns m w events m' w' :
  PollOnce range zone (Some conns) m w = ((Some events, None, m'), w') → clock_ok w →
  keyed (prev m) → (bootstrapped m = false → prev m = ∅) →
  Z.of_nat (length (history_of (w_mem w) ++ events)) ≤ historyLimit m →
  live (history_of (w_mem w')) =
    (live (history_of (w_mem w)) ∪ (dom (by_key conns) ∖ dom (prev m))) ∖ (dom (prev m) ∖ dom (by_key conns)).
Proof.
  intros Hp Hc Hk Hb Hlen. destruct (poll_history _ _ _ _ _ _ Hp Hc) as (_ & _ & _ & Hh & now & w1 & He).
  assert (history_of (w_mem w') = history_of (w_mem w) ++ events) as ->.
  { rewrite Hh. destruct events; [by rewrite app_nil_r|]. apply keep_last_short. lia. }
  rewrite live_app, He. apply poll_events_live; [done|apply by_key_keyed|done].
Qed.

Lemma active_conns (h : list ConnEvent) :
  NoDup (connEventKey <$> ActiveConnections h) ∧ ∀ k, k ∈ connEventKey <$> ActiveConnections h ↔ k ∈ live h.
Proof. exact (active_live (Tracked0 := conn_tracked) h). Qed.

(** The history has open what the monitor saw last, and the ghosts [g] besides. *)
Definition in_step (g : gset string) (m : Monitor) (w : world M) : Prop :=
  live (history_of (w_mem w)) = dom (prev m) ∪ g ∧ g ## dom (prev m) ∧ keyed (prev m) ∧ (bootstrapped m = false → prev m = ∅).

Lemma in_step_new c w : in_step (live (history_of (w_mem w))) (NewWithGatherer c) w.
Proof.
  unfold in_step. cbn [prev NewWithGatherer]. rewrite dom_empty_L. split_and!; [by rewrite (left_id_L ∅ (∪))|set_solver| |done].
  intros k x. by rewrite lookup_empty.
Qed.

Lemma in_step_poll g conns m w events m' w' :
  PollOnce range zone (Some conns) m w = ((Some events, None, m'), w') → clock_ok w → in_step g m w →
  Z.of_nat (length (history_of (w_mem w) ++ events)) ≤ historyLimit m →
  in_step (g ∖ dom (by_key conns)) m' w' ∧ prev m' = by_key conns.
Proof.
  intros Hp Hc (Hl & Hg & Hk & Hb) Hlen. pose proof (poll_live _ _ _ _ _ _ Hp Hc Hk Hb Hlen) as HL.
  destruct (poll_history _ _ _ _ _ _ Hp Hc) as (Hprev & Hboot & _).
  split; [|done]. unfold in_step. rewrite HL, Hl, Hprev, Hboot. split_and!; [by apply move_set|set_solver|apply by_key_keyed|done].
Qed.

(** A monitor at work: polls that are recorded, with the history below its limit, polls
    whose gatherer fails, and whatever else happens that leaves the history alone. *)
Inductive watched (m0 : Monitor) (w0 : world M) : list (list Conn) → Monitor → world M → Prop :=
| watched_start : watched m0 w0 [] m0 w0
| watched_poll seen m w conns events m' w' : watched m0 w0 seen m w → clock_ok w →
    PollOnce range zone (Some conns) m w = ((Some events, None, m'), w') →
    Z.of_nat (length (history_of (w_mem w) ++ events)) ≤ historyLimit m → watched m0 w0 (seen ++ [conns]) m' w'
| watched_failed seen m w r m' w' : watched m0 w0 seen m w → PollOnce range zone None m w = ((r, m'), w') → watched m0 w0 seen m' w'
| watched_other seen m w w' : watched m0 w0 seen m w → history_of (w_mem w') = history_of (w_mem w) → watched m0 w0 seen m w'.

Lemma watched_in_step c w0 seen m w : watched (NewWithGatherer c) w0 seen m w →
  ∃ g, in_step g m w ∧ (∀ k, k ∈ g ↔ k ∈ live (history_of (w_mem w0)) ∧ ∀ conns, conns ∈ seen → k ∉ Key <$> conns) ∧
    prev m = from_option by_key ∅ (last seen).
Proof.
  induction 1 as [|seen m w conns events m' w' _ (g & Hs & Hg & Hp) Hc Hpoll Hlen|seen m w r m' w' _ IH Hpoll|seen m w w' _ (g & Hs & Hg & Hp) Hh].
  - exists (live (history_of (w_mem w0))). split_and!; [apply in_step_new| |done]. intros k. split; [|by intros []].
    intros Hk. split; [done|]. by intros conns ?%elem_of_nil.
  - destruct (in_step_poll g conns m w events m' w' Hpoll Hc Hs Hlen) as [Hs' Hp']. exists (g ∖ dom (by_key conns)).
    split_and!; [done| |by rewrite last_snoc]. intros k. rewrite elem_of_difference, Hg, by_key_dom. setoid_rewrite elem_of_app.
    setoid_rewrite list_elem_of_singleton. split.
    + intros [[H1 H2] H3]. split; [done|]. intros cs [Hcs| ->]; [by apply H2|done].
    + intros [H1 H2]. split; [|apply H2; by right]. split; [done|]. intros cs Hcs. apply H2. by left.
  - cbn in Hpoll. injection Hpoll as _ <- <-. exact IH.
  - exists g. unfold in_step in *. rewrite Hh. done.
Qed.

(** C29. While the history stays below its limit, it tracks the host from a start of the
    agent on, whatever history it finds: after polls that are recorded, the active
    connections derived from it are, one event each, exactly those of the last sample and
    those that the history found at the start has open and that no sample has shown since
    (connections that ended while the agent was down). *)
Theorem poll_tracks c w0 seen conns m w :
  watched (NewWithGatherer c) w0 (seen ++ [conns]) m w →
  let active w := connEventKey <$> ActiveConnections (history_of (w_mem w)) in
  NoDup (active w) ∧
  ∀ k, k ∈ active w ↔ k ∈ Key <$> conns ∨ k ∈ active w0 ∧ ∀ sample, sample ∈ seen ++ [conns] → k ∉ Key <$> sample.
Proof.
  intros Hw active. destruct (watched_in_step c w0 _ m w Hw) as (g & (Hl & _) & Hg & Hp). subst active. cbn beta.
  split; [apply active_conns|]. intros k. rewrite !(proj2 (active_conns _)), Hl, elem_of_union, Hg, Hp, last_snoc. cbn.
  by rewrite by_key_dom.
Qed.

(** A restart of the agent leaves ghosts: the first poll of a new monitor adds the
    connections of the host to those the old history has open, so a connection that
    closed while the agent was down is reported as active. *)
Theorem restart_ghosts conns c w events m' w' :
  PollOnce range zone (Some conns) (NewWithGatherer c) w = ((Some events, None, m'), w') → clock_ok w →
  Z.of_nat (length (history_of (w_mem w) ++ events)) ≤ historyLimit (NewWithGatherer c) →
  ∀ k, k ∈ connEventKey <$> ActiveConnections (history_of (w_mem w')) ↔
       k ∈ connEventKey <$> ActiveConnections (history_of (w_mem w)) ∨ k ∈ Key <$> conns.
Proof.
  intros Hp Hc Hlen k.
  assert (keyed (prev (NewWithGatherer c))) as Hk by (intros ? ?; cbn; by rewrite lookup_empty).
  pose proof (poll_live _ _ _ _ _ _ Hp Hc Hk (λ _, eq_refl) Hlen) as HL.
  rewrite !(proj2 (active_conns _)), HL, <-by_key_dom. cbn [prev NewWithGatherer].
  rewrite dom_empty_L, difference_empty_L. rewrite elem_of_difference, elem_of_union. split; [naive_solver|].
  intros Hin. split; [done|]. rewrite elem_of_difference. by intros [?%elem_of_empty _].
Qed.

(** ** The baseline *)

(** A connection like one that the history holds raises no alarm: if an opened or
    existing connection of the same direction, protocol, local port, peer and process
    was recorded, the new event is recorded as it is and nothing else happens. *)
Theorem familiar_quiet c prior h ev w :
  h ∈ prior → is_open h = true → Direction ev = Direction h → Proto ev = Proto h → LocalPort ev = LocalPort h →
  RemoteAddr ev = RemoteAddr h → Process ev = Process h →
  checkAgainstBaseline zone c prior ev w = (ev, w).
Proof.
  intros Hin Ho Hd Hpr Hport Hr Hp. unfold checkAgainstBaseline.
  destruct (DisableUnusualConnectionBaseline c); [done|].
  assert (deviates c prior ev = None) as ->; [|done].
  assert (∀ f : ConnEvent → bool, f h = true → existsb f prior = true) as HE.
  { intros f Hf. apply existsb_exists. exists h. by rewrite <-list_elem_of_In. }
  unfold deviates, knownInboundPorts, knownProcesses, knownRemoteHosts, port_key. rewrite Hd, Hpr, Hport, Hr, Hp.
  destruct (String.eqb (Direction h) DirectionInbound && (LocalPort h =? OwnPort c)); [done|].
  destruct (String.eqb (Direction h) DirectionInbound) eqn:Edi.
  - rewrite HE by (by rewrite Ho, Edi, String.eqb_refl). cbn [andb negb].
    apply String.eqb_eq in Edi. rewrite Edi. cbn [andb].
    destruct (String.eqb (Process h) "") eqn:Ep; [done|]. rewrite HE; [done|]. by rewrite Ho, Ep, String.eqb_refl.
  - cbn [andb]. destruct (String.eqb (Process h) "") eqn:Ep; cbn [andb negb].
    + destruct (String.eqb (Direction h) DirectionOutbound) eqn:Edo; [|done].
      destruct (String.eqb (RemoteAddr h) "") eqn:Er; [done|]. rewrite HE; [done|]. by rewrite Ho, Edo, Er, String.eqb_refl.
    + rewrite HE by (by rewrite Ho, Ep, String.eqb_refl). cbn [andb negb].
      destruct (String.eqb (Direction h) DirectionOutbound) eqn:Edo; [|done].
      destruct (String.eqb (RemoteAddr h) "") eqn:Er; [done|]. rewrite HE; [done|]. by rewrite Ho, Edo, Er, String.eqb_refl.
Qed.

End Conn.
