(* ===== verification/NetIP.v ===== *)
(** * Go's [net.ParseIP], [net.ParseCIDR] and [IPNet.Contains]

    An address is its 16-byte form as a 128-bit number; an IPv4 address is the
    mapped address ::ffff:a.b.c.d, as in [net.IP]. *)

From S2P Require Import Prelude GoStrings GoText.

Definition v4_prefix : Z := Z.shiftl 65535 32.

Definition is4 (a : Z) : bool := Z.shiftr a 32 =? 65535.

(** One decimal field of an IPv4 address: no leading zero, at most 255. *)
Definition octet (s : string) : option Z :=
  match s with
  | "" => None
  | String "0" (String _ _) => None
  | _ => n ← digits 0 s; if n <=? 255 then Some n else None
  end.

Definition parseIPv4 (s : string) : option Z :=
  match SplitByte "." s with
  | [a; b; c; d] =>
      a ← octet a; b ← octet b; c ← octet c; d ← octet d;
      Some (v4_prefix + ((a * 256 + b) * 256 + c) * 256 + d)
  | _ => None
  end.

Definition hex_value (c : ascii) : option Z :=
  let n := code c in
  if (48 <=? n) && (n <=? 57) then Some (n - 48)
  else if (97 <=? n) && (n <=? 102) then Some (n - 87)
  else if (65 <=? n) && (n <=? 70) then Some (n - 55)
  else None.

(** The leading hexadecimal digits: their number, value and the rest. *)
Fixpoint hex_run (s : string) (n acc : Z) : Z * Z * string :=
  match s with
  | String c s' => match hex_value c with Some d => hex_run s' (n + 1) (acc * 16 + d) | None => (n, acc, s) end
  | "" => (n, acc, s)
  end.

(** The loop of [parseIPv6]: the groups read so far, the position of the ellipsis,
    and the rest; the result is the groups and the position. *)
Fixpoint ipv6_groups (fuel : nat) (groups : list Z) (ellipsis : option nat) (s : string) :
    option (list Z * option nat) :=
  match fuel with
  | O => None
  | S fuel =>
      if (8 <=? length groups)%nat then None
      else
        let '(n, acc, rest) := hex_run s 0 0 in
        if (n =? 0) || (4 <? n) then None
        else
          match rest with
          | String "." _ =>
              if match ellipsis with None => negb (length groups =? 6)%nat | Some _ => (6 <? length groups)%nat end
              then None
              else v4 ← parseIPv4 s;
                   let v4 := v4 - v4_prefix in
                   Some (groups ++ [v4 / 65536; v4 mod 65536], ellipsis)
          | _ =>
              let groups := groups ++ [acc] in
              match rest with
              | "" => Some (groups, ellipsis)
              | String ":" "" => None
              | String ":" (String ":" s') =>
                  match ellipsis with
                  | Some _ => None
                  | None =>
                      match s' with
                      | "" => Some (groups, Some (length groups))
                      | _ => if (length groups =? 8)%nat then None
                             else ipv6_groups fuel groups (Some (length groups)) s'
                      end
                  end
              | String ":" s' => if (length groups =? 8)%nat then None else ipv6_groups fuel groups ellipsis s'
              | _ => None
              end
          end
  end.

Definition of_groups (groups : list Z) : Z := foldl (λ a g, a * 65536 + g) 0 groups.

Definition expand (groups : list Z) (ellipsis : option nat) : option Z :=
  match ellipsis with
  | None => if (length groups =? 8)%nat then Some (of_groups groups) else None
  | Some p =>
      if (8 <=? length groups)%nat then None
      else Some (of_groups (take p groups ++ replicate (8 - length groups) 0 ++ drop p groups))
  end.

(** An IPv6 address without a zone. *)
Definition parseIPv6 (s : string) : option Z :=
  match s with
  | String ":" (String ":" "") => Some 0
  | String ":" (String ":" s') =>
      '(g, e) ← ipv6_groups (String.length s') [] (Some 0%nat) s'; expand g e
  | _ => '(g, e) ← ipv6_groups (String.length s) [] None s; expand g e
  end.

(** The family is decided by the first of . and :; a zone is refused. *)
Fixpoint first_sep (s : string) : option ascii :=
  match s with
  | "" => None
  | String c s' => if Ascii.eqb c "." || Ascii.eqb c ":" || Ascii.eqb c "%" then Some c else first_sep s'
  end.

Definition ParseIP (s : string) : option Z :=
  match first_sep s with
  | Some "."%char => parseIPv4 s
  | Some ":"%char => if ContainsAny s "%" then None else parseIPv6 s
  | _ => None
  end.

Definition mask (bits a : Z) : Z := Z.shiftl (Z.shiftr a (128 - bits)) (128 - bits).

(** The network and its length in the 128-bit form. *)
Definition ParseCIDR (s : string) : option (Z * Z) :=
  '(addr, len) ← Cut "/" s;
  a ← ParseIP addr;
  n ← (match len with "" => None | _ => digits 0 len end);
  let v4 := match first_sep addr with Some "."%char => true | _ => false end in
  if v4 then if 32 <? n then None else Some (mask (96 + n) a, 96 + n)
  else if 128 <? n then None else Some (mask n a, n).

Definition cidr_contains (net : Z * Z) (ip : Z) : bool :=
  Bool.eqb (is4 net.1) (is4 ip) && (mask net.2 ip =? net.1).

Example ip_v4 : ParseIP "192.168.1.5" = Some (v4_prefix + 3232235781).
Proof. reflexivity. Qed.
Example ip_v6 : ParseIP "fe80::1:2" = Some (Z.shiftl 65152 112 + 65536 + 2).
Proof. reflexivity. Qed.
Example ip_mapped : ParseIP "::ffff:10.0.0.1" = ParseIP "10.0.0.1".
Proof. reflexivity. Qed.
Example ip_bad : ParseIP "192.168.01.5" = None ∧ ParseIP "1::2::3" = None ∧ ParseIP "host" = None.
Proof. done. Qed.
Example cidr_sample :
  (net ← ParseCIDR "10.1.0.0/16"; ip ← ParseIP "10.1.200.7"; Some (cidr_contains net ip)) = Some true ∧
  (net ← ParseCIDR "10.1.0.0/16"; ip ← ParseIP "10.2.0.1"; Some (cidr_contains net ip)) = Some false.
Proof. done. Qed.
