(* ===== verification/LoginMonitor.v ===== *)
(** * The login monitors ([loginmonitor])

    [handleSignal] turns a logind signal into an event of the attribute
    "login_history" and compares a new login with that history and with the
    configured sources; [handleMessage] counts the consecutive failures sshd logs.
    [run], [watch] and [runWithRetry] are one connection to the bus and its renewal, and
    the [failed_] definitions follow the journal.  What D-Bus and the resolver answer are inputs. *)

From S2P Require Import Prelude GoStrings GoTime GoText Json Memory MemStore Incidents World KeyStore History NetIP.

Module LoginMonitor.

Definition historyKey : string := "login_history".
Definition maxHistory : nat := 500.
Definition EventExisting : string := "existing".
Definition EventLogin : string := "login".
Definition EventLogout : string := "logout".

Record LoginEvent := mkLogin {
  EventType : string;
  SessionID : string;
  Username : string;
  Class_ : string;
  SessionType : string;
  Remote : bool;
  RemoteHost : string;
  SourceIP : string;
  ResolvedHostname : string;
  TTY : string;
  Timestamp : Z;
  Unusual : bool;
  UnusualReason : string;
}.

#[export] Instance login_eq_dec : EqDecision LoginEvent.
Proof. solve_decision. Defined.

(** [logind.SessionInfo]: what D-Bus answers about a session. *)
Record SessionInfo := mkInfo {
  i_id : string;
  i_user : string;
  i_class : string;
  i_type : string;
  i_remote : bool;
  i_host : string;
  i_tty : string;
  i_since : option Z;
}.

Record settings := mkSettings {
  AllowedSources : list string;
  FailedLoginThreshold : Z;
  DisableUnusualLoginBaseline : bool;
  BaselineMinEvents : Z;
}.

(** An event with no details about the session. *)
Definition bare (t id user : string) (now : Z) : LoginEvent :=
  mkLogin t id user "" "" false "" "" "" "" now false "".

(** The [switch] of [ActiveSessions]. *)
Definition event_kind (ev : LoginEvent) : kind :=
  if String.eqb (EventType ev) EventLogin || String.eqb (EventType ev) EventExisting then Opens
  else if String.eqb (EventType ev) EventLogout then Closes
  else Other.

#[export] Instance login_tracked : Tracked LoginEvent := {| ev_key := SessionID; ev_kind := event_kind |}.

Definition ActiveSessions (history : list LoginEvent) : list LoginEvent := active history.

(** ** The baseline *)

Definition sourceIdentity (ev : LoginEvent) : string :=
  if negb (Remote ev) then "local"
  else if negb (String.eqb (SourceIP ev) "") then SourceIP ev
  else if negb (String.eqb (RemoteHost ev) "") then RemoteHost ev
  else "unknown".

Definition originDescription (ev : LoginEvent) : string :=
  if negb (Remote ev) then "local console"
  else
    let id := sourceIdentity ev in
    if negb (String.eqb (ResolvedHostname ev) "") && negb (String.eqb (ResolvedHostname ev) id)
    then id +:+ " (" +:+ ResolvedHostname ev +:+ ")" else id.

Definition severityFor (remote : bool) : string := if remote then critical else warning.

Definition utc_hour (t : Z) : Z := t / Second mod 86400 / 3600.
Definition time_bucket (ev : LoginEvent) : Z := utc_hour (Timestamp ev) / 4.

(** The events of [prior] the loop counts: logins of the same user. *)
Definition of_user (ev h : LoginEvent) : bool :=
  String.eqb (Username h) (Username ev) &&
  (String.eqb (EventType h) EventLogin || String.eqb (EventType h) EventExisting).

Definition new_user (ev : LoginEvent) : deviation :=
  mkDev "new_user" ("unusual-login-newuser-" +:+ Username ev)
    ("first-ever login for user " +:+ Quote (Username ev))
    ("User " +:+ Quote (Username ev) +:+ " logged in for the first time in recorded history (origin: " +:+
     originDescription ev +:+ ").")
    (severityFor (Remote ev)).

Definition new_source (ev : LoginEvent) : deviation :=
  mkDev "new_source" ("unusual-login-newsource-" +:+ Username ev +:+ "-" +:+ sourceIdentity ev)
    ("login for " +:+ Quote (Username ev) +:+ " from a never-seen source")
    ("User " +:+ Quote (Username ev) +:+ " logged in from " +:+ originDescription ev +:+
     ", which has not been seen for this user before.")
    (severityFor (Remote ev)).

Definition unusual_time (ev : LoginEvent) (priorCount : Z) : deviation :=
  mkDev "unusual_time" ("unusual-login-offhours-" +:+ Username ev)
    ("off-hours login for " +:+ Quote (Username ev))
    ("User " +:+ Quote (Username ev) +:+ " logged in at " +:+ format_hm (λ _, 0) (Timestamp ev) +:+
     " UTC, a time of day not seen in their prior " +:+ Itoa priorCount +:+ " logins.")
    warning.

Definition deviates (c : settings) (prior : list LoginEvent) (ev : LoginEvent) : option deviation :=
  let minEvents := if BaselineMinEvents c <=? 0 then 5 else BaselineMinEvents c in
  let mine := List.filter (of_user ev) prior in
  let priorCount := Z.of_nat (length mine) in
  if match mine with [] => true | _ => false end then Some (new_user ev)
  else if negb (existsb (λ h, String.eqb (sourceIdentity h) (sourceIdentity ev)) mine) then Some (new_source ev)
  else if (minEvents <=? priorCount) && negb (existsb (λ h, time_bucket h =? time_bucket ev) mine)
  then Some (unusual_time ev priorCount)
  else None.

Definition mark (ev : LoginEvent) (r : string) : LoginEvent :=
  mkLogin (EventType ev) (SessionID ev) (Username ev) (Class_ ev) (SessionType ev) (Remote ev) (RemoteHost ev)
    (SourceIP ev) (ResolvedHostname ev) (TTY ev) (Timestamp ev) true r.

Definition mail_body (ev : LoginEvent) (d : deviation) : string :=
  detail d +:+ para +:+ "User:     " +:+ Username ev +:+ nl +:+ "Session:  " +:+ SessionID ev +:+ nl +:+
  "Origin:   " +:+ originDescription ev +:+ nl +:+ "Time:     " +:+ format_rfc1123_utc (Timestamp ev).

(** ** Allowed sources *)

(** Whether one entry of [AllowedSources] lets the login through. *)
Definition source_matches (ev : LoginEvent) (ip : option Z) (src : string) : bool :=
  match ParseCIDR src with
  | Some net => match ip with Some a => cidr_contains net a | None => false end
  | None =>
      match ParseIP src with
      | Some allowed => match ip with Some a => a =? allowed | None => false end
      | None => String.eqb src (RemoteHost ev) || String.eqb src (ResolvedHostname ev)
      end
  end.

Definition login_candidate (ev : LoginEvent) : string :=
  if String.eqb (SourceIP ev) "" then RemoteHost ev else SourceIP ev.

(** The source that raises the alert, if one does. *)
Definition unusual_source (c : settings) (ev : LoginEvent) : option string :=
  if negb (Remote ev) || match AllowedSources c with [] => true | _ => false end then None
  else
    let candidate := login_candidate ev in
    if String.eqb candidate "" then None
    else if existsb (source_matches ev (ParseIP candidate)) (AllowedSources c) then None
    else Some candidate.

(** [enrichSourceInfo]; [LookupAddr] and [LookupHost] are the resolver's answers. *)
Definition enrichSourceInfo (LookupAddr LookupHost : string → list string) (host : string) : string * string :=
  if String.eqb host "" then ("", "")
  else
    match ParseIP host with
    | Some _ => (host, match LookupAddr host with n :: _ => TrimSuffix n "." | [] => "" end)
    | None => (default "" (head (LookupHost host)), host)
    end.

Section Monitor.
Context `{!RawJson, !Json (list LoginEvent), !Json SkillState.State, !Json (list Incidents.Incident), !Json notification, !MemStore M}.
Context (zone : Z → Z) (LookupAddr LookupHost : string → list string).

Definition checkAgainstBaseline (c : settings) (prior : list LoginEvent) (ev : LoginEvent) : W M LoginEvent :=
  if DisableUnusualLoginBaseline c then mret ev
  else
    match deviates c prior ev with
    | None => mret ev
    | Some d =>
        let ev := mark ev (reason d) in
        _ ← escalate zone "check_interactive_logins" d (mail_body ev d);
        mret ev
    end.

Definition source_alert (ev : LoginEvent) (candidate : string) : W M unit :=
  _ ← Notify ("[CRITICAL] Unusual login source: " +:+ Username ev +:+ " from " +:+ candidate)
        ("A login was detected from an unexpected source." +:+ para +:+
         "User:     " +:+ Username ev +:+ nl +:+ "Source IP: " +:+ SourceIP ev +:+ nl +:+
         "Hostname:  " +:+ ResolvedHostname ev +:+ nl +:+ "Session:  " +:+ SessionID ev +:+ nl +:+
         "Time:     " +:+ format_rfc1123_utc (Timestamp ev));
  _ ← SkillState.Save zone "check_interactive_logins" critical
        ("unusual login source: " +:+ Username ev +:+ " from " +:+ candidate);
  mret tt.

Definition checkUnusualSource (c : settings) (ev : LoginEvent) : W M unit :=
  match unusual_source c ev with Some candidate => source_alert ev candidate | None => mret tt end.

(** [ReadHistory]: the history, and whether there was no error. *)
Definition ReadHistory : W M (list LoginEvent * bool) :=
  attrs ← all_attrs;
  mret (match attrs with
        | Err _ => ([], false)
        | Ok attrs =>
            match attrs !! historyKey with
            | None => ([], true)
            | Some val => let '(h, ok) := Unmarshal val zero in if ok : bool then (h, true) else ([], false)
            end
        end).

Definition appendEvent (ev : LoginEvent) : W M (option mem_error) :=
  '(history, _) ← ReadHistory;
  set_attr historyKey (keep_last maxHistory (history ++ [ev])).

Fixpoint last_username (id : string) (newest_first : list LoginEvent) : string :=
  match newest_first with
  | [] => ""
  | ev :: rest => if String.eqb (SessionID ev) id then Username ev else last_username id rest
  end.

Definition lastUsernameForSession (id : string) : W M string :=
  '(history, _) ← ReadHistory; mret (last_username id (rev history)).

Definition session_event (t : string) (i : SessionInfo) (now : Z) : LoginEvent :=
  let '(ip, hostname) := enrichSourceInfo LookupAddr LookupHost (i_host i) in
  mkLogin t (i_id i) (i_user i) (i_class i) (i_type i) (i_remote i) (i_host i) ip hostname (i_tty i) now false "".

(** The bootstrap loop of [run] over the sessions that exist. *)
Fixpoint bootstrap (existing : list SessionInfo) : W M unit :=
  match existing with
  | [] => mret tt
  | s :: rest =>
      ts ← (match i_since s with Some t => mret t | None => now_ end);
      _ ← appendEvent (session_event EventExisting s ts);
      bootstrap rest
  end.

(** How a watch ends; [Watching]: it goes on. *)
Inductive ended := Watching | Stopped | Broken (err : string).

Definition match_rules : list string := [
  "type='signal',interface='org.freedesktop.login1.Manager',member='SessionNew'";
  "type='signal',interface='org.freedesktop.login1.Manager',member='SessionRemoved'"].

(** The calls of [AddMatch], up to the first that fails. *)
Fixpoint add_matches (call : string → option string) (rules : list string) : option string :=
  match rules with
  | [] => None
  | rule :: rest =>
      match call rule with
      | Some e => Some ("AddMatch " +:+ Quote rule +:+ ": " +:+ e)
      | None => add_matches call rest
      end
  end.

(** The two signals; [fetched] is what [FetchSessionInfo] answered. *)
Inductive signal :=
| SessionNew (id : string) (fetched : option SessionInfo)
| SessionRemoved (id : string)
| OtherSignal.

Definition handleSignal (c : settings) (sig : signal) : W M unit :=
  match sig with
  | OtherSignal => mret tt
  | SessionNew id None =>
      now ← now_; _ ← appendEvent (bare EventLogin id "" now); mret tt
  | SessionNew id (Some info) =>
      now ← now_;
      let info := mkInfo id (i_user info) (i_class info) (i_type info) (i_remote info) (i_host info) (i_tty info) (i_since info) in
      let ev := session_event EventLogin info now in
      '(prior, _) ← ReadHistory;
      ev ← checkAgainstBaseline c prior ev;
      _ ← appendEvent ev;
      checkUnusualSource c ev
  | SessionRemoved id =>
      username ← lastUsernameForSession id;
      now ← now_;
      _ ← appendEvent (bare EventLogout id username now);
      mret tt
  end.

(** What the select of [run] receives. *)
Inductive input := Received (sig : signal) | ChannelClosed | CtxDone.

Fixpoint watch (c : settings) (inputs : list input) : W M ended :=
  match inputs with
  | [] => mret Watching
  | CtxDone :: _ => mret Stopped
  | ChannelClosed :: _ => mret (Broken "D-Bus signal channel closed")
  | Received sig :: rest => _ ← handleSignal c sig; watch c rest
  end.

(** One connection to the bus: what connecting, listing the sessions and subscribing
    answer, and what is received then. *)
Record bus := mkBus {
  b_connect : option string;
  b_sessions : result string (list SessionInfo);
  b_match : string → option string;
  b_inputs : list input;
}.

Definition existing_sessions (b : bus) : list SessionInfo := match b_sessions b with Ok l => l | Err _ => [] end.

Definition run (c : settings) (b : bus) : W M ended :=
  match b_connect b with
  | Some e => mret (Broken ("connect to system bus: " +:+ e))
  | None =>
      _ ← bootstrap (existing_sessions b);
      match add_matches (b_match b) match_rules with
      | Some e => mret (Broken e)
      | None => watch c (b_inputs b)
      end
  end.

(** [runWithRetry]: the connections, each with whether the context is done when its
    watch has ended. *)
Fixpoint runWithRetry (c : settings) (attempts : list (bus * bool)) : W M ended :=
  match attempts with
  | [] => mret Watching
  | (b, done) :: rest =>
      e ← run c b;
      match e with
      | Watching => mret Watching
      | _ => if done : bool then mret Stopped else runWithRetry c rest
      end
  end.

(** [Start]: nothing is watched on a host without a system bus. *)
Definition Start (unavailable : option string) (c : settings) (attempts : list (bus * bool)) : W M ended :=
  match unavailable with Some _ => mret Stopped | None => runWithRetry c attempts end.

End Monitor.

(** ** Failed logins *)

Definition failedHistoryKey : string := "failed_login_history".
Definition maxFailedHistory : nat := 500.

Record FailedLoginEvent := mkFailed {
  fl_Username : string;
  fl_SourceIP : string;
  fl_RemoteHost : string;
  fl_ResolvedHostname : string;
  fl_Timestamp : Z;
  fl_Service : string;
  fl_Reason : string;
}.

(** A byte [\S] matches. *)
Definition not_space (c : ascii) : bool := negb (bool_decide (c ∈ [" "; "009"; "010"; "012"; "013"]%char)).

(** [(\S+)<sep>(\S+)] at the start of [s], for a separator that starts with a space. *)
Definition two_words (sep s : string) : option (string * string) :=
  let '(a, s) := span not_space s in
  s ← CutPrefix sep s;
  let '(b, _) := span not_space s in
  if String.eqb a "" || String.eqb b "" then None else Some (a, b).

Definition failedPassRe : string → option (string * string) := leftmost (λ s,
  s ← CutPrefix "Failed password for " s;
  match (s ← CutPrefix "invalid user " s; two_words " from " s) with
  | Some r => Some r
  | None => two_words " from " s
  end).
Definition invalidUserRe : string → option (string * string) :=
  leftmost (λ s, s ← CutPrefix "Invalid user " s; two_words " from " s).
Definition closedByInvalidRe : string → option (string * string) :=
  leftmost (λ s, s ← CutPrefix "Connection closed by invalid user " s; two_words " " s).

Definition parseFailureMessage (msg : string) : string * string * string :=
  match failedPassRe msg with
  | Some (u, h) => (u, h, if Contains msg "invalid user" then "invalid user" else "invalid password")
  | None =>
      match invalidUserRe msg with
      | Some (u, h) => (u, h, "invalid user")
      | None =>
          match closedByInvalidRe msg with
          | Some (u, h) => (u, h, "connection closed by invalid user")
          | None => ("", "", "")
          end
      end
  end.

(** Whether the counter of a source is dropped: a login from it in the last hundred
    events of the history. *)
Definition login_from (ip : string) (ev : LoginEvent) : bool :=
  String.eqb (EventType ev) EventLogin && String.eqb (SourceIP ev) ip.

Definition resets (ip : string) (history : list LoginEvent) : bool :=
  negb (String.eqb ip "") && existsb (login_from ip) (keep_last 100 history).

(** [Alert at threshold, then again at each subsequent multiple]. *)
Definition alert_due (threshold count : Z) : bool :=
  (0 <? threshold) && (threshold <=? count) && (Z.rem (count - threshold) threshold =? 0).

Section Failed.
Context `{!RawJson, !Json (list LoginEvent), !Json (list FailedLoginEvent), !Json SkillState.State, !Json notification, !MemStore M}.
Context (zone : Z → Z) (LookupAddr LookupHost : string → list string).

Definition ReadFailedHistory : W M (list FailedLoginEvent * bool) :=
  attrs ← all_attrs;
  mret (match attrs with
        | Err _ => ([], false)
        | Ok attrs =>
            match attrs !! failedHistoryKey with
            | None => ([], true)
            | Some val => let '(h, ok) := Unmarshal val zero in if ok : bool then (h, true) else ([], false)
            end
        end).

Definition appendFailedEvent (ev : FailedLoginEvent) : W M (option mem_error) :=
  '(history, _) ← ReadFailedHistory;
  set_attr failedHistoryKey
    (let h := history ++ [ev] in
     if (maxFailedHistory <? length h)%nat then drop (length h - maxFailedHistory) h else h).

(** [resetIfSucceeded] on the counters. *)
Definition resetIfSucceeded (key ip : string) (fails : gmap string Z) : W M (gmap string Z) :=
  '(history, ok) ← ReadHistory;
  mret (if (ok : bool) && resets ip history then delete key fails else fails).

Definition failed_alert (ip hostname key username reason : string) (count now : Z) : W M unit :=
  _ ← Notify ("[CRITICAL] " +:+ Itoa count +:+ " consecutive failed logins from " +:+ key)
        ("Consecutive failed login attempts detected." +:+ para +:+ "Source IP:  " +:+ ip +:+ nl +:+
         "Hostname:   " +:+ hostname +:+ nl +:+ "Attempts:   " +:+ Itoa count +:+ nl +:+
         "Last user:  " +:+ username +:+ nl +:+ "Reason:     " +:+ reason +:+ nl +:+
         "Time:       " +:+ format_rfc1123_utc now);
  _ ← SkillState.Save zone "check_interactive_logins" critical
        ("brute force: " +:+ Itoa count +:+ " consecutive failed logins from " +:+ key);
  mret tt.

(** [handleMessage]: the counters afterwards. *)
Definition handleMessage (c : settings) (msg : string) (fails : gmap string Z) : W M (gmap string Z) :=
  let '(username, rawHost, reason) := parseFailureMessage msg in
  if String.eqb username "" then mret fails
  else
    let '(ip, hostname) := enrichSourceInfo LookupAddr LookupHost rawHost in
    now ← now_;
    _ ← appendFailedEvent (mkFailed username ip rawHost hostname now "sshd" reason);
    let key := if String.eqb ip "" then rawHost else ip in
    if String.eqb key "" then mret fails
    else
      fails ← resetIfSucceeded key ip fails;
      let count := default 0 (fails !! key) + 1 in
      let fails := <[key := count]> fails in
      if alert_due (FailedLoginThreshold c) count
      then _ ← failed_alert ip hostname key username reason count now; mret fails
      else mret fails.

(** ** Following the journal *)

Record journaldEntry := mkJournal { Message : string }.
Context `{!Json journaldEntry}.

Definition journal_line (c : settings) (line : string) (fails : gmap string Z) : W M (gmap string Z) :=
  let '(entry, ok) := Unmarshal line zero in
  if negb ok || String.eqb (Message entry) "" then mret fails else handleMessage c (Message entry) fails.

Fixpoint journal_lines (c : settings) (lines : list string) (fails : gmap string Z) : W M (gmap string Z) :=
  match lines with
  | [] => mret fails
  | line :: rest => fails ← journal_line c line fails; journal_lines c rest fails
  end.

(** What one start of journalctl gives: the errors of the pipe and of the start, its
    output, and whether the process ends. *)
Record journal := mkTail { j_pipe : option string; j_start : option string; j_output : string; j_ends : bool }.

(** [run] of the failed monitor.  The deferred [Wait] returns when the process has ended. *)
Definition failed_run (c : settings) (j : journal) (fails : gmap string Z) : W M (ended * gmap string Z) :=
  match j_pipe j, j_start j with
  | Some e, _ => mret (Broken ("stdout pipe: " +:+ e), fails)
  | None, Some e => mret (Broken ("start journalctl: " +:+ e), fails)
  | None, None =>
      fails ← journal_lines c (ScanLines (j_output j)) fails;
      mret (if j_ends j
            then Broken (if scan_overflows (j_output j) then "read stdout: bufio.Scanner: token too long"
                         else "journalctl exited unexpectedly")
            else Watching, fails)
  end.

Fixpoint failed_retry (c : settings) (attempts : list (journal * bool)) (fails : gmap string Z) : W M (ended * gmap string Z) :=
  match attempts with
  | [] => mret (Watching, fails)
  | (j, done) :: rest =>
      '(e, fails) ← failed_run c j fails;
      match e with
      | Watching => mret (Watching, fails)
      | _ => if done : bool then mret (Stopped, fails) else failed_retry c rest fails
      end
  end.

(** [NewFailedMonitor] and its [Start]. *)
Definition failed_start (journalctl : bool) (c : settings) (attempts : list (journal * bool)) : W M (ended * gmap string Z) :=
  if journalctl then failed_retry c attempts ∅ else mret (Stopped, ∅).

End Failed.

Example failed_invalid :
  parseFailureMessage "Failed password for invalid user admin from 203.0.113.9 port 22 ssh2" =
  ("admin", "203.0.113.9", "invalid user").
Proof. vm_compute. reflexivity. Qed.
Example failed_known :
  parseFailureMessage "Failed password for root from 203.0.113.9 port 22 ssh2" =
  ("root", "203.0.113.9", "invalid password").
Proof. vm_compute. reflexivity. Qed.

End LoginMonitor.
