(* ===== verification/Timeline.v ===== *)
(** * The activity timeline

    [status/types.go], [status/timeline.go], the timeline functions of
    [request_approval] and [request_manual_run], the [report_findings] tool, the
    resolve endpoint of [findingsapi] and [status]'s attention rule.  The timeline is
    one document, newest entry first. *)

From S2P Require Import Prelude GoStrings GoTime Json Memory MemStore World.

Module Timeline.

Record TimelineEntry := mkEntry {
  ID : string;
  Time : string;
  Type_ : string;
  Title : string;
  Detail : string;
  Severity : string;
  Importance : string;
  Risk : string;
  ProposedAction : option string;
  Status : option string;
  RetryCount : Z;
  ParentID : string;
  SudoersInstruction : option string;
}.

#[export] Instance entry_eq_dec : EqDecision TimelineEntry.
Proof. solve_decision. Defined.

Definition timelineDomain : string := "timeline".
Definition maxTimelineEntries : nat := 50.

(** [entries[i].Status = &s]. *)
Definition with_status (s : string) (e : TimelineEntry) : TimelineEntry :=
  mkEntry (ID e) (Time e) (Type_ e) (Title e) (Detail e) (Severity e) (Importance e) (Risk e)
    (ProposedAction e) (Some s) (RetryCount e) (ParentID e) (SudoersInstruction e).

(** The entry [AppendTimeline] stores: identifier and time filled in when unset. *)
Definition filled (zone : Z → Z) (t_id t_time : Z) (e : TimelineEntry) : TimelineEntry :=
  mkEntry (if String.eqb (ID e) "" then Type_ e +:+ "-" +:+ Itoa t_id else ID e)
    (if String.eqb (Time e) "" then Format zone t_time else Time e)
    (Type_ e) (Title e) (Detail e) (Severity e) (Importance e) (Risk e)
    (ProposedAction e) (Status e) (RetryCount e) (ParentID e) (SudoersInstruction e).

(** Prepending and trimming, as every writer does. *)
Definition prepend (new entries : list TimelineEntry) : list TimelineEntry :=
  let entries := new ++ entries in
  if (maxTimelineEntries <? length entries)%nat then take maxTimelineEntries entries else entries.

Definition find_id (id : string) (entries : list TimelineEntry) : option (nat * TimelineEntry) :=
  list_find (λ e, ID e = id) entries.

(** An entry of [report_findings]'s input. *)
Record Finding := mkFinding {
  f_Type : string; f_Title : string; f_Detail : string; f_Severity : string;
  f_Risk : string; f_ProposedAction : string; f_Status : string;
}.

Definition ptrOrNil (s : string) : option string := if String.eqb s "" then None else Some s.

(** The entry made of the [i]-th finding. *)
Definition finding_entry (zone : Z → Z) (now : Z) (i : nat) (f : Finding) : TimelineEntry :=
  mkEntry (f_Type f +:+ "-" +:+ Itoa now +:+ "-" +:+ Itoa (Z.of_nat i)) (Format zone now)
    (f_Type f) (f_Title f) (f_Detail f) (f_Severity f) "" (f_Risk f)
    (ptrOrNil (f_ProposedAction f)) (ptrOrNil (f_Status f)) 0 "" None.

(** [hasAttention]: a critical entry, or a pending approval of medium or high risk. *)
Definition needs_attention (e : TimelineEntry) : bool :=
  String.eqb (Severity e) "critical" ||
  (String.eqb (Type_ e) "approval" &&
   match Status e with Some s => String.eqb s "pending" | None => false end &&
   (String.eqb (Risk e) "high" || String.eqb (Risk e) "medium")).

Definition hasAttention (timeline : list TimelineEntry) : bool := existsb needs_attention timeline.

(** [osLabel] of [status]. *)
Definition osLabel (distribution version os : string) : string :=
  if negb (String.eqb distribution "") && negb (String.eqb version "") then distribution +:+ " " +:+ version
  else if negb (String.eqb distribution "") then distribution
  else os.

Section Ops.
Context `{!Json (list TimelineEntry), !MemStore M} (zone : Z → Z).

(** [_ = d.ReadCurrent(&entries)]: what is in [entries] afterwards. *)
Definition entries_ : W M (list TimelineEntry) :=
  r ← read_doc timelineDomain; mret r.1.

Definition AppendTimeline (e : TimelineEntry) : W M (option mem_error) :=
  entries ← entries_;
  t_id ← (if String.eqb (ID e) "" then now_ else mret 0);
  t_time ← (if String.eqb (Time e) "" then now_ else mret 0);
  write_doc timelineDomain (prepend [filled zone t_id t_time e] entries).

(** [PatchTimeline]: reports whether the timeline could not be read or written. *)
Definition PatchTimeline (id newStatus : string) : W M bool :=
  '(entries, ok) ← (read_doc timelineDomain : W M (list TimelineEntry * bool));
  if negb ok then mret true
  else match find_id id entries with
       | Some (i, e) =>
           r ← write_doc timelineDomain (<[i := with_status newStatus e]> entries);
           mret (match r with Some _ => true | None => false end)
       | None => mret false
       end.

Definition RemoveFromTimeline (id : string) : W M bool :=
  '(entries, ok) ← (read_doc timelineDomain : W M (list TimelineEntry * bool));
  if negb ok then mret true
  else
    let filtered := filter (λ e, ID e ≠ id) entries in
    if (length filtered =? length entries)%nat then mret false
    else
      r ← write_doc timelineDomain filtered;
      mret (match r with Some _ => true | None => false end).

(** The [report_findings] handler: findings are prepended one by one, so the last
    is on top. *)
Definition report_findings (findings : list Finding) : W M (option mem_error) :=
  entries ← entries_;
  now ← now_;
  write_doc timelineDomain (prepend (rev (imap (finding_entry zone now) findings)) entries).

(** [findingsapi]'s [resolve]: found, not a finding, and whether the write failed. *)
Definition resolve (id : string) : W M (bool * bool * bool) :=
  entries ← entries_;
  match find_id id entries with
  | None => mret (false, false, false)
  | Some (i, e) =>
      if String.eqb (Severity e) "" then mret (true, true, false)
      else
        r ← write_doc timelineDomain (<[i := with_status "resolved" e]> entries);
        mret (true, false, match r with Some _ => true | None => false end)
  end.

End Ops.

(** ** Paths of the operator endpoints *)

(** [strings.SplitN(path, "/", 2)] when it has two parts. *)
Fixpoint split_slash (s : string) : option (string * string) :=
  match s with
  | "" => None
  | String c s' =>
      if Ascii.eqb c "/" then Some ("", s')
      else '(a, b) ← split_slash s'; Some (String c a, b)
  end.

(** The identifier of [/<prefix>/{id}/<action>]. *)
Definition path_id (prefix action path : string) : option string :=
  '(id, rest) ← split_slash (TrimPrefix path prefix);
  if String.eqb rest action && negb (String.eqb id "") then Some id else None.

Definition StatusOK : Z := 200.
Definition StatusCreated : Z := 201.
Definition StatusNoContent : Z := 204.
Definition StatusBadRequest : Z := 400.
Definition StatusNotFound : Z := 404.
Definition StatusMethodNotAllowed : Z := 405.
Definition StatusConflict : Z := 409.
Definition StatusInternalServerError : Z := 500.

Section Findings.
Context `{!Json (list TimelineEntry), !MemStore M}.

(** POST /findings/{id}/resolve: the response code. *)
Definition findings_handler (method path : string) : W M Z :=
  if negb (String.eqb method "POST") then mret StatusMethodNotAllowed
  else match path_id "/findings/" "resolve" path with
  | None => mret StatusNotFound
  | Some id =>
      '(found, notAFinding, failed) ← resolve id;
      mret (if failed : bool then StatusInternalServerError
            else if negb found then StatusNotFound
            else if notAFinding : bool then StatusBadRequest
            else StatusOK)
  end.

End Findings.

End Timeline.
