(* ===== verification/WorldFacts.v ===== *)
(** * Frame lemmas for computations in the world

    [keeps_attrs c]: running [c] leaves every attribute as it was.  [quiet c]: it
    starts no process.  Both are closed under sequencing; the hint database [world]
    discharges them for the operations of the memory, the notifier and the
    timeline. *)

From S2P Require Import Prelude GoStrings GoTime Json Memory MemStore World Timeline.

(** The store accepts every write of a value that encodes. *)
Class Reliable (M : Type) `{!MemStore M} : Prop := {
  set_reliable A (J : Json A) key (v : A) m : is_Some (Marshal v) → (SetAttr key v m).1 = None;
  del_reliable key m : (DelAttr key m).1 = None;
}.

Create HintDb world.

Section Frame.
Context {RJ : RawJson} `{!MemStore M, !MemStoreLaws M}.

Definition keeps_attrs {A} (c : W M A) : Prop := ∀ w, AllAttrs (w_mem (c w).2) = AllAttrs (w_mem w).
Definition quiet {A} (c : W M A) : Prop := ∀ w, w_run (c w).2 = w_run w.

Lemma keeps_attrs_ret {A} (a : A) : keeps_attrs (mret a).
Proof. by intros w. Qed.

Lemma keeps_attrs_bind {A B} (c : W M A) (f : A → W M B) :
  keeps_attrs c → (∀ a, keeps_attrs (f a)) → keeps_attrs (c ≫= f).
Proof.
  intros Hc Hf w. unfold mbind, W_bind. specialize (Hc w). destruct (c w) as [a w']. simpl in *.
  by rewrite Hf.
Qed.

Lemma keeps_attrs_now : keeps_attrs now_.
Proof. by intros w. Qed.

Lemma keeps_attrs_uuid : keeps_attrs newUUID.
Proof. by intros w. Qed.

Lemma keeps_attrs_get {A} {J : Json A} key : keeps_attrs (get_attr (A := A) key).
Proof. by intros w. Qed.

Lemma keeps_attrs_read {A} {J : Json A} name : keeps_attrs (read_doc (A := A) name).
Proof. by intros w. Qed.

Lemma keeps_attrs_log s b : keeps_attrs (log_note s b).
Proof. by intros w. Qed.

Lemma keeps_attrs_write {A} {J : Json A} name (v : A) : keeps_attrs (write_doc name v).
Proof.
  intros w. unfold write_doc, on_mem, mbind, W_bind. simpl.
  destruct (WriteDoc _ _ _ _) as [e m] eqn:E. simpl. by eapply write_attrs.
Qed.

Lemma quiet_ret {A} (a : A) : quiet (mret a).
Proof. by intros w. Qed.

Lemma quiet_bind {A B} (c : W M A) (f : A → W M B) :
  quiet c → (∀ a, quiet (f a)) → quiet (c ≫= f).
Proof.
  intros Hc Hf w. unfold mbind, W_bind. specialize (Hc w). destruct (c w) as [a w']. simpl in *.
  by rewrite Hf.
Qed.

Lemma quiet_now : quiet now_.
Proof. by intros w. Qed.

Lemma quiet_uuid : quiet newUUID.
Proof. by intros w. Qed.

Lemma quiet_on_mem {A} (f : M → A * M) : quiet (on_mem f).
Proof. intros w. unfold on_mem. by destruct (f (w_mem w)). Qed.

Lemma quiet_get {A} {J : Json A} key : quiet (get_attr (A := A) key).
Proof. by intros w. Qed.

Lemma quiet_all : quiet all_attrs.
Proof. by intros w. Qed.

Lemma quiet_read {A} {J : Json A} name : quiet (read_doc (A := A) name).
Proof. by intros w. Qed.

Lemma quiet_log s b : quiet (log_note s b).
Proof. by intros w. Qed.

End Frame.

#[export] Hint Resolve keeps_attrs_ret keeps_attrs_now keeps_attrs_uuid keeps_attrs_get
  keeps_attrs_read keeps_attrs_log keeps_attrs_write : world.
#[export] Hint Resolve quiet_ret quiet_now quiet_uuid quiet_on_mem quiet_get quiet_all
  quiet_read quiet_log : world.

(** Walk through a computation by its binds, matches and tests. *)
Ltac frame_world :=
  repeat first
    [ solve [eauto with world]
    | apply keeps_attrs_bind | apply quiet_bind
    | progress intros
    | match goal with
      | |- _ (match ?x with _ => _ end) => destruct x
      | |- _ (if ?x then _ else _) => destruct x
      end ].

Section Timeline.
Context {RJ : RawJson} `{!MemStore M, !MemStoreLaws M}.
Context `{!Json (list Timeline.TimelineEntry), !Json notification}.

Lemma keeps_attrs_notify s b : keeps_attrs (M := M) (Notify s b).
Proof. unfold Notify. frame_world. Qed.

Lemma keeps_attrs_patch id st : keeps_attrs (M := M) (Timeline.PatchTimeline id st).
Proof. unfold Timeline.PatchTimeline. frame_world. Qed.

Lemma keeps_attrs_remove id : keeps_attrs (M := M) (Timeline.RemoveFromTimeline id).
Proof. unfold Timeline.RemoveFromTimeline. frame_world. Qed.

Lemma keeps_attrs_entries : keeps_attrs (M := M) Timeline.entries_.
Proof. unfold Timeline.entries_. frame_world. Qed.

Lemma keeps_attrs_append zone e : keeps_attrs (M := M) (Timeline.AppendTimeline zone e).
Proof. unfold Timeline.AppendTimeline, Timeline.entries_. frame_world. Qed.

Lemma quiet_write {A} {J : Json A} name (v : A) : quiet (M := M) (write_doc name v).
Proof. unfold write_doc. frame_world. Qed.

Lemma quiet_set {A} {J : Json A} key (v : A) : quiet (M := M) (set_attr key v).
Proof. apply quiet_on_mem. Qed.

Lemma quiet_del key : quiet (M := M) (del_attr key).
Proof. apply quiet_on_mem. Qed.

End Timeline.

#[export] Hint Resolve keeps_attrs_notify keeps_attrs_patch keeps_attrs_remove keeps_attrs_entries
  keeps_attrs_append quiet_write quiet_set quiet_del : world.

(** ** The timeline is bounded and newest first *)

Section Bounded.
Context {RJ : RawJson} `{!MemStore M, !MemStoreLaws M}.
Context `{!Json (list Timeline.TimelineEntry), !JsonRoundtrip (list Timeline.TimelineEntry)} (zone : Z → Z).

Lemma prepend_length new entries : (length (Timeline.prepend new entries) ≤ Timeline.maxTimelineEntries)%nat.
Proof.
  unfold Timeline.prepend. destruct (Nat.ltb_spec Timeline.maxTimelineEntries (length (new ++ entries))); [|lia].
  rewrite length_take. lia.
Qed.

Lemma prepend_take new entries :
  Timeline.prepend new entries = take Timeline.maxTimelineEntries (new ++ entries).
Proof.
  unfold Timeline.prepend. destruct (Nat.ltb_spec Timeline.maxTimelineEntries (length (new ++ entries))); [done|].
  by rewrite take_ge.
Qed.

End Bounded.

(** ** Identifiers *)

Lemma hex_digit_inj a b : 0 ≤ a < 16 → 0 ≤ b < 16 → hex_digit a = hex_digit b → a = b.
Proof.
  intros Ha Hb E. assert (∀ n, n ∈ seqZ 0 16 → ∀ m, m ∈ seqZ 0 16 → hex_digit n = hex_digit m → n = m) as H.
  { intros n Hn m Hm. revert m Hm. apply (Forall_forall (λ m, hex_digit n = hex_digit m → n = m)). revert n Hn.
    apply Forall_forall. repeat constructor; vm_compute; done. }
  apply H; [apply elem_of_seqZ; lia..|done].
Qed.

Definition byte (b : Z) : Prop := 0 ≤ b < 256.

Lemma bytes_hex_inj bs bs' : Forall byte bs → Forall byte bs' → length bs = length bs' → bytes_hex bs = bytes_hex bs' → bs = bs'.
Proof.
  unfold byte. intros H. revert bs'. induction H as [|b bs Hb Hbs IH]; intros [|b' bs'] H' Hl E; try done.
  apply Forall_cons in H' as [Hb' H']. cbn in E. injection E as E1 E2 E3. injection Hl as Hl. f_equal; [|by apply IH].
  pose proof (Z.mod_pos_bound b 16 eq_refl). pose proof (Z.mod_pos_bound b' 16 eq_refl).
  assert (0 ≤ b / 16 < 16 ∧ 0 ≤ b' / 16 < 16) as [? ?] by (split; split; [apply Z.div_pos|apply Z.div_lt_upper_bound|apply Z.div_pos|apply Z.div_lt_upper_bound]; lia).
  apply hex_digit_inj in E1; [|lia..]. apply hex_digit_inj in E2; [|lia..].
  rewrite (Z.div_mod b 16), (Z.div_mod b' 16) by lia. congruence.
Qed.

Lemma bytes_hex_length bs : String.length (bytes_hex bs) = (2 * length bs)%nat.
Proof. induction bs as [|b bs IH]; [done|]. cbn [bytes_hex]. rewrite length_append, IH. cbn [String.length byte_hex length]. lia. Qed.

Lemma append_split s s' t t' : String.length s = String.length s' → s +:+ t = s' +:+ t' → s = s' ∧ t = t'.
Proof.
  revert s'. induction s as [|c s IH]; intros [|c' s'] Hl E; try done. injection Hl as Hl. injection E as -> E.
  apply IH in E as [-> ->]; done.
Qed.

Lemma stamped_bytes b : byte b → byte (version_bits b) ∧ byte (variant_bits b).
Proof.
  intros Hb. assert (Forall (λ b, 0 ≤ version_bits b < 256 ∧ 0 ≤ variant_bits b < 256) (seqZ 0 256)) as H.
  { apply (bool_decide_unpack _). vm_compute. exact I. }
  rewrite Forall_forall in H. apply H, elem_of_seqZ. unfold byte in Hb. lia.
Qed.

Lemma stamp_bytes bs : Forall byte bs → Forall byte (stamp bs) ∧ length (stamp bs) = length bs.
Proof.
  intros H. unfold stamp. rewrite !length_alter. split; [|done]. apply Forall_alter; [apply Forall_alter; [done|]|].
  - intros x Hx Hb. by apply stamped_bytes.
  - intros x Hx Hb. by apply stamped_bytes.
Qed.

Lemma hexes_split bs bs' t t' : Forall byte bs → Forall byte bs' → length bs = length bs' →
  bytes_hex bs +:+ t = bytes_hex bs' +:+ t' → bs = bs' ∧ t = t'.
Proof.
  intros H H' Hl E. apply append_split in E as [E ->]; [|by rewrite !bytes_hex_length, Hl]. split; [by apply bytes_hex_inj|done].
Qed.

Lemma drop_join {A} m n (x y : list A) : take n (drop m x) = take n (drop m y) → drop (m + n) x = drop (m + n) y → drop m x = drop m y.
Proof. intros Ht Hd. rewrite <- (take_drop n (drop m x)), <- (take_drop n (drop m y)), !drop_drop, Ht. by rewrite Hd. Qed.

(** An identifier determines the random bytes it was made of, the six fixed bits apart. *)
Theorem uuid_determines bs bs' : Forall byte bs → Forall byte bs' → length bs = length bs' →
  format_uuid bs = format_uuid bs' → stamp bs = stamp bs'.
Proof.
  intros H H' Hl E. unfold format_uuid in E. apply stamp_bytes in H as [H Hn]. apply stamp_bytes in H' as [H' Hn'].
  rewrite <- Hn, <- Hn' in Hl. clear Hn Hn'. revert H H' Hl E. generalize (stamp bs), (stamp bs'). clear bs bs'. intros x y H H' Hl E.
  assert (∀ n m, length (take n (drop m x)) = length (take n (drop m y))) as Ht by (intros; rewrite !length_take, !length_drop; lia).
  apply hexes_split in E as [E0 E]; [|by apply Forall_take..|by rewrite !length_take, Hl]. injection E as E.
  do 3 (apply hexes_split in E as [?E E]; [|by apply Forall_take, Forall_drop..|apply Ht]; injection E as E).
  apply bytes_hex_inj in E; [|by apply Forall_drop..|by rewrite !length_drop, Hl].
  apply (drop_join 0 4); [done|]. apply (drop_join 4 2); [done|]. apply (drop_join 6 2); [done|]. by apply (drop_join 8 2).
Qed.
