(* ===== verification/LoginFacts.v ===== *)
(** * Login histories and the brute-force alert

    The active sessions are those opened and not closed by the signals received; a
    source alerts at every multiple of the threshold, unless it has ever logged in. *)

From S2P Require Import Prelude GoStrings GoTime GoText Json Memory MemStore Incidents World KeyStore History Timeline WorldFacts NetIP LoginMonitor.

Import LoginMonitor.

Section Login.
Context `{!RawJson, !Json (list LoginEvent), !Json SkillState.State, !Json (list Incidents.Incident), !Json notification, !MemStore M}.
Context `{!MemStoreLaws M, !Reliable M, !JsonRoundtrip (list LoginEvent), !JsonCompact (list LoginEvent)}.
Context (encodes : ∀ h : list LoginEvent, is_Some (Marshal h)).
Context (zone : Z → Z) (LookupAddr LookupHost : string → list string).

(** The history as [ReadHistory] gives it. *)
Definition history_of (m : M) : list LoginEvent :=
  let '(h, ok) := GetAttr (A := list LoginEvent) historyKey m in if ok : bool then h else [].

Lemma read_sessions_run w : (ReadHistory w).1.1 = history_of (w_mem w) ∧ (ReadHistory w).2 = w.
Proof.
  unfold ReadHistory, history_of, all_attrs, mbind, W_bind, mret, W_ret. rewrite get_all. unfold attrs_of.
  destruct (AllAttrs (w_mem w)) as [attrs|]; cbn; [|by rewrite lookup_empty].
  destruct (attrs !! historyKey) as [val|]; [|done]. by destruct (Unmarshal val zero) as [h []].
Qed.

Lemma kept_sessions name w w' : kept name w w' → history_of (w_mem w') = history_of (w_mem w).
Proof. intros K. unfold history_of. rewrite !get_all. unfold attrs_of. by rewrite (kept_attrs _ _ _ K). Qed.

Lemma append_history ev w :
  history_of (w_mem (appendEvent ev w).2) = keep_last maxHistory (history_of (w_mem w) ++ [ev]).
Proof.
  unfold appendEvent, mbind, W_bind. destruct (read_sessions_run w) as [Hh Hw].
  destruct (ReadHistory w) as [[h ok] w1]. cbn [fst snd] in Hh, Hw. subst w1 h.
  unfold set_attr, on_mem. set (v := keep_last maxHistory _).
  pose proof (set_reliable _ _ historyKey v (w_mem w) (encodes v)) as Hr.
  destruct (SetAttr historyKey v (w_mem w)) as [e m'] eqn:Hs. cbn [fst] in Hr. subst e. cbn.
  unfold history_of. by rewrite (get_set _ _ _ _ Hs).
Qed.

Lemma session_check_keeps c prior ev : keeps "" (checkAgainstBaseline zone c prior ev).
Proof.
  unfold checkAgainstBaseline. destruct (DisableUnusualLoginBaseline c); [apply keeps_ret|].
  destruct (deviates c prior ev) as [d|]; [|apply keeps_ret].
  apply keeps_bind; [by apply keeps_escalate|]. intros _. apply keeps_ret.
Qed.

Lemma session_check_same c prior ev w :
  let ev' := (checkAgainstBaseline zone c prior ev w).1 in
  SessionID ev' = SessionID ev ∧ EventType ev' = EventType ev.
Proof.
  unfold checkAgainstBaseline. destruct (DisableUnusualLoginBaseline c); [done|].
  destruct (deviates c prior ev) as [d|]; [|done]. unfold mbind, W_bind. by destruct (escalate _ _ _ _ _).
Qed.

Lemma source_keeps c ev : keeps "" (checkUnusualSource zone c ev).
Proof.
  unfold checkUnusualSource. destruct (unusual_source c ev); [|apply keeps_ret].
  apply keeps_bind; [by apply keeps_notify|]. intros _. apply keeps_bind; [by apply keeps_save|]. intros _. apply keeps_ret.
Qed.

(** Each signal adds one event about its session. *)
Definition adds (id : string) (k : kind) (w w' : world M) : Prop :=
  ∃ ev, SessionID ev = id ∧ event_kind ev = k ∧
        history_of (w_mem w') = keep_last maxHistory (history_of (w_mem w) ++ [ev]).

Lemma adds_append ev w1 w2 id k :
  history_of (w_mem w2) = history_of (w_mem w1) → SessionID ev = id → event_kind ev = k →
  adds id k w1 (appendEvent ev w2).2.
Proof. intros Hh Hid Hk. exists ev. split_and!; [done..|]. by rewrite append_history, Hh. Qed.

Lemma new_known c id info w : adds id Opens w (handleSignal zone LookupAddr LookupHost c (SessionNew id (Some info)) w).2.
Proof.
  cbn [handleSignal]. unfold mbind at 1, W_bind at 1, now_. set (w0 := mkWorld _ _ _ _ _ _ _ _).
  assert (history_of (w_mem w0) = history_of (w_mem w)) as H0 by done.
  set (ev := session_event _ _ _ _ _). assert (SessionID ev = id ∧ event_kind ev = Opens) as [Hid Hkind].
  { unfold ev, session_event. cbn [i_host]. by destruct (enrichSourceInfo _ _ _). }
  unfold mbind at 1, W_bind at 1. destruct (read_sessions_run w0) as [_ Hw].
  destruct (ReadHistory w0) as [[prior ok] w1]. cbn [snd] in Hw. subst w1.
  unfold mbind, W_bind. pose proof (session_check_keeps c prior ev w0) as K. pose proof (session_check_same c prior ev w0) as [Hs Ht].
  destruct (checkAgainstBaseline zone c prior ev w0) as [ev' w2]. cbn [fst snd] in *.
  assert (adds id Opens w (appendEvent ev' w2).2) as (e & H1 & H2 & H3).
  { apply adds_append; [by rewrite (kept_sessions _ _ _ K)|congruence|]. unfold event_kind in *. by rewrite Ht. }
  pose proof (source_keeps c ev' (appendEvent ev' w2).2) as K2.
  destruct (appendEvent ev' w2) as [r w3]. cbn [snd] in *. exists e. split_and!; [done..|]. by rewrite (kept_sessions _ _ _ K2).
Qed.

Lemma signal_history c sig w :
  let w' := (handleSignal zone LookupAddr LookupHost c sig w).2 in
  match sig with
  | SessionNew id _ => adds id Opens w w'
  | SessionRemoved id => adds id Closes w w'
  | OtherSignal => history_of (w_mem w') = history_of (w_mem w)
  end.
Proof.
  destruct sig as [id [info|]|id|]; [apply new_known| | |done].
  - cbn [handleSignal]. unfold mbind, W_bind, now_.
    match goal with |- context [appendEvent ?ev ?w2] =>
      pose proof (adds_append ev w w2 id Opens eq_refl eq_refl eq_refl) as HA; by destruct (appendEvent ev w2) end.
  - cbn [handleSignal]. unfold lastUsernameForSession, mbind, W_bind, now_. destruct (read_sessions_run w) as [_ Hw].
    destruct (ReadHistory w) as [[h ok] w1]. cbn [snd] in Hw. subst w1. unfold mret, W_ret.
    match goal with |- context [appendEvent ?ev ?w2] =>
      pose proof (adds_append ev w w2 id Closes eq_refl eq_refl eq_refl) as HA; by destruct (appendEvent ev w2) end.
Qed.

(** The sessions open after the signals. *)
Definition session_step (s : gset string) (sig : signal) : gset string :=
  match sig with
  | SessionNew id _ => {[id]} ∪ s
  | SessionRemoved id => s ∖ {[id]}
  | OtherSignal => s
  end.

Definition run_signals (c : settings) (sigs : list signal) (w : world M) : world M :=
  foldl (λ w sig, (handleSignal zone LookupAddr LookupHost c sig w).2) w sigs.

Lemma signal_live c sig w :
  (length (history_of (w_mem w)) < maxHistory)%nat →
  let w' := (handleSignal zone LookupAddr LookupHost c sig w).2 in
  live (history_of (w_mem w')) = session_step (live (history_of (w_mem w))) sig ∧
  (length (history_of (w_mem w')) ≤ S (length (history_of (w_mem w))))%nat.
Proof.
  intros Hlen w'. pose proof (signal_history c sig w) as HS. fold w' in HS. clearbody w'.
  assert (∀ id k, adds id k w w' → ∃ ev, SessionID ev = id ∧ event_kind ev = k ∧
    history_of (w_mem w') = history_of (w_mem w) ++ [ev]) as HA.
  { intros id k (ev & Hid & Hk & ->). exists ev. split_and!; [done..|]. apply keep_last_short. rewrite length_app. simpl. lia. }
  destruct sig as [id info|id|]; [apply HA in HS as (ev & Hid & Hk & ->)..|].
  - rewrite live_app, length_app. cbn [foldl length]. unfold live_step. cbn [ev_kind ev_key login_tracked]. rewrite Hk, Hid.
    split; [done|lia].
  - rewrite live_app, length_app. cbn [foldl length]. unfold live_step. cbn [ev_kind ev_key login_tracked]. rewrite Hk, Hid.
    split; [done|lia].
  - rewrite HS. split; [done|lia].
Qed.

Lemma signals_live c sigs w :
  (length (history_of (w_mem w)) + length sigs ≤ maxHistory)%nat →
  live (history_of (w_mem (run_signals c sigs w))) = foldl session_step (live (history_of (w_mem w))) sigs.
Proof.
  revert w. induction sigs as [|sig sigs IH]; intros w Hlen; [done|]. simpl in Hlen |- *.
  destruct (signal_live c sig w) as [Hl Hn]; [lia|]. rewrite IH by lia. by rewrite Hl.
Qed.

(** The signals a watch handles before it ends. *)
Fixpoint received (inputs : list input) : list signal :=
  match inputs with Received sig :: rest => sig :: received rest | _ => [] end.

Lemma watch_signals c inputs w : (watch zone LookupAddr LookupHost c inputs w).2 = run_signals c (received inputs) w.
Proof.
  revert w. induction inputs as [|[sig| |] rest IH]; intros w; [done| |done..]. cbn [watch received]. unfold mbind, W_bind.
  change (run_signals c (sig :: received rest) w) with (run_signals c (received rest) (handleSignal zone LookupAddr LookupHost c sig w).2).
  rewrite <- IH. by destruct (handleSignal _ _ _ c sig w).
Qed.

Lemma bootstrap_live existing w :
  (length (history_of (w_mem w)) + length existing ≤ maxHistory)%nat →
  let w' := (bootstrap LookupAddr LookupHost existing w).2 in
  live (history_of (w_mem w')) = live (history_of (w_mem w)) ∪ list_to_set (i_id <$> existing) ∧
  (length (history_of (w_mem w')) ≤ length (history_of (w_mem w)) + length existing)%nat.
Proof.
  revert w. induction existing as [|s rest IH]; intros w Hlen; [cbn; split; [set_solver|lia]|].
  cbn [bootstrap length] in *. set (stamp := match i_since s with Some t => mret t | None => now_ end).
  unfold mbind, W_bind. assert (w_mem (stamp w).2 = w_mem w) as Hm by (unfold stamp; by destruct (i_since s)).
  destruct (stamp w) as [ts w1]. cbn [snd] in Hm. set (ev := session_event _ _ _ _ _).
  assert (SessionID ev = i_id s ∧ event_kind ev = Opens) as [Hid Hkind].
  { unfold ev, session_event. by destruct (enrichSourceInfo _ _ _). }
  pose proof (append_history ev w1) as Ha. destruct (appendEvent ev w1) as [e w2]. cbn [snd] in Ha.
  rewrite Hm, keep_last_short in Ha by (rewrite length_app; simpl; lia).
  destruct (IH w2) as [Hl Hn]; [rewrite Ha, length_app; simpl; lia|]. rewrite Hl, Ha in *. rewrite length_app in Hn. simpl in Hn.
  split; [|lia]. rewrite live_app. cbn [foldl fmap list_fmap list_to_set]. unfold live_step. cbn [ev_kind ev_key login_tracked].
  rewrite Hkind, Hid. set_solver.
Qed.

(** The sessions a connection announces at once, and the signals it delivers. *)
Definition announced (b : bus) : list SessionInfo :=
  match b_connect b with Some _ => [] | None => existing_sessions b end.
Definition delivered (b : bus) : list signal :=
  match b_connect b with
  | Some _ => []
  | None => match add_matches (b_match b) match_rules with Some _ => [] | None => received (b_inputs b) end
  end.


End Login.

(** ** Failed logins *)

Section Failed.
Context `{!RawJson, !Json (list LoginEvent), !Json (list FailedLoginEvent), !Json SkillState.State, !Json notification, !MemStore M}.
Context `{!MemStoreLaws M, !JsonCompact (list LoginEvent)}.
Context (zone : Z → Z) (LookupAddr LookupHost : string → list string).

(** A failure message of a source: its counter's key and its address. *)
Definition from_source (key ip msg : string) : Prop :=
  ∃ u h r hostname, parseFailureMessage msg = (u, h, r) ∧ u ≠ "" ∧
    enrichSourceInfo LookupAddr LookupHost h = (ip, hostname) ∧
    (if String.eqb ip "" then h else ip) = key ∧ key ≠ "".

(** The notifications and the login history after a computation. *)
Record after_ (w w' : world M) (sent : list (string * string)) : Prop := {
  af_sent : w_sent w' = w_sent w ++ sent;
  af_history : history_of (w_mem w') = history_of (w_mem w);
}.

Lemma after_trans w1 w2 w3 s1 s2 : after_ w1 w2 s1 → after_ w2 w3 s2 → after_ w1 w3 (s1 ++ s2).
Proof. intros [S1 H1] [S2 H2]. split; [by rewrite S2, S1, app_assoc|congruence]. Qed.

Lemma after_nil w w' : w_sent w' = w_sent w → history_of (w_mem w') = history_of (w_mem w) → after_ w w' [].
Proof. intros Hs Hh. split; [by rewrite app_nil_r|done]. Qed.

Lemma append_failed_after ev w : after_ w (appendFailedEvent ev w).2 [].
Proof.
  unfold appendFailedEvent, ReadFailedHistory, all_attrs, mbind, W_bind, mret, W_ret. cbn.
  match goal with |- context [let '(history, _) := ?x in _] => destruct x as [h ok] end.
  unfold set_attr, on_mem. destruct (SetAttr _ _ _) as [e m] eqn:Hs. cbn. apply after_nil; [done|]. cbn.
  unfold history_of. by rewrite (get_set_ne _ _ _ _ _ _ Hs).
Qed.

Lemma write_sent {A} {J : Json A} name (v : A) w : w_sent (write_doc name v w).2 = w_sent w.
Proof. unfold write_doc, on_mem, now_, mbind, W_bind. cbn. by destruct (WriteDoc _ _ _ _). Qed.

Lemma save_sent skill health summary w : w_sent (SkillState.Save zone skill health summary w).2 = w_sent w.
Proof.
  unfold SkillState.Save, set_key, now_, mbind at 1, W_bind at 1. destruct (Marshal _); [|done].
  unfold read_doc, mbind, W_bind. destruct (ReadDoc _ _) as [b ok]. by rewrite write_sent.
Qed.

Lemma notify_after s b w : after_ w (Notify s b w).2 [(s, b)].
Proof.
  split; [|by eapply kept_sessions, (keeps_notify "" s b)].
  unfold Notify, now_, mbind at 1, W_bind at 1. unfold mbind, W_bind.
  match goal with |- context [write_doc ?n ?v ?w0] => pose proof (write_sent n v w0) as Hw; destruct (write_doc n v w0) as [r w1] end.
  cbn [snd] in Hw. cbn. by rewrite Hw.
Qed.

Lemma failed_alert_after ip hostname key username reason count now w :
  ∃ note, after_ w (failed_alert zone ip hostname key username reason count now w).2 [note].
Proof.
  unfold failed_alert, mbind, W_bind.
  match goal with |- context [Notify ?s ?b w] => pose proof (notify_after s b w) as HN; destruct (Notify s b w) as [[] w1] end.
  cbn [snd] in HN. eexists. eapply (after_trans _ w1 _ [_] []); [exact HN|].
  match goal with |- context [SkillState.Save zone ?a ?b ?c w1] =>
    pose proof (save_sent a b c w1) as HS; pose proof (keeps_save zone "" a b c ltac:(done) w1) as K;
    destruct (SkillState.Save zone a b c w1) as [r w2] end.
  cbn [snd] in *. apply after_nil; [done|]. by eapply kept_sessions.
Qed.

(** One failure of a source. *)
Lemma handle_message_step c key ip msg fails w :
  from_source key ip msg →
  let '(fails', w') := handleMessage zone LookupAddr LookupHost c msg fails w in
  let count := (if resets ip (history_of (w_mem w)) then 0 else default 0 (fails !! key)) + 1 in
  fails' !! key = Some count ∧
  ∃ sent, after_ w w' sent ∧ length sent = (if alert_due (FailedLoginThreshold c) count then 1 else 0)%nat.
Proof.
  intros (u & h & r & hostname & Hp & Hu & He & Hkey & Hne). unfold handleMessage. rewrite Hp.
  apply String.eqb_neq in Hu as ->. rewrite He, Hkey. unfold mbind at 1, W_bind at 1, now_.
  set (w0 := mkWorld _ _ _ _ _ _ _ _). set (now := w_clock w (w_ticks w)).
  unfold mbind at 1, W_bind at 1. pose proof (append_failed_after (mkFailed u ip h hostname now "sshd" r) w0) as A1.
  destruct (appendFailedEvent _ w0) as [r1 w1]. cbn [snd] in A1. apply String.eqb_neq in Hne as ->.
  unfold mbind at 1, W_bind at 1, resetIfSucceeded, mbind at 1, W_bind at 1.
  destruct (read_sessions_run w1) as [Hh Hw]. pose proof Hh as Hh'.
  destruct (ReadHistory w1) as [[hist ok] w1'] eqn:ER. cbn [fst snd] in *. subst w1'. unfold mret at 1, W_ret at 1.
  assert (ok && resets ip hist = resets ip (history_of (w_mem w))) as ->.
  { change (history_of (w_mem w)) with (history_of (w_mem w0)). rewrite <-(af_history _ _ _ A1), <-Hh.
    destruct ok; [done|]. assert (hist = []) as ->.
    { clear -ER. unfold ReadHistory, all_attrs, mbind, W_bind, mret, W_ret in ER.
      destruct (AllAttrs (w_mem w1)) as [attrs|]; [|by injection ER as <-].
      destruct (attrs !! historyKey); [|discriminate ER].
      destruct (Unmarshal _ _) as [? []]; [discriminate ER|by injection ER as <-]. }
    unfold resets. cbn. by rewrite andb_false_r. }
  set (fails1 := if resets _ _ then _ else _).
  assert (default 0 (fails1 !! key) = (if resets ip (history_of (w_mem w)) then 0 else default 0 (fails !! key))) as Hc.
  { unfold fails1. destruct (resets _ _); [by rewrite lookup_delete_eq|done]. }
  rewrite Hc. set (count := _ + 1). destruct (alert_due (FailedLoginThreshold c) count).
  - unfold mbind, W_bind. destruct (failed_alert_after ip hostname key u r count now w1) as [note A2].
    destruct (failed_alert _ _ _ _ _ _ _ _ w1) as [[] w2]. cbn [snd] in A2. cbn. rewrite lookup_insert_eq. split; [done|].
    exists [note]. split; [|done]. apply (after_trans w w1 w2 [] [note]); [|done]. destruct A1. by split.
  - cbn. rewrite lookup_insert_eq. split; [done|]. exists []. split; [|done]. destruct A1. by split.
Qed.

Definition run_failures (c : settings) (msgs : list string) (st : gmap string Z * world M) : gmap string Z * world M :=
  foldl (λ st msg, handleMessage zone LookupAddr LookupHost c msg st.1 st.2) st msgs.

(** A source that has logged in can guess passwords unnoticed: once one of the last
    hundred events of the login history is a login from an address, no number of
    failures from that address raises an alert, however long before the login was. *)
Theorem brute_force_masked c key ip msgs fails w :
  2 ≤ FailedLoginThreshold c → resets ip (history_of (w_mem w)) = true → Forall (from_source key ip) msgs →
  w_sent (run_failures c msgs (fails, w)).2 = w_sent w.
Proof.
  intros Ht Hr HF. revert fails w Hr. induction HF as [|msg msgs Hm HF IH]; intros fails w Hr; [done|].
  unfold run_failures in *. cbn [foldl fst snd].
  pose proof (handle_message_step c key ip msg fails w Hm) as HS.
  destruct (handleMessage _ _ _ c msg fails w) as [fails1 w1]. destruct HS as [_ (sent & [As Ah] & Hl)].
  rewrite Hr in Hl. rewrite IH by (by rewrite Ah). rewrite As.
  assert (alert_due (FailedLoginThreshold c) (0 + 1) = false) as Ha.
  { unfold alert_due. destruct (Z.leb_spec (FailedLoginThreshold c) (0 + 1)); [lia|]. by rewrite andb_false_r. }
  rewrite Ha in Hl. destruct sent; [by rewrite app_nil_r|done].
Qed.

Lemma alert_due_mod t k : 0 < t → 0 < k → alert_due t k = (k mod t =? 0).
Proof.
  intros Ht Hk. unfold alert_due. destruct (Z.ltb_spec 0 t); [|lia]. cbn [andb].
  destruct (Z.leb_spec t k) as [Hle|Hlt]; cbn [andb].
  - rewrite Z.rem_mod_nonneg by lia. f_equal. rewrite Zminus_mod, Z_mod_same_full, Z.sub_0_r, Z.mod_mod by lia. done.
  - symmetry. apply Z.eqb_neq. rewrite Z.mod_small by lia. lia.
Qed.

(** For a source without a login in the last hundred events, an alert is sent at
    every multiple of the threshold and only then: [n] failures in a row send
    [n / threshold] notifications. *)
Theorem brute_force_alerts c key ip msgs w :
  0 < FailedLoginThreshold c → resets ip (history_of (w_mem w)) = false → Forall (from_source key ip) msgs →
  Z.of_nat (length (w_sent (run_failures c msgs (∅, w)).2)) =
  Z.of_nat (length (w_sent w)) + Z.of_nat (length msgs) / FailedLoginThreshold c.
Proof.
  intros Ht Hr HF. set (t := FailedLoginThreshold c) in *.
  cut (∀ fails w k, default 0 (fails !! key) = k → 0 ≤ k → resets ip (history_of (w_mem w)) = false →
    Z.of_nat (length (w_sent (run_failures c msgs (fails, w)).2)) =
    Z.of_nat (length (w_sent w)) + ((k + Z.of_nat (length msgs)) / t - k / t)).
  { intros HG. rewrite (HG ∅ w 0); [|by rewrite lookup_empty|lia|done]. rewrite Z.div_0_l by lia. by rewrite Z.add_0_l, Z.sub_0_r. }
  clear w Hr. induction HF as [|msg msgs Hm HF IH]; intros fails w k Hk Hpos Hr.
  { simpl. rewrite Z.add_0_r. lia. }
  unfold run_failures in *. cbn [foldl fst snd length].
  pose proof (handle_message_step c key ip msg fails w Hm) as HS.
  destruct (handleMessage _ _ _ c msg fails w) as [fails1 w1]. rewrite Hr, Hk in HS. fold t in HS.
  destruct HS as [Hc (sent & [As Ah] & Hl)].
  rewrite (IH fails1 w1 (k + 1)); [|by rewrite Hc|lia|by rewrite Ah]. rewrite As, length_app, Hl.
  rewrite alert_due_mod by lia. replace (k + Z.of_nat (S (length msgs))) with (k + 1 + Z.of_nat (length msgs)) by lia.
  enough ((k + 1) / t = k / t + (if (k + 1) mod t =? 0 then 1 else 0)) as HE.
  { rewrite HE. destruct (_ =? 0); lia. }
  pose proof (Z.div_mod k t). pose proof (Z.div_mod (k + 1) t). pose proof (Z.mod_pos_bound k t). pose proof (Z.mod_pos_bound (k + 1) t).
  destruct (Z.eqb_spec ((k + 1) mod t) 0) as [E|E]; nia.
Qed.

End Failed.
