(* ===== verification/MonitorExamples.v ===== *)
(** * The monitors on a concrete host *)

From S2P Require Import Prelude GoStrings GoTime GoText Json Memory MemoryFacts MemStore Incidents MemoryExamples World KeyStore History.
From S2P Require Import Timeline WorldFacts NetIP ConnMonitor ConnFacts LoginMonitor LoginFacts.

#[local] Existing Instance ConnMonitor.event_eq_dec.
#[local] Existing Instance LoginMonitor.login_eq_dec.

#[local] Instance conn_countable : Countable ConnMonitor.ConnEvent.
Proof.
  apply (inj_countable'
    (λ e : ConnMonitor.ConnEvent, let '(ConnMonitor.mkEvent a b c d e f g h i j k l m) := e in
       ((a, b, c, d, e, f, g), (h, i, j, k, l, m)))
    (λ '((a, b, c, d, e, f, g), (h, i, j, k, l, m)), ConnMonitor.mkEvent a b c d e f g h i j k l m)).
  by intros [].
Defined.
#[local] Instance login_countable : Countable LoginMonitor.LoginEvent.
Proof.
  apply (inj_countable'
    (λ e : LoginMonitor.LoginEvent, let '(LoginMonitor.mkLogin a b c d e f g h i j k l m) := e in
       ((a, b, c, d, e, f, g), (h, i, j, k, l, m)))
    (λ '((a, b, c, d, e, f, g), (h, i, j, k, l, m)), LoginMonitor.mkLogin a b c d e f g h i j k l m)).
  by intros [].
Defined.
#[local] Instance failed_eq_dec : EqDecision LoginMonitor.FailedLoginEvent.
Proof. solve_decision. Defined.
#[local] Instance failed_countable : Countable LoginMonitor.FailedLoginEvent.
Proof.
  apply (inj_countable'
    (λ e : LoginMonitor.FailedLoginEvent, let '(LoginMonitor.mkFailed a b c d e f g) := e in (a, b, c, d, e, f, g))
    (λ '(a, b, c, d, e, f, g), LoginMonitor.mkFailed a b c d e f g)).
  by intros [].
Defined.
#[local] Instance skill_eq_dec : EqDecision SkillState.State.
Proof. solve_decision. Defined.
#[local] Instance skill_countable : Countable SkillState.State.
Proof.
  apply (inj_countable' (λ s : SkillState.State, let '(SkillState.mkState a b c d) := s in (a, b, c, d))
    (λ '(a, b, c, d), SkillState.mkState a b c d)). by intros [].
Defined.
#[local] Instance note_eq_dec : EqDecision notification.
Proof. solve_decision. Defined.
#[local] Instance note_countable : Countable notification.
Proof.
  apply (inj_countable' (λ n, (Subject n, Body n, NoteTime n)) (λ '(a, b, c), mkNote a b c)). by intros [].
Defined.

#[local] Existing Instance CountableJson.raw_json.
#[local] Existing Instance CountableJson.raw_json_roundtrip.
#[local] Existing Instance MemoryExamples.json_ledger.
#[local] Instance json_conns : Json (list ConnMonitor.ConnEvent) := CountableJson.json [].
#[local] Instance json_conns_roundtrip : JsonRoundtrip (list ConnMonitor.ConnEvent) := CountableJson.json_roundtrip _.
#[local] Instance json_conns_compact : JsonCompact (list ConnMonitor.ConnEvent) := CountableJson.json_compact _.
#[local] Instance json_logins : Json (list LoginMonitor.LoginEvent) := CountableJson.json [].
#[local] Instance json_logins_roundtrip : JsonRoundtrip (list LoginMonitor.LoginEvent) := CountableJson.json_roundtrip _.
#[local] Instance json_logins_compact : JsonCompact (list LoginMonitor.LoginEvent) := CountableJson.json_compact _.
#[local] Instance json_failed : Json (list LoginMonitor.FailedLoginEvent) := CountableJson.json [].
#[local] Instance json_skill : Json SkillState.State := CountableJson.json (SkillState.mkState "" "" "" "").
#[local] Instance json_note : Json notification := CountableJson.json (mkNote "" "" 0).
#[local] Instance demo_mem : MemStore Store.Store := store_mem false None false.
#[local] Instance demo_laws : MemStoreLaws Store.Store := store_mem_laws false None false.
#[local] Instance demo_total : RawTotal Store.Store := store_raw_total false None false.

#[local] Instance demo_reliable : Reliable Store.Store.
Proof.
  split.
  - intros A J key v m [doc Hd]. cbn. unfold Store.on_attrs, Attrs.Set_. cbn.
    destruct (Attrs.load_attrs _ _) as [old attrs]. by rewrite Hd.
  - intros key m. cbn. unfold Store.on_attrs, Attrs.Delete. cbn.
    destruct (Attrs.load_attrs _ _) as [old attrs]. by destruct (attrs !! key).
Qed.

Definition demo_world : world Store.Store :=
  mkWorld fresh_mem (λ n, t0 + Z.of_nat n) 0 (λ n, Itoa (Z.of_nat n)) 0 [] (λ _ _, ("", None)) [].

(** ** Connections *)

Import ConnMonitor.

Definition ssh : Conn := mkConn "tcp" "10.0.0.2" 22 "10.0.0.9" 50000 "ESTAB" "812" "sshd".
Definition web : Conn := mkConn "tcp" "10.0.0.2" 40000 "93.184.216.34" 443 "ESTAB" "900" "curl".
Definition conn_cfg : ConnMonitor.settings := ConnMonitor.mkSettings "10s" 100 false 8080.

Definition poll (conns : list Conn) (m : Monitor) (w : world Store.Store) :=
  PollOnce map_to_list pacific (Some conns) m w.

Lemma demo_clock : clock_ok (M := Store.Store) (mkWorld fresh_mem (λ _, t0) 0 (λ n, Itoa (Z.of_nat n)) 0 [] (λ _ _, ("", None)) []).
Proof.
  intros n. split; [split; vm_compute; discriminate|]. split; [vm_compute; reflexivity|]. apply fresh_past.
Qed.

Definition still_world : world Store.Store :=
  mkWorld fresh_mem (λ _, t0) 0 (λ n, Itoa (Z.of_nat n)) 0 [] (λ _ _, ("", None)) [].

Definition keyed_ssh : gmap string Conn := by_key [ssh].

Lemma diff_witness :
  keys_with (Diff map_to_list keyed_ssh (by_key [web]) t0).1 = dom (by_key [web]) ∖ dom keyed_ssh.
Proof.
  pose proof (diff_exact map_to_list (λ m, reflexivity _) keyed_ssh (by_key [web]) t0 (by_key_keyed _) (by_key_keyed _)) as HD.
  destruct (Diff map_to_list keyed_ssh (by_key [web]) t0) as [opened closed]. exact (proj1 HD).
Defined.

(** What the agent left behind: a history with two open connections. *)
Definition left_behind : world Store.Store := (poll [ssh; web] (NewWithGatherer conn_cfg) still_world).2.

(** All snapshots are from the one instant the clock shows. *)
Lemma still_clock (w : world Store.Store) : w_clock w = (λ _, t0) →
  forallb (String.eqb (Domain.snapshot_name t0)) (map_to_list (default ∅ (Store.s_domains (w_mem w) !! networkDomain))).*1 = true → clock_ok w.
Proof.
  intros Hc Hd n. rewrite Hc. split; [split; vm_compute; discriminate|]. split; [vm_compute; reflexivity|].
  intros name ns (e & He & _) Hne. destruct Hne. rewrite forallb_forall in Hd. symmetry. apply String.eqb_eq, Hd.
  apply list_elem_of_In, list_elem_of_fmap. exists (name, e). split; [reflexivity|]. by apply elem_of_map_to_list.
Qed.

Definition polled (conns : list Conn) (m : Monitor) (w : world Store.Store) : Monitor * world Store.Store :=
  let '((_, _, m), w) := poll conns m w in (m, w).

Lemma watch_on seen m w conns : watched map_to_list pacific (NewWithGatherer conn_cfg) left_behind seen m w → clock_ok w →
  (let '((e, logged, _), _) := poll conns m w in
   match e, logged with Some evs, None => Z.of_nat (length (ConnFacts.history_of (w_mem w) ++ evs)) <=? historyLimit m | _, _ => false end) = true →
  watched map_to_list pacific (NewWithGatherer conn_cfg) left_behind (seen ++ [conns]) (polled conns m w).1 (polled conns m w).2.
Proof.
  intros Hw Hc. unfold polled. destruct (poll conns m w) as [[[[evs|] [err|]] m'] w'] eqn:E; try done.
  intros Hl%Z.leb_le. by eapply watched_poll.
Qed.

Definition first_poll := polled [ssh] (NewWithGatherer conn_cfg) left_behind.

(** The restarted agent sees only the first connection: the second, which it never saw,
    stays active. *)
Lemma tracks_witness :
  let active := connEventKey <$> ActiveConnections (ConnFacts.history_of (w_mem first_poll.2)) in
  NoDup active ∧ Key ssh ∈ active ∧ Key web ∈ active.
Proof.
  assert (watched map_to_list pacific (NewWithGatherer conn_cfg) left_behind ([] ++ [[ssh]]) first_poll.1 first_poll.2) as Hw.
  { apply (watch_on [] (NewWithGatherer conn_cfg) left_behind [ssh]); [constructor|apply still_clock; vm_compute; reflexivity|vm_compute; reflexivity]. }
  destruct (poll_tracks map_to_list (λ m, reflexivity _) pacific conn_cfg left_behind [] [ssh] first_poll.1 first_poll.2 Hw) as [Hn Hk].
  split; [exact Hn|]. split; apply Hk; [left; by left|]. right. split.
  - assert (connEventKey <$> ActiveConnections (ConnFacts.history_of (w_mem left_behind)) = [Key ssh; Key web]) as -> by (vm_compute; reflexivity).
    by right; left.
  - intros s ->%list_elem_of_singleton. intros (c & E & ->%list_elem_of_singleton)%list_elem_of_fmap. vm_compute in E. discriminate.
Defined.

Lemma ghosts_witness :
  ∃ events m' w', poll [ssh] (NewWithGatherer conn_cfg) still_world = ((Some events, None, m'), w') ∧
    ∀ k, k ∈ connEventKey <$> ActiveConnections (ConnFacts.history_of (w_mem w')) ↔
         k ∈ connEventKey <$> ActiveConnections (ConnFacts.history_of (w_mem still_world)) ∨ k ∈ Key <$> [ssh].
Proof.
  destruct (poll [ssh] (NewWithGatherer conn_cfg) still_world) as [[[ev e] m'] w'] eqn:Hp.
  assert (∃ evs, ev = Some evs ∧ e = None ∧ length evs = 1%nat) as (evs & -> & -> & Hlen).
  { assert ((ev, e) = (poll [ssh] (NewWithGatherer conn_cfg) still_world).1.1) as Hx by (rewrite Hp; reflexivity).
    vm_compute in Hx. injection Hx as -> ->. eexists. split; [reflexivity|]. split; reflexivity. }
  exists evs, m', w'. split; [reflexivity|].
  apply (restart_ghosts map_to_list (λ m, reflexivity _) pacific [ssh] conn_cfg still_world evs m' w' Hp demo_clock).
  rewrite length_app, Hlen. vm_compute. discriminate.
Defined.

Lemma familiar_witness :
  checkAgainstBaseline pacific conn_cfg [newEvent web EventOpen t0] (newEvent web EventOpen (t0 + Minute)) demo_world =
  (newEvent web EventOpen (t0 + Minute), demo_world).
Proof.
  apply (familiar_quiet pacific conn_cfg [newEvent web EventOpen t0] (newEvent web EventOpen t0)); [|reflexivity..].
  apply list_elem_of_singleton. reflexivity.
Defined.

(** ** Logins *)

Import LoginMonitor.

Definition login_cfg : LoginMonitor.settings := LoginMonitor.mkSettings ["10.0.0.0/8"] 3 false 5.
Definition no_names (s : string) : list string := [].
Definition alice : SessionInfo := mkInfo "" "alice" "user" "tty" true "10.0.0.9" "pts/0" None.

Definition some_signals : list signal := [SessionNew "c1" (Some alice); SessionNew "c3" (Some alice); SessionRemoved "c1"].
(** A connection that finds one session, delivers the signals and breaks. *)
Definition some_bus : bus :=
  mkBus None (Ok [mkInfo "c0" "bob" "user" "tty" false "" "tty1" None]) (λ _, None) ((Received <$> some_signals) ++ [ChannelClosed]).
Definition watched := LoginMonitor.run pacific no_names no_names login_cfg some_bus demo_world.


Definition guess : string := "Failed password for root from 10.0.0.9 port 4022 ssh2".

Lemma guess_source : from_source no_names no_names "10.0.0.9" "10.0.0.9" guess.
Proof. exists "root", "10.0.0.9", "invalid password", "". by vm_compute. Qed.

(** The world after one login from the address. *)
Definition known_world : world Store.Store :=
  run_signals pacific no_names no_names login_cfg [SessionNew "c1" (Some alice)] demo_world.

Lemma masked_witness :
  w_sent (run_failures pacific no_names no_names login_cfg (replicate 30 guess) (∅, known_world)).2 = w_sent known_world.
Proof.
  apply (brute_force_masked pacific no_names no_names login_cfg "10.0.0.9" "10.0.0.9").
  - vm_compute. discriminate.
  - vm_compute. reflexivity.
  - apply Forall_replicate. exact guess_source.
Defined.

Lemma alerts_witness :
  Z.of_nat (length (w_sent (run_failures pacific no_names no_names login_cfg (replicate 7 guess) (∅, demo_world)).2)) = 2.
Proof.
  rewrite (brute_force_alerts pacific no_names no_names login_cfg "10.0.0.9" "10.0.0.9").
  - reflexivity.
  - reflexivity.
  - vm_compute. reflexivity.
  - apply Forall_replicate. exact guess_source.
Defined.
