(* ===== verification/Approval.v ===== *)
(** * Approval requests ([skills/request_approval]) and the decision endpoint ([approvalapi])

    An approval is an attribute [approval:<id>] of the memory.  [createPending]
    writes it; the operator's decision, the blocking waiter, the expiry sweeper and
    the retention sweep change it.  The order of iteration over the attributes is the
    parameter [order]; the waiter's [select] is a list of the events it receives, with
    what the rest of the system does to the memory before each. *)

From S2P Require Import Prelude GoStrings GoTime GoText Json Memory MemStore World Timeline.

Module Approval.

Definition approvalTimeout : Z := 48 * Hour.
Definition highRiskApprovalTimeout : Z := 96 * Hour.
Definition attrsRetention : Z := 30 * 24 * Hour.
Definition maxAttrsEntries : Z := 200.

Record ApprovalEntry := mkApproval {
  ID : string;
  Title : string;
  Detail : string;
  ProposedAction : string;
  Importance : string;
  Risk : string;
  Status : string;
  RequestedAt : Z;
  DecidedAt : option Z;
  Reason : string;
  RetryCount : Z;
  ParentID : string;
  AutoExecute : bool;
  ExecReason : string;
  Output : string;
  Escalated : bool;
}.

#[export] Instance approval_eq_dec : EqDecision ApprovalEntry.
Proof. solve_decision. Defined.

Definition AttrsKey (id : string) : string := "approval:" +:+ id.

Definition timeoutFor (risk : string) : Z :=
  if EqualFold risk "high" then highRiskApprovalTimeout else approvalTimeout.

Definition formatHours (d : Z) : string := Itoa (Z.quot d Hour) +:+ "h".

(** Updates of an entry. *)
Definition set_status (st reason : string) (decided : option Z) (e : ApprovalEntry) : ApprovalEntry :=
  mkApproval (ID e) (Title e) (Detail e) (ProposedAction e) (Importance e) (Risk e) st (RequestedAt e)
    decided reason (RetryCount e) (ParentID e) (AutoExecute e) (ExecReason e) (Output e) (Escalated e).

Definition set_output (out : string) (e : ApprovalEntry) : ApprovalEntry :=
  mkApproval (ID e) (Title e) (Detail e) (ProposedAction e) (Importance e) (Risk e) (Status e) (RequestedAt e)
    (DecidedAt e) (Reason e) (RetryCount e) (ParentID e) (AutoExecute e) (ExecReason e) out (Escalated e).

Definition set_escalated (e : ApprovalEntry) : ApprovalEntry :=
  mkApproval (ID e) (Title e) (Detail e) (ProposedAction e) (Importance e) (Risk e) (Status e) (RequestedAt e)
    (DecidedAt e) (Reason e) (RetryCount e) (ParentID e) (AutoExecute e) (ExecReason e) (Output e) true.

(** High importance or high risk. *)
Definition urgent (importance risk : string) : bool := EqualFold importance "high" || EqualFold risk "high".

(** What [ExpirePending] and [EscalatePending] select. *)
Definition overdue (now : Z) (e : ApprovalEntry) : bool :=
  String.eqb (Status e) "pending" && negb (time_sub now (RequestedAt e) <=? timeoutFor (Risk e)).

Definition reminder_due (now : Z) (e : ApprovalEntry) : bool :=
  String.eqb (Status e) "pending" && negb (Escalated e) && urgent (Importance e) (Risk e) &&
  negb (time_sub now (RequestedAt e) <? Z.quot (timeoutFor (Risk e)) 2).

Definition timeout_reason : string := "no operator response within timeout window".

(** ** Messages *)

Definition expired_subject (title : string) : string := "[Approval Expired] " +:+ title.
Definition expired_body (title action importance risk : string) : string :=
  "The approval request " +:+ Quote title +:+ " expired without a decision." +:+ para +:+
  "Proposed action: " +:+ action +:+ nl +:+ "Importance: " +:+ importance +:+ nl +:+ "Risk: " +:+ risk +:+ para +:+
  "The action was NOT taken. If it is still needed, reissue from the agent dashboard.".

Definition required_body (action detail importance risk : string) : string :=
  "An action requiring prompt attention needs your approval." +:+ para +:+ "Action: " +:+ action +:+ para +:+
  "Detail: " +:+ detail +:+ para +:+ "Importance: " +:+ importance +:+ nl +:+ "Risk: " +:+ risk +:+ para +:+
  "Approve or reject via the central dashboard. If no decision is made within " +:+
  formatHours (timeoutFor risk) +:+ " the action will be automatically cancelled.".

Definition reminder_body (action detail importance risk : string) (timeout : Z) : string :=
  "This request is still awaiting your decision." +:+ para +:+ "Action: " +:+ action +:+ para +:+
  "Detail: " +:+ detail +:+ para +:+ "Importance: " +:+ importance +:+ nl +:+ "Risk: " +:+ risk +:+ para +:+
  "Approve or reject via the central dashboard. It will be automatically cancelled if no decision is made within " +:+
  formatHours timeout +:+ " of the original request.".

(** A decided record the retention sweep may delete. *)
Record decided := mkDecided { d_key : string; d_when : Z }.

(** The scan of [pruneAttrs] over the attributes. *)
Definition candidate `{!Json ApprovalEntry} (kv : string * string) : option decided :=
  if negb (HasPrefix kv.1 "approval:") then None
  else match Unmarshal kv.2 (zero : ApprovalEntry) with
       | (_, false) => None
       | (e, true) =>
           if String.eqb (Status e) "pending" then None
           else Some (mkDecided kv.1 (default (RequestedAt e) (DecidedAt e)))
       end.

Definition older (a b : decided) : bool := d_when a <? d_when b.

(** The entries a sweep goes through: the approvals that decode. *)
Definition approvals `{!Json ApprovalEntry} (kv : string * string) : option (string * ApprovalEntry) :=
  if negb (HasPrefix kv.1 "approval:") then None
  else match Unmarshal kv.2 (zero : ApprovalEntry) with
       | (_, false) => None
       | (e, true) => Some (kv.1, e)
       end.

Section Ops.
Context `{!Json ApprovalEntry, !Json (list Timeline.TimelineEntry), !Json notification, !MemStore M}.
Context (zone : Z → Z) (order : gmap string string → list (string * string)).

(** ** Filing *)

Definition approval_card (id title detail action importance risk : string) (now : Z) : Timeline.TimelineEntry :=
  Timeline.mkEntry id (Format zone now) "approval" title detail "" importance risk
    (Some action) (Some "pending") 0 "" None.

Definition writeTimeline (id title detail action importance risk : string) (now : Z) : W M (option mem_error) :=
  entries ← Timeline.entries_;
  write_doc Timeline.timelineDomain
    (Timeline.prepend [approval_card id title detail action importance risk now] entries).

Definition createPending (id title detail action importance risk : string) (autoExecute : bool)
    (execReason : string) : W M (option mem_error) :=
  now ← now_;
  e ← set_attr (AttrsKey id)
        (mkApproval id title detail action importance risk "pending" now None "" 0 "" autoExecute execReason "" false);
  match e with
  | Some err => mret (Some err)
  | None =>
      _ ← writeTimeline id title detail action importance risk now;
      _ ← (if urgent importance risk
           then Notify ("[Approval Required] " +:+ title) (required_body action detail importance risk)
           else mret tt);
      mret None
  end.

Definition SubmitApproval (title detail action importance risk : string) (autoExecute : bool)
    (execReason : string) : W M (result mem_error string) :=
  id ← newUUID;
  e ← createPending id title detail action importance risk autoExecute execReason;
  mret (match e with Some err => Err err | None => Ok id end).

(** ** Changing a record *)

Definition patchAttrs (key newStatus reason : string) (decidedAt : option Z) : W M bool :=
  '(entry, ok) ← (get_attr key : W M (ApprovalEntry * bool));
  if negb ok then mret true
  else
    e ← set_attr key (set_status newStatus reason decidedAt entry);
    mret (match e with Some _ => true | None => false end).

Definition SetOutput (id output : string) : W M bool :=
  '(entry, ok) ← (get_attr (AttrsKey id) : W M (ApprovalEntry * bool));
  if negb ok then mret true
  else
    let output := if 4000 <? len output then take_bytes (Z.to_nat 4000) output +:+ nl +:+ "… (truncated)" else output in
    e ← set_attr (AttrsKey id) (set_output output entry);
    mret (match e with Some _ => true | None => false end).

Definition markEscalated (key title detail action importance risk : string) (timeout : Z) : W M unit :=
  '(entry, ok) ← (get_attr key : W M (ApprovalEntry * bool));
  if negb ok then mret tt
  else if negb (String.eqb (Status entry) "pending") || Escalated entry then mret tt
  else
    e ← set_attr key (set_escalated entry);
    match e with
    | Some _ => mret tt
    | None => Notify ("[Approval Reminder] " +:+ title) (reminder_body action detail importance risk timeout)
    end.

(** ** Waiting *)

(** What the waiter's [select] receives. *)
Inductive event := Cancelled | TimedOut | Remind | Poll.

(** The wait loop of [requestApprovalOnce]; [None] while the waiter still waits. *)
Fixpoint wait (events : list (event * (M → M))) (id title detail action importance risk : string) :
    W M (option (option string)) :=
  match events with
  | [] => mret None
  | (ev, env) :: rest =>
      _ ← on_mem (λ m, (tt, env m));
      match ev with
      | Cancelled =>
          _ ← patchAttrs (AttrsKey id) "cancelled" "" None;
          _ ← Timeline.PatchTimeline id "cancelled";
          mret (Some None)
      | TimedOut =>
          _ ← patchAttrs (AttrsKey id) "timed_out" timeout_reason None;
          _ ← Timeline.PatchTimeline id "timed_out";
          mret (Some (Some "timed_out"))
      | Remind =>
          if urgent importance risk then
            _ ← markEscalated (AttrsKey id) title detail action importance risk (timeoutFor risk);
            wait rest id title detail action importance risk
          else wait rest id title detail action importance risk
      | Poll =>
          '(current, ok) ← (get_attr (AttrsKey id) : W M (ApprovalEntry * bool));
          if negb ok then wait rest id title detail action importance risk
          else if negb (String.eqb (Status current) "pending") then
            _ ← Timeline.PatchTimeline id (Status current);
            mret (Some (Some (Status current)))
          else wait rest id title detail action importance risk
      end
  end.

(** Outcomes of the blocking request: an error of the store, cancellation, or a
    decision. *)
Inductive wait_result := RStoreError (e : mem_error) | RCancelled | RDecision (status : string) | RWaiting.

Definition requestApprovalOnce (events : list (event * (M → M)))
    (id title detail action importance risk : string) : W M wait_result :=
  e ← createPending id title detail action importance risk false "";
  match e with
  | Some err => mret (RStoreError err)
  | None =>
      r ← wait events id title detail action importance risk;
      mret (match r with
            | None => RWaiting
            | Some None => RCancelled
            | Some (Some st) => RDecision st
            end)
  end.

Definition RequestApproval (events : list (event * (M → M)))
    (title detail action importance risk : string) : W M wait_result :=
  id ← newUUID;
  r ← requestApprovalOnce events id title detail action importance risk;
  match r with
  | RDecision "timed_out" =>
      _ ← Notify (expired_subject title) (expired_body title action importance risk);
      mret r
  | _ => mret r
  end.

(** ** Sweeping *)

Fixpoint escalate_loop (now : Z) (entries : list (string * ApprovalEntry)) (sent : Z) : W M Z :=
  match entries with
  | [] => mret sent
  | (key, e) :: rest =>
      if reminder_due now e then
        _ ← markEscalated key (Title e) (Detail e) (ProposedAction e) (Importance e) (Risk e) (timeoutFor (Risk e));
        escalate_loop now rest (sent + 1)
      else escalate_loop now rest sent
  end.

Definition EscalatePending (now : Z) : W M Z :=
  attrs ← all_attrs;
  match attrs with
  | Err _ => mret 0
  | Ok attrs => escalate_loop now (omap approvals (order attrs)) 0
  end.

Fixpoint expire_loop (now : Z) (entries : list (string * ApprovalEntry)) (expired : Z) : W M Z :=
  match entries with
  | [] => mret expired
  | (key, e) :: rest =>
      if overdue now e then
        _ ← patchAttrs key "timed_out" timeout_reason None;
        _ ← Timeline.PatchTimeline (ID e) "timed_out";
        _ ← (if AutoExecute e
             then Notify (expired_subject (Title e)) (expired_body (Title e) (ProposedAction e) (Importance e) (Risk e))
             else mret tt);
        expire_loop now rest (expired + 1)
      else expire_loop now rest expired
  end.

Definition ExpirePending (now : Z) : W M Z :=
  attrs ← all_attrs;
  match attrs with
  | Err _ => mret 0
  | Ok attrs => expire_loop now (omap approvals (order attrs)) 0
  end.

(** The deletion loop of [pruneAttrs]: the number deleted. *)
Fixpoint prune_loop (cutoff : Z) (cands : list decided) (keep deleted : Z) : W M Z :=
  match cands with
  | [] => mret deleted
  | c :: rest =>
      if negb (d_when c <? cutoff) && negb (maxAttrsEntries <? keep) then mret deleted
      else
        e ← del_attr (d_key c);
        match e with
        | Some _ => prune_loop cutoff rest keep deleted
        | None => prune_loop cutoff rest (keep - 1) (deleted + 1)
        end
  end.

Definition pruneAttrs (now : Z) : W M Z :=
  attrs ← all_attrs;
  match attrs with
  | Err _ => mret 0
  | Ok attrs =>
      let cands := SliceStable older (omap candidate (order attrs)) in
      prune_loop (now - attrsRetention) cands (Z.of_nat (length cands)) 0
  end.

(** One tick of the sweeper started by [StartExpirySweeper]. *)
Definition sweep : W M unit :=
  now ← now_;
  _ ← EscalatePending now;
  _ ← ExpirePending now;
  _ ← pruneAttrs now;
  mret tt.

(** ** POST /approvals/{id}/decision *)

(** The first half of the handler, up to the check that the approval is pending:
    a response, or the entry the second half goes on with. *)
Definition decide_read (method path : string) (body : option (string * string)) :
    W M (Z + string * string * string * ApprovalEntry) :=
  if negb (String.eqb method "POST") then mret (inl Timeline.StatusMethodNotAllowed)
  else match Timeline.path_id "/approvals/" "decision" path with
  | None => mret (inl Timeline.StatusNotFound)
  | Some id =>
      match body with
      | None => mret (inl Timeline.StatusBadRequest)
      | Some (decision, reason) =>
          if negb (String.eqb decision "approved") && negb (String.eqb decision "rejected")
          then mret (inl Timeline.StatusBadRequest)
          else
            '(entry, ok) ← (get_attr (AttrsKey id) : W M (ApprovalEntry * bool));
            if negb ok then
              _ ← Timeline.RemoveFromTimeline id; mret (inl Timeline.StatusNotFound)
            else if negb (String.eqb (Status entry) "pending") then
              _ ← del_attr (AttrsKey id);
              _ ← Timeline.RemoveFromTimeline id;
              mret (inl Timeline.StatusConflict)
            else mret (inr (id, decision, reason, entry))
      end
  end.

(** The second half: persist, patch the timeline, and launch the command of an
    approved auto-execute entry.  The result lists the entries launched. *)
Definition decide_commit (id decision reason : string) (entry : ApprovalEntry) : W M (Z * list ApprovalEntry) :=
  now ← now_;
  let entry := set_status decision reason (Some now) entry in
  e ← set_attr (AttrsKey id) entry;
  match e with
  | Some _ => mret (Timeline.StatusInternalServerError, [])
  | None =>
      _ ← Timeline.PatchTimeline id decision;
      mret (Timeline.StatusOK, if String.eqb decision "approved" && AutoExecute entry then [entry] else [])
  end.

Definition decision_handler (method path : string) (body : option (string * string)) :
    W M (Z * list ApprovalEntry) :=
  r ← decide_read method path body;
  match r with
  | inl code => mret (code, [])
  | inr (id, decision, reason, entry) => decide_commit id decision reason entry
  end.

End Ops.

End Approval.
