(* ===== verification/ApprovalFacts.v ===== *)
(** * Correctness of the approval flow *)

From S2P Require Import Prelude GoStrings GoTime GoText Json Memory MemStore World Timeline WorldFacts Approval.

Import Approval.

Section Facts.
Context {RJ : RawJson} `{!MemStore M, !MemStoreLaws M}.
Context `{!Json ApprovalEntry, !JsonRoundtrip ApprovalEntry, !JsonCompact ApprovalEntry}.
Context `{!Json (list Timeline.TimelineEntry), !Json notification}.

Abbreviation entry_at key w := (GetAttr key (w_mem w) : ApprovalEntry * bool).

Lemma keeps_get {A} (c : W M A) w key :
  keeps_attrs c → entry_at key (c w).2 = entry_at key w.
Proof. intros Hc. rewrite !get_all. unfold attrs_of. by rewrite Hc. Qed.

(** Running a sequence: the first part, then the rest. *)
Lemma bind_run {A B} (c : W M A) (f : A → W M B) w : (c ≫= f) w = f (c w).1 (c w).2.
Proof. unfold mbind, W_bind. by destruct (c w). Qed.

(** ** The decision endpoint *)

Lemma decide_read_inv method path body w x w' :
  decide_read method path body w = (inr x, w') →
  ∃ id decision reason entry, x = (id, decision, reason, entry) ∧ w' = w ∧ method = "POST" ∧
    Timeline.path_id "/approvals/" "decision" path = Some id ∧ body = Some (decision, reason) ∧
    (decision = "approved" ∨ decision = "rejected") ∧
    entry_at (AttrsKey id) w = (entry, true) ∧ Status entry = "pending".
Proof.
  unfold decide_read. destruct (String.eqb_spec method "POST") as [->|]; [|done]. cbn [negb].
  destruct (Timeline.path_id _ _ _) as [id|]; [|done]. destruct body as [[decision reason]|]; [|done].
  destruct (String.eqb_spec decision "approved"), (String.eqb_spec decision "rejected"); cbn [negb andb]; try done.
  all: rewrite bind_run; cbn; destruct (GetAttr (AttrsKey id) (w_mem w)) as [entry []] eqn:Hg; cbn [negb];
    [|rewrite bind_run; done].
  all: destruct (String.eqb_spec (Status entry) "pending"); cbn [negb]; [|rewrite !bind_run; done].
  all: intros [= <- <-]; eexists _, _, _, _; split_and!; try done; auto.
Qed.

Lemma decide_read_ok method path id decision reason entry w :
  method = "POST" → Timeline.path_id "/approvals/" "decision" path = Some id →
  (decision = "approved" ∨ decision = "rejected") →
  entry_at (AttrsKey id) w = (entry, true) → Status entry = "pending" →
  decide_read method path (Some (decision, reason)) w = (inr (id, decision, reason, entry), w).
Proof.
  intros -> Hp Hd Hg Hs. unfold decide_read. rewrite String.eqb_refl. cbn [negb]. rewrite Hp.
  assert (negb (String.eqb decision "approved") && negb (String.eqb decision "rejected") = false) as ->
    by (by destruct Hd as [-> | ->]).
  rewrite bind_run. cbn. rewrite Hg, Hs. done.
Qed.

Lemma decide_commit_inv id decision reason entry w code launched w' :
  decide_commit id decision reason entry w = ((code, launched), w') →
  let entry' := set_status decision reason (Some (w_clock w (w_ticks w))) entry in
  (code = Timeline.StatusInternalServerError ∧ launched = []) ∨
  (code = Timeline.StatusOK ∧ entry_at (AttrsKey id) w' = (entry', true) ∧
   launched = if String.eqb decision "approved" && AutoExecute entry then [entry'] else []).
Proof.
  unfold decide_commit. rewrite bind_run. cbn. rewrite bind_run. unfold set_attr, on_mem. cbn [w_mem].
  set (entry' := set_status _ _ _ _). destruct (SetAttr (AttrsKey id) entry' (w_mem w)) as [[e|] m] eqn:Hs; cbn.
  - intros [= <- <- <-]. by left.
  - rewrite bind_run. cbn. intros [= <- <- <-]. right. split_and!; try done.
    rewrite (keeps_get (Timeline.PatchTimeline id decision)) by apply keeps_attrs_patch. by eapply get_set.
Qed.

(** C5. Nothing runs without an approval: when the decision endpoint launches a
    command, the request was a POST that approves an approval which was pending and
    auto-execute; exactly that entry is launched, it is recorded as approved with
    its time of decision, and the response is 200. *)
Theorem decision_launches_only_approved method path body w code launched w' :
  decision_handler method path body w = ((code, launched), w') → launched ≠ [] →
  ∃ id reason entry t,
    method = "POST" ∧ Timeline.path_id "/approvals/" "decision" path = Some id ∧
    body = Some ("approved", reason) ∧
    entry_at (AttrsKey id) w = (entry, true) ∧ Status entry = "pending" ∧ AutoExecute entry = true ∧
    launched = [set_status "approved" reason (Some t) entry] ∧
    entry_at (AttrsKey id) w' = (set_status "approved" reason (Some t) entry, true) ∧
    code = Timeline.StatusOK.
Proof.
  unfold decision_handler. rewrite bind_run. intros H Hl.
  destruct (decide_read method path body w) as [[c|x] w1] eqn:Hr; cbn in H; [unfold mret, W_ret in H; by simplify_eq|].
  apply decide_read_inv in Hr as (id & decision & reason & entry & -> & -> & Hm & Hp & Hb & Hd & Hg & Hs).
  cbn in H. apply decide_commit_inv in H as [[_ ->]|(-> & He & ->)]; [done|].
  destruct (String.eqb_spec decision "approved") as [->|]; [|done].
  destruct (AutoExecute entry) eqn:Ha; [|done]. cbn [andb].
  eexists id, reason, entry, _. split_and!; try done.
Qed.

(** A second decision on a decided approval purges its record. *)
Lemma decide_purges path id body w entry `{!Reliable M} :
  Timeline.path_id "/approvals/" "decision" path = Some id →
  (∃ d r, body = Some (d, r) ∧ (d = "approved" ∨ d = "rejected")) →
  entry_at (AttrsKey id) w = (entry, true) → Status entry ≠ "pending" →
  ∃ w', decision_handler "POST" path body w = ((Timeline.StatusConflict, []), w') ∧
        entry_at (AttrsKey id) w' = (zero, false).
Proof.
  intros Hp (d & r & -> & Hd) Hg Hs. unfold decision_handler, decide_read. rewrite bind_run.
  rewrite String.eqb_refl. cbn [negb]. rewrite Hp.
  assert (negb (String.eqb d "approved") && negb (String.eqb d "rejected") = false) as ->
    by (by destruct Hd as [-> | ->]).
  rewrite bind_run. cbn [get_attr fst snd]. rewrite Hg. cbn [negb].
  rewrite (proj2 (String.eqb_neq (Status entry) "pending") Hs). cbn [negb].
  rewrite !bind_run. cbn. eexists. split; [reflexivity|].
  rewrite (keeps_get (Timeline.RemoveFromTimeline id)) by apply keeps_attrs_remove.
  unfold del_attr, on_mem. pose proof (del_reliable (AttrsKey id) (w_mem w)) as Hdel.
  destruct (DelAttr (AttrsKey id) (w_mem w)) as [e m] eqn:E. simpl in *. subst e. by eapply get_del.
Qed.

(** Polling a record that is gone goes on waiting, until the timer fires. *)
Lemma wait_lost id title detail action importance risk n w :
  entry_at (AttrsKey id) w = (zero, false) →
  (wait (replicate n (Poll, λ m, m) ++ [(TimedOut, λ m, m)]) id title detail action importance risk w).1 =
    Some (Some "timed_out").
Proof.
  revert w. induction n as [|n IH]; intros w Hg; cbn [replicate app wait]; rewrite bind_run; cbn.
  - by rewrite !bind_run.
  - rewrite bind_run. cbn. rewrite Hg. cbn. by apply IH.
Qed.

(** A repeated decision loses the approval: when the operator's decision is
    posted twice before the waiting agent polls, the second post answers 409 and
    deletes the record, and however often it polls afterwards the waiter reports
    "timed_out" although the operator approved. *)
Theorem repeated_decision_lost path id r r' title detail action importance risk n w entry code launched w1 `{!Reliable M} :
  Timeline.path_id "/approvals/" "decision" path = Some id →
  entry_at (AttrsKey id) w = (entry, true) → Status entry = "pending" →
  decision_handler "POST" path (Some ("approved", r)) w = ((code, launched), w1) → code = Timeline.StatusOK →
  ∃ w2, decision_handler "POST" path (Some ("approved", r')) w1 = ((Timeline.StatusConflict, []), w2) ∧
    (wait (replicate n (Poll, λ m, m) ++ [(TimedOut, λ m, m)]) id title detail action importance risk w2).1 =
      Some (Some "timed_out").
Proof.
  intros Hp Hg Hs H Hcode. unfold decision_handler in H. rewrite bind_run in H.
  rewrite (decide_read_ok "POST" path id "approved" r entry w) in H by auto. cbn in H.
  apply decide_commit_inv in H as [[-> _]|(_ & He & _)]; [done|].
  destruct (decide_purges path id (Some ("approved", r')) w1 _ Hp ltac:(eauto 10) He ltac:(done)) as (w2 & Hd & Hz).
  exists w2. split; [done|]. by apply wait_lost.
Qed.

(** The check and the update are not atomic: two approvals whose reads both
    come before either write each launch the command, while one after the other
    they launch it once. *)
Theorem concurrent_decisions_run_twice path id r r' w entry code1 l1 w1 code2 l2 w2 `{!Reliable M} :
  Timeline.path_id "/approvals/" "decision" path = Some id →
  entry_at (AttrsKey id) w = (entry, true) → Status entry = "pending" → AutoExecute entry = true →
  (∀ e : ApprovalEntry, is_Some (Marshal e)) →
  decide_commit id "approved" r entry w = ((code1, l1), w1) →
  decide_commit id "approved" r' entry w1 = ((code2, l2), w2) →
  (decide_read "POST" path (Some ("approved", r)) w = (inr (id, "approved", r, entry), w) ∧
   decide_read "POST" path (Some ("approved", r')) w = (inr (id, "approved", r', entry), w)) ∧
  length (l1 ++ l2) = 2%nat ∧
  (decision_handler "POST" path (Some ("approved", r')) w1).1.2 = [].
Proof.
  intros Hp Hg Hs Ha Hm H1 H2. split; [split; by apply decide_read_ok; auto|].
  assert (∀ w r code l w', decide_commit id "approved" r entry w = ((code, l), w') →
    ∃ t, l = [set_status "approved" r (Some t) entry] ∧
         entry_at (AttrsKey id) w' = (set_status "approved" r (Some t) entry, true)) as Hlaunch.
  { clear -Reliable0 Ha Hm MemStoreLaws0 JsonRoundtrip0 JsonCompact0. intros w r code l w' H.
    assert (code ≠ Timeline.StatusInternalServerError) as Hcode.
    { unfold decide_commit in H. rewrite bind_run in H. cbn in H. rewrite bind_run in H.
      unfold set_attr, on_mem in H. cbn [w_mem] in H. set (e := set_status _ _ _ _) in H.
      pose proof (set_reliable _ _ (AttrsKey id) e (w_mem w) (Hm e)) as Hr.
      destruct (SetAttr (AttrsKey id) e (w_mem w)) as [er m]. cbn in Hr. subst er. cbn in H.
      rewrite bind_run in H. cbn in H. unfold mret, W_ret in H. by simplify_eq. }
    apply decide_commit_inv in H as [[? _]|(_ & He & ->)]; [done|]. rewrite Ha. eauto. }
  destruct (Hlaunch _ _ _ _ _ H1) as (t1 & -> & He1). destruct (Hlaunch _ _ _ _ _ H2) as (t2 & -> & _).
  split; [done|].
  destruct (decide_purges path id (Some ("approved", r')) w1 _ Hp ltac:(eauto 10) He1 ltac:(done)) as (w3 & -> & _).
  done.
Qed.

(** ** The sweeps *)

Section Sweeps.
Context `{!Reliable M} (order : gmap string string → list (string * string)).
Hypothesis (Horder : ∀ attrs, order attrs ≡ₚ map_to_list attrs).
Hypothesis (Hmarshal : ∀ e : ApprovalEntry, is_Some (Marshal e)).

(** The approvals a sweep sees are the ones that read back. *)
Lemma elem_of_approvals attrs w key e :
  AllAttrs (w_mem w) = Ok attrs →
  (key, e) ∈ omap approvals (order attrs) ↔ HasPrefix key "approval:" = true ∧ entry_at key w = (e, true).
Proof.
  intros Ha. rewrite list_elem_of_omap, get_all. unfold attrs_of. rewrite Ha. split.
  - intros ([k raw] & Hin & Hk). rewrite Horder, elem_of_map_to_list in Hin. unfold approvals in Hk. simpl in Hk.
    destruct (HasPrefix k "approval:") eqn:Hp; [|done]. simpl in Hk.
    destruct (Unmarshal raw zero) as [e' []] eqn:Hu; [|done]. simplify_eq. split; [done|]. by rewrite Hin.
  - intros [Hp Hg]. destruct (attrs !! key) as [raw|] eqn:Hk; [|done]. exists (key, raw).
    rewrite Horder, elem_of_map_to_list. split; [done|]. unfold approvals. simpl. by rewrite Hp, Hg.
Qed.

Lemma NoDup_approvals L : NoDup L.*1 → NoDup (omap approvals L).*1.
Proof.
  induction L as [|[k raw] L IH]; [done|]. rewrite fmap_cons, NoDup_cons. intros [Hk Hn].
  assert (∀ e, (k, e) ∉ omap approvals L) as Hno.
  { intros e ([k' raw'] & Hin & He)%list_elem_of_omap. apply Hk. apply list_elem_of_fmap. exists (k', raw').
    split; [|done]. unfold approvals in He. simpl in *. destruct (HasPrefix k' _); [|done]. simpl in He.
    destruct (Unmarshal raw' zero) as [? []]; by simplify_eq. }
  cbn [omap list_omap]. unfold approvals at 1. simpl. destruct (HasPrefix k "approval:"); simpl; [|by apply IH].
  destruct (Unmarshal raw zero) as [e []]; [|by apply IH]. cbn [fmap list_fmap fst]. apply NoDup_cons.
  split; [|by apply IH]. intros ([k' e'] & E & Hin)%list_elem_of_fmap. simpl in E. subst k'. by apply (Hno e').
Qed.

Lemma NoDup_order attrs : NoDup (order attrs).*1.
Proof. rewrite Horder. apply NoDup_fst_map_to_list. Qed.

(** Patching a record that reads. *)
Lemma patchAttrs_run key st reason t w e :
  entry_at key w = (e, true) →
  entry_at key (patchAttrs key st reason t w).2 = (set_status st reason t e, true) ∧
  (∀ key', key' ≠ key → entry_at key' (patchAttrs key st reason t w).2 = entry_at key' w).
Proof.
  intros Hg. unfold patchAttrs. rewrite bind_run. cbn. rewrite Hg. cbn [negb]. rewrite bind_run.
  unfold set_attr, on_mem. cbn [w_mem].
  pose proof (set_reliable _ _ key (set_status st reason t e) (w_mem w) (Hmarshal _)) as Hr.
  destruct (SetAttr key (set_status st reason t e) (w_mem w)) as [er m] eqn:E. cbn in Hr. subst er. cbn.
  split; [by eapply get_set|]. intros key' Hne. exact (get_set_ne _ _ _ _ _ _ E Hne).
Qed.

(** What one expired record goes through. *)
Lemma expire_step key e w {A} (rest : W M A) :
  entry_at key w = (e, true) →
  ∃ w1, (patchAttrs key "timed_out" timeout_reason None ≫= λ _,
         Timeline.PatchTimeline (ID e) "timed_out" ≫= λ _,
         (if AutoExecute e
          then Notify (expired_subject (Title e)) (expired_body (Title e) (ProposedAction e) (Importance e) (Risk e))
          else mret tt) ≫= λ _, rest) w = rest w1 ∧
    entry_at key w1 = (set_status "timed_out" timeout_reason None e, true) ∧
    (∀ key', key' ≠ key → entry_at key' w1 = entry_at key' w).
Proof.
  intros Hg. rewrite !bind_run. eexists. split; [reflexivity|].
  set (c := (if AutoExecute e then _ else _) : W M unit).
  assert (keeps_attrs c) as Hc by (subst c; destruct (AutoExecute e); [apply keeps_attrs_notify|apply keeps_attrs_ret]).
  destruct (patchAttrs_run key "timed_out" timeout_reason None w e Hg) as [H1 H2].
  split; [|intros key' Hne; rewrite <-(H2 key' Hne)]; rewrite (keeps_get c) by done;
    rewrite (keeps_get (Timeline.PatchTimeline _ _)) by apply keeps_attrs_patch; done.
Qed.

Lemma expire_loop_run now L n w :
  NoDup L.*1 → (∀ key e, (key, e) ∈ L → entry_at key w = (e, true)) →
  (expire_loop now L n w).1 = n + Z.of_nat (length (List.filter (overdue now ∘ snd) L)) ∧
  (∀ key e, (key, e) ∈ L → entry_at key (expire_loop now L n w).2 =
     (if overdue now e then set_status "timed_out" timeout_reason None e else e, true)) ∧
  (∀ key, key ∉ L.*1 → entry_at key (expire_loop now L n w).2 = entry_at key w).
Proof.
  revert n w. induction L as [|[k e] L IH]; intros n w Hnd Hl.
  { cbn. split_and!; [unfold mret, W_ret; simpl; lia|by intros ? ? ?%not_elem_of_nil|done]. }
  rewrite fmap_cons in Hnd. apply NoDup_cons in Hnd as [Hk Hnd]. cbn [expire_loop List.filter].
  assert (entry_at k w = (e, true)) as Hke by (apply Hl; apply elem_of_cons; by left).
  assert (∀ key e', (key, e') ∈ L → key ≠ k) as Hkeys.
  { intros key e' Hin ->. apply Hk. apply list_elem_of_fmap. by exists (k, e'). }
  destruct (overdue now e) eqn:Ho; cbn [compose snd]; rewrite ?Ho.
  - destruct (expire_step k e w (expire_loop now L (n + 1)) Hke) as (w1 & -> & H1 & H2).
    destruct (IH (n + 1) w1 Hnd) as (I1 & I2 & I3).
    { intros key e' Hin. rewrite H2 by (by eapply Hkeys). apply Hl. by apply elem_of_cons; right. }
    split_and!.
    + rewrite I1. simpl. lia.
    + intros key e' [[= -> ->]|Hin]%elem_of_cons; [|by apply I2]. rewrite Ho, I3 by done. done.
    + intros key Hnot. rewrite fmap_cons in Hnot. apply not_elem_of_cons in Hnot as [Hne Hnot].
      by rewrite I3, H2.
  - destruct (IH n w Hnd) as (I1 & I2 & I3); [intros; apply Hl; by apply elem_of_cons; right|].
    split_and!; [done| |].
    + intros key e' [[= -> ->]|Hin]%elem_of_cons; [|by apply I2]. rewrite Ho, I3 by done. done.
    + intros key Hnot. rewrite fmap_cons in Hnot. apply not_elem_of_cons in Hnot as [Hne Hnot]. by apply I3.
Qed.


(** *** Retention *)

Definition decided_when (e : ApprovalEntry) : Z := default (RequestedAt e) (DecidedAt e).

Lemma elem_of_candidates attrs w c :
  AllAttrs (w_mem w) = Ok attrs →
  c ∈ omap candidate (order attrs) ↔
  HasPrefix (d_key c) "approval:" = true ∧
  ∃ e, entry_at (d_key c) w = (e, true) ∧ Status e ≠ "pending" ∧ d_when c = decided_when e.
Proof.
  intros Ha. rewrite list_elem_of_omap, get_all. unfold attrs_of. rewrite Ha. split.
  - intros ([k raw] & Hin & Hk). rewrite Horder, elem_of_map_to_list in Hin. unfold candidate in Hk. simpl in Hk.
    destruct (HasPrefix k "approval:") eqn:Hp; [|done]. simpl in Hk.
    destruct (Unmarshal raw zero) as [e []] eqn:Hu; [|done].
    destruct (String.eqb_spec (Status e) "pending"); [done|]. simplify_eq. simpl.
    split; [done|]. exists e. by rewrite Hin.
  - intros (Hp & e & Hg & Hs & Hw). destruct c as [k t]. simpl in *.
    destruct (attrs !! k) as [raw|] eqn:Hk; [|done]. exists (k, raw).
    rewrite Horder, elem_of_map_to_list. split; [done|]. unfold candidate. simpl. rewrite Hp, Hg. simpl.
    rewrite (proj2 (String.eqb_neq _ _) Hs). by rewrite Hw.
Qed.

Lemma NoDup_candidates L : NoDup L.*1 → NoDup (d_key <$> omap candidate L).
Proof.
  induction L as [|[k raw] L IH]; [done|]. rewrite fmap_cons, NoDup_cons. intros [Hk Hn].
  assert (∀ kv c, candidate kv = Some c → d_key c = kv.1) as Hkey.
  { intros [k' raw'] c Hc. unfold candidate in Hc. simpl in *. destruct (HasPrefix k' _); [|done]. simpl in Hc.
    destruct (Unmarshal raw' zero) as [e []]; [|done]. destruct (String.eqb (Status e) "pending"); by simplify_eq. }
  cbn [omap list_omap]. destruct (candidate (k, raw)) as [c|] eqn:Hc; [|by apply IH].
  rewrite fmap_cons. apply NoDup_cons. split; [|by apply IH]. rewrite (Hkey _ _ Hc). simpl.
  intros (c' & E & ([k' raw'] & Hin & Hc')%list_elem_of_omap)%list_elem_of_fmap.
  apply Hk, list_elem_of_fmap. exists (k', raw'). split; [|done]. rewrite E. by rewrite (Hkey _ _ Hc').
Qed.

Lemma del_attr_run key w :
  entry_at key (del_attr key w).2 = (zero, false) ∧
  (∀ key', key' ≠ key → entry_at key' (del_attr key w).2 = entry_at key' w) ∧ (del_attr key w).1 = None.
Proof.
  unfold del_attr, on_mem. pose proof (del_reliable key (w_mem w)) as Hr.
  destruct (DelAttr key (w_mem w)) as [e m] eqn:E. simpl in *. subst e.
  split_and!; [by eapply get_del|intros key' Hne; exact (get_del_ne _ _ _ _ _ E Hne)|done].
Qed.

(** The loop deletes a prefix of its candidates and stops at the first that is
    neither expired nor over the cap. *)
Lemma prune_loop_run cutoff cands keep deleted w :
  NoDup (d_key <$> cands) →
  ∃ n, (n ≤ length cands)%nat ∧
    (prune_loop cutoff cands keep deleted w).1 = deleted + Z.of_nat n ∧
    (∀ key, key ∈ d_key <$> take n cands → entry_at key (prune_loop cutoff cands keep deleted w).2 = (zero, false)) ∧
    (∀ key, key ∉ d_key <$> take n cands → entry_at key (prune_loop cutoff cands keep deleted w).2 = entry_at key w) ∧
    (∀ c rest, drop n cands = c :: rest → cutoff ≤ d_when c ∧ keep - Z.of_nat n ≤ maxAttrsEntries).
Proof.
  revert keep deleted w. induction cands as [|c cands IH]; intros keep deleted w Hnd.
  { exists 0%nat. cbn. unfold mret, W_ret. simpl.
    split_and!; [lia|lia|by intros ? ?%not_elem_of_nil|done|done]. }
  rewrite fmap_cons in Hnd. apply NoDup_cons in Hnd as [Hk Hnd]. cbn [prune_loop].
  destruct (negb (d_when c <? cutoff) && negb (maxAttrsEntries <? keep)) eqn:Hstop.
  { exists 0%nat. unfold mret, W_ret. simpl. rewrite andb_true_iff, !negb_true_iff, !Z.ltb_ge in Hstop.
    split_and!; [lia|lia|by intros ? ?%not_elem_of_nil|done|]. intros c' rest [= <- <-]. lia. }
  rewrite bind_run. destruct (del_attr_run (d_key c) w) as (H1 & H2 & ->).
  destruct (IH (keep - 1) (deleted + 1) (del_attr (d_key c) w).2 Hnd) as (n & Hn & I1 & I2 & I3 & I4).
  exists (S n). cbn [take drop length]. rewrite fmap_cons.
  assert (d_key c ∉ d_key <$> take n cands) as Hc.
  { intros Hin. apply Hk. apply list_elem_of_fmap in Hin as (c' & -> & Hin). apply list_elem_of_fmap. exists c'.
    split; [done|]. eapply elem_of_submseteq; [done|apply sublist_submseteq, sublist_take]. }
  split_and!.
  - lia.
  - rewrite I1. lia.
  - intros key [->|Hin]%elem_of_cons; [by rewrite I3|by apply I2].
  - intros key [Hne Hnot]%not_elem_of_cons. by rewrite I3, H2.
  - intros c' rest Hd. destruct (I4 c' rest Hd). lia.
Qed.

(** The retention sweep: pending approvals and other attributes are never
    touched; afterwards at most 200 decided approvals are left, none decided more
    than 30 days ago, and whatever was deleted was decided no later than whatever
    decided approval is left. *)
Theorem prune_decided now w attrs :
  AllAttrs (w_mem w) = Ok attrs →
  let w' := (pruneAttrs order now w).2 in
  (∀ key, HasPrefix key "approval:" = false ∨ (entry_at key w).2 = false ∨ Status (entry_at key w).1 = "pending" →
     entry_at key w' = entry_at key w) ∧
  ∃ kept gone : list string,
    (length kept ≤ 200)%nat ∧
    (∀ key, key ∈ gone → entry_at key w' = (zero, false)) ∧
    (∀ key, key ∉ gone → entry_at key w' = entry_at key w) ∧
    (∀ key e, HasPrefix key "approval:" = true → entry_at key w' = (e, true) → Status e ≠ "pending" →
       key ∈ kept ∧ now - attrsRetention ≤ decided_when e ∧
       ∀ key' e', key' ∈ gone → entry_at key' w = (e', true) → decided_when e' ≤ decided_when e).
Proof.
  intros Ha. unfold pruneAttrs. rewrite bind_run. cbn. rewrite Ha.
  set (cands := SliceStable older (omap candidate (order attrs))).
  assert (∀ c, c ∈ cands ↔ HasPrefix (d_key c) "approval:" = true ∧
    ∃ e, entry_at (d_key c) w = (e, true) ∧ Status e ≠ "pending" ∧ d_when c = decided_when e) as Hcands.
  { intros c. unfold cands. rewrite SliceStable_perm. by apply elem_of_candidates. }
  assert (StronglySorted (λ a b, d_when a ≤ d_when b) cands) as Hsort.
  { eapply StronglySorted_weaken; [|apply (SliceStable_in_order older)].
    - intros a b. unfold older. rewrite Z.ltb_ge. done.
    - intros a b. unfold older. rewrite Z.ltb_lt, Z.ltb_ge. lia.
    - intros a b c. unfold older. rewrite !Z.ltb_ge. lia. }
  assert (NoDup (d_key <$> cands)) as Hnd.
  { unfold cands. rewrite SliceStable_perm. apply NoDup_candidates, NoDup_order. }
  destruct (prune_loop_run (now - attrsRetention) cands (Z.of_nat (length cands)) 0 w Hnd)
    as (n & Hn & _ & Hgone & Hkept & Hstop).
  set (w' := (prune_loop _ _ _ _ w).2) in *. clearbody w'.
  assert (∀ key, key ∈ d_key <$> take n cands → ∃ c, c ∈ take n cands ∧ d_key c = key ∧ c ∈ cands) as Hin.
  { intros key (c & -> & Hc)%list_elem_of_fmap. exists c. split_and!; [done|done|].
    eapply elem_of_submseteq; [done|apply sublist_submseteq, sublist_take]. }
  split.
  { intros key Hcase. apply Hkept. intros (c & _ & <- & (Hp & e & Hg & Hs & _)%Hcands)%Hin.
    rewrite Hg in Hcase. simpl in Hcase. destruct Hcase as [?|[?|?]]; congruence. }
  exists (d_key <$> drop n cands), (d_key <$> take n cands).
  split_and!; [|done|done|].
  - rewrite length_fmap, length_drop. destruct (drop n cands) as [|c rest] eqn:Hd.
    + pose proof (f_equal length Hd) as Hl. rewrite length_drop in Hl. simpl in Hl. lia.
    + destruct (Hstop c rest eq_refl) as [_ Hcap]. unfold maxAttrsEntries in Hcap. lia.
  - intros key e Hp He Hs.
    assert (key ∉ d_key <$> take n cands) as Hnot by (intros Hx; rewrite Hgone in He by done; done).
    rewrite Hkept in He by done.
    assert (mkDecided key (decided_when e) ∈ cands) as Hc by (apply Hcands; simpl; eauto).
    rewrite <-(take_drop n cands) in Hc. apply elem_of_app in Hc as [Hc|Hc].
    { exfalso. apply Hnot, list_elem_of_fmap. by exists (mkDecided key (decided_when e)). }
    split_and!.
    + apply list_elem_of_fmap. by exists (mkDecided key (decided_when e)).
    + destruct (drop n cands) as [|c rest] eqn:Hd; [by apply not_elem_of_nil in Hc|].
      destruct (Hstop c rest eq_refl) as [Hcut _]. apply elem_of_cons in Hc as [<-|Hc]; [done|].
      rewrite <-(take_drop n cands), Hd in Hsort. apply StronglySorted_app_1_r in Hsort.
      inversion Hsort as [|? ? _ Hall]; subst. rewrite Forall_forall in Hall. specialize (Hall _ Hc). simpl in Hall. lia.
    + intros key' e' (c & Hct & <- & Hcc)%Hin He'. apply Hcands in Hcc as (_ & e1 & Hg1 & _ & Hw1).
      rewrite He' in Hg1. simplify_eq. rewrite <-Hw1. rewrite <-(take_drop n cands) in Hsort.
      change (decided_when e) with (d_when (mkDecided key (decided_when e))).
      by eapply (StronglySorted_app_1_elem_of (λ a b, d_when a ≤ d_when b)).
Qed.

End Sweeps.

End Facts.
