(* ===== verification/ManualRun.v ===== *)
(** * Manual runs ([skills/request_manual_run], [manualrunapi])

    A command that sudo refuses becomes a task for the operator, kept under the
    attribute [manual_run:<id>]. *)

From S2P Require Import Prelude GoStrings GoTime GoText Json Memory MemStore World Timeline.

Module ManualRun.

Definition manualTimeout : Z := 24 * Hour.
Definition attrsRetention : Z := 30 * 24 * Hour.
Definition maxAttrsEntries : Z := 200.

Record ManualRunEntry := mkRun {
  ID : string;
  Title : string;
  Command : string;
  Host : string;
  Reason : string;
  SudoersInstruction : string;
  Status : string;
  Output : string;
  RequestedAt : Z;
  CompletedAt : option Z;
}.

#[export] Instance run_eq_dec : EqDecision ManualRunEntry.
Proof. solve_decision. Defined.

Definition AttrsKey (id : string) : string := "manual_run:" +:+ id.

Definition buildSudoersInstruction (host command : string) : string :=
  "On " +:+ host +:+ ", add a passwordless sudoers rule for the service account to run: " +:+ command.

Definition set_result (st out : string) (completed : option Z) (e : ManualRunEntry) : ManualRunEntry :=
  mkRun (ID e) (Title e) (Command e) (Host e) (Reason e) (SudoersInstruction e) st out (RequestedAt e) completed.

Definition manual_body (host command reason : string) : string :=
  "A command could not run automatically due to sudoers restrictions and requires manual execution." +:+ para +:+
  "Host: " +:+ host +:+ nl +:+ "Command: " +:+ command +:+ para +:+ "Reason: " +:+ reason +:+ para +:+
  "Please run the command on the host and submit the output via the dashboard.".

Record decided := mkDecided { d_key : string; d_when : Z }.

Definition older (a b : decided) : bool := d_when a <? d_when b.

Definition candidate `{!Json ManualRunEntry} (kv : string * string) : option decided :=
  if negb (HasPrefix kv.1 "manual_run:") then None
  else match Unmarshal kv.2 (zero : ManualRunEntry) with
       | (_, false) => None
       | (e, true) =>
           if String.eqb (Status e) "pending" then None
           else Some (mkDecided kv.1 (default (RequestedAt e) (CompletedAt e)))
       end.

Section Ops.
Context `{!Json ManualRunEntry, !Json (list Timeline.TimelineEntry), !Json notification, !MemStore M}.
Context (zone : Z → Z) (order : gmap string string → list (string * string)).

Definition writeTimeline (id title command host reason instruction : string) (now : Z) : W M (option mem_error) :=
  entries ← Timeline.entries_;
  write_doc Timeline.timelineDomain
    (Timeline.prepend
       [Timeline.mkEntry id (Format zone now) "manual_run" title
          ("Host: " +:+ host +:+ para +:+ "Reason: " +:+ reason) "" "" ""
          (Some command) (Some "pending") 0 "" (Some instruction)] entries).

(** The package has its own copies of the timeline helpers, with the same bodies as
    those of [request_approval]. *)
Definition PatchTimeline (id newStatus : string) : W M bool := Timeline.PatchTimeline id newStatus.
Definition RemoveFromTimeline (id : string) : W M bool := Timeline.RemoveFromTimeline id.

(** A status other than pending stamps the time of completion. *)
Definition patchAttrs (key newStatus output : string) : W M bool :=
  '(entry, ok) ← (get_attr key : W M (ManualRunEntry * bool));
  if negb ok then mret true
  else
    completed ← (if negb (String.eqb newStatus "pending") then t ← now_; mret (Some t) else mret (CompletedAt entry));
    e ← set_attr key (set_result newStatus output completed entry);
    mret (match e with Some _ => true | None => false end).

Inductive event := Cancelled | TimedOut | Poll.

(** The wait loop: [None] while it waits, then the output and status, or nothing
    when the context was cancelled. *)
Fixpoint wait (events : list (event * (M → M))) (id : string) : W M (option (option (string * string))) :=
  match events with
  | [] => mret None
  | (ev, env) :: rest =>
      _ ← on_mem (λ m, (tt, env m));
      match ev with
      | Cancelled =>
          _ ← patchAttrs (AttrsKey id) "cancelled" "";
          _ ← PatchTimeline id "cancelled";
          mret (Some None)
      | TimedOut =>
          _ ← patchAttrs (AttrsKey id) "timed_out" "";
          _ ← PatchTimeline id "timed_out";
          mret (Some (Some ("", "timed_out")))
      | Poll =>
          '(current, ok) ← (get_attr (AttrsKey id) : W M (ManualRunEntry * bool));
          if negb ok then wait rest id
          else if negb (String.eqb (Status current) "pending") then
            _ ← PatchTimeline id (Status current);
            mret (Some (Some (Output current, Status current)))
          else wait rest id
      end
  end.

Inductive manual_result := MError (e : mem_error) | MCancelled | MDone (output status : string) | MWaiting.

Definition RequestManualRun (events : list (event * (M → M))) (title command host reason : string) :
    W M manual_result :=
  id ← newUUID;
  let instruction := buildSudoersInstruction host command in
  now ← now_;
  e ← set_attr (AttrsKey id) (mkRun id title command host reason instruction "pending" "" now None);
  match e with
  | Some err => mret (MError err)
  | None =>
      _ ← writeTimeline id title command host reason instruction now;
      _ ← Notify ("[Manual Run Required] " +:+ title) (manual_body host command reason);
      r ← wait events id;
      mret (match r with
            | None => MWaiting
            | Some None => MCancelled
            | Some (Some (out, st)) => MDone out st
            end)
  end.

Fixpoint prune_loop (cutoff : Z) (cands : list decided) (keep deleted : Z) : W M Z :=
  match cands with
  | [] => mret deleted
  | c :: rest =>
      if negb (d_when c <? cutoff) && negb (maxAttrsEntries <? keep) then mret deleted
      else
        e ← del_attr (d_key c);
        match e with
        | Some _ => prune_loop cutoff rest keep deleted
        | None => prune_loop cutoff rest (keep - 1) (deleted + 1)
        end
  end.

Definition pruneAttrs (now : Z) : W M Z :=
  attrs ← all_attrs;
  match attrs with
  | Err _ => mret 0
  | Ok attrs =>
      let cands := SliceStable older (omap candidate (order attrs)) in
      prune_loop (now - attrsRetention) cands (Z.of_nat (length cands)) 0
  end.

(** One tick of the goroutine of [StartRetentionSweeper]. *)
Definition retention_sweep : W M unit := now ← now_; _ ← pruneAttrs now; mret tt.

(** POST /manual-runs/{id}/result; [body] is the decoded output and status. *)
Definition result_handler (method path : string) (body : option (string * string)) : W M Z :=
  if negb (String.eqb method "POST") then mret Timeline.StatusMethodNotAllowed
  else match Timeline.path_id "/manual-runs/" "result" path with
  | None => mret Timeline.StatusNotFound
  | Some id =>
      match body with
      | None => mret Timeline.StatusBadRequest
      | Some (output, status) =>
          if negb (String.eqb status "completed") && negb (String.eqb status "skipped")
          then mret Timeline.StatusBadRequest
          else
            '(entry, ok) ← (get_attr (AttrsKey id) : W M (ManualRunEntry * bool));
            if negb ok then
              _ ← RemoveFromTimeline id; mret Timeline.StatusNotFound
            else if negb (String.eqb (Status entry) "pending") then mret Timeline.StatusConflict
            else
              now ← now_;
              e ← set_attr (AttrsKey id) (set_result status output (Some now) entry);
              match e with
              | Some _ => mret Timeline.StatusInternalServerError
              | None => _ ← PatchTimeline id status; mret Timeline.StatusOK
              end
      end
  end.

End Ops.

End ManualRun.
