(* ===== verification/RunApproved.v ===== *)
(** * Commands that need an approval ([skills/run_approved_command]), and the policy
    endpoints ([policyapi])

    The tool refuses placeholders, echoes and read-only commands, runs a command
    that a standing policy matches, and files an approval for every other one;
    [ExecuteOnApproval] runs the command of an approval the operator granted. *)

From S2P Require Import Prelude GoStrings GoTime Json Memory MemStore World Timeline.
From S2P Require Import Regexp DiagnosticCommand Policy Approval ManualRun.

Module RunApproved.

Definition noOpPhrases : list string := [
  "none"; "n/a"; "na"; "no action"; "no action required"; "no action needed";
  "no command"; "no remediation"; "no remediation required"; "not applicable";
  "nothing"; "nothing to do"; "nothing required"
].

Definition isNoOpCommand (s : string) : bool := bool_decide (ToLower (TrimSpace s) ∈ noOpPhrases).

Definition noOpShellBuiltins : list string := ["true"; ":"].

Definition isNoOpShellBuiltin (s : string) : bool := bool_decide (ToLower (TrimSpace s) ∈ noOpShellBuiltins).

Definition isSudoersError (output : string) : bool := HasPrefix (ToLower (TrimSpace output)) "sudo:".

Definition isEchoStatusCommand (s : string) : bool :=
  match Fields (TrimSpace s) with
  | [] => false
  | w :: _ =>
      let first := ToLower w in
      if negb (String.eqb first "echo") && negb (String.eqb first "write-output") && negb (String.eqb first "write-host")
      then false
      else negb (ContainsAny s ">|")
  end.

Definition truncate (s : string) (n : nat) : string :=
  if (String.length s <=? n)%nat then s else take_bytes n s +:+ nl +:+ "… (truncated)".

Inductive run_error :=
| EEmptyCommand
| ENoOp (cmd : string)
| ENoOpBuiltin (cmd : string)
| EEchoCommand
| EReadOnly (cmd : string)
| EManualInterrupted (err : string)
| ESubmit (e : mem_error).

(** The result of the tool: still waiting for a manual run, an error, or text. *)
Definition outcome : Type := option (result run_error string).

Section Ops.
Context `{!RegexpEngine, !Json (list Policies.Policy), !Json (gmap string Z)}.
Context `{!Json Approval.ApprovalEntry, !Json ManualRun.ManualRunEntry}.
Context `{!Json (list Timeline.TimelineEntry), !Json notification, !MemStore M}.
Context (zone : Z → Z) (order : gmap string Z → list (string * Z)).

(** The agent's host name, whether it escalates with sudo, the text of a store
    error, and the events of a manual run it may have to wait for. *)
Context (host : string) (usingSudo : bool) (errText : mem_error → string) (manual : list (ManualRun.event * (M → M))).

Definition argv (cmd : string) : list string :=
  if usingSudo then ["sudo"; "-n"; "sh"; "-c"; cmd] else ["sh"; "-c"; cmd].

Definition executeApproved (cmd reason : string) : W M outcome :=
  '(out, execErr) ← run_process (argv cmd);
  let output := TrimRightFunc (λ c, code c =? 10) out in
  match execErr with
  | None => mret (Some (Ok (if String.eqb output "" then "Command completed with no output." else output)))
  | Some err =>
      if usingSudo && isSudoersError output then
        r ← ManualRun.RequestManualRun zone manual ("Run Command Manually on " +:+ host) cmd host reason;
        mret (match r with
              | ManualRun.MWaiting => None
              | ManualRun.MError e => Some (Err (EManualInterrupted ("request_manual_run: write attrs: " +:+ errText e)))
              | ManualRun.MCancelled => Some (Err (EManualInterrupted "context canceled"))
              | ManualRun.MDone out "completed" => Some (Ok out)
              | ManualRun.MDone _ "skipped" => Some (Ok "Operator chose to skip manual execution. No output available.")
              | ManualRun.MDone _ _ => Some (Ok "Manual run request timed out without a response.")
              end)
      else mret (Some (Ok (if String.eqb output "" then "Command failed: " +:+ err
                           else "Command failed (" +:+ err +:+ "):" +:+ nl +:+ output)))
  end.

Definition policyNote (p : Policies.Policy) : string :=
  "Executed immediately under standing approval policy " +:+ Policies.ID p +:+ " (" +:+ Quote (Policies.Description p) +:+ ").".

Definition action_entry (type title detail severity : string) : Timeline.TimelineEntry :=
  Timeline.mkEntry "" "" type title detail severity "" "" None None 0 "" None.

Definition filed_text (id importance risk : string) : string :=
  "Approval requested (id " +:+ id +:+ ", importance " +:+ importance +:+ ", risk " +:+ risk +:+
  ") — the command has NOT been executed yet. It will run automatically if the operator approves within 24 hours, " +:+
  "and the result will be recorded on the host timeline. Do not wait for the decision and do not resubmit this command; " +:+
  "state in your report that the remediation is pending operator approval.".

(** The checks before anything happens. *)
Definition refuse (cmd : string) : option run_error :=
  if String.eqb cmd "" then Some EEmptyCommand
  else if isNoOpCommand cmd then Some (ENoOp cmd)
  else if isNoOpShellBuiltin cmd then Some (ENoOpBuiltin cmd)
  else if isEchoStatusCommand cmd then Some EEchoCommand
  else if Diagnostic.IsDiagnosticEligible cmd then Some (EReadOnly cmd)
  else None.

(** The handler of [run_approved_command]. *)
Definition run_approved (title command reason importance risk : string) : W M outcome :=
  let cmd := TrimSpace command in
  match refuse cmd with
  | Some e => mret (Some (Err e))
  | None =>
      let title := if String.eqb title "" then "Run command on " +:+ host else title in
      pol ← on_mem (λ m, (Policies.Match cmd (Some m), m));
      match pol with
      | Some p =>
          _ ← Timeline.AppendTimeline zone
                (action_entry "action" title
                   ("Command: " +:+ cmd +:+ para +:+ "Reason: " +:+ reason +:+ para +:+ policyNote p) "info");
          out ← executeApproved cmd reason;
          mret (match out with
                | Some (Ok text) => Some (Ok (policyNote p +:+ para +:+ text))
                | r => r
                end)
      | None =>
          r ← Approval.SubmitApproval zone title ("Host: " +:+ host +:+ para +:+ "Reason: " +:+ reason)
                cmd importance risk true reason;
          mret (Some (match r with
                      | Err e => Err (ESubmit e)
                      | Ok id => Ok (filed_text id importance risk)
                      end))
      end
  end.

(** The text of an error [executeApproved] returns. *)
Definition error_text (e : run_error) : string :=
  match e with
  | EManualInterrupted err => "manual run interrupted: " +:+ err
  | _ => ""
  end.

(** [ExecuteOnApproval]: [false] while it waits for a manual run. *)
Definition ExecuteOnApproval (entry : Approval.ApprovalEntry) : W M bool :=
  let cmd := TrimSpace (Approval.ProposedAction entry) in
  out ← executeApproved cmd (Approval.ExecReason entry);
  match out with
  | None => mret false
  | Some r =>
      let output := match r with Ok text => text | Err e => "Execution error: " +:+ error_text e end in
      _ ← Approval.SetOutput (Approval.ID entry) output;
      let failed := HasPrefix output "Command failed" || HasPrefix output "Execution error" in
      let detail := "Command: " +:+ cmd +:+ para +:+ "Result:" +:+ nl +:+ truncate output 1500 in
      _ ← Timeline.AppendTimeline zone
            (action_entry "action" ("Executed approved command: " +:+ Approval.Title entry) detail
               (if failed then "warning" else "info"));
      _ ← Notify ((if failed then "[Approved Command FAILED] " else "[Approved Command Executed] ") +:+ Approval.Title entry)
            ("Host: " +:+ host +:+ para +:+ detail);
      '(n, err) ← on_mem (λ m, let '(n, e, m') := Policies.RecordApproval order cmd (Some m) in
                               ((n, e), default m m'));
      match err with
      | None =>
          if Policies.PromotionThreshold <=? n then
            _ ← Timeline.AppendTimeline zone
                  (action_entry "recommendation"
                     ("Candidate for standing approval policy (approved " +:+ Itoa n +:+ "x)")
                     ("Command: " +:+ Policies.NormalizeCommand cmd +:+ para +:+
                      "This command has been operator-approved " +:+ Itoa n +:+
                      " times. Creating a standing approval policy (POST /policies) would let the agent run it without a fresh approval each time.")
                     "info");
            mret true
          else mret true
      | Some _ => mret true
      end
  end.

(** ** The policy endpoints *)

(** [strings.Trim(strings.TrimPrefix(path, "/policies"), "/")]. *)
Definition policy_path (path : string) : string :=
  let slash := λ c, Ascii.eqb c "/" in
  TrimRightFunc slash (TrimLeftFunc slash (TrimPrefix path "/policies")).

Inductive policy_response :=
| PList (policies : list Policies.Policy)
| PCreated (p : Policies.Policy)
| PCode (code : Z).

(** [body] is the decoded description, pattern and risk. *)
Definition policy_handler (method path : string) (body : option (string * string * string)) : W M policy_response :=
  let id := policy_path path in
  if String.eqb method "GET" && String.eqb id "" then
    on_mem (λ m, (PList (Policies.All (Some m)), m))
  else if String.eqb method "POST" && String.eqb id "" then
    match body with
    | None => mret (PCode Timeline.StatusBadRequest)
    | Some (description, pattern, risk) =>
        t ← now_; t' ← now_;
        on_mem (λ m, match Policies.Add zone t t' description pattern risk (Some m) with
                     | (Ok p, m') => (PCreated p, default m m')
                     | (Err _, m') => (PCode Timeline.StatusBadRequest, default m m')
                     end)
    end
  else if String.eqb method "DELETE" && negb (String.eqb id "") then
    on_mem (λ m, match Policies.Delete id (Some m) with
                 | (Ok _, m') => (PCode Timeline.StatusNoContent, default m m')
                 | (Err _, m') => (PCode Timeline.StatusNotFound, default m m')
                 end)
  else mret (PCode Timeline.StatusMethodNotAllowed).

End Ops.

End RunApproved.
