(* ===== verification/RunApprovedFacts.v ===== *)
(** * What reaches a shell

    The only computations that start a process are the ones that passed a gate: a
    standing policy, or an operator's decision. *)

From S2P Require Import Prelude GoStrings GoTime Json Memory MemStore World Timeline WorldFacts.
From S2P Require Import Regexp DiagnosticCommand Policy PolicyFacts Approval ApprovalFacts ManualRun RunApproved.

Import RunApproved.

Section Quiet.
Context `{!MemStore M, !Json (list Timeline.TimelineEntry), !Json notification}.
Context `{!Json Approval.ApprovalEntry, !Json ManualRun.ManualRunEntry}.

Lemma quiet_notify s b : quiet (M := M) (Notify s b).
Proof. unfold Notify. frame_world. Qed.

Lemma quiet_append zone e : quiet (M := M) (Timeline.AppendTimeline zone e).
Proof. unfold Timeline.AppendTimeline, Timeline.entries_. frame_world. Qed.

Lemma quiet_patch_timeline id st : quiet (M := M) (Timeline.PatchTimeline id st).
Proof. unfold Timeline.PatchTimeline. frame_world. Qed.

#[local] Hint Resolve quiet_notify quiet_append quiet_patch_timeline : world.

Lemma quiet_create zone id t d a i r b x : quiet (M := M) (Approval.createPending zone id t d a i r b x).
Proof. unfold Approval.createPending, Approval.writeTimeline, Timeline.entries_. frame_world. Qed.

Lemma quiet_submit zone t d a i r b x : quiet (M := M) (Approval.SubmitApproval zone t d a i r b x).
Proof. unfold Approval.SubmitApproval. apply quiet_bind; [auto with world|]. intros id. apply quiet_bind; [apply quiet_create|]. frame_world. Qed.

Lemma quiet_output id out : quiet (M := M) (Approval.SetOutput id out).
Proof. unfold Approval.SetOutput. frame_world. Qed.

Lemma quiet_manual_patch key st out : quiet (M := M) (ManualRun.patchAttrs key st out).
Proof. unfold ManualRun.patchAttrs. frame_world. Qed.

#[local] Hint Resolve quiet_manual_patch : world.

Lemma quiet_manual_wait events id : quiet (M := M) (ManualRun.wait events id).
Proof.
  induction events as [|[ev env] rest IH]; [apply quiet_ret|]. cbn [ManualRun.wait].
  apply quiet_bind; [apply quiet_on_mem|]. intros _. unfold ManualRun.PatchTimeline. destruct ev; frame_world.
Qed.

Lemma quiet_manual zone events t c h r : quiet (M := M) (ManualRun.RequestManualRun zone events t c h r).
Proof.
  pose proof quiet_manual_wait. unfold ManualRun.RequestManualRun, ManualRun.writeTimeline, Timeline.entries_.
  frame_world.
Qed.

End Quiet.

#[export] Hint Resolve quiet_notify quiet_append quiet_patch_timeline quiet_submit quiet_output quiet_manual : world.

Section Facts.
Context {RJ : RawJson} `{!MemStore M, !MemStoreLaws M, !RegexpEngine}.
Context `{!Json (list Policies.Policy), !Json (gmap string Z)}.
Context `{!Json Approval.ApprovalEntry, !JsonRoundtrip Approval.ApprovalEntry, !JsonCompact Approval.ApprovalEntry}.
Context `{!Json ManualRun.ManualRunEntry, !Json (list Timeline.TimelineEntry), !Json notification}.
Context (zone : Z → Z) (order : gmap string Z → list (string * Z)).
Context (host : string) (usingSudo : bool) (errText : mem_error → string).
Context (manual : list (ManualRun.event * (M → M))).

Abbreviation tool := (run_approved zone host usingSudo errText manual).
Abbreviation execute := (ExecuteOnApproval zone order host usingSudo errText manual).

(** A process started, then only quiet steps. *)
Definition runs_one {A} (argv : list string) (c : W M A) : Prop := ∀ w, w_run (c w).2 = w_run w ++ [argv].

Lemma runs_one_then {A B} argv (c : W M A) (f : A → W M B) :
  runs_one argv c → (∀ a, quiet (f a)) → runs_one argv (c ≫= f).
Proof. intros Hc Hf w. rewrite bind_run, Hf. apply Hc. Qed.

Lemma runs_one_after {A B} argv (c : W M A) (f : A → W M B) :
  quiet c → (∀ a, runs_one argv (f a)) → runs_one argv (c ≫= f).
Proof. intros Hc Hf w. by rewrite bind_run, Hf, Hc. Qed.

Lemma execute_runs_one cmd reason :
  runs_one (argv usingSudo cmd) (executeApproved zone host usingSudo errText manual cmd reason).
Proof.
  unfold executeApproved. apply runs_one_then; [by intros w|].
  intros [out [err|]]; [|apply quiet_ret]. cbv zeta. destruct (usingSudo && _); [|apply quiet_ret].
  apply quiet_bind; [apply quiet_manual|]. intros; apply quiet_ret.
Qed.

Lemma on_approval_runs_one entry :
  runs_one (argv usingSudo (TrimSpace (Approval.ProposedAction entry))) (execute entry).
Proof. unfold ExecuteOnApproval. cbv zeta. apply runs_one_then; [apply execute_runs_one|]. frame_world. Qed.

(** Filing an approval that succeeds. *)
Lemma create_files id title detail action importance risk auto reason w w' :
  Approval.createPending zone id title detail action importance risk auto reason w = (None, w') →
  (GetAttr (Approval.AttrsKey id) (w_mem w') : Approval.ApprovalEntry * bool) =
    (Approval.mkApproval id title detail action importance risk "pending" (w_clock w (w_ticks w)) None "" 0 ""
       auto reason "" false, true).
Proof.
  unfold Approval.createPending. rewrite bind_run. cbn [now_ fst snd].
  set (e := Approval.mkApproval _ _ _ _ _ _ _ _ _ _ _ _ _ _ _ _). rewrite bind_run. unfold set_attr, on_mem.
  cbn [w_mem]. destruct (SetAttr _ e (w_mem w)) as [[er|] m] eqn:E; cbn [fst snd]; [intros [= ]|].
  rewrite !bind_run. intros [= <-].
  set (c := if Approval.urgent _ _ then _ else _).
  assert (keeps_attrs c) as Hc by (subst c; destruct (Approval.urgent _ _); [apply keeps_attrs_notify|apply keeps_attrs_ret]).
  rewrite (keeps_get c) by done.
  rewrite (keeps_get (Approval.writeTimeline _ _ _ _ _ _ _ _));
    [by eapply get_set|unfold Approval.writeTimeline; frame_world].
Qed.

Lemma submit_files title detail action importance risk auto reason w id w' :
  Approval.SubmitApproval zone title detail action importance risk auto reason w = (Ok id, w') →
  id = w_uuid w (w_ids w) ∧
  (GetAttr (Approval.AttrsKey id) (w_mem w') : Approval.ApprovalEntry * bool) =
    (Approval.mkApproval id title detail action importance risk "pending" (w_clock w (w_ticks w)) None "" 0 ""
       auto reason "" false, true).
Proof.
  unfold Approval.SubmitApproval. rewrite bind_run. cbn [newUUID fst snd]. rewrite bind_run.
  destruct (Approval.createPending _ _ _ _ _ _ _ _ _ _) as [[er|] w2] eqn:E; cbn [fst snd]; intros [= <- <-].
  split; [done|]. apply create_files in E. exact E.
Qed.

Lemma policy_branch_runs title command reason importance risk w p :
  refuse (TrimSpace command) = None → Policies.Match (TrimSpace command) (Some (w_mem w)) = Some p →
  w_run (tool title command reason importance risk w).2 = w_run w ++ [argv usingSudo (TrimSpace command)].
Proof.
  intros Href Hm. unfold run_approved. rewrite Href, bind_run. unfold on_mem. cbn [fst snd]. rewrite Hm.
  set (w0 := with_mem w (w_mem w)). change (w_run w) with (w_run w0).
  apply runs_one_after; [apply quiet_append|]. intros _.
  apply runs_one_then; [apply execute_runs_one|]. intros; apply quiet_ret.
Qed.

(** What a call of the tool starts. *)
Lemma run_approved_law title command reason importance risk w :
  let cmd := TrimSpace command in
  let r := tool title command reason importance risk w in
  match refuse cmd with
  | Some e => r = (Some (Err e), w)
  | None =>
      match Policies.Match cmd (Some (w_mem w)) with
      | Some p => w_run r.2 = w_run w ++ [argv usingSudo cmd]
      | None => w_run r.2 = w_run w
      end
  end.
Proof.
  cbv zeta. destruct (refuse (TrimSpace command)) as [e|] eqn:Href; [unfold run_approved; by rewrite Href|].
  destruct (Policies.Match _ _) as [p|] eqn:Hm; [by apply (policy_branch_runs _ _ _ _ _ _ p)|].
  unfold run_approved. rewrite Href, bind_run. unfold on_mem. cbn [fst snd]. rewrite Hm.
  set (w0 := with_mem w (w_mem w)). change (w_run w) with (w_run w0).
  apply quiet_bind; [apply quiet_submit|]. intros; apply quiet_ret.
Qed.

(** C3. The gate of [run_approved_command]: a command that is refused changes
    nothing; a command that a standing policy matches starts exactly one process,
    with that command's text; any other starts none. *)
Theorem run_approved_gate title command reason importance risk w :
  let cmd := TrimSpace command in
  let r := tool title command reason importance risk w in
  match refuse cmd with
  | Some e => r = (Some (Err e), w)
  | None =>
      match Policies.Match cmd (Some (w_mem w)) with
      | Some p => w_run r.2 = w_run w ++ [argv usingSudo cmd]
      | None => w_run r.2 = w_run w
      end
  end.
Proof. apply run_approved_law. Qed.

(** C4. From proposal to execution: a command no policy matches is filed as one
    pending approval with its exact text, under a fresh identifier, and nothing
    runs; once an approval of that entry is accepted, exactly that command is
    started, once; a rejection starts nothing. *)
Theorem filed_runs_on_approval title command reason importance risk w text w1 :
  refuse (TrimSpace command) = None → Policies.Match (TrimSpace command) (Some (w_mem w)) = None →
  tool title command reason importance risk w = (Some (Ok text), w1) →
  let id := w_uuid w (w_ids w) in
  ∃ entry,
    (GetAttr (Approval.AttrsKey id) (w_mem w1) : Approval.ApprovalEntry * bool) = (entry, true) ∧
    Approval.ProposedAction entry = TrimSpace command ∧ Approval.Status entry = "pending" ∧
    Approval.ID entry = id ∧ w_run w1 = w_run w ∧
    ∀ w2 path r code launched w3 decision,
      (GetAttr (Approval.AttrsKey id) (w_mem w2) : Approval.ApprovalEntry * bool) = (entry, true) →
      Timeline.path_id "/approvals/" "decision" path = Some id →
      Approval.decision_handler "POST" path (Some (decision, r)) w2 = ((code, launched), w3) →
      code = Timeline.StatusOK →
      (decision = "approved" → ∃ e, launched = [e] ∧
         ∀ w4, w_run (execute e w4).2 = w_run w4 ++ [argv usingSudo (TrimSpace command)]) ∧
      (decision ≠ "approved" → launched = []).
Proof.
  intros Href Hpol. unfold run_approved. rewrite Href. cbv zeta.
  set (title' := if String.eqb title "" then _ else title). rewrite bind_run. unfold on_mem. cbn [fst snd].
  rewrite Hpol, bind_run. set (w0 := with_mem w (w_mem w)).
  pose proof (quiet_submit zone title' ("Host: " +:+ host +:+ para +:+ "Reason: " +:+ reason)
    (TrimSpace command) importance risk true reason w0) as Hq.
  destruct (Approval.SubmitApproval _ _ _ _ _ _ _ _ w0) as [[er|id] w'] eqn:Hsub; cbn [fst snd] in *; intros [= _ <-].
  apply submit_files in Hsub as [Hid Hg]. change (w_uuid w0 (w_ids w0)) with (w_uuid w (w_ids w)) in Hid. rewrite Hid in Hg. clear Hid.
  eexists. split; [exact Hg|]. split_and!; [done|done|done|exact Hq|].
  intros w2 path r code launched w3 decision Hg2 Hp Hdec Hcode. unfold Approval.decision_handler in Hdec. rewrite bind_run in Hdec.
  destruct (Approval.decide_read "POST" path (Some (decision, r)) w2) as [[c|x] w2'] eqn:Hr; cbn in Hdec.
  { unfold mret, W_ret in Hdec. simplify_eq. exfalso. revert Hr. unfold Approval.decide_read. rewrite String.eqb_refl. cbn [negb].
    rewrite Hp. destruct (_ && _) eqn:Hd; [done|]. rewrite bind_run. cbn [get_attr fst snd]. rewrite Hg2. done. }
  apply decide_read_inv in Hr as (id & d & r' & e & -> & -> & _ & Hp' & [= <- <-] & _ & Hg2' & _).
  rewrite Hp in Hp'. simplify_eq. rewrite Hg2 in Hg2'. simplify_eq.
  apply decide_commit_inv in Hdec as [[? _]|(_ & _ & ->)]; [done|]. split.
  - intros ->. eexists. split; [reflexivity|]. intros w4. rewrite on_approval_runs_one. cbn [Approval.ProposedAction Approval.set_status].
    by rewrite TrimSpace_idemp.
  - intros Hne. by rewrite (proj2 (String.eqb_neq _ _) Hne).
Qed.

(** A policy is matched against the words of a command and the text is run:
    two commands with the same words, whatever separates them, are let through by
    the same policy, and each is started as it was written.  A line feed therefore
    hides a second command from the pattern. *)
Theorem policy_runs_unnormalised title command command' reason importance risk w p :
  Fields command' = Fields command →
  refuse (TrimSpace command') = None → Policies.Match (TrimSpace command) (Some (w_mem w)) = Some p →
  w_run (tool title command' reason importance risk w).2 = w_run w ++ [argv usingSudo (TrimSpace command')].
Proof.
  intros Hf Href Hm.
  assert (Policies.Match (TrimSpace command') (Some (w_mem w)) = Some p) as Hm'.
  { rewrite <-Hm. unfold Policies.Match. by rewrite !normalize_fields, !Fields_TrimSpace, Hf. }
  by apply (policy_branch_runs _ _ _ _ _ _ p).
Qed.

End Facts.
