(* ===== verification/ApprovalExamples.v ===== *)
(** * The theorems on the gate, the policies, the sanitizer and the approvals on concrete
    inputs and a concrete agent *)

From S2P Require Import Prelude GoStrings GoTime GoText Json Memory MemoryFacts MemStore Regexp DiagnosticCommand DiagnosticFacts Policy PolicyFacts Sanitize.
From S2P Require Import World Timeline WorldFacts Approval ApprovalFacts ManualRun RunApproved RunApprovedFacts.

Lemma eligible_no_substitution_witness :
  ∃ d, Some "2"%char = Some d ∧ (48 ≤ code d ≤ 57 ∨ code d = 60).
Proof.
  refine (proj2 (proj2 (eligible_no_substitution "df 2>/dev/null" (Some "2"%char) ">"%char "/dev/null" _ _)) eq_refl).
  - vm_compute. reflexivity.
  - repeat constructor.
Defined.

(** A process table that prints one line. *)
Definition demo_exec (argv : list string) : string * option string := ("up 3 days", None).

Lemma diagnostic_tool_witness :
  Diagnostic.IsDiagnosticEligible "uptime" = true ∧
  (Diagnostic.run_diagnostic Diagnostic.runShell_unix demo_exec " uptime ").2 = [["sh"; "-c"; "uptime"]].
Proof.
  destruct (diagnostic_tool_guarded Diagnostic.runShell_unix demo_exec " uptime " ["sh"; "-c"; "uptime"])
    as (He & _ & Ha & _); [vm_compute; by left|]. split; [exact He|exact Ha].
Defined.

(** ** Policies *)

#[local] Existing Instance Policies.policy_eq_dec.
#[local] Instance policy_countable : Countable Policies.Policy.
Proof.
  apply (inj_countable'
    (λ p, (Policies.ID p, Policies.Description p, Policies.Pattern p, Policies.Risk p, Policies.CreatedAt p, Policies.Enabled p))
    (λ '(a, b, c, d, e, f), Policies.mkPolicy a b c d e f)).
  by intros [].
Defined.

#[local] Existing Instance CountableJson.raw_json.
#[local] Existing Instance CountableJson.raw_json_roundtrip.
#[local] Instance json_policies : Json (list Policies.Policy) := CountableJson.json [].
#[local] Instance json_policies_roundtrip : JsonRoundtrip (list Policies.Policy) := CountableJson.json_roundtrip [].
#[local] Instance json_policies_compact : JsonCompact (list Policies.Policy) := CountableJson.json_compact [].
#[local] Instance json_counts : Json (gmap string Z) := CountableJson.json ∅.
#[local] Instance json_counts_roundtrip : JsonRoundtrip (gmap string Z) := CountableJson.json_roundtrip ∅.
#[local] Instance json_counts_compact : JsonCompact (gmap string Z) := CountableJson.json_compact ∅.
#[local] Instance demo_mem : MemStore Store.Store := store_mem false None false.
#[local] Instance demo_laws : MemStoreLaws Store.Store := store_mem_laws false None false.
#[local] Existing Instance go_regexp.

Definition empty_mem : Store.Store := Store.mkStore true ∅ None 0.
Definition utc : Z → Z := λ _, 0.
Definition t1 : Z := 1784900000 * Second.

(** One policy, and the memory that holds it. *)
Definition gz_policy : Policies.Policy :=
  Policies.mkPolicy "policy-1784900000000000000" "rotate" "rm -f /var/log/\S+\.gz" "low" "2026-07-24T13:33:20Z" true.
Definition policy_mem : Store.Store := (SetAttr Policies.attrsKey [gz_policy] empty_mem).2.

Lemma policy_mem_load : Policies.load policy_mem = [gz_policy].
Proof. vm_compute. reflexivity. Qed.

Lemma lifecycle_witness :
  ∃ m', Policies.Delete "policy-1784900000000000000" (Some policy_mem) = (Ok tt, Some m') ∧
        gz_policy ∉ Policies.load m'.
Proof.
  destruct (Policies.Delete "policy-1784900000000000000" (Some policy_mem)) as [[[]|e] [m'|]] eqn:E.
  2-4: exfalso; assert (match Policies.Delete "policy-1784900000000000000" (Some policy_mem) with
        (Ok _, Some _) => true | _ => false end = true) as Hs by (vm_compute; reflexivity);
      rewrite E in Hs; discriminate.
  exists m'. split; [reflexivity|]. intros Hin.
  destruct (policy_lifecycle utc t1 t1 "d" "p" "r" "policy-1784900000000000000" policy_mem) as [_ Hdel].
  destruct (Hdel tt m' E) as [Hin' _]. apply Hin' in Hin as [_ Hid]. by apply Hid.
Defined.

Lemma whole_command_witness :
  Policies.matches "rm -f /var/log/a.gz" gz_policy = true ∧
  ∃ r prev, Compile (Policies.Pattern gz_policy) = Some r ∧ Matches r (None, "rm -f /var/log/a.gz") (prev, "").
Proof.
  assert (Policies.matches "rm -f /var/log/a.gz" gz_policy = true) as Hm by (vm_compute; reflexivity).
  split; [exact Hm|]. destruct (Compile (Policies.Pattern gz_policy)) as [r|] eqn:Hc.
  - destruct (proj1 (policy_whole_command gz_policy r "rm -f /var/log/a.gz" Hc eq_refl) Hm) as [prev HM].
    exists r, prev. split; [reflexivity|exact HM].
  - exfalso. vm_compute in Hc. discriminate.
Defined.

Lemma record_approval_witness :
  ∃ n m' counts', Policies.RecordApproval map_to_list "systemctl  restart nginx" (Some empty_mem) = (n, None, Some m') ∧
    GetAttr Policies.historyKey m' = (counts', true) ∧ counts' !! "systemctl restart nginx" = Some 1.
Proof.
  destruct (Policies.RecordApproval map_to_list "systemctl  restart nginx" (Some empty_mem)) as [[n [e|]] [m'|]] eqn:E.
  1, 2, 4: exfalso; assert (match Policies.RecordApproval map_to_list "systemctl  restart nginx" (Some empty_mem) with
        (_, None, Some _) => true | _ => false end = true) as Hs by (vm_compute; reflexivity);
      rewrite E in Hs; discriminate.
  destruct (record_approval map_to_list (λ _, reflexivity _) "systemctl  restart nginx" empty_mem n m' E)
    as (counts' & Hg & Hn & Hk & _).
  - intros k v Hkv. exfalso. assert ((GetAttr Policies.historyKey empty_mem : gmap string Z * bool).1 = ∅) as He
      by (vm_compute; reflexivity). rewrite He, lookup_empty in Hkv. discriminate.
  - exists n, m', counts'. split; [reflexivity|]. split; [exact Hg|].
    change (Policies.NormalizeCommand "systemctl  restart nginx") with "systemctl restart nginx" in *.
    rewrite Hk, Hn. vm_compute. reflexivity.
Defined.

Lemma no_event_witness : (Sanitize.ToolOutput "load average: 0.1").1 = "load average: 0.1".
Proof.
  apply no_event_no_change; [vm_compute; reflexivity|]. vm_compute. reflexivity.
Defined.

#[local] Existing Instance Approval.approval_eq_dec.
#[local] Existing Instance Timeline.entry_eq_dec.
#[local] Existing Instance ManualRun.run_eq_dec.

#[local] Instance approval_countable : Countable Approval.ApprovalEntry.
Proof.
  apply (inj_countable'
    (λ e : Approval.ApprovalEntry, let '(Approval.mkApproval a b c d e f g h i j k l m n o p) := e in
       ((a, b, c, d, e, f, g, h), (i, j, k, l, m, n, o, p)))
    (λ '((a, b, c, d, e, f, g, h), (i, j, k, l, m, n, o, p)), Approval.mkApproval a b c d e f g h i j k l m n o p)).
  by intros [].
Defined.

#[local] Instance timeline_countable : Countable Timeline.TimelineEntry.
Proof.
  apply (inj_countable'
    (λ e : Timeline.TimelineEntry, let '(Timeline.mkEntry a b c d e f g h i j k l m) := e in
       ((a, b, c, d, e, f, g), (h, i, j, k, l, m)))
    (λ '((a, b, c, d, e, f, g), (h, i, j, k, l, m)), Timeline.mkEntry a b c d e f g h i j k l m)).
  by intros [].
Defined.

#[local] Instance manual_countable : Countable ManualRun.ManualRunEntry.
Proof.
  apply (inj_countable'
    (λ e : ManualRun.ManualRunEntry, let '(ManualRun.mkRun a b c d e f g h i j) := e in (a, b, c, d, e, (f, g, h, i, j)))
    (λ '(a, b, c, d, e, (f, g, h, i, j)), ManualRun.mkRun a b c d e f g h i j)).
  by intros [].
Defined.

#[local] Instance note_eq_dec : EqDecision notification.
Proof. solve_decision. Defined.
#[local] Instance note_countable : Countable notification.
Proof.
  apply (inj_countable' (λ n, (Subject n, Body n, NoteTime n)) (λ '(a, b, c), mkNote a b c)). by intros [].
Defined.

Definition blank : Approval.ApprovalEntry := Approval.mkApproval "" "" "" "" "" "" "" 0 None "" 0 "" false "" "" false.

#[local] Instance json_approval : Json Approval.ApprovalEntry := CountableJson.json blank.
#[local] Instance json_approval_roundtrip : JsonRoundtrip Approval.ApprovalEntry := CountableJson.json_roundtrip blank.
#[local] Instance json_approval_compact : JsonCompact Approval.ApprovalEntry := CountableJson.json_compact blank.
#[local] Instance json_timeline : Json (list Timeline.TimelineEntry) := CountableJson.json [].
#[local] Instance json_manual : Json ManualRun.ManualRunEntry :=
  CountableJson.json (ManualRun.mkRun "" "" "" "" "" "" "" "" 0 None).
#[local] Instance json_note : Json notification := CountableJson.json (mkNote "" "" 0).

(** The store of the demo never refuses a write. *)
#[local] Instance demo_reliable : Reliable Store.Store.
Proof.
  split.
  - intros A J key v m [doc Hd]. cbn. unfold Store.on_attrs, Attrs.Set_. cbn.
    destruct (Attrs.load_attrs _ _) as [old attrs]. by rewrite Hd.
  - intros key m. cbn. unfold Store.on_attrs, Attrs.Delete. cbn.
    destruct (Attrs.load_attrs _ _) as [old attrs]. by destruct (attrs !! key).
Qed.

Lemma marshal_all (e : Approval.ApprovalEntry) : is_Some (Marshal e).
Proof. by eexists. Qed.

(** ** A host with one approval and one policy *)

Definition start : Z := 1784900000 * Second.
Definition restart : Approval.ApprovalEntry :=
  Approval.mkApproval "a1" "Restart nginx" "" "systemctl restart nginx" "low" "low" "pending" start None "" 0 ""
    true "stuck" "" false.
Definition install : Policies.Policy :=
  Policies.mkPolicy "policy-1" "install packages" "apt-get install -y [a-z ]+" "low" "" true.

Definition demo_store : Store.Store :=
  (SetAttr Policies.attrsKey [install] (SetAttr (Approval.AttrsKey "a1") restart (Store.mkStore true ∅ None 0)).2).2.

Definition demo : world Store.Store :=
  mkWorld demo_store (λ n, start + Z.of_nat n) 0 (λ n, "id" +:+ Itoa (Z.of_nat n)) 0 [] (λ _ _, ("ok", None)) [].

Definition by_key (m : gmap string string) : list (string * string) := map_to_list m.
Definition by_count (m : gmap string Z) : list (string * Z) := map_to_list m.

Abbreviation demo_entry key w := (GetAttr key (w_mem w) : Approval.ApprovalEntry * bool).
Abbreviation decide_demo body w := (Approval.decision_handler "POST" "/approvals/a1/decision" (Some body) w).

Lemma demo_pending : demo_entry (Approval.AttrsKey "a1") demo = (restart, true).
Proof. vm_compute. reflexivity. Qed.

Lemma decision_launches_witness :
  ∃ t, (decide_demo ("approved", "go") demo).1.2 = [Approval.set_status "approved" "go" (Some t) restart].
Proof.
  assert (bool_decide ((decide_demo ("approved", "go") demo).1.2 = []) = false) as Hl by (vm_compute; reflexivity).
  destruct (decide_demo ("approved", "go") demo) as [[code launched] w'] eqn:E. cbn [fst snd] in *.
  destruct (decision_launches_only_approved _ _ _ _ _ _ _ E) as (id & r & e & t & _ & Hp & Hb & He & _ & _ & -> & _).
  - intros Hn. rewrite Hn in Hl. discriminate Hl.
  - assert (id = "a1") as Hid by (cbv in Hp; congruence). rewrite Hid, demo_pending in He.
    injection Hb as <-. injection He as <-. exists t. reflexivity.
Defined.

Lemma repeated_decision_witness :
  ∃ w2, decide_demo ("approved", "again") (decide_demo ("approved", "go") demo).2 = ((409, []), w2) ∧
    (Approval.wait (replicate 3 (Approval.Poll, λ m, m) ++ [(Approval.TimedOut, λ m, m)])
       "a1" "Restart nginx" "" "systemctl restart nginx" "low" "low" w2).1 = Some (Some "timed_out").
Proof.
  assert ((decide_demo ("approved", "go") demo).1.1 = Timeline.StatusOK) as Hc by (vm_compute; reflexivity).
  destruct (decide_demo ("approved", "go") demo) as [[code launched] w1] eqn:E.
  exact (repeated_decision_lost "/approvals/a1/decision" "a1" "go" "again" "Restart nginx" "" "systemctl restart nginx"
           "low" "low" 3 demo restart code launched w1 eq_refl demo_pending eq_refl E Hc).
Defined.

Lemma concurrent_decisions_witness :
  let c1 := Approval.decide_commit "a1" "approved" "go" restart demo in
  let c2 := Approval.decide_commit "a1" "approved" "go" restart c1.2 in
  length (c1.1.2 ++ c2.1.2) = 2%nat.
Proof.
  cbv zeta. destruct (Approval.decide_commit "a1" "approved" "go" restart demo) as [[code1 l1] w1] eqn:E1. cbn [fst snd].
  destruct (Approval.decide_commit "a1" "approved" "go" restart w1) as [[code2 l2] w2] eqn:E2. cbn [fst snd].
  exact (proj1 (proj2 (concurrent_decisions_run_twice "/approvals/a1/decision" "a1" "go" "go" demo restart
    code1 l1 w1 code2 l2 w2 eq_refl demo_pending eq_refl eq_refl marshal_all E1 E2))).
Defined.


Lemma prune_witness :
  demo_entry (Approval.AttrsKey "a1") (Approval.pruneAttrs by_key (start + 1000 * Hour) demo).2 = (restart, true).
Proof.
  assert (match AllAttrs (w_mem demo) with Ok _ => true | Err _ => false end = true) as Ha by (vm_compute; reflexivity).
  destruct (AllAttrs (w_mem demo)) as [attrs|e] eqn:E; [|discriminate Ha].
  destruct (prune_decided by_key (λ _, reflexivity _) (start + 1000 * Hour) demo attrs E) as [Hx _].
  rewrite (Hx (Approval.AttrsKey "a1")); [apply demo_pending|]. right. right. rewrite demo_pending. reflexivity.
Defined.

(** ** The tool *)

Definition utc0 : Z → Z := λ _, 0.
Definition err_text (e : mem_error) : string := "store error".
Abbreviation demo_tool := (RunApproved.run_approved utc0 "web1" false err_text []).

Lemma gate_witness : RunApproved.refuse "uptime" = Some (RunApproved.EReadOnly "uptime") ∧
  demo_tool "" " uptime " "" "low" "low" demo = (Some (Err (RunApproved.EReadOnly "uptime")), demo).
Proof.
  assert (RunApproved.refuse (TrimSpace " uptime ") = Some (RunApproved.EReadOnly "uptime")) as Hr by (vm_compute; reflexivity).
  split; [exact Hr|]. pose proof (run_approved_gate utc0 "web1" false err_text [] "" " uptime " "" "low" "low" demo) as Hg.
  cbv zeta in Hg. rewrite Hr in Hg. exact Hg.
Defined.

Lemma filed_witness :
  ∃ entry, demo_entry (Approval.AttrsKey "id0") (demo_tool "" "reboot" "" "low" "low" demo).2 = (entry, true) ∧
    Approval.ProposedAction entry = "reboot".
Proof.
  assert (match (demo_tool "" "reboot" "" "low" "low" demo).1 with Some (Ok _) => true | _ => false end = true) as Ho
    by (vm_compute; reflexivity).
  destruct (demo_tool "" "reboot" "" "low" "low" demo) as [[[text|e]|] w1] eqn:E; try discriminate Ho.
  destruct (filed_runs_on_approval utc0 by_count "web1" false err_text [] "" "reboot" "" "low" "low" demo text w1)
    as (entry & Hg & Hp & _); [vm_compute; reflexivity|vm_compute; reflexivity|exact E|].
  exists entry. split; [exact Hg|exact Hp].
Defined.

Lemma unnormalised_witness :
  w_run (demo_tool "" ("apt-get install -y vim" +:+ nl +:+ "reboot") "" "low" "low" demo).2 =
    [["sh"; "-c"; "apt-get install -y vim" +:+ nl +:+ "reboot"]].
Proof.
  refine (policy_runs_unnormalised utc0 "web1" false err_text [] "" "apt-get install -y vim reboot"
    ("apt-get install -y vim" +:+ nl +:+ "reboot") "" "low" "low" demo install _ _ _); vm_compute; reflexivity.
Defined.
