(* ===== verification/Patching.v ===== *)
(** * System patching ([check_for_pending_system_patches/patching/patching.go])

    A [Patcher] for one OS family runs the package manager through a [Commander]:
    it checks for updates, applies them, asks whether a reboot is needed and
    reboots.  The machine is the class [Host]: the processes it runs and the files
    it holds, over a state of its own; [realCommander] is the command line that
    reaches it. *)

From S2P Require Import Prelude GoStrings GoTime GoText World.

(** ** The machine *)

(** The error of [Commander.Run]: [*ExitCodeError], or what [os/exec] reports when
    the process could not be run. *)
Inductive cmd_error :=
| ExitCodeError (Code : Z) (Stderr : string)
| ExecError (msg : string).

Definition cmd_error_text (e : cmd_error) : string :=
  match e with ExitCodeError c _ => "exit status " +:+ Itoa c | ExecError m => m end.

(** [errors.As(err, &ec) && ec.ExitCode() == n]. *)
Definition exited (n : Z) (e : cmd_error) : bool :=
  match e with ExitCodeError c _ => c =? n | ExecError _ => false end.

Inductive stat_result := StatOk (mtime : Z) | StatNotExist | StatError (msg : string).

Class Host (S : Type) := {
  Command : list string → S → (string * option cmd_error) * S;
  Stat : string → S → stat_result;
  ReadFile : string → S → result string string;
}.

Module Patching.

Inductive OSType := OSDebian | OSFedora | OSDarwin | OSWindows | OSUnknown.

#[export] Instance os_eq_dec : EqDecision OSType.
Proof. solve_decision. Defined.

Definition os_string (o : OSType) : string :=
  match o with
  | OSDebian => "debian" | OSFedora => "fedora" | OSDarwin => "darwin" | OSWindows => "windows" | OSUnknown => "unknown"
  end.

(** ** The operating system *)

Definition tokenise (values : list string) : list string :=
  filter (λ t, t ≠ "") (concat (Fields <$> values)).

(** One line of [/etc/os-release], on the last values of [ID] and [ID_LIKE]. *)
Definition os_release_line (ids : string * string) (line : string) : string * string :=
  match Cut "=" (TrimSpace line) with
  | None => ids
  | Some (k, v) =>
      let v := Trim v (String "034" "") in
      let key := ToUpper (TrimSpace k) in
      if String.eqb key "ID" then (ToLower (TrimSpace v), ids.2)
      else if String.eqb key "ID_LIKE" then (ids.1, ToLower (TrimSpace v))
      else ids
  end.

Definition debian_ids : list string :=
  ["debian"; "ubuntu"; "mint"; "kali"; "pop"; "elementary"; "zorin"; "raspbian"; "linuxmint"; "mxlinux"].
Definition fedora_ids : list string :=
  ["fedora"; "rhel"; "centos"; "rocky"; "almalinux"; "ol"; "oracle"; "scientific"].

Fixpoint family (tokens : list string) : OSType :=
  match tokens with
  | [] => OSUnknown
  | t :: rest =>
      if bool_decide (t ∈ debian_ids) then OSDebian
      else if bool_decide (t ∈ fedora_ids) then OSFedora
      else family rest
  end.

Definition ParseOSRelease (content : string) : OSType :=
  let '(id, idLike) := foldl os_release_line ("", "") (ScanLines content) in
  family (tokenise [id; idLike]).

Definition detectOS {S : Type} `{!Host S} (goos : string) (s : S) : result string OSType :=
  if String.eqb goos "darwin" then Ok OSDarwin
  else if String.eqb goos "windows" then Ok OSWindows
  else if String.eqb goos "linux" then
    match ReadFile "/etc/os-release" s with
    | Err e => Err ("patching: reading /etc/os-release: " +:+ e)
    | Ok data =>
        match ParseOSRelease data with
        | OSUnknown => Err "patching: unrecognised Linux distribution"
        | o => Ok o
        end
    end
  else Err ("patching: unsupported platform: " +:+ goos).

(** The argument vector of [realCommander.Run], and its reading of the process's
    end: [exec_end] is nil, an exit status, or another error. *)
Inductive exec_end := ExitOk | ExitStatus (code : Z) | ExecFailed (msg : string).

Definition command_argv (goos : string) (uid : Z) (name : string) (args : list string) : list string :=
  if String.eqb goos "linux" && negb (uid =? 0) then "sudo" :: "-n" :: name :: args else name :: args.

Definition realCommander_Run {S : Type} (goos : string) (uid : Z) (spawn : list string → S → (string * exec_end) * S)
    (argv : list string) (s : S) : (string * option cmd_error) * S :=
  let '(output, e, s) := spawn (command_argv goos uid (hd "" argv) (tl argv)) s in
  ((output, match e with
            | ExitOk => None
            | ExitStatus c => Some (ExitCodeError c output)
            | ExecFailed m => Some (ExecError m)
            end), s).

(** ** The patcher *)

Record patcher (S : Type) := mkPatcher { host : S; darwinRebootRequired : bool }.
Arguments mkPatcher {S}. Arguments host {S}. Arguments darwinRebootRequired {S}.

(** State passing over the machine and the patcher's flag. *)
Definition P (S A : Type) : Type := patcher S → A * patcher S.

#[export] Instance P_ret {S} : MRet (P S) := λ A a p, (a, p).
#[export] Instance P_bind {S} : MBind (P S) := λ A B f c p, let '(a, p') := c p in f a p'.

(** The output of a step with its error text. *)
Definition out_err : Type := string * option string.

Section Ops.
Context {S : Type} `{!Host S} (os : OSType).

Definition run (argv : list string) : P S (string * option cmd_error) := λ p,
  let '(r, h) := Command argv (host p) in (r, mkPatcher h (darwinRebootRequired p)).

Definition set_darwin (b : bool) : P S unit := λ p, (tt, mkPatcher (host p) b).
Definition stat (path : string) : P S stat_result := λ p, (Stat path (host p), p).
Definition read_file (path : string) : P S (result string string) := λ p, (ReadFile path (host p), p).

(** *** Command lines *)

Definition apt_update : list string := ["apt-get"; "update"; "-q"].
Definition apt_dry_run : list string := ["apt-get"; "upgrade"; "--dry-run"].
Definition apt_upgrade : list string := ["apt-get"; "upgrade"; "-y"].
Definition powershell (script : list string) : list string :=
  ["powershell.exe"; "-ExecutionPolicy"; "Bypass"; "-NoProfile"; "-Command"; Join script "; "].

Definition check_script : list string := [
  "$ErrorActionPreference = 'Stop'";
  "$session  = New-Object -ComObject Microsoft.Update.Session";
  "$searcher = $session.CreateUpdateSearcher()";
  "$results  = $searcher.Search(" +:+ dquote +:+ "IsInstalled=0 and Type='Software'" +:+ dquote +:+ ")";
  "Write-Output " +:+ dquote +:+ "$($results.Updates.Count) update(s) available" +:+ dquote
].

Definition install_script : list string := [
  "$ErrorActionPreference = 'Stop'";
  "Import-Module PSWindowsUpdate -ErrorAction SilentlyContinue";
  "$session   = New-Object -ComObject Microsoft.Update.Session";
  "$searcher  = $session.CreateUpdateSearcher()";
  "$results   = $searcher.Search(" +:+ dquote +:+ "IsInstalled=0 and Type='Software'" +:+ dquote +:+ ")";
  "if ($results.Updates.Count -eq 0) { Write-Output 'No updates available.'; exit 0 }";
  "$dl = $session.CreateUpdateDownloader(); $dl.Updates = $results.Updates; $dl.Download()";
  "$in = $session.CreateUpdateInstaller(); $in.Updates = $results.Updates";
  "$r  = $in.Install()";
  "Write-Output " +:+ dquote +:+ "Result: $($r.ResultCode), RebootRequired: $($r.RebootRequired)" +:+ dquote
].

Definition hotfix_script : string :=
  "(Get-HotFix | Sort-Object InstalledOn -Descending | Select-Object -First 1).InstalledOn.ToString(" +:+
  dquote +:+ "o" +:+ dquote +:+ ")".

Definition reboot_key : string :=
  "HKLM\SOFTWARE\Microsoft\Windows\CurrentVersion\WindowsUpdate\Auto Update\RebootRequired".

(** *** Checking *)

(** The answer, the output and the error of a check. *)
Definition check : Type := bool * string * option string.

Definition nothing_to_do (line : string) : bool :=
  HasPrefix (TrimSpace line) "0 upgraded, 0 newly installed, 0 to remove".

Definition checkDebianUpdates : P S check :=
  '(out, err) ← run apt_update;
  match err with
  | Some e => mret (false, out, Some ("apt-get update: " +:+ cmd_error_text e))
  | None =>
      '(out, err) ← run apt_dry_run;
      mret (match err with
            | Some e => (false, out, Some ("apt-get upgrade --dry-run: " +:+ cmd_error_text e))
            | None => (negb (existsb nothing_to_do (Lines out)), out, None)
            end)
  end.

Definition checkFedoraUpdates : P S check :=
  '(out, err) ← run ["dnf"; "check-update"];
  match err with
  | None => mret (false, out, None)
  | Some e =>
      if exited 100 e then mret (true, out, None)
      else
        '(out2, err2) ← run ["yum"; "check-update"];
        mret (match err2 with
              | None => (false, out2, None)
              | Some e2 =>
                  if exited 100 e2 then (true, out2, None)
                  else (false, out +:+ out2,
                        Some ("dnf check-update: " +:+ cmd_error_text e +:+ "; yum check-update: " +:+ cmd_error_text e2))
              end)
  end.

Definition checkDarwinUpdates : P S check :=
  '(out, err) ← run ["softwareupdate"; "-l"];
  mret (match err with
        | Some e => (false, out, Some ("softwareupdate -l: " +:+ cmd_error_text e))
        | None => (negb (Contains out "No new software available"), out, None)
        end).

Definition checkWindowsUpdates : P S check :=
  '(out, err) ← run (powershell check_script);
  mret (match err with
        | Some e => (false, out, Some ("windows update check: " +:+ cmd_error_text e))
        | None => (negb (Contains out "0 update(s) available"), out, None)
        end).

Definition UpdatesAvailable : P S check :=
  match os with
  | OSDebian => checkDebianUpdates
  | OSFedora => checkFedoraUpdates
  | OSDarwin => checkDarwinUpdates
  | OSWindows => checkWindowsUpdates
  | OSUnknown => mret (false, "", Some ("unsupported OS: " +:+ os_string os))
  end.

Definition statMtime (path : string) : P S (result string Z) :=
  r ← stat path;
  mret (match r with StatOk t => Ok t | StatNotExist => Err ("stat " +:+ path +:+ ": no such file or directory") | StatError m => Err m end).

Definition LastUpdated : P S (result string Z) :=
  match os with
  | OSDebian => statMtime "/var/lib/dpkg/status"
  | OSFedora =>
      r ← statMtime "/var/lib/rpm/rpmdb.sqlite";
      match r with
      | Ok t => mret (Ok t)
      | Err _ => statMtime "/var/lib/rpm/Packages"
      end
  | OSDarwin => statMtime "/Library/Receipts"
  | OSWindows =>
      '(out, err) ← run ["powershell.exe"; "-NoProfile"; "-Command"; hotfix_script];
      mret (match err with
            | Some e => Err ("LastUpdated windows: " +:+ cmd_error_text e)
            | None => match Parse (TrimSpace out) with
                      | Some t => Ok t
                      | None => Err ("LastUpdated windows: parse " +:+ Quote (TrimSpace out))
                      end
            end)
  | OSUnknown => mret (Err ("LastUpdated: unsupported OS: " +:+ os_string os))
  end.

(** The first line of a text that is not blank, trimmed. *)
Definition first_line (data : string) : string :=
  default "" (head (filter (λ l, l ≠ "") (TrimSpace <$> Lines data))).

Definition CheckDistUpgrade : P S string :=
  match os with
  | OSDebian =>
      r ← read_file "/var/lib/update-notifier/release-upgrade-available";
      mret (match r with Ok data => first_line data | Err _ => "" end)
  | _ => mret ""
  end.

(** *** Applying *)

Definition patchDebian : P S out_err :=
  '(out, err) ← run apt_update;
  match err with
  | Some e => mret (out, Some ("apt-get update: " +:+ cmd_error_text e))
  | None =>
      '(out2, err) ← run apt_upgrade;
      mret (out +:+ out2, match err with Some e => Some ("apt-get upgrade: " +:+ cmd_error_text e) | None => None end)
  end.

Definition patchFedora : P S out_err :=
  '(out, err) ← run ["dnf"; "update"; "-y"];
  match err with
  | None => mret (out, None)
  | Some e =>
      '(out2, err2) ← run ["yum"; "update"; "-y"];
      mret (match err2 with
            | Some e2 => (out +:+ out2, Some ("dnf: " +:+ cmd_error_text e +:+ "; yum: " +:+ cmd_error_text e2))
            | None => (out2, None)
            end)
  end.

Definition patchWindows : P S out_err :=
  '(out, err) ← run (powershell install_script); mret (out, cmd_error_text <$> err).

Definition patchDarwin : P S out_err :=
  '(out, err) ← run ["softwareupdate"; "--install"; "--all"];
  match err with
  | Some e => mret (out, Some ("softwareupdate --install --all: " +:+ cmd_error_text e))
  | None =>
      let lower := ToLower out in
      _ ← set_darwin (Contains lower "restart" || Contains lower "reboot");
      mret (out, None)
  end.

Definition applyUpdates : P S out_err :=
  match os with
  | OSDebian => patchDebian
  | OSFedora => patchFedora
  | OSDarwin => patchDarwin
  | OSWindows => patchWindows
  | OSUnknown => mret ("", Some ("unsupported OS: " +:+ os_string os))
  end.

(** *** Rebooting *)

Definition NeedsReboot : P S (result string bool) :=
  match os with
  | OSDebian =>
      r ← stat "/var/run/reboot-required";
      mret (match r with StatOk _ => Ok true | StatNotExist => Ok false | StatError m => Err m end)
  | OSFedora =>
      '(_, err) ← run ["needs-restarting"; "-r"];
      mret (Ok (match err with Some (ExitCodeError c _) => c =? 1 | _ => false end))
  | OSDarwin => λ p, (Ok (darwinRebootRequired p), p)
  | OSWindows =>
      '(out, err) ← run ["reg"; "query"; reboot_key; "/v"; "RebootRequired"];
      mret (Ok (match err with Some _ => false | None => Contains out "RebootRequired" end))
  | OSUnknown => mret (Ok false)
  end.

(** The reboot command of an OS family. *)
Definition reboot_command : option (list string) :=
  match os with
  | OSDebian | OSFedora | OSDarwin => Some ["shutdown"; "-r"; "now"]
  | OSWindows => Some ["shutdown"; "/r"; "/t"; "0"]
  | OSUnknown => None
  end.

Definition reboot : P S out_err :=
  match reboot_command with
  | Some argv => '(out, err) ← run argv; mret (out, cmd_error_text <$> err)
  | None => mret ("", Some ("reboot not supported for OS: " +:+ os_string os))
  end.

(** *** The patch cycle *)

(** [logf]: the line, ended by a line feed if it has none. *)
Definition logf (line : string) : string := if HasSuffix line nl then line else line +:+ nl.

Definition Run : P S out_err :=
  let head := logf ("Detected OS: " +:+ os_string os) +:+ logf "" in
  '(out, err) ← applyUpdates;
  let log := head +:+ logf "=== Package Update ===" +:+ logf (TrimRight out nl) +:+ logf "" in
  match err with
  | Some e => mret (log, Some ("update failed: " +:+ e))
  | None =>
      needs ← NeedsReboot;
      match needs with
      | Err e => mret (log +:+ logf ("Warning: reboot check failed: " +:+ e), None)
      | Ok false => mret (log +:+ logf "No reboot required.", None)
      | Ok true =>
          let log := log +:+ logf "Reboot required. Initiating reboot..." in
          '(out, err) ← reboot;
          mret (match err with
                | Some e => (log +:+ logf out, Some ("reboot failed: " +:+ e))
                | None => (log +:+ logf "Reboot command issued successfully.", None)
                end)
      end
  end.

End Ops.

End Patching.
