(* ===== verification/PatchingFacts.v ===== *)
(** * Theorems on patching

    The commands a patch cycle issues, on any machine that logs them: checking
    changes nothing, and a reboot happens only after a successful update whose
    reboot check says so. *)

From S2P Require Import Prelude GoStrings GoTime GoText World Patching.

Import Patching.

(** ** The commands issued *)

(** A machine that logs the command lines it runs, each in the form [wrap] gives it. *)
Class Logged (S : Type) `{!Host S} := {
  log_of : S → list (list string);
  wrap : list string → list string;
  log_command argv s : log_of (Command argv s).2 = log_of s ++ [wrap argv];
}.

Definition log {S : Type} `{!Host S, !Logged S} (p : patcher S) : list (list string) := log_of (host p).

Definition check_commands (os : OSType) : list (list string) :=
  match os with
  | OSDebian => [apt_update; apt_dry_run]
  | OSFedora => [["dnf"; "check-update"]; ["yum"; "check-update"]]
  | OSDarwin => [["softwareupdate"; "-l"]]
  | OSWindows => [powershell check_script]
  | OSUnknown => []
  end.

Definition update_commands (os : OSType) : list (list string) :=
  match os with
  | OSDebian => [apt_update; apt_upgrade]
  | OSFedora => [["dnf"; "update"; "-y"]; ["yum"; "update"; "-y"]]
  | OSDarwin => [["softwareupdate"; "--install"; "--all"]]
  | OSWindows => [powershell install_script]
  | OSUnknown => []
  end.

Definition reboot_queries (os : OSType) : list (list string) :=
  match os with
  | OSFedora => [["needs-restarting"; "-r"]]
  | OSWindows => [["reg"; "query"; reboot_key; "/v"; "RebootRequired"]]
  | _ => []
  end.

Create HintDb patching.

Section Facts.
Context {S : Type} `{!Host S, !Logged S}.

(** [c] runs only commands that satisfy [allowed]. *)
Definition issues {A} (allowed : list string → Prop) (c : P S A) : Prop :=
  ∀ p, ∃ cmds, log (c p).2 = log p ++ (wrap <$> cmds) ∧ Forall allowed cmds.

Lemma issues_ret {A} l (a : A) : issues l (mret a).
Proof. intros p. exists []. by rewrite app_nil_r. Qed.

Lemma issues_bind {A B} l (c : P S A) (f : A → P S B) :
  issues l c → (∀ a, issues l (f a)) → issues l (c ≫= f).
Proof.
  intros Hc Hf p. unfold mbind, P_bind. destruct (Hc p) as (cs & E & Hcs). destruct (c p) as [a p1].
  destruct (Hf a p1) as (ds & E' & Hds). exists (cs ++ ds). cbn [snd] in *.
  rewrite E', E, fmap_app, app_assoc. split; [done|]. by apply Forall_app.
Qed.

Lemma issues_run (l : list string → Prop) argv : l argv → issues l (run argv).
Proof.
  intros Hl p. exists [argv]. unfold run, log. pose proof (log_command argv (host p)) as H.
  destruct (Command argv (host p)). split; [done|]. by constructor.
Qed.

Lemma issues_same {A} l (c : P S A) : (∀ p, log (c p).2 = log p) → issues l c.
Proof. intros H p. exists []. by rewrite H, app_nil_r. Qed.

#[local] Hint Resolve issues_ret : patching.
#[local] Hint Extern 1 (issues _ (stat _)) => apply issues_same; reflexivity : patching.
#[local] Hint Extern 1 (issues _ (read_file _)) => apply issues_same; reflexivity : patching.
#[local] Hint Extern 1 (issues _ (set_darwin _)) => apply issues_same; reflexivity : patching.
#[local] Hint Extern 1 (issues _ (λ p, (_, p))) => apply issues_same; reflexivity : patching.
#[local] Hint Extern 1 (issues _ (run _)) => apply issues_run; cbn; repeat constructor : patching.

Ltac issues_auto :=
  repeat match goal with
  | |- issues _ (_ ≫= _) => apply issues_bind; [|intros ?]
  | |- issues _ (match ?x with _ => _ end) => destruct x
  | |- issues _ (if ?b then _ else _) => destruct b
  | |- issues _ (let _ := _ in _) => cbv zeta
  end; auto with patching.

Lemma check_issues os : issues (.∈ check_commands os) (UpdatesAvailable os).
Proof.
  destruct os; unfold UpdatesAvailable, checkDebianUpdates, checkFedoraUpdates, checkDarwinUpdates, checkWindowsUpdates;
    cbn [check_commands]; issues_auto.
Qed.

Lemma update_issues os : issues (.∈ update_commands os) (applyUpdates os).
Proof.
  destruct os; unfold applyUpdates, patchDebian, patchFedora, patchDarwin, patchWindows;
    cbn [update_commands]; issues_auto.
Qed.

Lemma query_issues os : issues (.∈ reboot_queries os) (NeedsReboot os).
Proof. destruct os; unfold NeedsReboot; cbn [reboot_queries]; issues_auto. Qed.

Lemma dist_issues os : issues (λ _, False) (CheckDistUpgrade os).
Proof. destruct os; unfold CheckDistUpgrade; issues_auto. Qed.

(** The command lines of the four kinds are different. *)
Lemma commands_apart os : ∀ argv, argv ∈ check_commands os ++ reboot_queries os →
  argv ≠ apt_upgrade ∧ Some argv ≠ reboot_command os ∧ (argv ∈ update_commands os → argv = apt_update).
Proof.
  intros argv. rewrite <- (bool_decide_spec (_ ≠ _ ∧ _)).
  revert argv. apply (Forall_forall _ (check_commands os ++ reboot_queries os)).
  apply (bool_decide_unpack (Forall _ _)). destruct os; vm_compute; exact I.
Qed.

Lemma updates_not_reboot os : ∀ argv, argv ∈ update_commands os ++ reboot_queries os → Some argv ≠ reboot_command os.
Proof.
  apply (Forall_forall _ (update_commands os ++ reboot_queries os)).
  apply (bool_decide_unpack (Forall _ _)). destruct os; vm_compute; exact I.
Qed.

Lemma issues_weaken {A} (l l' : list string → Prop) (c : P S A) : (∀ argv, l argv → l' argv) → issues l c → issues l' c.
Proof.
  intros Hl Hc p. destruct (Hc p) as (cmds & E & H). exists cmds. split; [done|].
  by eapply Forall_impl.
Qed.

(** ** Theorems *)

(** Looking for updates, for a distribution upgrade and for a pending reboot
    changes nothing on the host: whatever the package manager answers, no command
    that installs updates is issued (the refresh [apt-get update] of the package
    index is shared by both), and no reboot. *)
Theorem checking_changes_nothing os (p : patcher S) :
  let c := (UpdatesAvailable os ≫= λ _, CheckDistUpgrade os ≫= λ _, NeedsReboot os) in
  ∃ cmds, log (c p).2 = log p ++ (wrap <$> cmds) ∧
    ∀ argv, argv ∈ cmds →
      Some argv ≠ reboot_command os ∧ (argv ∈ update_commands os → argv = apt_update).
Proof.
  assert (issues (.∈ check_commands os ++ reboot_queries os)
            (UpdatesAvailable os ≫= λ _, CheckDistUpgrade os ≫= λ _, NeedsReboot os)) as H.
  { apply issues_bind; [|intros _; apply issues_bind; [|intros _]];
      (eapply issues_weaken; [|first [apply check_issues|apply dist_issues|apply query_issues]]); set_solver. }
  destruct (H p) as (cmds & E & Hc). exists cmds. split; [exact E|].
  intros argv Ha. rewrite Forall_forall in Hc. apply Hc in Ha. by apply commands_apart in Ha as (_ & ? & ?).
Qed.

(** The log of a whole cycle. *)
Lemma run_log os (p : patcher S) :
  let '(out, err, p1) := applyUpdates os p in
  let '(needs, p2) := NeedsReboot os p1 in
  match err, needs with
  | Some _, _ => (Run os p).2 = p1
  | None, Ok true => (Run os p).2 = (reboot os p2).2
  | None, _ => (Run os p).2 = p2
  end.
Proof.
  unfold Run, mbind, P_bind, mret, P_ret. destruct (applyUpdates os p) as [[out err] p1].
  destruct (NeedsReboot os p1) as [needs p2] eqn:En. destruct err; [done|].
  rewrite En. destruct needs as [[]|]; [|done..]. by destruct (reboot os p2) as [[? []] ?].
Qed.

Lemma reboot_log os p argv : reboot_command os = Some argv → log (reboot os p).2 = log p ++ [wrap argv].
Proof.
  intros H. unfold reboot. rewrite H. unfold mbind, P_bind, run, log. pose proof (log_command argv (host p)) as Hl.
  by destruct (Command argv (host p)) as [[? ?] ?].
Qed.

(** C10. The reboot command is issued in a patch cycle exactly when the update
    succeeded and the reboot check that followed it answered yes; it is then the last
    command of the cycle and is issued once.  A failed update or an unanswered check
    never reboots the machine. *)
Theorem reboot_guarded os (p : patcher S) argv :
  reboot_command os = Some argv →
  ∃ cmds, log (Run os p).2 = log p ++ (wrap <$> cmds) ∧
    (argv ∈ cmds ↔ ∃ out p1 p2, applyUpdates os p = ((out, None), p1) ∧ NeedsReboot os p1 = (Ok true, p2)) ∧
    (argv ∈ cmds → ∃ pre, cmds = pre ++ [argv] ∧ argv ∉ pre).
Proof.
  intros Hr. pose proof (run_log os p) as HR. destruct (update_issues os p) as (us & Eu & Hu).
  destruct (applyUpdates os p) as [[out err] p1] eqn:Ea. cbn [snd] in Eu.
  destruct (query_issues os p1) as (qs & Eq & Hq). destruct (NeedsReboot os p1) as [needs p2] eqn:En. cbn [snd] in Eq.
  assert (argv ∉ us ++ qs) as Hn.
  { intros Hin. apply (updates_not_reboot os argv); [|done]. rewrite Forall_forall in Hu, Hq.
    apply elem_of_app in Hin as [?|?]; apply elem_of_app; auto. }
  assert (∀ l, l ⊆ us ++ qs → argv ∉ l) as Hsub by (intros l Hl ?; by apply Hn, Hl).
  destruct err as [e|]; [|destruct needs as [[]|]]; rewrite HR.
  - exists us. assert (argv ∉ us) as Hx by (apply Hsub; set_solver).
    split_and!; [done| |by intros ?%Hx]. split; [by intros ?%Hx|]. by intros (? & ? & ? & ? & _).
  - exists ((us ++ qs) ++ [argv]). rewrite (reboot_log _ _ _ Hr), Eq, Eu, !fmap_app. split_and!; [by rewrite !app_assoc| |eauto].
    split; [eauto|]. intros _. apply elem_of_app. right. by constructor.
  - exists (us ++ qs). rewrite Eq, Eu, fmap_app. split_and!; [by rewrite app_assoc| |by intros ?%Hn].
    split; [by intros ?%Hn|]. intros (? & q1 & q2 & [= <- <-] & Hq2). by rewrite En in Hq2.
  - exists (us ++ qs). rewrite Eq, Eu, fmap_app. split_and!; [by rewrite app_assoc| |by intros ?%Hn].
    split; [by intros ?%Hn|]. intros (? & q1 & q2 & [= <- <-] & Hq2). by rewrite En in Hq2.
Qed.
End Facts.

(** A check that fails reports no updates. *)
Lemma check_error {S : Type} `{!Host S} os (p : patcher S) available out err p' :
  UpdatesAvailable os p = ((available, out, Some err), p') → available = false.
Proof.
  unfold UpdatesAvailable, checkDebianUpdates, checkFedoraUpdates, checkDarwinUpdates, checkWindowsUpdates.
  unfold mbind, P_bind, mret, P_ret. intros Hc. repeat case_match; by simplify_eq.
Qed.

(** ** The count of Windows updates *)

Definition is_digit (c : ascii) : bool := bool_decide (is_Some (digit c)).

(** The decimal text of a number: digits, the last of which is the remainder by ten. *)
Lemma pretty_N_go_digits n s : ∃ a, pretty_N_go n s = a +:+ s ∧ forall_bytes is_digit a = true.
Proof.
  revert s. induction (N.lt_wf_0 n) as [n _ IH]; intros s.
  assert (n = 0 ∨ 0 < n)%N as [->|Hn] by lia; [exists ""; by rewrite pretty_N_go_0|].
  rewrite pretty_N_go_step by done.
  destruct (IH (n `div` 10)%N (N.div_lt n 10 Hn eq_refl) (String (pretty_N_char (n `mod` 10)) s)) as (a & -> & Ha).
  exists (a +:+ String (pretty_N_char (n `mod` 10)) ""). rewrite <- append_assoc. split; [done|].
  rewrite forall_bytes_append, Ha. cbn. unfold is_digit.
  by rewrite digit_pretty_N_char by (by apply N.mod_lt).
Qed.

Lemma Itoa_last n : 0 < n →
  ∃ a, Itoa n = a +:+ String (pretty_N_char (Z.to_N n `mod` 10)) "" ∧ forall_bytes is_digit a = true.
Proof.
  intros Hn. destruct n as [|p|p]; [lia| |lia]. change (Itoa (Zpos p)) with (pretty (Npos p)).
  unfold pretty, pretty_N. case_decide; [done|]. rewrite pretty_N_go_step by lia. apply pretty_N_go_digits.
Qed.

Definition count_text (a : string) (k : N) : string := a +:+ String (pretty_N_char k) " update(s) available".

Lemma below_ten (Q : N → Prop) : Forall Q [0; 1; 2; 3; 4; 5; 6; 7; 8; 9]%N → ∀ k, (k < 10)%N → Q k.
Proof.
  rewrite Forall_forall. intros H k Hk. apply H.
  assert (k = 0 ∨ k = 1 ∨ k = 2 ∨ k = 3 ∨ k = 4 ∨ k = 5 ∨ k = 6 ∨ k = 7 ∨ k = 8 ∨ k = 9)%N as Hn by lia.
  destruct_or!; subst; repeat constructor.
Qed.

(** A digit is followed by a digit, not by the blank of the searched text. *)
Lemma count_head a k : (k < 10)%N → forall_bytes is_digit a = true →
  ∃ d t, count_text a k = String d t ∧ is_digit d = true.
Proof.
  intros Hk Ha. destruct a as [|c a].
  - eexists _, _. split; [done|]. unfold is_digit. by rewrite digit_pretty_N_char.
  - exists c, (count_text a k). split; [done|]. by apply andb_true_iff in Ha as [? _].
Qed.

Lemma not_prefix_digit c d t : is_digit d = true → HasPrefix (String c (String d t)) "0 update(s) available" = false.
Proof.
  intros Hd. unfold HasPrefix. cbn [String.prefix]. destruct (ascii_dec "0" c); [|done].
  by destruct (ascii_dec " " d) as [<-|].
Qed.

Lemma contains_count a k : (k < 10)%N → forall_bytes is_digit a = true →
  Contains (count_text a k) "0 update(s) available" = (k =? 0)%N.
Proof.
  intros Hk. induction a as [|c a IH]; intros Ha.
  - revert k Hk. apply below_ten. repeat constructor.
  - apply andb_true_iff in Ha as [_ Ha]. destruct (count_head a k Hk Ha) as (d & t & E & Hd).
    unfold count_text in *. rewrite append_cons. cbn [Contains]. rewrite (IH Ha), E, not_prefix_digit by done. done.
Qed.

(** A Windows host that reports 10, 20, 30... pending updates is taken to be up
    to date: the test for no updates is the substring [0 update(s) available], which
    [10 update(s) available] contains.  For every other positive count the answer is
    right. *)
Theorem windows_count_misread {S : Type} `{!Host S} (p : patcher S) (n : Z) :
  0 < n →
  (Command (powershell check_script) (host p)).1 = (Itoa n +:+ " update(s) available", None) →
  (UpdatesAvailable OSWindows p).1.1.1 = negb (n mod 10 =? 0).
Proof.
  intros Hn Hc. unfold UpdatesAvailable, checkWindowsUpdates, mbind, P_bind, run, mret, P_ret.
  destruct (Command (powershell check_script) (host p)) as [r h]. cbn [fst] in Hc. subst r. cbn [fst].
  destruct (Itoa_last n Hn) as (a & -> & Ha). rewrite <- append_assoc. f_equal.
  etransitivity; [apply (contains_count a); [by apply N.mod_lt|done]|].
  apply Bool.eq_iff_eq_true. rewrite N.eqb_eq, Z.eqb_eq.
  rewrite <- (N2Z.inj_iff _ 0), N2Z.inj_mod, Z2N.id by lia. done.
Qed.
