(* ===== verification/UpdateInfo.v ===== *)
(** * Pending updates and their summary ([patching/updateinfo.go], first half)

    The description of pending package updates, how urgent and how risky they are,
    and the texts shown to the operator who approves them.  [Updates] of the file
    [UpdateList] produces the list. *)

From Corelib Require Import SpecFloat.
From S2P Require Import Prelude GoStrings GoText GoDuration World Patching.

Module UpdateInfo.

Record CVEInfo := mkCVE { ID : string; Severity : string; CVSSScore : spec_float; URL : string }.

Record PackageUpdate := mkUpdate {
  Name : string;
  OldVersion : string;
  NewVersion : string;
  Description : string;
  CVEs : list CVEInfo;
  CVELookupFailed : bool;
}.

Definition nonempty (s : string) : bool := negb (String.eqb s "").

(** Concatenation of a list of texts, as repeated writes to a [strings.Builder]. *)
Definition cat_all (l : list string) : string := foldr (λ a b, a +:+ b) "" l.

(** ** The report *)

Definition report_cve (c : CVEInfo) : string :=
  "    - " +:+ ID c +:+ "  [" +:+ Severity c +:+
  (if Float64.gtb (CVSSScore c) Float64.zero then " " +:+ Float64.format1 (CVSSScore c) else "") +:+ "]" +:+
  (if nonempty (URL c) then "  " +:+ URL c else "") +:+ nl.

Definition report_update (u : PackageUpdate) : string :=
  "Package: " +:+ Name u +:+ nl +:+
  (if nonempty (OldVersion u) || nonempty (NewVersion u)
   then "  Version: " +:+ OldVersion u +:+ " → " +:+ NewVersion u +:+ nl else "") +:+
  (if nonempty (Description u) then "  Description: " +:+ Description u +:+ nl else "") +:+
  match CVEs u with
  | [] => "  CVEs: none identified" +:+ nl
  | cves => "  CVEs:" +:+ nl +:+ cat_all (report_cve <$> cves)
  end +:+ nl.

Definition FormatUpdateReport (updates : list PackageUpdate) : string :=
  match updates with
  | [] => "No updates found." +:+ nl
  | _ => cat_all (report_update <$> updates)
  end.

(** ** Classes of packages *)

Definition rebootPackagePrefixes : list string := [
  "kernel"; "linux-image"; "linux-headers"; "glibc"; "libc6"; "systemd"; "udev"; "dracut"; "grub"; "shim"].

Definition notablePackagePrefixes : list string := [
  "openssl"; "libssl"; "ca-cert"; "nss"; "gnupg"; "gpg";
  "curl"; "libcurl"; "wget"; "rsync"; "openssh"; "libssh";
  "podman"; "docker"; "containerd"; "cri-o"; "runc"; "buildah";
  "python3"; "python2"; "nodejs"; "java"; "openjdk"; "ruby"; "perl"; "php"; "golang";
  "nginx"; "httpd"; "apache";
  "postgresql"; "mysql"; "mariadb"; "redis"; "mongodb";
  "sudo"; "pam"; "sssd"; "krb5"; "libpam";
  "dnf"; "yum"; "apt"; "rpm"].

Definition has_prefix_of (prefixes : list string) (name : string) : bool :=
  existsb (HasPrefix (ToLower name)) prefixes.

Definition rebootLikely : string → bool := has_prefix_of rebootPackagePrefixes.
Definition isNotable : string → bool := has_prefix_of notablePackagePrefixes.

Definition shortestName (names : list string) : string :=
  match names with
  | [] => ""
  | root :: rest => foldl (λ root n, if len n <? len root then n else root) root rest
  end.

(** ** Importance *)

Record tally := mkTally { critical : Z; high : Z; other : Z; seen : gset string }.

Definition tally_cve (t : tally) (c : CVEInfo) : tally :=
  if bool_decide (ID c ∈ seen t) then t
  else
    let seen' := {[ID c]} ∪ seen t in
    let sev := ToUpper (Severity c) in
    if String.eqb sev "CRITICAL" then mkTally (critical t + 1) (high t) (other t) seen'
    else if String.eqb sev "HIGH" then mkTally (critical t) (high t + 1) (other t) seen'
    else mkTally (critical t) (high t) (other t + 1) seen'.

Definition all_cves (updates : list PackageUpdate) : list CVEInfo := concat (CVEs <$> updates).
Definition count_cves (updates : list PackageUpdate) : tally := foldl tally_cve (mkTally 0 0 0 ∅) (all_cves updates).

Definition failed_count (updates : list PackageUpdate) : Z := Z.of_nat (length (filter (λ u, CVELookupFailed u = true) updates)).
Definition size (updates : list PackageUpdate) : Z := Z.of_nat (length updates).

Definition unavailable (failed n : Z) : string :=
  "CVE data unavailable for " +:+ Itoa failed +:+ " of " +:+ Itoa n +:+ " packages".

Definition ImportanceAssessment (updates : list PackageUpdate) : string * string :=
  let t := count_cves updates in
  let failed := failed_count updates in
  let total := critical t + high t + other t in
  if 0 <? critical t then
    ("high",
     "fixes " +:+ Itoa (critical t) +:+ " CRITICAL" +:+
     (if 0 <? high t then " and " +:+ Itoa (high t) +:+ " HIGH" else "") +:+ " severity CVE(s) — review promptly")
  else if 0 <? total then
    let parts := (if 0 <? high t then [Itoa (high t) +:+ " HIGH"] else []) ++
                 (if 0 <? other t then [Itoa (other t) +:+ " MEDIUM/LOW/unrated"] else []) in
    ("medium",
     "fixes " +:+ Itoa total +:+ " CVE(s) (" +:+ Join parts ", " +:+ "); none rated CRITICAL" +:+
     (if 0 <? failed then "; " +:+ unavailable failed (size updates) else ""))
  else if (0 <? failed) && (size updates <=? failed * 2) then
    ("medium", unavailable failed (size updates) +:+ " — severity could not be assessed")
  else
    ("low", "routine updates; no known CVEs addressed" +:+
            (if 0 <? failed then " (" +:+ unavailable failed (size updates) +:+ ")" else "")).

(** ** Risk *)

Definition RiskAssessment (updates : list PackageUpdate) : string * string :=
  let rebootNames := filter (λ n, rebootLikely n = true) (Name <$> updates) in
  let notableNames := filter (λ n, isNotable n = true) (Name <$> updates) in
  let n := size updates in
  let needsReboot := bool_decide (rebootNames ≠ []) in
  let touchesCore := bool_decide (notableNames ≠ []) in
  if needsReboot && (touchesCore || (20 <? n)) then
    ("high", "requires a reboot (" +:+ shortestName rebootNames +:+ ") and touches " +:+ Itoa n +:+
             " package(s) including core server components — meaningful disruption if something goes wrong")
  else if needsReboot then
    ("medium", "requires a reboot (" +:+ shortestName rebootNames +:+ ") — brief service interruption expected")
  else if touchesCore then
    ("medium", "updates core server package(s) (" +:+ shortestName notableNames +:+
               ") — no reboot expected but a service restart may be needed")
  else if 20 <? n then
    ("medium", "large batch of " +:+ Itoa n +:+ " packages — broader surface for something to go wrong")
  else ("low", Itoa n +:+ " package(s), no reboot or core service impact expected").

Definition FormatFallbackSummary (rawCheckOutput : string) (listErr : option string) : string :=
  let reason := "CVE analysis unavailable" +:+ match listErr with Some e => ": " +:+ e | None => "" end in
  let raw := TrimSpace rawCheckOutput in
  let raw := if 3000 <? len raw then take_bytes (Z.to_nat 3000) raw +:+ nl +:+ "… (truncated)" else raw in
  "Importance: MEDIUM — " +:+ reason +:+ "; update severity could not be assessed." +:+ nl +:+
  "Risk: MEDIUM — package list unavailable; blast radius could not be assessed." +:+ para +:+
  "Pending updates as reported by the package manager:" +:+ para +:+ raw.

(** ** The summary: categories *)

Inductive cat := catOther | catReboot | catNotable | catMinorCVE | catCVE.

#[export] Instance cat_eq_dec : EqDecision cat.
Proof. solve_decision. Defined.

Definition cat_of (m : gmap string cat) (name : string) : cat := default catOther (m !! name).

Definition first_category (m : gmap string cat) (u : PackageUpdate) : gmap string cat :=
  if rebootLikely (Name u) then <[Name u := catReboot]> m
  else if isNotable (Name u) then <[Name u := catNotable]> m
  else m.

Record cveRef := mkRef { info : CVEInfo; pkgName : string; version : string }.

(** The state of the loop over HIGH and CRITICAL CVEs. *)
Record top_state := mkTop { topCVEs : list cveRef; seenCVE : gset string; topCat : gmap string cat }.

Definition is_top (c : CVEInfo) : bool :=
  let sev := ToUpper (Severity c) in String.eqb sev "CRITICAL" || String.eqb sev "HIGH".

Definition top_cve (u : PackageUpdate) (st : top_state) (c : CVEInfo) : top_state :=
  if is_top c && negb (bool_decide (ID c ∈ seenCVE st)) then
    mkTop (topCVEs st ++ [mkRef c (Name u) (NewVersion u)]) ({[ID c]} ∪ seenCVE st) (<[Name u := catCVE]> (topCat st))
  else st.

Definition top_update (st : top_state) (u : PackageUpdate) : top_state := foldl (top_cve u) st (CVEs u).

Definition ref_less (a b : cveRef) : bool :=
  let sa := ToUpper (Severity (info a)) in
  let sb := ToUpper (Severity (info b)) in
  if negb (String.eqb sa sb) then String.eqb sa "CRITICAL"
  else Float64.gtb (CVSSScore (info a)) (CVSSScore (info b)).

Definition minor_update (st : list PackageUpdate * gmap string cat) (u : PackageUpdate) :
    list PackageUpdate * gmap string cat :=
  let '(pkgs, m) := st in
  if bool_decide (CVEs u = []) || bool_decide (cat_of m (Name u) = catCVE) then st
  else (pkgs ++ [u], <[Name u := catMinorCVE]> m).

Record versionGroup := mkGroup { names : list string; g_version : string; desc : string }.

(** The group of the update's version, if there is one, else a new one. *)
Fixpoint add_notable (groups : list versionGroup) (u : PackageUpdate) : list versionGroup :=
  match groups with
  | [] => [mkGroup [Name u] (NewVersion u) (Description u)]
  | g :: rest =>
      if String.eqb (g_version g) (NewVersion u) then
        mkGroup (names g ++ [Name u]) (g_version g)
          (if String.eqb (desc g) "" && nonempty (Description u) then Description u else desc g) :: rest
      else g :: add_notable rest u
  end.

(** What the summary shows. *)
Record summary := mkSummary {
  s_top : list cveRef;
  s_minor : list PackageUpdate;
  s_reboot : list PackageUpdate;
  s_notable : list versionGroup;
  s_remaining : Z;
  s_failed : list string;
}.

Section Summary.
Context `{!SortSlice}.

Definition summarise (updates : list PackageUpdate) : summary :=
  let pkgCat := foldl first_category ∅ updates in
  let top := foldl top_update (mkTop [] ∅ pkgCat) updates in
  let tops := Slice ref_less (topCVEs top) in
  let '(minorPkgs, pkgCat) := foldl minor_update ([], topCat top) updates in
  let in_cat c := filter (λ u, cat_of pkgCat (Name u) = c) updates in
  let cveVersions := version <$> tops in
  let notable := filter (λ u, NewVersion u ∉ cveVersions) (in_cat catNotable) in
  mkSummary tops minorPkgs (in_cat catReboot) (foldl add_notable [] notable)
    (size (in_cat catOther)) (Name <$> filter (λ u, CVELookupFailed u = true) updates).

(** ** The summary: text *)

Definition cve_bullet (r : cveRef) : string :=
  "• [" +:+ ToUpper (Severity (info r)) +:+
  (if Float64.gtb (CVSSScore (info r)) Float64.zero then " " +:+ Float64.format1 (CVSSScore (info r)) else "") +:+
  "] " +:+ ID (info r) +:+ " in " +:+ pkgName r +:+ " → " +:+ version r +:+ nl.

Definition minor_ref (c : CVEInfo) : string :=
  let sev := ToUpper (Severity c) in
  ID c +:+ " (" +:+ (if String.eqb sev "" || String.eqb sev "UNKNOWN" then "unrated" else sev) +:+ ")".

Definition minor_bullet (u : PackageUpdate) : string :=
  let maxListed := 3%nat in
  let refs := (minor_ref <$> take maxListed (CVEs u)) ++
              (if (maxListed <? length (CVEs u))%nat
               then ["+" +:+ Itoa (Z.of_nat (length (CVEs u) - maxListed)) +:+ " more"] else []) in
  "• " +:+ Name u +:+ " → " +:+ NewVersion u +:+ " fixes " +:+ Join refs ", " +:+ nl.

(** The reboot packages by version, versions in order of first appearance. *)
Fixpoint add_version (groups : list (string * list string)) (u : PackageUpdate) : list (string * list string) :=
  match groups with
  | [] => [(NewVersion u, [Name u])]
  | (v, ns) :: rest =>
      if String.eqb v (NewVersion u) then (v, ns ++ [Name u]) :: rest else (v, ns) :: add_version rest u
  end.

Definition reboot_part (g : string * list string) : string :=
  let root := shortestName g.2 in
  if (length g.2 =? 1)%nat then root else root +:+ " ×" +:+ Itoa (Z.of_nat (length g.2)).

Definition reboot_bullet (rebootPkgs : list PackageUpdate) : string :=
  match rebootPkgs with
  | [] => ""
  | _ =>
      if size rebootPkgs <=? 3 then "• Reboot required — " +:+ Join (Name <$> rebootPkgs) ", " +:+ nl
      else "• Reboot required — " +:+ Itoa (size rebootPkgs) +:+ " packages (" +:+
           Join (reboot_part <$> foldl add_version [] rebootPkgs) ", " +:+ ")" +:+ nl
  end.

Definition notable_bullet (g : versionGroup) : string :=
  "• " +:+ Join (names g) ", " +:+ " → " +:+ g_version g +:+
  (if nonempty (desc g) then " (" +:+ desc g +:+ ")" else "") +:+ nl.

Definition remaining_bullet (s : summary) : string :=
  if 0 <? s_remaining s then
    let called := (length (s_top s) + length (s_minor s) + length (s_reboot s) + length (s_notable s))%nat in
    "• " +:+ Itoa (s_remaining s) +:+
    (if (called =? 0)%nat then " packages ready to update" else " additional packages") +:+ nl
  else "".

Definition failed_bullet (failedNames : list string) : string :=
  match failedNames with
  | [] => ""
  | _ =>
      let shown := if (5 <? length failedNames)%nat then take 5 failedNames ++ ["…"] else failedNames in
      "• CVE data unavailable for " +:+ Itoa (Z.of_nat (length failedNames)) +:+ " package(s): " +:+
      Join shown ", " +:+ nl
  end.

Definition FormatUpdateSummary (updates : list PackageUpdate) : string :=
  match updates with
  | [] => "All packages are up to date."
  | _ =>
      let s := summarise updates in
      let '(importance, importanceRationale) := ImportanceAssessment updates in
      let '(risk, riskRationale) := RiskAssessment updates in
      "Importance: " +:+ ToUpper importance +:+ " — " +:+ importanceRationale +:+ nl +:+
      "Risk: " +:+ ToUpper risk +:+ " — " +:+ riskRationale +:+ para +:+
      cat_all (cve_bullet <$> s_top s) +:+
      cat_all (minor_bullet <$> s_minor s) +:+
      reboot_bullet (s_reboot s) +:+
      cat_all (notable_bullet <$> s_notable s) +:+
      remaining_bullet s +:+
      failed_bullet (s_failed s)
  end.

End Summary.

End UpdateInfo.
