(* ===== verification/UpdateInfoFacts.v ===== *)
(** * Theorems on the summary of pending updates *)

From Corelib Require Import SpecFloat.
From S2P Require Import Prelude GoStrings GoText GoDuration World Patching UpdateInfo.

Import UpdateInfo.

(** ** Importance *)

(** [c] is the first CVE of its identifier in [l], and [l1] is what precedes it. *)
Definition first_of (l : list CVEInfo) (c : CVEInfo) : Prop :=
  ∃ l1 l2, l = l1 ++ c :: l2 ∧ ID c ∉ (ID <$> l1).

Definition severity_is (s : string) (c : CVEInfo) : Prop := ToUpper (Severity c) = s.

(** What the tally knows after the CVEs [l]. *)
Record tally_inv (l : list CVEInfo) (t : tally) : Prop := {
  ti_seen : ∀ i, i ∈ seen t ↔ i ∈ ID <$> l;
  ti_nonneg : 0 ≤ critical t ∧ 0 ≤ high t ∧ 0 ≤ other t;
  ti_critical : 0 < critical t ↔ ∃ c, first_of l c ∧ severity_is "CRITICAL" c;
  ti_total : 0 < critical t + high t + other t ↔ l ≠ [];
}.

Lemma first_of_snoc l c d : first_of (l ++ [c]) d ↔ first_of l d ∨ (d = c ∧ ID c ∉ ID <$> l).
Proof.
  split.
  - intros (l1 & l2 & E & Hn). destruct l2 as [|x l2 _] using rev_ind.
    + apply app_inj_tail in E as [-> ->]. by right.
    + rewrite app_comm_cons, app_assoc in E. apply app_inj_tail in E as [-> ->]. left. by exists l1, l2.
  - intros [(l1 & l2 & -> & Hn)|[-> Hn]]; [exists l1, (l2 ++ [c])|by exists l, []].
    by rewrite <- app_assoc.
Qed.

Lemma tally_step l t c : tally_inv l t → tally_inv (l ++ [c]) (tally_cve t c).
Proof.
  intros [Hs (H1 & H2 & H3) Hc Ht]. unfold tally_cve. case_bool_decide as Hin.
  - apply Hs in Hin. split; [|done|..].
    + intros i. rewrite Hs, fmap_app. set_solver.
    + rewrite Hc. f_equiv. intros d. rewrite first_of_snoc. naive_solver.
    + rewrite Ht. destruct l; [set_solver|done].
  - assert (ID c ∉ ID <$> l) as Hn by (by rewrite <- Hs).
    assert (∀ a b o, a + b + o = critical t + high t + other t + 1 → 0 ≤ a → 0 ≤ b → 0 ≤ o →
      (0 < a ↔ 0 < critical t ∨ severity_is "CRITICAL" c) → tally_inv (l ++ [c]) (mkTally a b o ({[ID c]} ∪ seen t))) as Hk.
    { intros a b o E Ha Hb Ho Hcr. split; cbn; [|done|..].
      - intros i. rewrite fmap_app, elem_of_app, elem_of_union, Hs. set_solver.
      - rewrite Hcr, Hc. split.
        + intros [(d & ? & ?)|?]; [exists d|exists c]; rewrite first_of_snoc; auto.
        + intros (d & [?|[-> _]]%first_of_snoc & ?); eauto.
      - rewrite E. split; [by destruct l|lia]. }
    unfold severity_is in Hk.
    destruct (String.eqb_spec (ToUpper (Severity c)) "CRITICAL") as [E|E];
      [|destruct (String.eqb_spec (ToUpper (Severity c)) "HIGH")]; apply Hk; try lia; split; try tauto; lia.
Qed.

Lemma count_inv updates : tally_inv (all_cves updates) (count_cves updates).
Proof.
  unfold count_cves. assert (tally_inv [] (mkTally 0 0 0 ∅)) as H.
  { split; cbn; [set_solver|lia| |split; [lia|done]]. split; [lia|]. intros (c & (l1 & l2 & E & _) & _).
    by destruct l1. }
  change (all_cves updates) with ([] ++ all_cves updates) at 1. revert H. generalize (@nil CVEInfo), (mkTally 0 0 0 ∅).
  induction (all_cves updates) as [|c l IH]; intros l0 t H; [by rewrite app_nil_r|]. cbn.
  rewrite cons_middle, (app_assoc l0 [c] l). by apply IH, tally_step.
Qed.

(** The urgency of an update set is decided by its CVEs and by nothing else: it
    is high exactly when some identifier is rated CRITICAL where it is first listed,
    low exactly when no CVE is listed at all and the lookups failed for less than half
    of the packages, and medium otherwise. *)
Theorem importance_exact updates :
  let level := (ImportanceAssessment updates).1 in
  (level = "high" ↔ ∃ c, first_of (all_cves updates) c ∧ severity_is "CRITICAL" c) ∧
  (level = "low" ↔ all_cves updates = [] ∧ (failed_count updates = 0 ∨ 2 * failed_count updates < size updates)) ∧
  (level = "high" ∨ level = "medium" ∨ level = "low").
Proof.
  destruct (count_inv updates) as [_ (H1 & H2 & H3) Hc Ht]. unfold ImportanceAssessment.
  assert (0 ≤ failed_count updates) by (unfold failed_count; lia).
  rewrite <- Hc. clear Hc.
  assert (all_cves updates = [] ↔ critical (count_cves updates) + high (count_cves updates) + other (count_cves updates) = 0) as ->.
  { split; intros E; [|destruct (decide (all_cves updates = [])) as [|Hne]; [done|apply Ht in Hne; lia]].
    destruct (decide (0 < critical (count_cves updates) + high (count_cves updates) + other (count_cves updates))) as [Hp|]; [|lia].
    by apply Ht in Hp. }
  destruct (Z.ltb_spec 0 (critical (count_cves updates))); [cbn; split_and!; [done|split; [done|lia]|auto]|].
  destruct (Z.ltb_spec 0 (critical (count_cves updates) + high (count_cves updates) + other (count_cves updates)));
    [cbn; split_and!; [split; [done|lia]|split; [done|lia]|auto]|].
  destruct (Z.ltb_spec 0 (failed_count updates)), (Z.leb_spec (size updates) (failed_count updates * 2)); cbn;
    (split_and!; [split; [done|lia]|split; [try done; lia|try done; lia]|auto]).
Qed.

(** ** Categories *)

Definition base_cat (n : string) : cat :=
  if rebootLikely n then catReboot else if isNotable n then catNotable else catOther.

Lemma cat_insert m n c n' : cat_of (<[n := c]> m) n' = if decide (n' = n) then c else cat_of m n'.
Proof.
  unfold cat_of. case_decide; subst; [by rewrite lookup_insert_eq|by rewrite lookup_insert_ne].
Qed.

(** The first pass gives each listed package the category of its name. *)
Lemma first_pass updates n : n ∈ Name <$> updates → cat_of (foldl first_category ∅ updates) n = base_cat n.
Proof.
  assert (∀ m, (∀ n, cat_of m n = catOther ∨ cat_of m n = base_cat n) →
    (∀ n, cat_of (foldl first_category m updates) n = catOther ∨ cat_of (foldl first_category m updates) n = base_cat n) ∧
    (∀ n, n ∈ Name <$> updates ∨ cat_of m n = base_cat n → cat_of (foldl first_category m updates) n = base_cat n)) as H.
  { induction updates as [|u l IH]; intros m Hm; cbn; [split; [done|set_solver]|].
    assert (∀ n, cat_of (first_category m u) n = if decide (n = Name u) then base_cat n else cat_of m n) as E.
    { intros k. unfold first_category, base_cat. destruct (rebootLikely (Name u)) eqn:E1;
        [rewrite cat_insert; case_decide; subst; by rewrite ?E1|].
      destruct (isNotable (Name u)) eqn:E2; [rewrite cat_insert; case_decide; subst; by rewrite ?E1, ?E2|].
      case_decide; subst; rewrite ?E1, ?E2; [|done]. destruct (Hm (Name u)) as [E|E]; [done|].
      unfold base_cat in E. by rewrite E1, E2 in E. }
    destruct (IH (first_category m u)) as [H1 H2].
    { intros k. rewrite E. case_decide; [by right|apply Hm]. }
    split; [done|]. intros k Hk. apply H2. rewrite E. case_decide; [by right|]. set_solver. }
  intros Hn. apply H; [|by left]. intros k. left. done.
Qed.

(** The second pass promotes the packages it lists a CVE for, and only those; each
    identifier rated HIGH or CRITICAL is listed once. *)
Record top_inv (m : gmap string cat) (l : list CVEInfo) (st : top_state) : Prop := {
  tp_cat : ∀ n, cat_of (topCat st) n = if decide (n ∈ pkgName <$> topCVEs st) then catCVE else cat_of m n;
  tp_seen : ∀ i, i ∈ seenCVE st ↔ i ∈ ID ∘ info <$> topCVEs st;
  tp_nodup : NoDup (ID ∘ info <$> topCVEs st);
  tp_all : ∀ c, c ∈ l → is_top c = true → ID c ∈ ID ∘ info <$> topCVEs st;
  tp_top : ∀ r, r ∈ topCVEs st → is_top (info r) = true ∧ info r ∈ l;
}.

Lemma top_step m l st u c : top_inv m l st → top_inv m (l ++ [c]) (top_cve u st c).
Proof.
  intros [Hc Hs Hn Ha Ht]. unfold top_cve. destruct (is_top c) eqn:Et; cbn; [case_bool_decide as Hin; cbn|].
  - split; [done..| |]; [|set_solver]. intros d. rewrite elem_of_app, list_elem_of_singleton.
    intros [?| ->]; [by apply Ha|]. by rewrite <- Hs.
  - split; cbn.
    + intros n. rewrite cat_insert, Hc, fmap_app. cbn. repeat case_decide; set_solver.
    + intros i. rewrite fmap_app, elem_of_union, Hs. set_solver.
    + rewrite fmap_app. apply NoDup_app. split_and!; [done| |by apply NoDup_singleton].
      intros i Hi. cbn. rewrite list_elem_of_singleton. intros ->. by apply Hin, Hs.
    + intros d. rewrite fmap_app, !elem_of_app, list_elem_of_singleton. intros [?| ->]; [|cbn; set_solver].
      intros. left. by apply Ha.
    + intros r. rewrite !elem_of_app, list_elem_of_singleton. intros [Hr| ->]; [|cbn; set_solver].
      destruct (Ht r Hr). set_solver.
  - split; [done..| |]; [|set_solver]. intros d. rewrite elem_of_app, list_elem_of_singleton.
    intros [?| ->]; [by apply Ha|congruence].
Qed.

Lemma top_pass m updates : top_inv m (all_cves updates) (foldl top_update (mkTop [] ∅ m) updates).
Proof.
  assert (∀ us st l, top_inv m l st → top_inv m (l ++ all_cves us) (foldl top_update st us)) as H.
  { induction us as [|u us IH]; intros st l H; [by rewrite app_nil_r|]. unfold all_cves. cbn. rewrite app_assoc. apply IH.
    unfold top_update. revert st l H. induction (CVEs u) as [|c cs IHc]; intros st l H; [by rewrite app_nil_r|].
    rewrite cons_middle, app_assoc. cbn. by apply IHc, top_step. }
  apply (H _ _ []). split; cbn; [done|set_solver|apply NoDup_nil_2|set_solver|set_solver].
Qed.

(** Each listed CVE comes from the package it names. *)
Lemma top_named updates st r :
  r ∈ topCVEs (foldl top_update st updates) →
  r ∈ topCVEs st ∨ ∃ u, u ∈ updates ∧ info r ∈ CVEs u ∧ pkgName r = Name u ∧ version r = NewVersion u.
Proof.
  assert (∀ u cs st, r ∈ topCVEs (foldl (top_cve u) st cs) →
    r ∈ topCVEs st ∨ (info r ∈ cs ∧ pkgName r = Name u ∧ version r = NewVersion u)) as Hcs.
  { intros u. induction cs as [|c cs IH]; intros st' Hr; [by left|]. cbn in Hr. apply IH in Hr as [Hr|Hr]; [|set_solver].
    unfold top_cve in Hr. destruct (is_top c && _); [|by left]. cbn in Hr.
    apply elem_of_app in Hr as [?| ->%list_elem_of_singleton]; [by left|]. right. cbn. set_solver. }
  revert st. induction updates as [|u us IH]; intros st Hr; [by left|]. cbn in Hr.
  apply IH in Hr as [Hr|(v & Hv & ?)]; [|right; exists v; set_solver].
  apply Hcs in Hr as [?|?]; [by left|right; exists u; set_solver].
Qed.

(** The third pass collects the other packages that fix a CVE. *)
Definition minor_of (m : gmap string cat) (u : PackageUpdate) : Prop := CVEs u ≠ [] ∧ cat_of m (Name u) ≠ catCVE.

#[local] Instance minor_of_dec m u : Decision (minor_of m u).
Proof. unfold minor_of. destruct (CVEs u); apply _. Defined.

Lemma minor_pass m updates :
  let st := foldl minor_update ([], m) updates in
  st.1 = filter (minor_of m) updates ∧
  ∀ n, cat_of st.2 n = if decide (n ∈ Name <$> filter (minor_of m) updates) then catMinorCVE else cat_of m n.
Proof.
  induction updates as [|u l IH] using rev_ind; [cbn; split; [done|]; intros n; by case_decide; [set_solver|]|].
  rewrite foldl_app. cbn [foldl]. destruct (foldl minor_update ([], m) l) as [pkgs m']. cbn [fst snd] in IH.
  destruct IH as [-> Hm]. rewrite filter_app. unfold minor_update.
  assert (cat_of m' (Name u) = catCVE ↔ cat_of m (Name u) = catCVE) as Hiff.
  { rewrite Hm. case_decide as Hd; [|done]. split; [done|]. intros E. exfalso.
    apply list_elem_of_fmap in Hd as (v & Ev & [[_ Hv] _]%list_elem_of_filter). rewrite Ev in E. done. }
  destruct (decide (minor_of m u)) as [[H1 H2]|Hno].
  - rewrite !bool_decide_eq_false_2 by (try tauto). rewrite filter_cons_True by done. cbn. split; [done|].
    intros n. rewrite cat_insert, Hm, fmap_app. cbn. repeat case_decide; set_solver.
  - rewrite filter_cons_False by done. cbn. rewrite app_nil_r.
    assert (bool_decide (CVEs u = []) || bool_decide (cat_of m' (Name u) = catCVE) = true) as ->; [|done].
    rewrite orb_true_iff, !bool_decide_eq_true, Hiff. unfold minor_of in Hno.
    destruct (CVEs u) eqn:Eu; [by left|]. right. destruct (decide (cat_of m (Name u) = catCVE)); [done|].
    exfalso. by apply Hno.
Qed.

(** ** Theorems on the summary *)

Section Summary.
Context `{!SortSlice}.

(** The category each package ends in. *)
Definition final_cat (updates : list PackageUpdate) : gmap string cat :=
  (foldl minor_update ([], topCat (foldl top_update (mkTop [] ∅ (foldl first_category ∅ updates)) updates)) updates).2.

Definition listed (updates : list PackageUpdate) (u : PackageUpdate) : Prop :=
  Name u ∈ pkgName <$> s_top (summarise updates).

#[export] Instance listed_dec updates u : Decision (listed updates u).
Proof. unfold listed. apply _. Defined.

Lemma summarise_eq updates :
  let st := foldl top_update (mkTop [] ∅ (foldl first_category ∅ updates)) updates in
  s_top (summarise updates) = Slice ref_less (topCVEs st) ∧
  s_minor (summarise updates) = filter (minor_of (topCat st)) updates ∧
  s_reboot (summarise updates) = filter (λ u, cat_of (final_cat updates) (Name u) = catReboot) updates ∧
  s_notable (summarise updates) =
    foldl add_notable [] (filter (λ u, NewVersion u ∉ version <$> s_top (summarise updates))
      (filter (λ u, cat_of (final_cat updates) (Name u) = catNotable) updates)) ∧
  s_remaining (summarise updates) = size (filter (λ u, cat_of (final_cat updates) (Name u) = catOther) updates).
Proof.
  unfold summarise, final_cat. cbv zeta.
  pose proof (minor_pass (topCat (foldl top_update (mkTop [] ∅ (foldl first_category ∅ updates)) updates)) updates) as [Hm _].
  destruct (foldl minor_update _ updates) as [mp m]. cbn in *. by rewrite Hm.
Qed.

Lemma elem_of_top updates r :
  r ∈ s_top (summarise updates) ↔
  r ∈ topCVEs (foldl top_update (mkTop [] ∅ (foldl first_category ∅ updates)) updates).
Proof. destruct (summarise_eq updates) as (-> & _). by rewrite Slice_perm. Qed.

Lemma top_cat_listed updates u :
  cat_of (topCat (foldl top_update (mkTop [] ∅ (foldl first_category ∅ updates)) updates)) (Name u) = 
  if decide (listed updates u) then catCVE else cat_of (foldl first_category ∅ updates) (Name u).
Proof.
  destruct (top_pass (foldl first_category ∅ updates) updates) as [-> _ _ _ _]. unfold listed.
  assert (Name u ∈ pkgName <$> topCVEs (foldl top_update (mkTop [] ∅ (foldl first_category ∅ updates)) updates) ↔
          Name u ∈ pkgName <$> s_top (summarise updates)) as Hiff.
  { rewrite !list_elem_of_fmap. by setoid_rewrite elem_of_top. }
  by repeat case_decide; try tauto.
Qed.

Lemma base_not_cve n : base_cat n ≠ catCVE ∧ base_cat n ≠ catMinorCVE.
Proof. unfold base_cat. by destruct (rebootLikely n), (isNotable n). Qed.

Lemma elem_of_minor updates u : u ∈ updates →
  u ∈ s_minor (summarise updates) ↔ CVEs u ≠ [] ∧ ¬ listed updates u.
Proof.
  intros Hu. destruct (summarise_eq updates) as (_ & -> & _). rewrite list_elem_of_filter. unfold minor_of.
  rewrite top_cat_listed. case_decide; [tauto|]. rewrite first_pass by (by apply list_elem_of_fmap_2).
  pose proof (base_not_cve (Name u)). tauto.
Qed.

(** C31. No fix is hidden from the operator: every package that fixes a CVE has a
    bullet of its own, or is named in the bullet of a HIGH or CRITICAL CVE, and every
    identifier rated HIGH or CRITICAL has exactly one bullet. *)
Theorem no_fix_hidden updates :
  let s := summarise updates in
  (∀ u, u ∈ updates → CVEs u ≠ [] → listed updates u ∨ u ∈ s_minor s) ∧
  NoDup (ID ∘ info <$> s_top s) ∧
  (∀ c, c ∈ all_cves updates → is_top c = true → ID c ∈ ID ∘ info <$> s_top s) ∧
  (∀ r, r ∈ s_top s → is_top (info r) = true ∧ info r ∈ all_cves updates).
Proof.
  destruct (top_pass (foldl first_category ∅ updates) updates) as [_ _ Hn Ha Ht].
  destruct (summarise_eq updates) as (Es & _). split_and!.
  - intros u Hu Hc. destruct (decide (listed updates u)); [by left|]. right. by apply elem_of_minor.
  - rewrite Es, Slice_perm. done.
  - intros c Hc Hi. rewrite Es, Slice_perm. by apply Ha.
  - intros r. rewrite elem_of_top. apply Ht.
Qed.

(** A list of updates with one entry per package. *)
Lemma same_update (updates : list PackageUpdate) u v : NoDup (Name <$> updates) →
  u ∈ updates → v ∈ updates → Name u = Name v → u = v.
Proof.
  intros Hn (i & Hi)%list_elem_of_lookup (j & Hj)%list_elem_of_lookup E.
  assert (i = j) as ->; [|congruence]. eapply NoDup_lookup; [exact Hn|..]; rewrite list_lookup_fmap.
  - by rewrite Hi.
  - by rewrite Hj, E.
Qed.

Definition category (updates : list PackageUpdate) (u : PackageUpdate) : cat :=
  if decide (listed updates u) then catCVE
  else match CVEs u with [] => base_cat (Name u) | _ => catMinorCVE end.

Lemma final_category updates u : NoDup (Name <$> updates) → u ∈ updates →
  cat_of (final_cat updates) (Name u) = category updates u.
Proof.
  intros Hn Hu. unfold final_cat. destruct (minor_pass (topCat (foldl top_update (mkTop [] ∅ (foldl first_category ∅ updates)) updates)) updates) as [_ ->].
  unfold category. destruct (summarise_eq updates) as (_ & Em & _). rewrite <- Em, top_cat_listed.
  rewrite first_pass by (by apply list_elem_of_fmap_2).
  assert (Name u ∈ Name <$> s_minor (summarise updates) ↔ u ∈ s_minor (summarise updates)) as Hiff.
  { split; [|apply list_elem_of_fmap_2]. intros (v & E & Hv)%list_elem_of_fmap.
    assert (v ∈ updates) by (rewrite Em in Hv; by apply list_elem_of_filter in Hv as [_ ?]).
    by rewrite (same_update updates u v). }
  assert (CVEs u = [] ∨ CVEs u ≠ []) as Hd by (by destruct (CVEs u); [left|right]).
  pose proof (elem_of_minor updates u Hu) as Hmin.
  destruct (decide (Name u ∈ _)) as [Hx|Hx]; rewrite Hiff, Hmin in Hx; repeat case_decide; destruct (CVEs u);
    first [done|tauto|exfalso; by apply Hx].
Qed.

(** A package whose update needs a reboot is in the bullet that announces the
    reboot exactly when it fixes no CVE: a kernel update with a security fix is listed
    with the fix only, so the bullet is missing or incomplete, although it is
    described as summarising the packages that require a reboot. *)
Theorem reboot_bullet_omits_fixes updates u :
  NoDup (Name <$> updates) → u ∈ updates →
  u ∈ s_reboot (summarise updates) ↔ rebootLikely (Name u) = true ∧ CVEs u = [].
Proof.
  intros Hn Hu. destruct (summarise_eq updates) as (_ & _ & -> & _). rewrite list_elem_of_filter.
  rewrite (final_category _ _ Hn Hu). unfold category, base_cat.
  assert (CVEs u = [] → ¬ listed updates u) as Hl.
  { intros E (r & Er & Hr)%list_elem_of_fmap. rewrite elem_of_top in Hr.
    apply top_named in Hr as [Hr|(v & Hv & Hi & En & _)]; [by apply elem_of_nil in Hr|].
    rewrite <- Er in En. rewrite (same_update updates u v) in E by done. rewrite E in Hi. by apply elem_of_nil in Hi. }
  destruct (decide (listed updates u)); destruct (CVEs u), (rebootLikely (Name u)), (isNotable (Name u)); naive_solver.
Qed.

Lemma partition_cats {A} (f : A → cat) (l : list A) :
  length l = (length (filter (λ a, f a = catCVE) l) + length (filter (λ a, f a = catMinorCVE) l) +
              length (filter (λ a, f a = catReboot) l) + length (filter (λ a, f a = catNotable) l) +
              length (filter (λ a, f a = catOther) l))%nat.
Proof.
  induction l as [|a l IH]; [done|]. rewrite !filter_cons. destruct (f a); repeat case_decide; try done; cbn [length]; lia.
Qed.

Definition grouped (groups : list versionGroup) : nat := sum_list (length ∘ names <$> groups).

Lemma add_notable_grouped groups u : grouped (add_notable groups u) = S (grouped groups).
Proof.
  induction groups as [|g gs IH]; [done|]. cbn [add_notable]. destruct (String.eqb _ _); unfold grouped in *; cbn.
  - rewrite length_app. cbn. lia.
  - rewrite IH. lia.
Qed.

Lemma notable_grouped us groups : grouped (foldl add_notable groups us) = (grouped groups + length us)%nat.
Proof.
  revert groups. induction us as [|u us IH]; intros groups; cbn [foldl length]; [lia|].
  rewrite IH, add_notable_grouped. lia.
Qed.

Lemma filter_split {A} (Q : A → Prop) `{∀ x, Decision (Q x)} (l : list A) :
  length l = (length (filter Q l) + length (filter (λ x, ¬ Q x) l))%nat.
Proof. induction l as [|a l IH]; [done|]. rewrite !filter_cons. repeat case_decide; cbn; tauto || lia. Qed.

Lemma filter_ext_in {A} (P Q : A → Prop) `{∀ x, Decision (P x), ∀ x, Decision (Q x)} (l : list A) :
  (∀ x, x ∈ l → P x ↔ Q x) → filter P l = filter Q l.
Proof.
  induction l as [|a l IH]; intros Hl; [done|]. rewrite !filter_cons, IH by (intros; apply Hl; by constructor).
  assert (P a ↔ Q a) by (apply Hl; by constructor). repeat case_decide; tauto.
Qed.

(** The summary accounts for every pending package once: the packages named in
    CVE bullets, those with a bullet for minor fixes, those in the reboot bullet, those
    in a version group, the companions whose version a CVE bullet already shows and
    the remaining count add up to the number of updates. *)
Theorem summary_accounts updates :
  NoDup (Name <$> updates) →
  let s := summarise updates in
  let companions := filter (λ u, category updates u = catNotable ∧ NewVersion u ∈ version <$> s_top s) updates in
  size updates = size (filter (listed updates) updates) + size (s_minor s) + size (s_reboot s) +
                 Z.of_nat (grouped (s_notable s)) + size companions + s_remaining s.
Proof.
  intros Hn s companions. pose proof (partition_cats (λ u, cat_of (final_cat updates) (Name u)) updates) as Hp.
  destruct (summarise_eq updates) as (_ & Em & Er & Eg & Eo). subst s.
  assert (∀ c, filter (λ u, cat_of (final_cat updates) (Name u) = c) updates =
               filter (λ u, category updates u = c) updates) as Hf.
  { intros c. apply filter_ext_in. intros u Hu. by rewrite final_category. }
  rewrite !Hf in *. assert (filter (listed updates) updates = filter (λ u, category updates u = catCVE) updates) as ->.
  { apply filter_ext_in. intros u Hu. unfold category. case_decide; [done|].
    destruct (base_not_cve (Name u)) as [Hb _]. by destruct (CVEs u). }
  assert (s_minor (summarise updates) = filter (λ u, category updates u = catMinorCVE) updates) as ->.
  { rewrite Em. apply filter_ext_in. intros u Hu. pose proof (elem_of_minor updates u Hu) as H1. rewrite Em, list_elem_of_filter in H1.
    trans (CVEs u ≠ [] ∧ ¬ listed updates u); [tauto|]. unfold category. destruct (base_not_cve (Name u)) as [_ Hb].
    case_decide as Hl; [|destruct (CVEs u)]; (split; [intros [??]|intros E]); try done. }
  rewrite Er, Eg, Eo, notable_grouped.
  assert (companions = filter (λ u, NewVersion u ∈ version <$> s_top (summarise updates)) (filter (λ u, category updates u = catNotable) updates)) as ->.
  { unfold companions. rewrite list_filter_filter. apply filter_ext_in. intros; cbn; tauto. }
  pose proof (filter_split (λ u, NewVersion u ∈ version <$> s_top (summarise updates)) (filter (λ u, category updates u = catNotable) updates)).
  unfold size. cbn [grouped sum_list fmap list_fmap length Nat.add]. lia.
Qed.

End Summary.
