(* ===== verification/UpdateList.v ===== *)
(** * Listing pending updates ([patching/updateinfo.go], second half) and the NVD lookup

    The output of the package manager is parsed into packages, and each is enriched
    with a description and the CVEs its update fixes.  The regular expressions of the
    source are written as the functions they denote on one line: each of their
    repetitions stops at the first byte outside its class, so they match in one way.

    [cachedNVDCVSS], [nvdCVSS] and [fetchJSON]: a lookup of a CVE's score goes through a
    process-wide cache and a rate limit.  The mutex guards two short sections, the
    decision and the recording; the wait and the request happen between them, outside
    the mutex.  [cachedNVDCVSS] is the lookup of one goroutine; [step] interleaves
    several. *)

From Corelib Require Import SpecFloat.
From S2P Require Import Prelude GoStrings GoText GoDuration Json World Patching UpdateInfo.

(** The error of a request: the context ended, or anything else. *)
Inductive net_error := CtxDone (msg : string) | NetError (msg : string).

Definition net_error_text (e : net_error) : string := match e with CtxDone m | NetError m => m end.

(** The network, the clock and the context of a request, over a state of their own. *)
Class Net (S : Type) := {
  Get : string → S → result net_error (Z * string) * S;
  Now : S → Z * S;
  (** [select] on [time.After(d)] and [ctx.Done()]: the error of the context if it ended first. *)
  Await : Z → S → option string * S;
  CtxErr : S → option string;
}.

Module Nvd.

Definition minInterval : Z := 7 * Second.
Definition hitTTL : Z := 24 * Hour.
Definition missTTL : Z := Hour.

(** A score with its severity, or an error; Go returns score 0 and ["UNKNOWN"] with
    every error. *)
Definition rating : Type := result net_error (spec_float * string).

Record nvdEntry := mkEntry { outcome : rating; expiry : Z }.

(** [lastCall] is [None] for the zero [time.Time]. *)
Record nvdState := mkState { lastCall : option Z; cache : gmap string nvdEntry }.

Definition init : nvdState := mkState None ∅.

(** The first critical section: a fresh cached outcome, or the time still to wait
    ([time.Since] of the zero time is the longest duration). *)
Definition fresh (now : Z) (e : nvdEntry) : option rating := if now <? expiry e then Some (outcome e) else None.

Definition wait_for (now : Z) (st : nvdState) : Z :=
  minInterval - match lastCall st with Some t => time_sub now t | None => max64 end.

Definition is_ctx_error (r : rating) : bool := match r with Err (CtxDone _) => true | _ => false end.

(** The second critical section. *)
Definition record (now now' : Z) (id : string) (r : rating) (st : nvdState) : nvdState :=
  let ttl := if is_ok r then hitTTL else missTTL in
  mkState (Some now) (if is_ctx_error r then cache st else <[id := mkEntry r (now' + ttl)]> (cache st)).

(** ** The request *)

(** [io.LimitReader]. *)
Definition limit (n : Z) (body : string) : string := if len body <=? n then body else take_bytes (Z.to_nat n) body.

Record metric := mkMetric { BaseScore : spec_float; BaseSeverity : string }.
Record vulnerability := mkVuln { V31 : list metric; V30 : list metric }.
Record nvdResponse := mkResponse { Vulnerabilities : list vulnerability }.

(** State passing over the network and the process-wide NVD state. *)
Record enrich (S : Type) := mkEnrich { sys : S; nvd : nvdState }.
Arguments mkEnrich {S}. Arguments sys {S}. Arguments nvd {S}.
Definition En (S A : Type) : Type := enrich S → A * enrich S.

#[export] Instance En_ret {S} : MRet (En S) := λ A a e, (a, e).
#[export] Instance En_bind {S} : MBind (En S) := λ A B f c e, let '(a, e') := c e in f a e'.

Section Ops.
Context {S : Type} `{!Net S} `{!Json nvdResponse}.

Definition on_sys {A} (f : S → A * S) : En S A := λ e, let '(a, s) := f (sys e) in (a, mkEnrich s (nvd e)).
Definition on_nvd {A} (f : nvdState → A * nvdState) : En S A := λ e, let '(a, n) := f (nvd e) in (a, mkEnrich (sys e) n).
Definition ctx_err : En S (option string) := λ e, (CtxErr (sys e), e).

(** A GET request whose body of at most 2 MiB is decoded. *)
Definition fetchJSON {A} `{!Json A} (url : string) : En S (result net_error A) :=
  r ← on_sys (Get url);
  mret (match r with
        | Err e => Err e
        | Ok (status, body) =>
            if negb (status =? 200) then Err (NetError ("HTTP " +:+ Itoa status +:+ " from " +:+ url))
            else match Unmarshal (limit 2097152 body) zero with
                 | (v, true) => Ok v
                 | (_, false) => Err (NetError "invalid JSON")
                 end
        end).

Definition nvdCVSS (id : string) : En S rating :=
  r ← fetchJSON (A := nvdResponse) ("https://services.nvd.nist.gov/rest/json/cves/2.0?cveId=" +:+ id);
  mret (match r with
        | Err e => Err e
        | Ok resp =>
            match Vulnerabilities resp with
            | [] => Err (NetError ("NVD: " +:+ id +:+ " not found"))
            | v :: _ =>
                match V31 v, V30 v with
                | d :: _, _ | [], d :: _ => Ok (BaseScore d, ToUpper (BaseSeverity d))
                | [], [] => Err (NetError ("NVD: no CVSS data for " +:+ id))
                end
            end
        end).

(** The request, then the second critical section. *)
Definition query (id : string) : En S rating :=
  r ← nvdCVSS id;
  now ← on_sys Now; now' ← on_sys Now;
  _ ← on_nvd (λ st, (tt, record now now' id r st));
  mret r.

Definition cachedNVDCVSS (id : string) : En S rating :=
  entry ← on_nvd (λ st, (cache st !! id, st));
  hit ← match entry with
        | Some e => now ← on_sys Now; mret (fresh now e)
        | None => mret None
        end;
  match hit with
  | Some r => mret r
  | None =>
      now ← on_sys Now;
      wait ← on_nvd (λ st, (wait_for now st, st));
      stopped ← (if 0 <? wait then on_sys (Await wait) else mret None);
      match stopped with
      | Some err => mret (Err (CtxDone err))
      | None => query id
      end
  end.

End Ops.

(** ** Several goroutines *)

(** Where a lookup stands: waiting until an instant, or with a request in flight. *)
Inductive phase := Waiting (id : string) (until : Z) | Requesting (id : string).

(** [started] records the instants of the requests, the last one first. *)
Record system := mkSystem { shared : nvdState; workers : gmap nat phase; started : list Z }.

(** A lookup that the cache does not answer, and at most [conc] of them at a time:
    the wait is computed, the request starts, the outcome is recorded; a waiting
    lookup may be given up when its context ends. *)
Inductive step (conc : nat) (now : Z) : system → system → Prop :=
| step_wait sy w id :
    workers sy !! w = None → (size (workers sy) < conc)%nat → (cache (shared sy) !! id) ≫= fresh now = None →
    step conc now sy (mkSystem (shared sy) (<[w := Waiting id (now + wait_for now (shared sy))]> (workers sy)) (started sy))
| step_request sy w id t :
    workers sy !! w = Some (Waiting id t) → t ≤ now →
    step conc now sy (mkSystem (shared sy) (<[w := Requesting id]> (workers sy)) (now :: started sy))
| step_give_up sy w id t :
    workers sy !! w = Some (Waiting id t) →
    step conc now sy (mkSystem (shared sy) (delete w (workers sy)) (started sy))
| step_record sy w id r :
    workers sy !! w = Some (Requesting id) →
    step conc now sy (mkSystem (record now now id r (shared sy)) (delete w (workers sy)) (started sy)).

(** Steps at instants that never go back, between two readings of the clock. *)
Inductive run (conc : nat) : Z → system → Z → system → Prop :=
| run_refl t sy : run conc t sy t sy
| run_step t sy u sy1 v sy2 :
    run conc t sy u sy1 → u ≤ v → in64 v → step conc v sy1 sy2 → run conc t sy v sy2.

Definition idle : system := mkSystem init ∅ [].

End Nvd.

Module UpdateList.
Import Patching UpdateInfo Nvd.

Definition maxNVDLookupsPerPackage : nat := 8.
Definition enrichConcurrency : nat := 4.

(** ** Texts *)

(** The class [\s] of regular expressions, and its complement [\S]. *)
Definition re_space (c : ascii) : bool :=
  let n := code c in (n =? 9) || (n =? 10) || (n =? 12) || (n =? 13) || (n =? 32).
Definition re_digit (c : ascii) : bool := (48 <=? code c) && (code c <=? 57).

(** [p+]: a run of at least one byte of the class, and the rest. *)
Definition plus (p : ascii → bool) (s : string) : option (string * string) :=
  match span p s with ("", _) => None | r => Some r end.

(** [CVE-\d{4}-\d{4,}] at the start of a text, and the rest. *)
Definition cve_at (s : string) : option (string * string) :=
  s1 ← CutPrefix "CVE-" s;
  let year := take_bytes 4 s1 in
  if negb ((String.length year =? 4)%nat && forall_bytes re_digit year) then None
  else
    s2 ← CutPrefix "-" (drop_bytes 4 s1);
    '(num, rest) ← plus re_digit s2;
    if (String.length num <? 4)%nat then None
    else Some ("CVE-" +:+ year +:+ "-" +:+ num, rest).

(** [cveIDRe.FindAllString(s, -1)]: matches from left to right, none overlapping. *)
Fixpoint find_cves (fuel : nat) (s : string) : list string :=
  match fuel with
  | O => []
  | S fuel =>
      match cve_at s with
      | Some (id, rest) => id :: find_cves fuel rest
      | None => match s with "" => [] | String _ s' => find_cves fuel s' end
      end
  end.
Definition FindAllCVEs (s : string) : list string := find_cves (S (String.length s)) s.

(** Appending the identifiers not seen before. *)
Definition add_new (ids : list string) (id : string) : list string :=
  if bool_decide (id ∈ ids) then ids else ids ++ [id].

Definition ExtractCVEIDs (s : string) : list string := foldl add_new [] (FindAllCVEs s).

(** ** Debian *)

Definition debianCodename (osRelease : result string string) : string :=
  match osRelease with
  | Err _ => ""
  | Ok data =>
      default "" (head (omap (λ line, v ← CutPrefix "VERSION_CODENAME=" (TrimSpace line);
                                      Some (Trim (TrimSpace v) (String "034" ""))) (Lines data)))
  end.

(** [^\S+ \(([^)]+)\)]: the version of a changelog entry header. *)
Definition changelog_entry (line : string) : option string :=
  '(_, s) ← plus (λ c, negb (re_space c)) line;
  s ← CutPrefix " (" s;
  '(version, s) ← plus (λ c, negb (Ascii.eqb c ")")) s;
  _ ← CutPrefix ")" s;
  Some version.

Fixpoint changelog_since (lines : list string) (oldVersion : string) (ids : list string) : list string * bool :=
  match lines with
  | [] => ([], false)
  | line :: rest =>
      if bool_decide (changelog_entry line = Some oldVersion) then (ids, true)
      else changelog_since rest oldVersion (foldl add_new ids (FindAllCVEs line))
  end.

Definition DebianChangelogCVEsSince (changelog oldVersion : string) : list string * bool :=
  changelog_since (Lines changelog) oldVersion [].

(** [^Inst\s+(\S+)(?:\s+\[([^\]]+)\])?\s+\((\S+)]: name, old version, new version. *)
Definition inst_old (s : string) : option (string * string) :=
  '(_, s) ← plus re_space s;
  s ← CutPrefix "[" s;
  '(old, s) ← plus (λ c, negb (Ascii.eqb c "]")) s;
  s ← CutPrefix "]" s;
  Some (old, s).

Definition inst_new (s : string) : option string :=
  '(_, s) ← plus re_space s;
  s ← CutPrefix "(" s;
  '(new, _) ← plus (λ c, negb (re_space c)) s;
  Some new.

Definition inst_line (line : string) : option PackageUpdate :=
  s ← CutPrefix "Inst" (TrimSpace line);
  '(_, s) ← plus re_space s;
  '(name, s) ← plus (λ c, negb (re_space c)) s;
  let name := match Cut ":" name with Some (String c n, _) => String c n | _ => name end in
  match inst_old s with
  | Some (old, s') => new ← inst_new s'; Some (mkUpdate name old new "" [] false)
  | None => new ← inst_new s; Some (mkUpdate name "" new "" [] false)
  end.

Definition ParseDebianInstLines (output : string) : list PackageUpdate := omap inst_line (Lines output).

Definition description_line (line : string) : option string :=
  match CutPrefix "Description-en: " line with
  | Some d => Some (TrimSpace d)
  | None => TrimSpace <$> CutPrefix "Description: " line
  end.

Definition canonicalPriorityToSeverity (priority : string) : string :=
  let p := ToLower priority in
  if String.eqb p "critical" then "CRITICAL"
  else if String.eqb p "high" then "HIGH"
  else if String.eqb p "medium" then "MEDIUM"
  else if String.eqb p "low" || String.eqb p "negligible" then "LOW"
  else "UNKNOWN".

(** [url.QueryEscape]. *)
Definition upper_hex (n : Z) : ascii := ascii_of_N (Z.to_N (if n <? 10 then 48 + n else 55 + n)).
Definition escape_byte (c : ascii) : string :=
  let n := code c in
  if re_digit c || is_upper c || is_lower c || (n =? 45) || (n =? 95) || (n =? 46) || (n =? 126) then String c ""
  else if n =? 32 then "+"
  else "%" +:+ String (upper_hex (n / 16)) (String (upper_hex (n mod 16)) "").
Fixpoint QueryEscape (s : string) : string :=
  match s with "" => "" | String c s' => escape_byte c +:+ QueryEscape s' end.

(** ** Fedora *)

(** The packages so far, and whether the rest of the output is to be skipped. *)
Definition fedora_line (st : list PackageUpdate * bool) (line : string) : list PackageUpdate * bool :=
  let '(pkgs, skip) := st in
  let trimmed := TrimSpace line in
  if String.eqb trimmed "" then st
  else if HasPrefix trimmed "Obsoleting" || HasPrefix trimmed "Security:" then (pkgs, true)
  else if HasPrefix trimmed "Last metadata" || HasPrefix trimmed "Error" then st
  else if skip : bool then st
  else match Fields trimmed with
       | f0 :: f1 :: _ =>
           match LastCut "." f0 with
           | Some (String c n, _) => (pkgs ++ [mkUpdate (String c n) "" f1 "" [] false], skip)
           | _ => st
           end
       | _ => st
       end.

Definition ParseFedoraCheckUpdate (output : string) : list PackageUpdate :=
  (foldl fedora_line ([], false) (Lines output)).1.

(** The first package of each name. *)
Definition dedup_step (pkgs : list PackageUpdate) (p : PackageUpdate) : list PackageUpdate :=
  if bool_decide (Name p ∈ Name <$> pkgs) then pkgs else pkgs ++ [p].
Definition dedup (pkgs : list PackageUpdate) : list PackageUpdate := foldl dedup_step [] pkgs.

Definition summary_line (line : string) : option string :=
  if Contains line "Summary" then '(_, v) ← Cut ":" line; Some (TrimSpace v) else None.

(** ** macOS *)

(** What follows a run of at least one blank: [body], or the last blank when nothing
    follows and there are at least two. *)
Definition after_blanks (body : string → string) (s : string) : option string :=
  '(blanks, rest) ← plus re_space s;
  match body rest with
  | "" => if (String.length blanks <? 2)%nat then None else Some (drop_bytes (String.length blanks - 1) blanks)
  | b => Some b
  end.

(** [\*\s+Label:\s+(.+)] and [Title:\s+([^,]+)]. *)
Definition label_at (s : string) : option string :=
  s ← CutPrefix "*" s; '(_, s) ← plus re_space s; s ← CutPrefix "Label:" s; after_blanks id s.
Definition title_at (s : string) : option string :=
  s ← CutPrefix "Title:" s; after_blanks (λ r, (span (λ c, negb (Ascii.eqb c ",")) r).1) s.

Definition set_description (d : string) (u : PackageUpdate) : PackageUpdate :=
  mkUpdate (Name u) (OldVersion u) (NewVersion u) d (CVEs u) (CVELookupFailed u).

Definition darwin_line (st : list PackageUpdate * option PackageUpdate) (line : string) :
    list PackageUpdate * option PackageUpdate :=
  let '(pkgs, cur) := st in
  match leftmost label_at line with
  | Some l => (pkgs ++ option_list cur, Some (mkUpdate (TrimSpace l) "" "" "" [] false))
  | None =>
      match cur, leftmost title_at line with
      | Some u, Some t => (pkgs, Some (set_description (TrimSpace t) u))
      | _, _ => st
      end
  end.

Definition ParseDarwinUpdateList (output : string) : list PackageUpdate :=
  let '(pkgs, cur) := foldl darwin_line ([], None) (Lines output) in pkgs ++ option_list cur.

Definition StripBuildNumber (label : string) : string :=
  match LastCut "-" label with
  | Some (String c before, rest) =>
      if nonempty rest && negb (ContainsAny rest " ") then TrimSpace (String c before) else TrimSpace label
  | _ => TrimSpace label
  end.

(** [href="(/en-us/\d+)"[^>]*>\s*About the security content of ([^<]+)<]: the link,
    the title and the rest. *)
Definition release_at (s : string) : option (string * string * string) :=
  s ← CutPrefix ("href=" +:+ dquote +:+ "/en-us/") s;
  '(n, s) ← plus re_digit s;
  s ← CutPrefix dquote s;
  let '(_, s) := span (λ c, negb (Ascii.eqb c ">")) s in
  s ← CutPrefix ">" s;
  let '(_, s) := span re_space s in
  s ← CutPrefix "About the security content of " s;
  '(title, s) ← plus (λ c, negb (Ascii.eqb c "<")) s;
  s ← CutPrefix "<" s;
  Some ("/en-us/" +:+ n, title, s).

Fixpoint find_releases (fuel : nat) (s : string) : list (string * string) :=
  match fuel with
  | O => []
  | S fuel =>
      match release_at s with
      | Some (link, title, rest) => (link, title) :: find_releases fuel rest
      | None => match s with "" => [] | String _ s' => find_releases fuel s' end
      end
  end.

Definition releases_of (body : string) : gmap string string :=
  foldl (λ m r, <[TrimSpace r.2 := "https://support.apple.com" +:+ r.1]> m) ∅
    (find_releases (S (String.length body)) body).

(** ** Windows *)

(** One [UPDATE] line: title, description and links. *)
Definition windows_line (line : string) : option (string * string * string) :=
  match SplitN (TrimSpace line) "|||" 5 with
  | "UPDATE" :: title :: rest =>
      Some (title, match rest with _ :: d :: _ => TrimSpace d | _ => "" end,
            match rest with _ :: _ :: u :: _ => TrimSpace u | _ => "" end)
  | _ => None
  end.

Definition list_script : list string := [
  "$ErrorActionPreference = 'Stop'";
  "$session  = New-Object -ComObject Microsoft.Update.Session";
  "$searcher = $session.CreateUpdateSearcher()";
  "$results  = $searcher.Search(" +:+ dquote +:+ "IsInstalled=0 and Type='Software'" +:+ dquote +:+ ")";
  "foreach ($u in $results.Updates) {";
  "  $kbs   = ($u.KBArticleIDs | ForEach-Object { " +:+ dquote +:+ "KB$_" +:+ dquote +:+ " }) -join " +:+ dquote +:+ "," +:+ dquote;
  "  $urls  = ($u.MoreInfoUrls  | ForEach-Object { $_ })    -join " +:+ dquote +:+ " " +:+ dquote;
  "  $title = $u.Title          -replace " +:+ dquote +:+ "[\r\n|||]" +:+ dquote +:+ "," +:+ dquote +:+ " " +:+ dquote;
  "  $desc  = $u.Description    -replace " +:+ dquote +:+ "[\r\n|||]" +:+ dquote +:+ "," +:+ dquote +:+ " " +:+ dquote;
  "  Write-Output " +:+ dquote +:+ "UPDATE|||$title|||$kbs|||$desc|||$urls" +:+ dquote;
  "}"
].

(** ** Enrichment *)

Record canonicalCVEResult := mkCanonical { c_ID : string; c_Priority : string }.

(** The decoded answers of the Ubuntu and Red Hat services. *)
Record canonicalResponse := mkCanonicalResponse { Results : option (list canonicalCVEResult) }.
Record redhatResponse := mkRedhat { ThreatSeverity : string; Score : spec_float }.

Definition set_cves (cves : list CVEInfo) (failed : bool) (u : PackageUpdate) : PackageUpdate :=
  mkUpdate (Name u) (OldVersion u) (NewVersion u) (Description u) cves failed.
Definition set_failed (u : PackageUpdate) : PackageUpdate := set_cves (CVEs u) true u.

Section Ops.
Context {S : Type} `{!Host S, !Net S} `{!Json nvdResponse, !Json canonicalResponse, !Json redhatResponse}.

(** The order in which Go visits the entries of a map. *)
Context (order : gmap string string → list (string * string)).

Definition cmd (argv : list string) : En S (string * option cmd_error) := on_sys (Command argv).

(** A CVE of unknown severity, rated by NVD while the package's budget lasts. *)
Definition rate (c : CVEInfo) (budget : nat) : En S (CVEInfo * nat) :=
  match budget with
  | O => mret (c, O)
  | Datatypes.S budget =>
      r ← cachedNVDCVSS (ID c);
      mret (match r with Ok (score, sev) => mkCVE (ID c) sev score (URL c) | Err _ => c end, budget)
  end.

Definition unrated (prefix id : string) : CVEInfo := mkCVE id "UNKNOWN" Float64.zero (prefix +:+ id).

(** *** Debian *)

Definition by_id (apiCVEs : list CVEInfo) : gmap string CVEInfo := foldl (λ m c, <[ID c := c]> m) ∅ apiCVEs.

Fixpoint resolve_loop (byID : gmap string CVEInfo) (budget : nat) (ids : list string) : En S (list CVEInfo) :=
  match ids with
  | [] => mret []
  | i :: rest =>
      match byID !! i with
      | Some c => cs ← resolve_loop byID budget rest; mret (c :: cs)
      | None =>
          '(c, budget) ← rate (unrated "https://ubuntu.com/security/" i) budget;
          cs ← resolve_loop byID budget rest; mret (c :: cs)
      end
  end.

Definition resolveDebianCVEs (deltaIDs : list string) (deltaOK : bool) (apiCVEs : list CVEInfo) : En S (list CVEInfo) :=
  if deltaOK then resolve_loop (by_id apiCVEs) maxNVDLookupsPerPackage deltaIDs else mret apiCVEs.

(** [None]: the package is not tracked. *)
Definition canonicalCVEQuery (query : string) : En S (result net_error (option (list canonicalCVEResult))) :=
  let url := "https://ubuntu.com/security/api/v1/cves?" +:+ query in
  r ← on_sys (Get url);
  mret (match r with
        | Err e => Err e
        | Ok (status, body) =>
            if status =? 404 then Ok None
            else if negb (status =? 200) then Err (NetError ("HTTP " +:+ Itoa status +:+ " from " +:+ url))
            else match Unmarshal (limit 2097152 body) zero with
                 | (resp, true) => Ok (Some (default [] (Results resp)))
                 | (_, false) => Err (NetError "invalid JSON")
                 end
        end).

Fixpoint canonical_loop (budget : nat) (results : list canonicalCVEResult) : En S (list CVEInfo) :=
  match results with
  | [] => mret []
  | r :: rest =>
      let c := mkCVE (c_ID r) (canonicalPriorityToSeverity (c_Priority r)) Float64.zero
                 ("https://ubuntu.com/security/" +:+ c_ID r) in
      '(c, budget) ← (if String.eqb (Severity c) "UNKNOWN" then rate c budget else mret (c, budget));
      cs ← canonical_loop budget rest; mret (c :: cs)
  end.

Definition canonicalPackageCVEs (pkg codename : string) : En S (result net_error (list CVEInfo)) :=
  let base := "package=" +:+ QueryEscape pkg +:+ "&limit=20&status=released" in
  let query := if nonempty codename then base +:+ "&version=" +:+ QueryEscape codename else base in
  r ← canonicalCVEQuery query;
  stop ← ctx_err;
  r ← (if negb (is_ok r) && nonempty codename && bool_decide (stop = None) then canonicalCVEQuery base else mret r);
  match r with
  | Err e => mret (Err e)
  | Ok None => mret (Ok [])
  | Ok (Some results) => cs ← canonical_loop maxNVDLookupsPerPackage results; mret (Ok cs)
  end.

Definition debianDescription (pkg : string) : En S (result cmd_error string) :=
  '(out, err) ← cmd ["apt-cache"; "show"; "--no-all-versions"; pkg];
  mret (match err with
        | Some e => Err e
        | None => Ok (default "" (head (omap description_line (Lines out))))
        end).

Definition debianChangelogCVEs (pkg oldVersion : string) : En S (list string * bool) :=
  if String.eqb oldVersion "" then mret ([], false)
  else
    '(out, err) ← cmd ["apt-get"; "changelog"; pkg];
    mret (match err with Some _ => ([], false) | None => DebianChangelogCVEsSince out oldVersion end).

(** Phase 1: the description and the changelog delta of each package, in turn. *)
Fixpoint debian_local (pkgs : list PackageUpdate) : En S (list (PackageUpdate * (list string * bool))) :=
  match pkgs with
  | [] => mret []
  | p :: rest =>
      stop ← ctx_err;
      match stop with
      | Some _ => ps ← debian_local rest; mret ((set_failed p, ([], false)) :: ps)
      | None =>
          d ← debianDescription (Name p);
          let p := match d with Ok desc => set_description desc p | Err _ => p end in
          delta ← debianChangelogCVEs (Name p) (OldVersion p);
          ps ← debian_local rest; mret ((p, delta) :: ps)
      end
  end.

(** Phase 2, one goroutine. *)
Definition debian_worker (codename : string) (pd : PackageUpdate * (list string * bool)) : En S PackageUpdate :=
  let '(p, (deltaIDs, deltaOK)) := pd in
  r ← canonicalPackageCVEs (Name p) codename;
  let apiCVEs := match r with Ok cs => cs | Err _ => [] end in
  cves ← resolveDebianCVEs deltaIDs deltaOK apiCVEs;
  mret (set_cves cves (negb (is_ok r) && negb deltaOK) p).

(** Phase 2: the goroutines fill their own slots of the slice.  [view i] is the world
    as the [i]-th one finds it: the others may run before and between its calls. *)
Definition debian_remote (codename : string) (view : nat → enrich S) (ps : list (PackageUpdate * (list string * bool))) :
    list PackageUpdate :=
  imap (λ i pd, if CVELookupFailed pd.1 then pd.1 else (debian_worker codename pd (view i)).1) ps.

Definition listDebianUpdates (view : nat → enrich S) : En S (result string (list PackageUpdate)) :=
  '(_, err) ← cmd apt_update;
  match err with
  | Some e => mret (Err ("apt-get update: " +:+ cmd_error_text e))
  | None =>
      '(out, err) ← cmd apt_dry_run;
      match err with
      | Some e => mret (Err ("apt-get upgrade --dry-run: " +:+ cmd_error_text e))
      | None =>
          osRelease ← (λ e, (ReadFile "/etc/os-release" (sys e), e));
          ps ← debian_local (ParseDebianInstLines out);
          mret (Ok (debian_remote (debianCodename osRelease) view ps))
      end
  end.

(** *** Fedora *)

Definition redhatCVE (i : string) : En S rating :=
  r ← fetchJSON (A := redhatResponse) ("https://access.redhat.com/labs/securitydataapi/cve/" +:+ i +:+ ".json");
  mret (match r with
        | Err e => Err e
        | Ok resp =>
            if String.eqb (ThreatSeverity resp) "" then Err (NetError ("no severity in Red Hat response for " +:+ i))
            else Ok (Score resp, ToUpper (ThreatSeverity resp))
        end).

Fixpoint fedora_loop (budget : nat) (ids : list string) : En S (list CVEInfo) :=
  match ids with
  | [] => mret []
  | i :: rest =>
      let c := unrated "https://access.redhat.com/security/cve/" i in
      r ← redhatCVE i;
      '(c, budget) ← match r with
                     | Ok (score, sev) => mret (mkCVE i sev score (URL c), budget)
                     | Err _ => rate c budget
                     end;
      cs ← fedora_loop budget rest; mret (c :: cs)
  end.

Definition fedoraPackageInfo (pkg : string) : En S (string * result string (list CVEInfo)) :=
  '(out, err) ← cmd ["dnf"; "info"; pkg];
  let desc := match err with Some _ => "" | None => default "" (head (omap summary_line (Lines out))) end in
  '(out, err) ← cmd ["dnf"; "updateinfo"; "info"; pkg];
  match err with
  | Some e => mret (desc, Err ("dnf updateinfo info " +:+ pkg +:+ ": " +:+ cmd_error_text e))
  | None => cs ← fedora_loop maxNVDLookupsPerPackage (ExtractCVEIDs out); mret (desc, Ok cs)
  end.

Fixpoint fedora_packages (pkgs : list PackageUpdate) : En S (list PackageUpdate) :=
  match pkgs with
  | [] => mret []
  | p :: rest =>
      stop ← ctx_err;
      match stop with
      | Some _ => ps ← fedora_packages rest; mret (set_failed p :: ps)
      | None =>
          '(desc, r) ← fedoraPackageInfo (Name p);
          let cves := match r with Ok cs => cs | Err _ => [] end in
          ps ← fedora_packages rest;
          mret (set_cves cves (negb (is_ok r)) (set_description desc p) :: ps)
      end
  end.

Definition listFedoraUpdates : En S (result string (list PackageUpdate)) :=
  '(out, err) ← cmd ["dnf"; "check-update"];
  match err with
  | None => mret (Ok [])
  | Some e =>
      if exited 100 e then ps ← fedora_packages (dedup (ParseFedoraCheckUpdate out)); mret (Ok ps)
      else
        '(out2, err2) ← cmd ["yum"; "check-update"];
        match err2 with
        | None => mret (Ok [])
        | Some e2 =>
            if exited 100 e2 then ps ← fedora_packages (dedup (ParseFedoraCheckUpdate out2)); mret (Ok ps)
            else mret (Err ("dnf: " +:+ cmd_error_text e +:+ "; yum: " +:+ cmd_error_text e2))
        end
  end.

(** *** macOS *)

Fixpoint nvd_loop (prefix : string) (budget : nat) (ids : list string) : En S (list CVEInfo) :=
  match ids with
  | [] => mret []
  | i :: rest =>
      '(c, budget) ← rate (unrated prefix i) budget;
      cs ← nvd_loop prefix budget rest; mret (c :: cs)
  end.

Definition appleSecurityReleases : En S (result net_error (gmap string string)) :=
  r ← on_sys (Get "https://support.apple.com/en-us/100100");
  mret (match r with
        | Err e => Err e
        | Ok (_, body) => Ok (releases_of (limit 4194304 body))
        end).

Definition appleReleaseCVEs (pageURL : string) : En S (result net_error (list CVEInfo)) :=
  r ← on_sys (Get pageURL);
  match r with
  | Err e => mret (Err e)
  | Ok (_, body) =>
      cs ← nvd_loop "https://nvd.nist.gov/vuln/detail/" maxNVDLookupsPerPackage (ExtractCVEIDs (limit 4194304 body));
      mret (Ok cs)
  end.

(** The release of a title, or the first one visited whose name contains it. *)
Definition release_for (releases : gmap string string) (title : string) : option string :=
  match releases !! title with
  | Some url => Some url
  | None => snd <$> head (filter (λ r, Contains r.1 title = true) (order releases))
  end.

Fixpoint darwin_packages (releases : gmap string string) (pkgs : list PackageUpdate) : En S (list PackageUpdate) :=
  match pkgs with
  | [] => mret []
  | p :: rest =>
      p' ← match release_for releases (StripBuildNumber (Name p)) with
           | None => mret p
           | Some url =>
               r ← appleReleaseCVEs url;
               mret (match r with Ok cs => set_cves cs (CVELookupFailed p) p | Err _ => p end)
           end;
      ps ← darwin_packages releases rest; mret (p' :: ps)
  end.

Definition enrichDarwinCVEs (pkgs : list PackageUpdate) : En S (result string (list PackageUpdate)) :=
  r ← appleSecurityReleases;
  match r with
  | Err e => mret (Err ("fetching Apple security releases: " +:+ net_error_text e))
  | Ok releases => ps ← darwin_packages releases pkgs; mret (Ok ps)
  end.

Definition listDarwinUpdates : En S (result string (list PackageUpdate)) :=
  '(out, err) ← cmd ["softwareupdate"; "-l"];
  match err with
  | Some e => mret (Err ("softwareupdate -l: " +:+ cmd_error_text e))
  | None =>
      if Contains out "No new software available" then mret (Ok [])
      else
        let pkgs := ParseDarwinUpdateList out in
        r ← enrichDarwinCVEs pkgs;
        mret (Ok (match r with Ok ps => ps | Err _ => set_failed <$> pkgs end))
  end.

(** *** Windows *)

Fixpoint windows_packages (lines : list string) : En S (list PackageUpdate) :=
  match lines with
  | [] => mret []
  | line :: rest =>
      match windows_line line with
      | None => windows_packages rest
      | Some (title, desc, urls) =>
          cs ← nvd_loop "https://msrc.microsoft.com/update-guide/en-US/vulnerability/" maxNVDLookupsPerPackage
                 (ExtractCVEIDs (title +:+ " " +:+ desc +:+ " " +:+ urls));
          ps ← windows_packages rest;
          mret (mkUpdate title "" "" desc cs false :: ps)
      end
  end.

Definition listWindowsUpdates : En S (result string (list PackageUpdate)) :=
  '(out, err) ← cmd (powershell list_script);
  match err with
  | Some e => mret (Err ("windows update list: " +:+ cmd_error_text e))
  | None => ps ← windows_packages (Lines out); mret (Ok ps)
  end.

Definition ListUpdates (os : OSType) (view : nat → enrich S) : En S (result string (list PackageUpdate)) :=
  match os with
  | OSDebian => listDebianUpdates view
  | OSFedora => listFedoraUpdates
  | OSDarwin => listDarwinUpdates
  | OSWindows => listWindowsUpdates
  | OSUnknown => mret (Err ("unsupported OS: " +:+ os_string os))
  end.

End Ops.

End UpdateList.
