(* ===== verification/UpdateListFacts.v ===== *)
(** * Theorems on the list of pending updates and on the NVD lookup: the rate limit,
    the cache, the parsers and the budget *)

From Corelib Require Import SpecFloat.
From S2P Require Import Prelude GoStrings GoText GoDuration Json World Patching UpdateInfo UpdateList.

Import Nvd.

(** ** The rate limit *)

(** Consecutive requests are at least [minInterval] apart; the list is newest first. *)
Fixpoint spaced (l : list Z) : Prop :=
  match l with
  | a :: (b :: _) as l' => b + minInterval ≤ a ∧ spaced l'
  | _ => True
  end.

(** With one lookup at a time, at the instant [now]. *)
Record paced (now : Z) (sy : system) : Prop := {
  pc_spaced : spaced (started sy);
  pc_past : ∀ t, t ∈ started sy → 0 ≤ t ≤ now;
  pc_one : (size (workers sy) ≤ 1)%nat;
  pc_last : ∀ t, lastCall (shared sy) = Some t → 0 ≤ t ≤ now;
  pc_recorded : ∀ s l, started sy = s :: l →
    (∃ w id, workers sy !! w = Some (Requesting id)) ∨ (∃ t, lastCall (shared sy) = Some t ∧ s ≤ t);
  pc_waiting : ∀ w id u s l, workers sy !! w = Some (Waiting id u) → started sy = s :: l → s + minInterval ≤ u;
}.

(** At most one worker: a key found is the only one. *)
Lemma only_worker {A} (m : gmap nat A) w a : (size m ≤ 1)%nat → m !! w = Some a → m = {[w := a]}.
Proof.
  intros Hs Hw. assert (delete w m = ∅) as Hd.
  { apply map_size_empty_inv. rewrite map_size_delete_Some by (by rewrite Hw). lia. }
  by rewrite <- (insert_delete_id _ _ _ Hw), Hd.
Qed.

Lemma paced_step now now' sy sy' : 0 ≤ now → now ≤ now' → in64 now' → step 1 now' sy sy' → paced now sy → paced now' sy'.
Proof.
  intros H0 Hle H64 Hst [Hsp Hpast Hone Hlast Hrec Hwait].
  assert (∀ t, t ∈ started sy → 0 ≤ t ≤ now') as Hpast' by (intros t Ht; apply Hpast in Ht; lia).
  assert (∀ t, lastCall (shared sy) = Some t → 0 ≤ t ≤ now') as Hlast' by (intros t Ht; apply Hlast in Ht; lia).
  destruct Hst as [sy w id Hw Hc Hf|sy w id t Hw Ht|sy w id t Hw|sy w id r Hw].
  - assert (workers sy = ∅) as E by (apply map_size_empty_inv; lia). split; cbn; try done; rewrite E.
    + by rewrite map_size_insert_None, map_size_empty by (by rewrite lookup_empty).
    + intros s l Es. destruct (Hrec _ _ Es) as [(w' & id' & E')|?]; [by rewrite E, lookup_empty in E'|by right].
    + intros w' id' u s l Hu Es. destruct (Hrec _ _ Es) as [(w2 & id2 & E')|(t & Et & Hst)];
        [by rewrite E, lookup_empty in E'|]. destruct (decide (w = w')) as [-> |]; [|by rewrite lookup_insert_ne, lookup_empty in Hu].
      rewrite lookup_insert_eq in Hu. injection Hu as <- <-. unfold wait_for. rewrite Et.
      apply Hlast' in Et. rewrite time_sub_exact by (unfold in64, min64, max64 in *; lia). lia.
  - rewrite (only_worker _ _ _ Hone Hw) in *. split; cbn; try done.
    + destruct (started sy) as [|s l] eqn:Es; [done|]. split; [|done].
      specialize (Hwait w id t s l). rewrite lookup_singleton_eq in Hwait. specialize (Hwait eq_refl eq_refl). lia.
    + intros s [-> |Hs]%elem_of_cons; [lia|by apply Hpast'].
    + rewrite insert_singleton_eq, map_size_singleton. done.
    + intros s l _. left. exists w, id. by rewrite lookup_insert_eq.
    + intros w' id' u s l. rewrite insert_singleton_eq. by intros [_ [=]]%lookup_singleton_Some.
  - rewrite (only_worker _ _ _ Hone Hw) in *. split; cbn; try done; rewrite delete_singleton_eq.
    + by rewrite map_size_empty; lia.
    + intros s l Es. destruct (Hrec _ _ Es) as [(w' & id' & [_ [=]]%lookup_singleton_Some)|?]. by right.
    + intros ????? H. by rewrite lookup_empty in H.
  - rewrite (only_worker _ _ _ Hone Hw) in *. split; cbn; try done; rewrite ?delete_singleton_eq.
    + rewrite map_size_empty. lia.
    + intros t [= <-]. lia.
    + intros s l Es. right. exists now'. split; [done|]. assert (s ∈ started sy) as Hs by (rewrite Es; by constructor).
      apply Hpast' in Hs. lia.
    + intros ????? H. by rewrite lookup_empty in H.
Qed.

(** One lookup at a time respects the limit of the NVD service: however the
    lookups, the cache and given-up waits alternate, two requests are never less than
    seven seconds apart. *)
Theorem sequential_rate_limit t u sy :
  0 ≤ t → run 1 t idle u sy → spaced (started sy).
Proof.
  intros Ht Hr. enough (t ≤ u ∧ paced u sy) as [_ Hp] by exact (pc_spaced _ _ Hp).
  remember idle as sy0 eqn:E0. induction Hr as [t sy|t sy u sy1 v sy2 _ IH Huv Hv Hs]; subst.
  - split; [lia|]. split; cbn; try done; try set_solver.
  - destruct (IH Ht eq_refl) as [Htu Hp]. split; [lia|]. apply (paced_step u v sy1); [lia|done|done|done|done].
Qed.

(** [k] goroutines that look up different identifiers before any request ends. *)
Fixpoint burst_waiting (now : Z) (k : nat) : gmap nat phase :=
  match k with
  | O => ∅
  | S k => <[k := Waiting ("CVE-" +:+ Itoa (Z.of_nat k)) (now + wait_for now init)]> (burst_waiting now k)
  end.

Lemma burst_lookup now k w : burst_waiting now k !! w =
  if decide (w < k)%nat then Some (Waiting ("CVE-" +:+ Itoa (Z.of_nat w)) (now + wait_for now init)) else None.
Proof.
  induction k as [|k IH]; cbn; [by rewrite lookup_empty|]. destruct (decide (w = k)) as [-> |].
  - rewrite lookup_insert_eq. by rewrite decide_True by lia.
  - rewrite lookup_insert_ne, IH by done. repeat case_decide; done || lia.
Qed.

Lemma burst_size now k : size (burst_waiting now k) = k.
Proof.
  induction k as [|k IH]; [done|]. cbn. rewrite map_size_insert_None, IH; [done|].
  rewrite burst_lookup. by rewrite decide_False by lia.
Qed.

Lemma burst_begins conc now k : in64 now → (k ≤ conc)%nat →
  run conc now idle now (mkSystem init (burst_waiting now k) []).
Proof.
  intros H64. induction k as [|k IH]; intros Hk; [apply run_refl|].
  eapply run_step; [apply IH; lia|lia|done|]. apply (step_wait conc now (mkSystem init (burst_waiting now k) [])); cbn.
  - rewrite burst_lookup. by rewrite decide_False by lia.
  - rewrite burst_size. lia.
  - done.
Qed.

(** The limit does not hold between goroutines: the instant of the last request
    is recorded only when a request ends, so all the workers that may look up CVEs at
    once, four of them on Debian, send their requests at the same instant. *)
Theorem concurrent_rate_limit_broken conc now k :
  in64 now → (k ≤ conc)%nat →
  ∃ sy, run conc now idle now sy ∧ started sy = replicate k now.
Proof.
  intros H64 Hk. enough (∀ j, (j ≤ k)%nat → ∃ sy, run conc now idle now sy ∧ started sy = replicate j now ∧
    ∀ w, (j ≤ w < k)%nat → ∃ id, workers sy !! w = Some (Waiting id (now + wait_for now init))) as H.
  { destruct (H k (le_n k)) as (sy & Hr & Hs & _). by exists sy. }
  induction j as [|j IH]; intros Hj.
  - exists (mkSystem init (burst_waiting now k) []). split_and!; [by apply burst_begins|done|].
    intros w Hw. cbn. rewrite burst_lookup. rewrite decide_True by lia. eauto.
  - destruct IH as (sy & Hr & Hs & Hw); [lia|]. destruct (Hw j) as (id & Hid); [lia|].
    eexists. split_and!; [eapply run_step; [exact Hr|lia|done|eapply step_request; [exact Hid|]]| |].
    + unfold wait_for, init, minInterval, max64, Second. cbn. lia.
    + cbn. by rewrite Hs.
    + intros w Hjw. cbn. rewrite lookup_insert_ne by lia. apply Hw. lia.
Qed.

(** ** The cache *)

Section Cache.
Context {S : Type} `{!Net S} `{!Json nvdResponse}.

Lemma request_keeps id e : nvd (nvdCVSS id e).2 = nvd e.
Proof.
  unfold nvdCVSS, fetchJSON, mbind, En_bind, mret, En_ret, on_sys. by destruct (Get _ (sys e)).
Qed.

Lemma query_records id e r e' : query id e = (r, e') →
  ∃ now now', nvd e' = record now now' id r (nvd e).
Proof.
  unfold query, mbind, En_bind, mret, En_ret, on_sys, on_nvd. pose proof (request_keeps id e) as Hk.
  destruct (nvdCVSS id e) as [r1 e1]. cbn [snd] in Hk. cbn.
  destruct (Now (sys e1)) as [t s1]. cbn. destruct (Now s1) as [t' s2]. cbn.
  intros [= <- <-]. cbn. rewrite Hk. eauto.
Qed.

(** A lookup is answered by a fresh entry, is stopped while it waits, or asks. *)
Lemma lookup_cases id e r e' : cachedNVDCVSS id e = (r, e') →
  (nvd e' = nvd e ∧ (is_ctx_error r = true ∨ ∃ en, cache (nvd e) !! id = Some en ∧ outcome en = r)) ∨
  ∃ now now', nvd e' = record now now' id r (nvd e).
Proof.
  unfold cachedNVDCVSS. unfold mbind at 1, En_bind at 1, on_nvd at 1. cbn [fst snd nvd sys].
  assert (∀ (hit : option rating) e0, nvd e0 = nvd e →
    (∀ q, hit = Some q → ∃ en, cache (nvd e) !! id = Some en ∧ outcome en = q) →
    (match hit with Some q => mret q | None =>
       now ← on_sys Now; wait ← on_nvd (λ st, (wait_for now st, st));
       stopped ← (if 0 <? wait then on_sys (Await wait) else mret None);
       match stopped with Some err => mret (Err (CtxDone err)) | None => query id end end) e0 = (r, e') →
    (nvd e' = nvd e ∧ (is_ctx_error r = true ∨ ∃ en, cache (nvd e) !! id = Some en ∧ outcome en = r)) ∨
    ∃ now now', nvd e' = record now now' id r (nvd e)) as Hrest.
  { intros hit e0 He Hhit. destruct hit as [q|]; [intros [= <- <-]; left; split; [done|right; by apply Hhit]|].
    unfold mbind, En_bind, mret, En_ret, on_sys, on_nvd. destruct (Now (sys e0)) as [t s1]. cbn.
    destruct (0 <? wait_for t (nvd e0)); cbn; [destruct (Await (wait_for t (nvd e0)) s1) as [[err|] s2]|]; cbn.
    - intros [= <- <-]. left. split; [done|by left].
    - intros Hq%query_records. cbn in Hq. rewrite He in Hq. by right.
    - intros Hq%query_records. cbn in Hq. rewrite He in Hq. by right. }
  unfold mbind at 1, En_bind at 1. destruct (cache (nvd e) !! id) as [en|] eqn:Een; cbn.
  - unfold mbind at 1, En_bind at 1, on_sys at 1, mret at 1, En_ret at 1. cbn. destruct (Now (sys e)) as [t s]. cbn.
    apply Hrest; [done|]. unfold fresh. intros q. destruct (_ <? _); [|done]. intros [= <-]. eauto.
  - by apply (Hrest None).
Qed.

(** A lookup leaves its answer in the cache, and the answer is what the next
    lookups of the identifier get until it expires, with no request and no wait; the
    end of the caller's context is never cached, and no other entry changes. *)
Theorem nvd_answer_cached id e r e' :
  cachedNVDCVSS id e = (r, e') →
  (is_ctx_error r = true → cache (nvd e') = cache (nvd e)) ∧
  (is_ctx_error r = false → ∃ en, cache (nvd e') !! id = Some en ∧ outcome en = r ∧
     ∀ now s, Now (sys e') = (now, s) → now < expiry en → cachedNVDCVSS id e' = (r, mkEnrich s (nvd e'))) ∧
  (∀ id', id' ≠ id → cache (nvd e') !! id' = cache (nvd e) !! id').
Proof.
  intros H%lookup_cases. split_and!.
  - intros Hx. destruct H as [[-> _]|(? & ? & ->)]; [done|]. unfold record. by rewrite Hx.
  - intros Hx. assert (∃ en, cache (nvd e') !! id = Some en ∧ outcome en = r) as (en & Hen & Ho).
    { destruct H as [[-> [?|?]]|(? & now & ->)]; [congruence|done|]. unfold record. rewrite Hx. cbn.
      rewrite lookup_insert_eq. eauto. }
    exists en. split_and!; [done..|]. intros now s Hn Hlt. unfold cachedNVDCVSS, mbind, En_bind, on_nvd, on_sys, mret, En_ret.
    rewrite Hen. cbn. rewrite Hn. unfold fresh. apply Z.ltb_lt in Hlt. by rewrite Hlt, Ho.
  - intros id' Hne. destruct H as [[-> _]|(? & ? & ->)]; [done|]. unfold record. cbn.
    destruct (is_ctx_error r); [done|]. by rewrite lookup_insert_ne.
Qed.
End Cache.

Import Patching UpdateInfo Nvd UpdateList.

(** ** The changelog delta *)

(** The first occurrences of the elements of a list, in order. *)
Fixpoint firsts (l : list string) : list string :=
  match l with
  | [] => []
  | a :: l => a :: filter (.≠ a) (firsts l)
  end.

Lemma firsts_elem l x : x ∈ firsts l ↔ x ∈ l.
Proof.
  induction l as [|a l IH]; [done|]. cbn. rewrite !elem_of_cons, list_elem_of_filter, IH.
  destruct (decide (x = a)); tauto.
Qed.

Lemma firsts_nodup l : NoDup (firsts l).
Proof.
  induction l as [|a l IH]; [apply NoDup_nil_2|]. cbn. constructor; [|by apply NoDup_filter].
  rewrite list_elem_of_filter. tauto.
Qed.

Lemma add_new_fold l acc : foldl add_new acc l = acc ++ filter (.∉ acc) (firsts l).
Proof.
  revert acc. induction l as [|a l IH]; intros acc; [by rewrite app_nil_r|]. cbn [foldl firsts].
  rewrite IH. unfold add_new. rewrite filter_cons. case_bool_decide as Ha.
  - rewrite decide_False by tauto. rewrite list_filter_filter. f_equal. apply list_filter_iff. intros x. split; [|tauto].
    intros Hx. split; [done|]. by intros ->.
  - rewrite decide_True by done. rewrite <- app_assoc. cbn. do 2 f_equal. rewrite list_filter_filter.
    apply list_filter_iff. intros x. rewrite elem_of_app, list_elem_of_singleton. tauto.
Qed.

Lemma extract_firsts s : ExtractCVEIDs s = firsts (FindAllCVEs s).
Proof.
  unfold ExtractCVEIDs. rewrite add_new_fold. cbn. induction (firsts _) as [|a l IH]; [done|].
  rewrite filter_cons_True by (by apply not_elem_of_nil). by rewrite IH.
Qed.

Lemma since_loop lines old ids :
  match changelog_since lines old ids with
  | (r, true) => ∃ newer header rest, lines = newer ++ header :: rest ∧ changelog_entry header = Some old ∧
      Forall (λ l, changelog_entry l ≠ Some old) newer ∧ r = foldl add_new ids (concat (FindAllCVEs <$> newer))
  | (r, false) => r = [] ∧ Forall (λ l, changelog_entry l ≠ Some old) lines
  end.
Proof.
  revert ids. induction lines as [|l lines IH]; intros ids; cbn; [by split|]. case_bool_decide as Hl.
  - by exists [], l, lines.
  - specialize (IH (foldl add_new ids (FindAllCVEs l))). destruct (changelog_since _ _ _) as [r []].
    + destruct IH as (newer & header & rest & -> & Hh & Hn & ->). exists (l :: newer), header, rest.
      split_and!; [done..|by constructor|]. cbn. by rewrite foldl_app.
    + destruct IH as [-> IH]. split; [done|by constructor].
Qed.

(** The changelog delta of a Debian update is what the update fixes: when an entry
    of the installed version is found, the identifiers are the distinct ones of the
    lines above the first such entry, in order; when none is found there is no delta,
    so the caller falls back on the vendor's list. *)
Theorem changelog_delta changelog old :
  match DebianChangelogCVEsSince changelog old with
  | (ids, true) => ∃ newer header rest, Lines changelog = newer ++ header :: rest ∧
      changelog_entry header = Some old ∧ Forall (λ l, changelog_entry l ≠ Some old) newer ∧
      ids = firsts (concat (FindAllCVEs <$> newer))
  | (ids, false) => ids = [] ∧ Forall (λ l, changelog_entry l ≠ Some old) (Lines changelog)
  end.
Proof.
  unfold DebianChangelogCVEsSince. pose proof (since_loop (Lines changelog) old []) as H.
  destruct (changelog_since _ _ _) as [ids []]; [|done]. destruct H as (n & h & r & ? & ? & ? & ->).
  exists n, h, r. split_and!; [done..|]. rewrite add_new_fold. cbn.
  induction (firsts _) as [|a l IH]; [done|]. rewrite filter_cons_True by (by apply not_elem_of_nil). by rewrite IH.
Qed.

(** ** The lines of [apt-get --dry-run] *)

Lemma plus_all p a s : a ≠ "" → forall_bytes p a = true → match s with String c _ => p c = false | "" => True end →
  plus p (a +:+ s) = Some (a, s).
Proof. intros Hne Ha Hs. unfold plus. rewrite span_all by done. by destruct a. Qed.

Definition inst_text (name old new tail : string) : string :=
  "Inst " +:+ name +:+ (if String.eqb old "" then "" else " [" +:+ old +:+ "]") +:+ " (" +:+ new +:+ " " +:+ tail.

Lemma no_colon name : forall_bytes (λ c, negb (Ascii.eqb c ":")) name = true → Cut ":" name = None.
Proof.
  induction name as [|c name IH]; [done|]. cbn [forall_bytes]. rewrite andb_true_iff, negb_true_iff. intros [Hc Hn].
  cbn [Cut]. assert (HasPrefix (String c name) ":" = false) as ->.
  { unfold HasPrefix. cbn [String.prefix]. destruct (ascii_dec ":" c) as [<-|]; [by rewrite Ascii.eqb_refl in Hc|done]. }
  by rewrite IH.
Qed.

Lemma word_nonspace w : is_word w → forall_bytes (λ c, negb (re_space c)) w = true.
Proof.
  intros [_ Hw]. induction w as [|c w IH]; [done|]. cbn in *. apply andb_true_iff in Hw as [Hc Hw].
  rewrite IH, andb_true_r by done. rewrite negb_true_iff in *. unfold is_space, re_space in *.
  rewrite !orb_false_iff, andb_false_iff, !Z.leb_gt, !Z.eqb_neq in *. lia.
Qed.

(** What a line of the dry run can carry. *)
Record inst_wf (u : PackageUpdate) : Prop := {
  iw_name : is_word (Name u);
  iw_colon : forall_bytes (λ c, negb (Ascii.eqb c ":")) (Name u) = true;
  iw_old : forall_bytes (λ c, negb (Ascii.eqb c "]") && negb (Ascii.eqb c lf)) (OldVersion u) = true;
  iw_new : is_word (NewVersion u);
  iw_rest : Description u = "" ∧ CVEs u = [] ∧ CVELookupFailed u = false;
}.

Lemma inst_new_text new tail : is_word new → inst_new (" (" +:+ new +:+ " " +:+ tail) = Some new.
Proof.
  intros Hn. unfold inst_new. change (" (" +:+ new +:+ " " +:+ tail) with (" " +:+ ("(" +:+ (new +:+ (" " +:+ tail)))).
  rewrite (plus_all re_space " ") by done. cbn [mbind option_bind]. rewrite CutPrefix_append. cbn [mbind option_bind].
  rewrite plus_all; [done|by destruct Hn|by apply word_nonspace|done].
Qed.

Lemma inst_old_text old s : old ≠ "" → forall_bytes (λ c, negb (Ascii.eqb c "]")) old = true →
  inst_old (" [" +:+ old +:+ "]" +:+ s) = Some (old, s).
Proof.
  intros Hne Ho. unfold inst_old. change (" [" +:+ old +:+ "]" +:+ s) with (" " +:+ ("[" +:+ (old +:+ ("]" +:+ s)))).
  rewrite (plus_all re_space " ") by done. cbn [mbind option_bind]. rewrite CutPrefix_append. cbn [mbind option_bind].
  rewrite plus_all by done. cbn [mbind option_bind]. by rewrite CutPrefix_append.
Qed.

Lemma inst_line_text u tail : inst_wf u → is_word tail →
  inst_line (inst_text (Name u) (OldVersion u) (NewVersion u) tail) = Some u.
Proof.
  intros [Hn Hc Ho Hv (E1 & E2 & E3)] Ht. destruct u as [name old new d cs f]. cbn in *. subst.
  unfold inst_line, inst_text. set (opt := if String.eqb old "" then _ else _).
  assert (TrimSpace ("Inst " +:+ name +:+ opt +:+ " (" +:+ new +:+ " " +:+ tail) =
          "Inst " +:+ name +:+ opt +:+ " (" +:+ new +:+ " " +:+ tail) as ->.
  { unfold TrimSpace. change ("Inst " +:+ name +:+ opt +:+ " (" +:+ new +:+ " " +:+ tail)
      with ("Inst" +:+ (" " +:+ name +:+ opt +:+ " (" +:+ new +:+ " " +:+ tail)).
    rewrite (TrimLeft_word_start is_space "Inst") by (done || by split). rewrite !append_assoc.
    by apply TrimRightFunc_word_end. }
  change ("Inst " +:+ name +:+ opt +:+ " (" +:+ new +:+ " " +:+ tail)
    with ("Inst" +:+ (" " +:+ (name +:+ (opt +:+ " (" +:+ new +:+ " " +:+ tail)))).
  rewrite CutPrefix_append. cbn [mbind option_bind].
  pose proof (word_nonspace name Hn) as Hns. destruct Hn as [Hne _].
  assert (match name with String c _ => re_space c = false | "" => True end) as Hhead.
  { destruct name as [|c n]; [done|]. cbn in Hns. by apply andb_true_iff in Hns as [?%negb_true_iff _]. }
  rewrite (plus_all re_space " ") by (done || by destruct name). cbn [mbind option_bind].
  assert (∀ s, match opt +:+ " (" +:+ s with String c _ => negb (re_space c) = false | "" => True end) as Hopt.
  { intros s. subst opt. by destruct (String.eqb old ""). }
  rewrite plus_all; [|done|done|apply Hopt]. cbn [mbind option_bind]. rewrite no_colon by done.
  subst opt. destruct (String.eqb_spec old "") as [->|Hold].
  - rewrite append_nil_l. assert (inst_old (" (" +:+ new +:+ " " +:+ tail) = None) as -> by done.
    by rewrite inst_new_text.
  - rewrite <- !append_assoc. rewrite inst_old_text; [|done|].
    + by rewrite inst_new_text.
    + revert Ho. apply forall_bytes_impl. intros c. by rewrite andb_true_iff; intros [? _].
Qed.

Lemma lines_unlines ls : Forall one_line ls → Lines (cat_all ((λ l, l +:+ nl) <$> ls)) = ls ++ [""].
Proof.
  induction 1 as [|l ls Hl _ IH]; [done|]. cbn [fmap list_fmap cat_all foldr].
  rewrite <- append_assoc, lines_cons by done. cbn [app]. f_equal. exact IH.
Qed.

Lemma word_one_line w : is_word w → one_line w.
Proof.
  intros [_ Hw]. revert Hw. apply forall_bytes_impl. intros c. rewrite !negb_true_iff.
  destruct (Ascii.eqb_spec c lf) as [-> |]; [by vm_compute|done].
Qed.

Lemma inst_text_line u tail : inst_wf u → is_word tail →
  one_line (inst_text (Name u) (OldVersion u) (NewVersion u) tail).
Proof.
  intros [Hn _ Ho Hv _] Ht. apply word_one_line in Hn, Hv, Ht. unfold one_line, inst_text in *.
  assert (forall_bytes (λ c, negb (Ascii.eqb c lf)) (OldVersion u) = true) as Hold.
  { revert Ho. apply forall_bytes_impl. intros c. by rewrite andb_true_iff; intros [_ ?]. }
  destruct (String.eqb (OldVersion u) ""); rewrite !forall_bytes_append, Hn, Hv, Ht, ?Hold; done.
Qed.

(** The dry-run parser reads back every package: the output that lists updates one
    per line, with or without an installed version, among them any other line that is
    not an [Inst] line, parses to exactly these updates in this order. *)
Theorem inst_lines_read_back (us : list PackageUpdate) (header tail : string) :
  Forall inst_wf us → is_word tail → one_line header → inst_line header = None →
  ParseDebianInstLines
    (header +:+ nl +:+ cat_all ((λ u, inst_text (Name u) (OldVersion u) (NewVersion u) tail +:+ nl) <$> us)) = us.
Proof.
  intros Hus Ht Hh Hn. unfold ParseDebianInstLines. rewrite lines_cons by done. cbn [omap list_omap]. rewrite Hn.
  change (λ u, inst_text (Name u) (OldVersion u) (NewVersion u) tail +:+ nl)
    with ((λ l, l +:+ nl) ∘ (λ u, inst_text (Name u) (OldVersion u) (NewVersion u) tail)).
  rewrite list_fmap_compose, lines_unlines.
  - rewrite omap_app. cbn. rewrite app_nil_r. clear Hh Hn. induction Hus as [|u us Hu _ IH]; [done|]. cbn.
    by rewrite inst_line_text, IH.
  - apply Forall_fmap. eapply Forall_impl; [exact Hus|]. intros u Hu. cbn. by apply inst_text_line.
Qed.

(** ** The NVD budget *)

Definition nvd_url : string := "https://services.nvd.nist.gov/rest/json/cves/2.0?cveId=".

(** A network that records the addresses it is asked for. *)
Definition traced_net {S : Type} `{!Net S} : Net (S * list string) := {|
  Get := λ url s, let '(r, s') := Get url s.1 in (r, (s', url :: s.2));
  Now := λ s, let '(t, s') := Now s.1 in (t, (s', s.2));
  Await := λ d s, let '(r, s') := Await d s.1 in (r, (s', s.2));
  CtxErr := λ s, CtxErr s.1;
|}.

Definition lifted_host {S T : Type} `{!Host S} : Host (S * T) := {|
  Command := λ argv s, let '(r, h) := Command argv s.1 in (r, (h, s.2));
  Stat := λ path s, Stat path s.1;
  ReadFile := λ path s, ReadFile path s.1;
|}.

(** The requests to NVD so far. *)
Definition nvd_requests {S : Type} (e : enrich (S * list string)) : nat :=
  length (filter (λ url, HasPrefix url nvd_url = true) (sys e).2).

Section Budget.
Context {S : Type} `{!Host S, !Net S} `{!Json nvdResponse, !Json canonicalResponse, !Json redhatResponse}.
#[local] Existing Instance traced_net.
#[local] Existing Instance lifted_host.
Abbreviation T := (S * list string)%type.

(** [c] sends at most [n] requests to NVD. *)
Definition spends {A} (n : nat) (c : En T A) : Prop := ∀ e, (nvd_requests (c e).2 ≤ nvd_requests e + n)%nat.

Lemma spends_ret {A} n (a : A) : spends n (mret a).
Proof. intros e. cbn. lia. Qed.

Lemma spends_bind {A B} n m (c : En T A) (f : A → En T B) :
  spends n c → (∀ a, spends m (f a)) → spends (n + m) (c ≫= f).
Proof.
  intros Hc Hf e. unfold mbind, En_bind. specialize (Hc e). destruct (c e) as [a e1]. specialize (Hf a e1). cbn in *. lia.
Qed.

Lemma spends_weaken {A} n m (c : En T A) : (n ≤ m)%nat → spends n c → spends m c.
Proof. intros Hl Hc e. specialize (Hc e). lia. Qed.

Lemma spends_now : spends 0 (on_sys (Now (S := T))).
Proof. intros e. unfold on_sys. cbn. destruct (Now (sys e).1). unfold nvd_requests. cbn. lia. Qed.

Lemma spends_await d : spends 0 (on_sys (Await (S := T) d)).
Proof. intros e. unfold on_sys. cbn. destruct (Await d (sys e).1). unfold nvd_requests. cbn. lia. Qed.

Lemma spends_nvd {A} (f : nvdState → A * nvdState) : spends 0 (on_nvd f).
Proof. intros e. unfold on_nvd. destruct (f (nvd e)). cbn. unfold nvd_requests. cbn. lia. Qed.

Lemma spends_cmd argv : spends 0 (cmd argv).
Proof. intros e. unfold cmd, on_sys. cbn. destruct (Command argv (sys e).1). unfold nvd_requests. cbn. lia. Qed.

Lemma spends_get_nvd url : spends 1 (on_sys (Get (S := T) url)).
Proof.
  intros e. unfold on_sys, nvd_requests. cbn. destruct (Get url (sys e).1). cbn [snd sys].
  rewrite filter_cons. case_decide; cbn; lia.
Qed.

Lemma spends_get url : HasPrefix url nvd_url = false → spends 0 (on_sys (Get (S := T) url)).
Proof.
  intros Hu e. unfold on_sys, nvd_requests. cbn. destruct (Get url (sys e).1). cbn [snd sys].
  rewrite filter_cons_False by congruence. lia.
Qed.

Lemma spends_bind0 {A B} n (c : En T A) (f : A → En T B) :
  spends 0 c → (∀ a, spends n (f a)) → spends n (c ≫= f).
Proof. apply (spends_bind 0 n). Qed.

Lemma spends_first {A B} n (c : En T A) (f : A → En T B) :
  spends n c → (∀ a, spends 0 (f a)) → spends n (c ≫= f).
Proof. intros Hc Hf. eapply spends_weaken; [|apply (spends_bind n 0); [done..]]. lia. Qed.

Lemma spends_lookup i : spends 1 (cachedNVDCVSS i).
Proof.
  unfold cachedNVDCVSS. apply spends_bind0; [apply spends_nvd|intros entry].
  apply spends_bind0; [destruct entry; [apply spends_bind0; [apply spends_now|intros; apply spends_ret]|apply spends_ret]|].
  intros [r|]; [apply spends_ret|]. apply spends_bind0; [apply spends_now|intros now].
  apply spends_bind0; [apply spends_nvd|intros wait].
  apply spends_bind0; [destruct (0 <? wait); [apply spends_await|apply spends_ret]|].
  intros [err|]; [apply spends_ret|]. unfold query. apply spends_first.
  - unfold nvdCVSS, fetchJSON. apply spends_first; [|intros; apply spends_ret].
    apply spends_first; [apply spends_get_nvd|intros; apply spends_ret].
  - intros r. apply spends_bind0; [apply spends_now|intros ?]. apply spends_bind0; [apply spends_now|intros ?].
    apply spends_bind0; [apply spends_nvd|intros ?]. apply spends_ret.
Qed.

(** A lookup that may be skipped pays from the budget. *)
Definition pays {A} (budget : nat) (c : En T (A * nat)) : Prop :=
  ∀ e, (nvd_requests (c e).2 + (c e).1.2 ≤ nvd_requests e + budget)%nat.

Lemma pays_rate c budget : pays budget (rate c budget).
Proof.
  intros e. destruct budget as [|budget]; cbn [rate]; [cbn; lia|]. unfold mbind, En_bind, mret, En_ret.
  pose proof (spends_lookup (ID c) e). destruct (cachedNVDCVSS (ID c) e). cbn in *. lia.
Qed.

Lemma pays_ret {A} (a : A) budget : pays budget (mret (a, budget)).
Proof. intros e. cbn. lia. Qed.

Lemma pays_bind {A B} budget (c : En T (A * nat)) (f : A * nat → En T B) :
  pays budget c → (∀ p, spends p.2 (f p)) → spends budget (c ≫= f).
Proof.
  intros Hc Hf e. unfold mbind, En_bind. specialize (Hc e). destruct (c e) as [p e1]. specialize (Hf p e1). cbn in *. lia.
Qed.

Lemma spends_resolve byID budget ids : spends budget (resolve_loop byID budget ids).
Proof.
  revert budget. induction ids as [|i ids IH]; intros budget; cbn; [apply spends_ret|]. destruct (byID !! i).
  - apply spends_first; [apply IH|intros; apply spends_ret].
  - apply pays_bind; [apply pays_rate|]. intros [c b]. apply spends_first; [apply IH|intros; apply spends_ret].
Qed.

Lemma spends_canonical budget results : spends budget (canonical_loop budget results).
Proof.
  revert budget. induction results as [|r rs IH]; intros budget; cbn; [apply spends_ret|].
  apply pays_bind; [destruct (String.eqb _ _); [apply pays_rate|apply pays_ret]|].
  intros [c b]. apply spends_first; [apply IH|intros; apply spends_ret].
Qed.

Lemma spends_nvd_loop prefix budget ids : spends budget (nvd_loop prefix budget ids).
Proof.
  revert budget. induction ids as [|i ids IH]; intros budget; cbn; [apply spends_ret|].
  apply pays_bind; [apply pays_rate|]. intros [c b]. apply spends_first; [apply IH|intros; apply spends_ret].
Qed.

Lemma spends_fetch {A} `{!Json A} url : HasPrefix url nvd_url = false → spends 0 (fetchJSON (A := A) url).
Proof. intros H. apply spends_bind0; [by apply spends_get|intros; apply spends_ret]. Qed.

Lemma spends_fedora budget ids : spends budget (fedora_loop budget ids).
Proof.
  revert budget. induction ids as [|i ids IH]; intros budget; cbn; [apply spends_ret|].
  apply spends_bind0; [apply spends_bind0; [by apply spends_fetch|intros; apply spends_ret]|]. intros r.
  apply pays_bind; [destruct r as [[? ?]|]; [apply pays_ret|apply pays_rate]|].
  intros [c b]. apply spends_first; [apply IH|intros; apply spends_ret].
Qed.

Lemma spends_query q : spends 0 (canonicalCVEQuery q).
Proof. apply spends_bind0; [by apply spends_get|intros; apply spends_ret]. Qed.

Lemma spends_package pkg codename : spends maxNVDLookupsPerPackage (canonicalPackageCVEs pkg codename).
Proof.
  unfold canonicalPackageCVEs. apply spends_bind0; [apply spends_query|intros r].
  apply spends_bind0; [intros e; cbn; lia|intros stop].
  apply spends_bind0; [destruct (_ && _); [apply spends_query|apply spends_ret]|].
  intros [[results|]|]; [|apply spends_ret..]. apply spends_first; [apply spends_canonical|intros; apply spends_ret].
Qed.

(** The requests one package may send to NVD are bounded whatever the services
    answer and however many CVEs are found: eight for a package of Fedora, for an
    Apple release page and for a Windows update, but twice eight for a Debian package,
    since the vendor's list and the changelog delta are rated with a budget each. *)
Theorem nvd_budget pkg pageURL prefix ids codename pd :
  HasPrefix pageURL nvd_url = false →
  spends 8 (fedoraPackageInfo pkg) ∧ spends 8 (appleReleaseCVEs pageURL) ∧
  spends 8 (nvd_loop prefix maxNVDLookupsPerPackage ids) ∧ spends 16 (debian_worker codename pd).
Proof.
  intros Hp. split_and!.
  - unfold fedoraPackageInfo. apply spends_bind0; [apply spends_cmd|intros [out err]].
    apply spends_bind0; [apply spends_cmd|intros [out' [e|]]]; [apply spends_ret|].
    apply spends_first; [apply spends_fedora|intros; apply spends_ret].
  - unfold appleReleaseCVEs. apply spends_bind0; [by apply spends_get|intros [[? body]|]]; [|apply spends_ret].
    apply spends_first; [apply spends_nvd_loop|intros; apply spends_ret].
  - apply spends_nvd_loop.
  - unfold debian_worker. destruct pd as [p [ids' ok]]. apply (spends_bind 8 8); [apply spends_package|intros r].
    apply spends_first; [|intros; apply spends_ret]. unfold resolveDebianCVEs.
    destruct ok; [apply spends_resolve|apply spends_ret].
Qed.

End Budget.

(** ** macOS *)

Section Darwin.
Context {S : Type} `{!Host S, !Net S} `{!Json nvdResponse}.
Context (order : gmap string string → list (string * string)) (Horder : ∀ m, order m ≡ₚ map_to_list m).

Definition bare (u : PackageUpdate) : Prop := CVEs u = [] ∧ CVELookupFailed u = false.

Lemma darwin_line_bare st line : Forall bare st.1 ∧ Forall bare (option_list st.2) →
  Forall bare (darwin_line st line).1 ∧ Forall bare (option_list (darwin_line st line).2).
Proof.
  destruct st as [pkgs cur]. cbn [fst snd]. intros [Hp Hc]. unfold darwin_line. destruct (leftmost label_at line); cbn.
  - split; [by apply Forall_app|by repeat constructor].
  - destruct cur as [u|]; [|done]. destruct (leftmost title_at line); [|done]. cbn in *. split; [done|].
    inversion Hc as [|? ? Hu _]; subst. by repeat constructor; apply Hu.
Qed.

Lemma parsed_bare out : Forall bare (ParseDarwinUpdateList out).
Proof.
  unfold ParseDarwinUpdateList.
  assert (∀ ls st, Forall bare st.1 ∧ Forall bare (option_list st.2) →
    Forall bare (foldl darwin_line st ls).1 ∧ Forall bare (option_list (foldl darwin_line st ls).2)) as H.
  { induction ls as [|l ls IH]; intros st Hst; [done|]. apply IH. by apply darwin_line_bare. }
  specialize (H (Lines out) ([], None)). destruct (foldl _ _ _) as [pkgs cur]. apply Forall_app. by apply H; repeat constructor.
Qed.

Lemma no_releases pkgs (e : enrich S) : darwin_packages order ∅ pkgs e = (pkgs, e).
Proof.
  assert (order ∅ = []) as Ho by (apply Permutation_nil_r; by rewrite Horder, map_to_list_empty).
  induction pkgs as [|p pkgs IH]; [done|]. cbn [darwin_packages]. unfold release_for. rewrite lookup_empty, Ho. cbn.
  unfold mbind, En_bind. cbn. by rewrite IH.
Qed.

(** On macOS an error page of Apple's index is not noticed: the status of the
    answer is not looked at, a page without links gives no release, and the pending
    updates are presented as routine ones of low importance instead of updates whose
    CVE data is unavailable. *)
Theorem apple_error_page_routine (e : enrich S) out s1 status body s2 :
  Command ["softwareupdate"; "-l"] (sys e) = ((out, None), s1) →
  Contains out "No new software available" = false →
  Get "https://support.apple.com/en-us/100100" s1 = (Ok (status, body), s2) →
  releases_of (limit 4194304 body) = ∅ →
  ∃ pkgs e', listDarwinUpdates order e = (Ok pkgs, e') ∧ pkgs = ParseDarwinUpdateList out ∧
    ImportanceAssessment pkgs = ("low", "routine updates; no known CVEs addressed").
Proof.
  intros Hc Hn Hg Hr. exists (ParseDarwinUpdateList out), (mkEnrich s2 (nvd e)). split_and!; [|done|].
  - unfold listDarwinUpdates, enrichDarwinCVEs, appleSecurityReleases, cmd, on_sys, mbind, En_bind, mret, En_ret.
    rewrite Hc, Hn. cbn [sys nvd]. rewrite Hg, Hr, no_releases. done.
  - pose proof (parsed_bare out) as Hb. unfold ImportanceAssessment.
    assert (all_cves (ParseDarwinUpdateList out) = []) as Ha.
    { unfold all_cves. induction Hb as [|u us [Hu _] _ IH]; [done|]. cbn. by rewrite Hu, IH. }
    assert (failed_count (ParseDarwinUpdateList out) = 0) as Hf.
    { unfold failed_count. induction Hb as [|u us [_ Hu] _ IH]; [done|]. rewrite filter_cons_False by congruence.
      apply IH. unfold all_cves in *. cbn in Ha. by apply app_eq_nil in Ha as [_ ?]. }
    unfold count_cves. by rewrite Ha, Hf.
Qed.
End Darwin.
