(* ===== verification/PatchTool.v ===== *)
(** * The patch tool ([skills/check_for_pending_system_patches])

    The tool checks for updates, describes them, asks the operator and applies them;
    the pre-check of the nightly responsibility only looks.  Both run the package
    manager on the world of the skills, through [sudo] when the agent is not root. *)

From S2P Require Import Prelude GoStrings GoTime GoText Json Memory MemStore World Timeline.
From S2P Require Import KeyStore Approval Patching UpdateInfo UpdateList.

Module PatchTool.
Import Patching UpdateInfo Nvd UpdateList.

Definition skill : string := "check_for_pending_system_patches".

(** How [os/exec] reports the end of a process, from the text of its error. *)
Definition exec_end_of (err : option string) : exec_end :=
  match err with
  | None => ExitOk
  | Some e =>
      match CutPrefix "exit status " e with
      | Some n => match ParseInt n with Some c => ExitStatus c | None => ExecFailed e end
      | None => if HasPrefix e "signal: " then ExitStatus (-1) else ExecFailed e
      end
  end.

Definition proposedActionFor (os : OSType) (updates : list PackageUpdate) : string :=
  let cmd := match os with
    | OSDebian => "apt-get upgrade -y"
    | OSFedora => "dnf update -y"
    | OSDarwin => "softwareupdate --install --all"
    | OSWindows => "Install-WindowsUpdate (PowerShell COM API)"
    | OSUnknown => "package manager upgrade"
    end in
  if 0 <? size updates then "Apply " +:+ Itoa (size updates) +:+ " pending package update(s) via: " +:+ cmd
  else "Apply pending package updates via: " +:+ cmd.

(** The line on a distribution upgrade, when there is one. *)
Definition dist_note (prefix distUpgrade suffix : string) : string :=
  if nonempty distUpgrade then prefix +:+ distUpgrade +:+ suffix else "".

Definition up_to_date_state (distUpgrade : string) : string :=
  if nonempty distUpgrade && Contains distUpgrade "New release" then "packages current; " +:+ distUpgrade
  else "system is up to date".

Definition up_to_date_text (checkOut distUpgrade : string) : string :=
  "System packages are up to date." +:+ para +:+ checkOut +:+ dist_note (para +:+ "Distribution upgrade: ") distUpgrade "".

Section Ops.
Context `{!RawJson, !Json SkillState.State, !Json string, !Json Approval.ApprovalEntry}.
Context `{!Json (list Timeline.TimelineEntry), !Json notification, !MemStore M}.
Context `{!Json nvdResponse, !Json canonicalResponse, !Json redhatResponse, !SortSlice}.
Context (zone : Z → Z) (order : gmap string string → list (string * string)).

(** The platform, the files of the machine, and the network, which the world of the
    skills does not have. *)
Context (goos : string) (uid : Z) (hostname : string).
Context (file_stat : string → world M → stat_result) (file_read : string → world M → result string string).
Context `{!Net (world M)}.

#[export] Instance world_host : Host (world M) := {|
  Command := realCommander_Run goos uid
               (λ argv w, let '((out, err), w') := run_process argv w in ((out, exec_end_of err), w'));
  Stat := file_stat;
  ReadFile := file_read;
|}.

Definition lift {A} (c : W M A) : P (world M) A := λ p,
  let '(a, w) := c (host p) in (a, mkPatcher w (darwinRebootRequired p)).

(** Enrichment starts from the NVD state [nst] of the process. *)
Definition enriching {A} (nst : nvdState) (c : En (world M) A) : P (world M) A := λ p,
  let '(a, e) := c (mkEnrich (host p) nst) in (a, mkPatcher (sys e) (darwinRebootRequired p)).

Definition save (health summary : string) : P (world M) unit :=
  _ ← lift (SkillState.Save zone skill health summary); mret tt.
Definition notify (subject body : string) : P (world M) unit := lift (Notify subject body).

(** The tool's answer: text, an error, or [None] while it waits for the operator. *)
Definition answer : Type := option (result string string).

(** The detail, importance and risk put to the operator. *)
Definition approval_request (checkOut : string) (listed : result string (list PackageUpdate)) (distUpgrade : string) :
    string * string * string :=
  let '(detail, importance, risk) := match listed with
    | Err e => (FormatFallbackSummary checkOut (Some e), "medium", "medium")
    | Ok [] => (FormatFallbackSummary checkOut None, "medium", "medium")
    | Ok us => (FormatUpdateSummary us, (ImportanceAssessment us).1, (RiskAssessment us).1)
    end in
  (detail +:+ dist_note (nl +:+ "Distribution upgrade available: ") distUpgrade
                " (informational only — not applied automatically)", importance, risk).

(** Phase 3. *)
Definition apply_patches (os : OSType) (updateReport distUpgrade : string) : P (world M) answer :=
  _ ← notify ("[" +:+ hostname +:+ "] Patch Approved — Starting")
        ("Operator approved updates on " +:+ Quote hostname +:+ " (OS: " +:+ os_string os +:+ "). Applying now." +:+ para +:+
         "Update details:" +:+ nl +:+ updateReport);
  '(log, err) ← Run os;
  match err with
  | Some e =>
      _ ← notify ("[" +:+ hostname +:+ "] Patch Failed")
            ("Patch run on host " +:+ Quote hostname +:+ " encountered an error." +:+ para +:+ "Error: " +:+ e +:+ para +:+
             "Output:" +:+ nl +:+ log);
      _ ← save "critical" ("patch run failed: " +:+ e);
      mret (Some (Ok (log +:+ "error: " +:+ e)))
  | None =>
      t ← lift now_;
      _ ← lift (set_attr "last_patched_at" (Format zone t));
      _ ← notify ("[" +:+ hostname +:+ "] Patch Complete")
            ("System patch completed successfully on host " +:+ Quote hostname +:+ "." +:+ para +:+ "Output:" +:+ nl +:+ log);
      _ ← save "ok" "updates applied successfully";
      mret (Some (Ok (log +:+ dist_note (para +:+ "Distribution upgrade: ") distUpgrade "")))
  end.

(** Phase 2: the operator's decision; [events] are what the waiter receives. *)
Definition decide_patches (os : OSType) (events : list (Approval.event * (M → M))) (checkOut distUpgrade : string)
    (listed : result string (list PackageUpdate)) : P (world M) answer :=
  let '(detail, importance, risk) := approval_request checkOut listed distUpgrade in
  let updates := match listed with Ok us => us | Err _ => [] end in
  let updateReport := match listed with Ok us => FormatUpdateReport us | Err _ => checkOut end in
  r ← lift (Approval.RequestApproval zone events ("Apply system patches to " +:+ hostname) detail
              (proposedActionFor os updates) importance risk);
  match r with
  | Approval.RWaiting => mret None
  | Approval.RStoreError _ | Approval.RCancelled => mret (Some (Err "approval interrupted"))
  | Approval.RDecision decision =>
      if String.eqb decision "rejected" then
        _ ← save "warning" "patching declined by operator";
        mret (Some (Ok ("Patching cancelled: operator rejected the update request." +:+
                        dist_note (para +:+ "Distribution upgrade: ") distUpgrade "")))
      else if String.eqb decision "timed_out" then
        _ ← save "warning" "patching approval timed out";
        mret (Some (Ok ("Patching skipped: no operator response within the approval window." +:+
                        dist_note (para +:+ "Distribution upgrade: ") distUpgrade "")))
      else apply_patches os updateReport distUpgrade
  end.

(** The tool. *)
Definition patch_tool (nst : nvdState) (view : nat → enrich (world M)) (events : list (Approval.event * (M → M))) :
    P (world M) answer := λ p,
  match detectOS goos (host p) with
  | Err e =>
      (_ ← notify ("[" +:+ hostname +:+ "] Patch Failed") ("OS detection failed: " +:+ e);
       _ ← save "warning" ("OS detection failed: " +:+ e);
       mret (Some (Ok ("OS detection failed: " +:+ e)))) p
  | Ok os =>
      ('(available, checkOut, _) ← UpdatesAvailable os;
       distUpgrade ← CheckDistUpgrade os;
       if negb available then
         _ ← save "ok" (up_to_date_state distUpgrade);
         mret (Some (Ok (up_to_date_text checkOut distUpgrade)))
       else
         listed ← enriching nst (ListUpdates order os view);
         decide_patches os events checkOut distUpgrade listed) p
  end.

(** The pre-check: whether the model is needed, the report, and an error. *)
Definition pre_check : P (world M) (bool * string * option string) := λ p,
  match detectOS goos (host p) with
  | Err e => (true, "", Some e, p)
  | Ok os =>
      ('(available, checkOut, err) ← UpdatesAvailable os;
       match err with
       | Some e => mret (true, "", Some e)
       | None =>
           distUpgrade ← CheckDistUpgrade os;
           if available : bool then
             mret (true, "Pending updates were found (dry-run output below). Run the " +:+
                         "check_for_pending_system_patches tool to analyse, request approval for, " +:+
                         "and apply them." +:+ para +:+ checkOut, None)
           else
             _ ← save "ok" (up_to_date_state distUpgrade);
             mret (false, up_to_date_text checkOut distUpgrade, None)
       end) p
  end.

(** The tool [check_reboot_required]: a fresh patcher, asked once. *)
Definition reboot_tool : W M string := λ w,
  match detectOS goos w with
  | Err e => ("OS detection failed: " +:+ e, w)
  | Ok os =>
      let '(r, p) := NeedsReboot os (mkPatcher w false) in
      let on := hostname +:+ " (" +:+ os_string os +:+ ")" in
      (match r with
       | Err e => "Reboot check failed on " +:+ on +:+ ": " +:+ e
       | Ok true => "Yes — " +:+ on +:+ " has a pending reboot flagged by the OS. A restart is required to complete a previous update."
       | Ok false => "No — " +:+ on +:+ " does not have a pending reboot. No restart is required."
       end, host p)
  end.

End Ops.

End PatchTool.
