(* ===== verification/PatchToolFacts.v ===== *)
(** * Theorems on the patch tool

    Updates are installed, and the machine rebooted, only after a decision that the
    stored approval carries; a check that fails is reported as a system that is up to
    date. *)

From S2P Require Import Prelude GoStrings GoTime GoText Json Memory MemStore World Timeline WorldFacts.
From S2P Require Import KeyStore Approval RunApprovedFacts Patching PatchingFacts UpdateInfo UpdateList PatchTool.

Import Patching UpdateInfo Nvd UpdateList PatchTool.

(** Commands that install updates or reboot. *)
Definition changes (os : OSType) (argv : list string) : Prop :=
  (argv ∈ update_commands os ∧ argv ≠ apt_update) ∨ reboot_command os = Some argv.

(** Commands that only look: the checks, and what is asking about one package. *)
Inductive looking : OSType → list string → Prop :=
| look_check os argv : argv ∈ check_commands os ++ reboot_queries os → looking os argv
| look_show pkg : looking OSDebian ["apt-cache"; "show"; "--no-all-versions"; pkg]
| look_changelog pkg : looking OSDebian ["apt-get"; "changelog"; pkg]
| look_info pkg : looking OSFedora ["dnf"; "info"; pkg]
| look_advisory pkg : looking OSFedora ["dnf"; "updateinfo"; "info"; pkg]
| look_list : looking OSWindows (powershell list_script).
#[local] Hint Constructors looking : core.

Lemma looking_harmless os argv : looking os argv → ¬ changes os argv.
Proof.
  destruct 1 as [os argv (_ & Hr & Hu)%commands_apart| | | | |]; [intros [[Hin Hne]|Hc]; [by apply Hne, Hu|by apply Hr]|..];
    intros [[Hin _]|Hr]; try (cbn in Hin; set_solver); try discriminate Hr.
Qed.

(** What a patch run may start at all. *)
Definition known (os : OSType) (argv : list string) : Prop := looking os argv ∨ changes os argv.

Lemma updates_known os argv : argv ∈ update_commands os → known os argv.
Proof.
  intros Hu. destruct (decide (argv = apt_update)) as [->|Hne]; [|right; by left].
  destruct os; [left; apply look_check; repeat constructor|exfalso..]; revert Hu; rewrite <- (bool_decide_spec (_ ∈ _)); vm_compute; done.
Qed.

Section Facts.
Context `{!RawJson, !Json SkillState.State, !Json string, !Json Approval.ApprovalEntry}.
Context `{!Json (list Timeline.TimelineEntry), !Json notification, !MemStore M}.
Context `{!Json nvdResponse, !Json canonicalResponse, !Json redhatResponse, !SortSlice}.
Context (zone : Z → Z) (order : gmap string string → list (string * string)).
Context (goos : string) (uid : Z) (hostname : string).
Context (file_stat : string → world M → stat_result) (file_read : string → world M → result string string).
Context `{!Net (world M)}.

(** Requests start no process. *)
Context (Hget : ∀ url (w : world M), w_run (Get url w).2 = w_run w).
Context (Hnow : ∀ (w : world M), w_run (Now w).2 = w_run w).
Context (Hawait : ∀ d (w : world M), w_run (Await d w).2 = w_run w).

#[local] Instance here : Host (world M) := world_host goos uid file_stat file_read.

Lemma world_logs argv (w : world M) :
  w_run (Command argv w).2 = w_run w ++ [command_argv goos uid (hd "" argv) (tl argv)].
Proof.
  cbn. unfold realCommander_Run, run_process. by destruct (w_exec w _ _) as [out err].
Qed.

#[local] Instance here_logged : Logged (world M) := {|
  log_of := w_run;
  wrap := λ argv, command_argv goos uid (hd "" argv) (tl argv);
  log_command := world_logs;
|}.

Abbreviation PW := (P (world M)).

(** ** Quiet parts *)

Lemma quiet_save s h t : quiet (M := M) (SkillState.Save zone s h t).
Proof. unfold SkillState.Save, set_key. apply quiet_bind; [apply quiet_now|]. intros ?. destruct (Marshal _); frame_world. Qed.

Lemma quiet_wait events i t d a im r : quiet (M := M) (Approval.wait events i t d a im r).
Proof.
  induction events as [|[ev env] rest IH]; [apply quiet_ret|]. cbn [Approval.wait].
  apply quiet_bind; [apply quiet_on_mem|]. intros _. unfold Approval.patchAttrs, Approval.markEscalated. destruct ev; frame_world.
Qed.

Lemma quiet_request events t d a im r : quiet (M := M) (Approval.RequestApproval zone events t d a im r).
Proof.
  unfold Approval.RequestApproval, Approval.requestApprovalOnce. apply quiet_bind; [apply quiet_uuid|]. intros i.
  apply quiet_bind; [apply quiet_bind; [apply quiet_create|]|].
  - intros [e|]; [apply quiet_ret|]. apply quiet_bind; [apply quiet_wait|]. intros. apply quiet_ret.
  - intros [e| |st|]; try apply quiet_ret.
    repeat case_match; first [apply quiet_ret|apply quiet_bind; [apply quiet_notify|intros; apply quiet_ret]].
Qed.

Lemma issues_lift {A} l (c : W M A) : quiet c → issues l (lift c : PW A).
Proof.
  intros Hc. apply issues_same. intros p. unfold lift, log. cbn. specialize (Hc (host p)). by destruct (c (host p)).
Qed.

(** ** Listing *)

(** [issues] for enrichment. *)
Definition lists {A} (allowed : list string → Prop) (c : En (world M) A) : Prop :=
  ∀ e, ∃ cmds, w_run (sys (c e).2) = w_run (sys e) ++ (wrap <$> cmds) ∧ Forall allowed cmds.

Lemma lists_same {A} l (c : En (world M) A) : (∀ e, w_run (sys (c e).2) = w_run (sys e)) → lists l c.
Proof. intros Hc e. exists []. by rewrite Hc, app_nil_r. Qed.

Lemma lists_ret {A} l (a : A) : lists l (mret a).
Proof. by apply lists_same. Qed.

Lemma lists_bind {A B} l (c : En (world M) A) (f : A → En (world M) B) :
  lists l c → (∀ a, lists l (f a)) → lists l (c ≫= f).
Proof.
  intros Hc Hf e. unfold mbind, En_bind. destruct (Hc e) as (cs & E & Hcs). destruct (c e) as [a e1].
  destruct (Hf a e1) as (ds & E' & Hds). exists (cs ++ ds). cbn [snd] in *.
  rewrite E', E, fmap_app, app_assoc. split; [done|]. by apply Forall_app.
Qed.

Lemma lists_cmd (l : list string → Prop) argv : l argv → lists l (cmd argv).
Proof.
  intros Hl e. exists [argv]. pose proof (world_logs argv (sys e)) as Hw. unfold cmd, on_sys.
  destruct (Command argv (sys e)). split; [done|]. by constructor.
Qed.

Lemma lists_get l url : lists l (on_sys (Get url)).
Proof. apply lists_same. intros e. unfold on_sys. pose proof (Hget url (sys e)). by destruct (Get url (sys e)). Qed.

Lemma lists_now l : lists l (on_sys (S := world M) Now).
Proof. apply lists_same. intros e. unfold on_sys. pose proof (Hnow (sys e)). by destruct (Now (sys e)). Qed.

Lemma lists_await l d : lists l (on_sys (Await d)).
Proof. apply lists_same. intros e. unfold on_sys. pose proof (Hawait d (sys e)). by destruct (Await d (sys e)). Qed.

Lemma lists_nvd {A} l (f : nvdState → A * nvdState) : lists l (on_nvd f).
Proof. apply lists_same. intros e. unfold on_nvd. by destruct (f (nvd e)). Qed.

Lemma lists_pure {A} l (f : enrich (world M) → A) : lists l (λ e, (f e, e)).
Proof. by apply lists_same. Qed.

Ltac lists_auto :=
  repeat match goal with
  | |- lists _ (_ ≫= _) => apply lists_bind; [|intros ?]
  | |- lists _ (match ?x with _ => _ end) => destruct x
  | |- lists _ (if ?b then _ else _) => destruct b
  | |- lists _ (let _ := _ in _) => cbv zeta
  end;
  try first [apply lists_ret|apply lists_get|apply lists_now|apply lists_await|apply lists_nvd|apply lists_pure].

Lemma lists_lookup l i : lists l (cachedNVDCVSS (S := world M) i).
Proof. unfold cachedNVDCVSS, query, nvdCVSS, fetchJSON. lists_auto. Qed.

Lemma lists_rate l c budget : lists l (rate (S := world M) c budget).
Proof. destruct budget; cbn [rate]; lists_auto. apply lists_lookup. Qed.

Lemma lists_resolve l byID budget ids : lists l (resolve_loop (S := world M) byID budget ids).
Proof. revert budget. induction ids as [|i ids IH]; intros budget; cbn [resolve_loop]; lists_auto; auto using lists_rate. Qed.

Lemma lists_canonical l budget rs : lists l (canonical_loop (S := world M) budget rs).
Proof. revert budget. induction rs as [|r rs IH]; intros budget; cbn [canonical_loop]; lists_auto; auto using lists_rate. Qed.

Lemma lists_loop l prefix budget ids : lists l (nvd_loop (S := world M) prefix budget ids).
Proof. revert budget. induction ids as [|i ids IH]; intros budget; cbn [nvd_loop]; lists_auto; auto using lists_rate. Qed.

Lemma lists_fedora_loop l budget ids : lists l (fedora_loop (S := world M) budget ids).
Proof.
  revert budget. induction ids as [|i ids IH]; intros budget; cbn [fedora_loop]; unfold redhatCVE, fetchJSON; lists_auto;
    auto using lists_rate.
Qed.

Lemma lists_checks os argv : argv ∈ check_commands os → lists (looking os) (cmd argv).
Proof. intros Hs. apply lists_cmd, look_check. set_solver. Qed.

Lemma lists_debian pkgs : lists (looking OSDebian) (debian_local pkgs).
Proof.
  induction pkgs as [|p pkgs IH]; cbn [debian_local]; unfold debianDescription, debianChangelogCVEs; lists_auto; auto;
    by apply lists_cmd.
Qed.

Lemma lists_fedora pkgs : lists (looking OSFedora) (fedora_packages pkgs).
Proof.
  induction pkgs as [|p pkgs IH]; cbn [fedora_packages]; unfold fedoraPackageInfo; lists_auto; auto using lists_fedora_loop;
    by apply lists_cmd.
Qed.

Lemma lists_darwin l releases pkgs : lists l (darwin_packages order releases pkgs).
Proof.
  induction pkgs as [|p pkgs IH]; cbn [darwin_packages]; unfold appleReleaseCVEs; lists_auto; auto using lists_loop.
Qed.

Lemma lists_windows l lines : lists l (windows_packages lines).
Proof. induction lines as [|x lines IH]; cbn [windows_packages]; lists_auto; auto using lists_loop. Qed.

Lemma lists_updates os view : lists (looking os) (ListUpdates order os view).
Proof.
  destruct os; cbn [ListUpdates].
  - unfold listDebianUpdates. lists_auto; try apply lists_debian; apply lists_checks; repeat constructor.
  - unfold listFedoraUpdates. lists_auto; try apply lists_fedora; apply lists_checks; repeat constructor.
  - unfold listDarwinUpdates, enrichDarwinCVEs, appleSecurityReleases. lists_auto; try apply lists_darwin.
    apply lists_checks. repeat constructor.
  - unfold listWindowsUpdates. lists_auto; [|apply lists_windows]. by apply lists_cmd.
  - apply lists_ret.
Qed.

Lemma issues_enriching {A} l nst (c : En (world M) A) : lists l c → issues l (enriching nst c : PW A).
Proof.
  intros Hc p. destruct (Hc (mkEnrich (host p) nst)) as (cmds & E & Hl). exists cmds. split; [|done].
  unfold enriching, log. by destruct (c _) as [a e].
Qed.

(** ** The decision *)

(** A waiter's decision is a time-out, or the status a poll read in the memory, after the
    events before it had left the waiter waiting. *)
Lemma wait_decision events i t d a im r w st w' :
  Approval.wait events i t d a im r w = (Some (Some st), w') →
  st = "timed_out" ∨
  ∃ pre env post w2 e, events = pre ++ (Approval.Poll, env) :: post ∧ Approval.wait pre i t d a im r w = (None, w2) ∧
    GetAttr (A := Approval.ApprovalEntry) (Approval.AttrsKey i) (env (w_mem w2)) = (e, true) ∧
    Approval.Status e = st ∧ st ≠ "pending".
Proof.
  revert w. induction events as [|[ev env] rest IH]; intros w; cbn [Approval.wait]; [done|].
  unfold mbind at 1, W_bind at 1, on_mem. cbn. set (w1 := with_mem w (env (w_mem w))).
  assert (Hlater : ∀ w2, Approval.wait rest i t d a im r w2 = (Some (Some st), w') →
    (∀ pre w3, Approval.wait pre i t d a im r w2 = (None, w3) → Approval.wait ((ev, env) :: pre) i t d a im r w = (None, w3)) →
    st = "timed_out" ∨
    ∃ pre env0 post w2 e, (ev, env) :: rest = pre ++ (Approval.Poll, env0) :: post ∧ Approval.wait pre i t d a im r w = (None, w2) ∧
      GetAttr (A := Approval.ApprovalEntry) (Approval.AttrsKey i) (env0 (w_mem w2)) = (e, true) ∧ Approval.Status e = st ∧ st ≠ "pending").
  { intros w2 [Ht|(pre & env0 & post & w3 & e & -> & Hw & Hg)]%IH Hpre; [by left|]. right.
    exists ((ev, env) :: pre), env0, post, w3, e. split; [done|]. split; [by apply Hpre|done]. }
  destruct ev; cbn [Approval.wait] in Hlater; unfold mbind at 1, W_bind at 1, on_mem in Hlater; cbn in Hlater; fold w1 in Hlater.
  - unfold mbind, W_bind, mret, W_ret. destruct (Approval.patchAttrs _ _ _ _ _) as [? ?], (Timeline.PatchTimeline _ _ _). done.
  - unfold mbind, W_bind, mret, W_ret. destruct (Approval.patchAttrs _ _ _ _ _) as [? ?], (Timeline.PatchTimeline _ _ _).
    intros [= <- _]. by left.
  - destruct (Approval.urgent im r); [|intros Hr; by apply (Hlater w1)]. unfold mbind, W_bind in *.
    destruct (Approval.markEscalated _ _ _ _ _ _ _ _) as [? w2]. intros Hr. by apply (Hlater w2).
  - unfold mbind, W_bind, mret, W_ret, get_attr in *. destruct (GetAttr _ _) as [e ok] eqn:Eg.
    destruct ok; cbn [negb] in *; [|intros Hr; by apply (Hlater w1)].
    destruct (String.eqb_spec (Approval.Status e) "pending") as [_|Hne]; cbn [negb] in *; [intros Hr; by apply (Hlater w1)|].
    destruct (Timeline.PatchTimeline _ _ _). intros [= <- _]. right. exists [], env, rest, w, e. done.
Qed.

(** The request filed at [w] was decided: its approval was created, the waiter waited
    through the events before some poll, and that poll found the approval in the memory,
    as the rest of the system had left it, neither pending nor rejected nor timed out. *)
Definition decided (events : list (Approval.event * (M → M))) (w : world M) : Prop :=
  ∃ t d a im r w1 pre env post w2 e,
    let id := w_uuid w (w_ids w) in
    Approval.createPending zone id t d a im r false "" (newUUID w).2 = (None, w1) ∧
    events = pre ++ (Approval.Poll, env) :: post ∧ Approval.wait pre id t d a im r w1 = (None, w2) ∧
    GetAttr (A := Approval.ApprovalEntry) (Approval.AttrsKey id) (env (w_mem w2)) = (e, true) ∧
    Approval.Status e ∉ ["pending"; "rejected"; "timed_out"].

Lemma request_decision events t d a im r w st w' :
  Approval.RequestApproval zone events t d a im r w = (Approval.RDecision st, w') →
  st ≠ "rejected" → st ≠ "timed_out" → decided events w.
Proof.
  intros Hr Hrej Hto. unfold Approval.RequestApproval in Hr.
  unfold mbind at 1, W_bind at 1 in Hr. destruct (newUUID w) as [id w0] eqn:Eu. unfold mbind at 1, W_bind at 1 in Hr.
  destruct (Approval.requestApprovalOnce _ _ _ _ _ _ _ _ _) as [q w1] eqn:Eq.
  assert (q = Approval.RDecision st) as ->.
  { revert Hr. clear. repeat case_match; unfold mbind, W_bind, mret, W_ret;
      first [congruence|destruct (Notify _ _ _); congruence]. }
  unfold Approval.requestApprovalOnce, mbind at 1, W_bind at 1 in Eq.
  destruct (Approval.createPending _ _ _ _ _ _ _ _ _ _) as [[err|] w2] eqn:Ec; [done|].
  unfold mbind, W_bind in Eq. destruct (Approval.wait _ _ _ _ _ _ _ w2) as [[[s|]|] w3] eqn:Ew; try done.
  injection Eq as -> ->. apply wait_decision in Ew as [->|(pre & env & post & w4 & e & He & Hw & Hg & Hs & Hp)]; [done|]. subst st.
  unfold newUUID in Eu. injection Eu as <- <-.
  exists t, d, a, im, r, w2, pre, env, post, w4, e. split_and!; [done..|]. set_solver.
Qed.

(** [c] runs known commands, and installs nothing unless [Q] holds. *)
Definition guarded {A} (os : OSType) (Q : Prop) (c : PW A) : Prop :=
  ∀ p, ∃ cmds, log (c p).2 = log p ++ (wrap <$> cmds) ∧ Forall (known os) cmds ∧ (Exists (changes os) cmds → Q).

Lemma guarded_bind {A B} os Q (c : PW A) (f : A → PW B) :
  guarded os Q c → (∀ a, guarded os Q (f a)) → guarded os Q (c ≫= f).
Proof.
  intros Hc Hf p. unfold mbind, P_bind. destruct (Hc p) as (cs & E & Kc & Hcs). destruct (c p) as [a p1].
  destruct (Hf a p1) as (ds & E' & Kd & Hds). exists (cs ++ ds). cbn [snd] in *.
  rewrite E', E, fmap_app, app_assoc. split; [done|]. rewrite Exists_app, Forall_app. tauto.
Qed.

Lemma issues_guarded {A} os Q (c : PW A) : issues (λ _, False) c → guarded os Q c.
Proof.
  intros Hc p. destruct (Hc p) as (cs & E & Hcs). destruct cs as [|x cs]; [|by inversion Hcs].
  exists []. split; [done|]. split; [constructor|]. by intros ?%Exists_nil.
Qed.

Lemma run_guarded os (Q : Prop) : Q → guarded os Q (Run os : PW _).
Proof.
  intros HQ p. pose proof (run_log os p) as HR. destruct (update_issues os p) as (us & Eu & Ku).
  destruct (applyUpdates os p) as [[out err] p1]. cbn [snd] in Eu.
  destruct (query_issues os p1) as (qs & Eq & Kq). destruct (NeedsReboot os p1) as [needs p2]. cbn [snd] in Eq.
  apply (Forall_impl _ (known os)) in Ku; [|intros ? ?; by apply updates_known].
  apply (Forall_impl _ (known os)) in Kq; [|intros ? ?; left; apply look_check; set_solver].
  destruct err as [e|]; [exists us; by rewrite HR|].
  destruct needs as [[]|]; [|exists (us ++ qs); rewrite HR, Eq, Eu, fmap_app, app_assoc; by rewrite Forall_app..].
  destruct (reboot_command os) as [argv|] eqn:Er.
  - exists ((us ++ qs) ++ [argv]). rewrite HR, (reboot_log _ _ _ Er), Eq, Eu, !fmap_app, !app_assoc.
    split; [done|]. rewrite !Forall_app, Forall_singleton. split; [|done]. split; [done|]. right. by right.
  - exists (us ++ qs). rewrite Forall_app, HR. unfold reboot. rewrite Er. unfold mret, P_ret. cbn [snd]. by rewrite Eq, Eu, fmap_app, app_assoc.
Qed.

Lemma guarded_quiet {A} os Q (c : W M A) : quiet c → guarded os Q (lift c).
Proof. intros Hc. by apply issues_guarded, issues_lift. Qed.

Lemma guarded_ret {A} os Q (a : A) : guarded os Q (mret a : PW A).
Proof. apply issues_guarded, issues_ret. Qed.

Lemma guarded_save os Q h t : guarded os Q (save zone h t).
Proof. apply guarded_bind; [apply guarded_quiet, quiet_save|intros; apply guarded_ret]. Qed.

Lemma guarded_notify os Q h t : guarded os Q (notify h t).
Proof. apply guarded_quiet, quiet_notify. Qed.

Lemma apply_guarded os (Q : Prop) report dist : Q → guarded os Q (apply_patches zone goos uid hostname file_stat file_read os report dist).
Proof.
  intros HQ. unfold apply_patches. apply guarded_bind; [apply guarded_notify|intros _].
  apply guarded_bind; [by apply run_guarded|]. intros [lg [e|]].
  - apply guarded_bind; [apply guarded_notify|intros _]. apply guarded_bind; [apply guarded_save|intros _]. apply guarded_ret.
  - apply guarded_bind; [apply guarded_quiet, quiet_now|intros t]. apply guarded_bind; [apply guarded_quiet, quiet_set|intros _].
    apply guarded_bind; [apply guarded_notify|intros _]. apply guarded_bind; [apply guarded_save|intros _]. apply guarded_ret.
Qed.

Lemma decide_guarded os events checkOut dist listed p :
  ∃ cmds, log (decide_patches zone goos uid hostname file_stat file_read os events checkOut dist listed p).2 = log p ++ (wrap <$> cmds) ∧
    Forall (known os) cmds ∧ (Exists (changes os) cmds → decided events (host p)).
Proof.
  unfold decide_patches. destruct (approval_request checkOut listed dist) as [[detail importance] risk].
  cbv zeta. match goal with |- context [lift ?c ≫= _] => set (req := c) end.
  unfold mbind at 1, P_bind at 1, lift.
  assert (quiet req) as Hr by apply quiet_request. specialize (Hr (host p)). destruct (req (host p)) as [r w1] eqn:Er.
  cbn [snd] in Hr. set (p1 := mkPatcher w1 (darwinRebootRequired p)).
  assert (∀ (c : PW (answer)), guarded os (decided events (host p)) c →
    ∃ cmds, log (c p1).2 = log p ++ (wrap <$> cmds) ∧ Forall (known os) cmds ∧
      (Exists (changes os) cmds → decided events (host p))) as Hk.
  { intros c Hc. destruct (Hc p1) as (cmds & E & Hx). exists cmds. split; [|done]. rewrite E. unfold log at 1. cbn. by rewrite Hr. }
  destruct r as [err| |st|]; [apply (Hk (mret _)), guarded_ret..| |apply (Hk (mret _)), guarded_ret].
  destruct (String.eqb_spec st "rejected") as [|Hrej];
    [apply (Hk (save zone _ _ ≫= λ _, mret _)), guarded_bind; [apply guarded_save|intros; apply guarded_ret]|].
  destruct (String.eqb_spec st "timed_out") as [|Hto];
    [apply (Hk (save zone _ _ ≫= λ _, mret _)), guarded_bind; [apply guarded_save|intros; apply guarded_ret]|].
  apply Hk, apply_guarded. by eapply request_decision.
Qed.

(** The world in which the tool asks the operator. *)
Definition asking (nst : nvdState) (view : nat → enrich (world M)) (os : OSType) (p : patcher (world M)) : world M :=
  host (((_ ← UpdatesAvailable os; _ ← CheckDistUpgrade os; enriching nst (ListUpdates order os view)) : PW _) p).2.

Lemma asking_run nst view os p r p1 d p2 l p3 : UpdatesAvailable os p = (r, p1) → CheckDistUpgrade os p1 = (d, p2) →
  enriching nst (ListUpdates order os view) p2 = (l, p3) → asking nst view os p = host p3.
Proof. intros E1 E2 E3. unfold asking, mbind, P_bind. by rewrite E1, E2, E3. Qed.

Lemma issues_quiet_log {A} (c : W M A) p : quiet c → log (lift c p).2 = log p.
Proof.
  intros Hc. destruct (issues_lift (λ _, False) c Hc p) as ([|x cs] & E & Hf); [|by inversion Hf]. by rewrite app_nil_r in E.
Qed.

(** The tool: checks, then the decision of the operator, then changes. *)
Lemma patch_tool_gated nst view events p os :
  detectOS goos (host p) = Ok os →
  ∃ checks cmds, log (patch_tool zone order goos uid hostname file_stat file_read nst view events p).2 = log p ++ (wrap <$> checks ++ cmds) ∧
    Forall (looking os) checks ∧ Forall (known os) cmds ∧
    (Exists (changes os) cmds → w_run (asking nst view os p) = log p ++ (wrap <$> checks) ∧ decided events (asking nst view os p)).
Proof.
  intros Hos. unfold patch_tool. fold here. rewrite Hos. clear Hos.
  assert (issues (looking os) (UpdatesAvailable os : PW _)) as Hc1.
  { eapply issues_weaken; [|apply check_issues]. intros argv Ha. apply look_check. set_solver. }
  assert (issues (looking os) (CheckDistUpgrade os : PW _)) as Hc2 by (eapply issues_weaken; [|apply dist_issues]; done).
  unfold mbind at 1, P_bind at 1. destruct (Hc1 p) as (cs1 & E1 & F1). destruct (UpdatesAvailable os p) as [[[available checkOut] err] p1] eqn:R1.
  unfold mbind at 1, P_bind at 1. destruct (Hc2 p1) as (cs2 & E2 & F2). destruct (CheckDistUpgrade os p1) as [dist p2] eqn:R2. cbn [snd] in *.
  assert (log p2 = log p ++ (wrap <$> cs1 ++ cs2)) as E12 by (by rewrite E2, E1, fmap_app, app_assoc).
  destruct (negb available).
  - exists (cs1 ++ cs2), []. rewrite app_nil_r. split; [|split; [by apply Forall_app|split; [constructor|by intros ?%Exists_nil]]].
    rewrite <- E12, <- (issues_quiet_log _ p2 (quiet_save skill "ok" (up_to_date_state dist))). unfold save, mbind, P_bind.
    by destruct (lift _ p2) as [o p3].
  - unfold mbind at 1, P_bind at 1.
    destruct (issues_enriching _ nst _ (lists_updates os view) p2) as (cs3 & E3 & F3).
    destruct (enriching nst _ p2) as [listed p3] eqn:R3. cbn [snd] in E3 |- *. rewrite (asking_run _ _ _ _ _ _ _ _ _ _ R1 R2 R3).
    destruct (decide_guarded os events checkOut dist listed p3) as (cmds & E4 & K4 & HQ). exists (cs1 ++ cs2 ++ cs3), cmds.
    assert (log p3 = log p ++ (wrap <$> cs1 ++ cs2 ++ cs3)) as E123.
    { rewrite E3, E12, <- app_assoc, <- fmap_app. by rewrite <- app_assoc. }
    split; [by rewrite E4, E123, (fmap_app _ (cs1 ++ cs2 ++ cs3)), <- app_assoc|]. split; [by rewrite !Forall_app|]. split; [done|].
    intros Hx. split; [exact E123|by apply HQ].
Qed.

(** A host whose system is not recognised is not touched. *)
Lemma unknown_host_untouched nst view events p e : detectOS goos (host p) = Err e →
  log (patch_tool zone order goos uid hostname file_stat file_read nst view events p).2 = log p.
Proof.
  intros He. unfold patch_tool. fold here. rewrite He. unfold notify, save, mbind, P_bind.
  pose proof (issues_quiet_log _ p (quiet_notify ("[" +:+ hostname +:+ "] Patch Failed") ("OS detection failed: " +:+ e))) as H1.
  destruct (lift (Notify _ _) p) as [u p1]. cbn [snd] in H1. rewrite <- H1.
  pose proof (issues_quiet_log _ p1 (quiet_save skill "warning" ("OS detection failed: " +:+ e))) as H2.
  by destruct (lift (SkillState.Save _ _ _ _) p1).
Qed.

(** C9. The patch tool never changes the machine on its own: whatever the package
    manager, the vendors' services and the files answer, it starts only commands of its
    own repertoire; it looks first, and it starts one that installs updates or reboots
    only if, right after looking, it filed an approval that a later poll found in the
    memory with a status other than pending, rejected and timed out. *)
Theorem patches_need_decision nst view events p os :
  detectOS goos (host p) = Ok os →
  ∃ checks cmds, log (patch_tool zone order goos uid hostname file_stat file_read nst view events p).2 = log p ++ (wrap <$> checks ++ cmds) ∧
    Forall (looking os) checks ∧ Forall (known os) cmds ∧
    (Exists (changes os) cmds → w_run (asking nst view os p) = log p ++ (wrap <$> checks) ∧ decided events (asking nst view os p)).
Proof. apply patch_tool_gated. Qed.

(** A check that fails looks like a clean one: when the package manager cannot be
    asking, the tool answers that the packages are up to date and saves the skill as
    healthy.  The pre-check of the same failure reports the error instead. *)
Theorem failed_check_reads_up_to_date nst view events p os out err p1 dist p2 :
  detectOS goos (host p) = Ok os →
  UpdatesAvailable os p = ((out.1, out.2, Some err), p1) →
  CheckDistUpgrade os p1 = (dist, p2) →
  patch_tool zone order goos uid hostname file_stat file_read nst view events p =
    (Some (Ok (up_to_date_text out.2 dist)), (save zone "ok" (up_to_date_state dist) p2).2) ∧
  pre_check zone goos uid file_stat file_read p = ((true, "", Some err), p1).
Proof.
  intros Hos Hc Hd. pose proof (check_error _ _ _ _ _ _ Hc) as Hf.
  unfold patch_tool, pre_check. fold here. rewrite Hos. unfold mbind, P_bind. rewrite Hc, Hd, Hf. cbn [negb].
  split; [|done]. by destruct (save zone "ok" _ p2).
Qed.

(** The tool that answers whether a restart is due always says no on macOS: the
    patcher remembers a required restart only from the update it ran itself, and the tool
    asks a fresh one.  No command is run to find out. *)
Theorem darwin_restart_unknown w : goos = "darwin" →
  reboot_tool goos uid hostname file_stat file_read w =
    ("No — " +:+ hostname +:+ " (darwin) does not have a pending reboot. No restart is required.", w).
Proof using Type. intros Eg. unfold reboot_tool. rewrite Eg. cbn. rewrite <- !append_assoc. done. Qed.

End Facts.
