(* ===== verification/PatchExamples.v ===== *)
(** * The patching theorems on concrete machines *)

From Corelib Require Import SpecFloat.
From S2P Require Import Prelude GoStrings GoTime GoText GoDuration Json Memory MemoryFacts MemStore World Timeline WorldFacts.
From S2P Require Import KeyStore Approval Patching PatchingFacts UpdateInfo UpdateInfoFacts UpdateList UpdateListFacts.
From S2P Require Import UpdateList UpdateListFacts PatchTool PatchToolFacts.

Import Patching UpdateInfo Nvd UpdateList.

(** ** A machine that remembers its commands *)

Record machine := mkMachine { answers : list string → string * option cmd_error; asked : list (list string) }.

#[local] Instance machine_host : Host machine := {|
  Command := λ argv m, (answers m argv, mkMachine (answers m) (asked m ++ [argv]));
  Stat := λ path m, if String.eqb path "/var/run/reboot-required" then StatOk 0 else StatNotExist;
  ReadFile := λ path m, Err "absent";
|}.

#[local] Instance machine_logged : Logged machine := {|
  log_of := asked;
  wrap := id;
  log_command := λ argv m, eq_refl;
|}.

Definition obedient : patcher machine := mkPatcher (mkMachine (λ _, ("", None)) []) false.

Lemma reboot_guarded_witness :
  ∃ cmds, asked (host (Run OSDebian obedient).2) = cmds ∧ cmds = [apt_update; apt_upgrade; ["shutdown"; "-r"; "now"]] ∧
    ∃ pre, cmds = pre ++ [["shutdown"; "-r"; "now"]] ∧ ["shutdown"; "-r"; "now"] ∉ pre.
Proof.
  destruct (reboot_guarded OSDebian obedient ["shutdown"; "-r"; "now"] eq_refl) as (cmds & E & Hiff & Hpre).
  rewrite list_fmap_id in E. unfold log in E. cbn [log_of machine_logged] in E. rewrite app_nil_l in E.
  exists cmds. split; [exact E|]. split; [by rewrite <- E|]. apply Hpre. rewrite <- E. vm_compute. repeat constructor.
Defined.

(** Ten pending updates on Windows. *)
Definition ten_pending : patcher machine := mkPatcher (mkMachine (λ _, ("10 update(s) available", None)) []) false.

Lemma windows_count_witness : (UpdatesAvailable OSWindows ten_pending).1.1.1 = false.
Proof. exact (windows_count_misread ten_pending 10 eq_refl eq_refl). Defined.

(** ** Summaries *)

#[local] Existing Instance stable_slice.

Definition score (n : Z) : spec_float := Float64.div (Float64.of_Z n) (Float64.of_Z 10).
Definition some_updates : list PackageUpdate := [
  mkUpdate "linux-image-6.8" "6.8.0-40" "6.8.0-41" "kernel" [mkCVE "CVE-2024-1000" "high" (score 78) ""] false;
  mkUpdate "systemd" "255.1" "255.2" "init" [] false;
  mkUpdate "curl" "8.5.0-1" "8.5.0-2" "transfer" [mkCVE "CVE-2024-2000" "MEDIUM" (score 51) ""; mkCVE "CVE-2024-1000" "high" (score 78) ""] false;
  mkUpdate "openssl" "3.0.1" "3.0.2" "crypto" [] false;
  mkUpdate "cowsay" "1" "2" "" [] true].

Lemma some_names : NoDup (Name <$> some_updates).
Proof. apply (bool_decide_unpack _). vm_compute. exact I. Defined.

Lemma reboot_bullet_witness :
  rebootLikely "linux-image-6.8" = true ∧
  ¬ mkUpdate "linux-image-6.8" "6.8.0-40" "6.8.0-41" "kernel" [mkCVE "CVE-2024-1000" "high" (score 78) ""] false
      ∈ s_reboot (summarise some_updates).
Proof.
  split; [reflexivity|]. intros H.
  apply (reboot_bullet_omits_fixes some_updates _ some_names) in H; [by destruct H|]. repeat constructor.
Defined.

Lemma summary_witness :
  size some_updates = 5 ∧ size (s_minor (summarise some_updates)) = 1 ∧ size (s_reboot (summarise some_updates)) = 1 ∧
  size some_updates = size (filter (listed some_updates) some_updates) + size (s_minor (summarise some_updates)) +
    size (s_reboot (summarise some_updates)) + Z.of_nat (grouped (s_notable (summarise some_updates))) +
    size (filter (λ u, category some_updates u = catNotable ∧ NewVersion u ∈ version <$> s_top (summarise some_updates)) some_updates) +
    s_remaining (summarise some_updates).
Proof.
  split; [reflexivity|]. split; [vm_compute; reflexivity|]. split; [vm_compute; reflexivity|].
  exact (summary_accounts some_updates some_names).
Defined.

(** ** NVD *)

(** A lookup that finds no score, and seven seconds later another one. *)
Definition missing : rating := Err (NetError "not found").

Lemma two_lookups : ∃ sy, run 1 0 idle (7 * Second) sy ∧ started sy = [7 * Second; 0].
Proof.
  eassert (run 1 0 idle 0 _) as R1.
  { eapply run_step; [apply run_refl|done|done|]. apply (step_wait 1 0 idle 0%nat "CVE-2024-1000"); vm_compute; reflexivity || lia. }
  eassert (run 1 0 idle 0 _) as R2.
  { eapply run_step; [exact R1|done|done|]. eapply (step_request 1 0 _ 0%nat); [apply lookup_insert_eq|vm_compute; discriminate]. }
  eassert (run 1 0 idle 0 _) as R3.
  { eapply run_step; [exact R2|done|done|]. eapply (step_record 1 0 _ 0%nat _ missing). apply lookup_insert_eq. }
  eassert (run 1 0 idle 0 _) as R4.
  { eapply run_step; [exact R3|done|done|]. eapply (step_wait 1 0 _ 0%nat "CVE-2024-2000"); vm_compute; reflexivity || lia. }
  eassert (run 1 0 idle (7 * Second) _) as R5.
  { eapply run_step; [exact R4|vm_compute; discriminate|split; vm_compute; discriminate|].
    eapply (step_request 1 (7 * Second) _ 0%nat); [apply lookup_insert_eq|vm_compute; discriminate]. }
  eexists. split; [exact R5|reflexivity].
Defined.

Lemma sequential_witness : spaced [7 * Second; 0].
Proof.
  destruct two_lookups as (sy & Hr & <-). exact (sequential_rate_limit 0 (7 * Second) sy (Z.le_refl 0) Hr).
Defined.

Lemma burst_witness : ∃ sy, run 4 0 idle 0 sy ∧ started sy = [0; 0; 0; 0].
Proof. exact (concurrent_rate_limit_broken 4 0 4 ltac:(done) (le_n 4)). Defined.

(** ** A machine on a network *)

Definition site (pages : string → result net_error (Z * string)) : Net machine := {|
  Get := λ url m, (pages url, m);
  Now := λ m, (0, m);
  Await := λ d m, (None, m);
  CtxErr := λ m, None;
|}.

Definition one_score : nvdResponse := mkResponse [mkVuln [mkMetric (score 98) "critical"] []].
#[local] Instance json_nvd : Json nvdResponse := {|
  zero := mkResponse [];
  Marshal := λ _, None;
  Unmarshal := λ doc dst, if String.eqb doc "rated" then (one_score, true) else (dst, false);
|}.

Definition twenty : list canonicalCVEResult :=
  (λ n, mkCanonical ("CVE-2023-" +:+ Itoa (1000 + Z.of_nat n)) "unrated") <$> seq 0 20.
#[local] Instance json_canonical : Json canonicalResponse := {|
  zero := mkCanonicalResponse None;
  Marshal := λ _, None;
  Unmarshal := λ doc dst, if String.eqb doc "twenty" then (mkCanonicalResponse (Some twenty), true) else (dst, false);
|}.
#[local] Instance json_redhat : Json redhatResponse := {|
  zero := mkRedhat "" Float64.zero;
  Marshal := λ _, None;
  Unmarshal := λ doc dst, (dst, false);
|}.

Definition scored : Net machine := site (λ _, Ok (200, "rated")).

Lemma cached_witness :
  ∃ e', @cachedNVDCVSS machine scored json_nvd "CVE-2024-1000" (mkEnrich (host obedient) init) = (Ok (score 98, "CRITICAL"), e') ∧
    @cachedNVDCVSS machine (site (λ _, Err (NetError "down"))) json_nvd "CVE-2024-1000" e' = (Ok (score 98, "CRITICAL"), e').
Proof.
  destruct (@cachedNVDCVSS machine scored json_nvd "CVE-2024-1000" (mkEnrich (host obedient) init)) as [r e'] eqn:E.
  pose proof (@nvd_answer_cached machine scored json_nvd _ _ _ _ E) as (_ & Hs & _).
  vm_compute in E. injection E as <- <-. destruct (Hs eq_refl) as (en & He & Ho & _).
  vm_compute in He. injection He as <-. vm_compute in Ho. eexists. split; [vm_compute; reflexivity|]. vm_compute. reflexivity.
Defined.

(** The vendor's list and the changelog of one Debian package name unrated CVEs. *)
Definition busy : Net machine := site (λ url, if HasPrefix url nvd_url then Err (NetError "down") else Ok (200, "twenty")).
Definition fresh_ids : list string := (λ n, "CVE-2024-" +:+ Itoa (1000 + Z.of_nat n)) <$> seq 0 10.

Definition busy_package : PackageUpdate * (list string * bool) :=
  (mkUpdate "curl" "8.5.0-1" "8.5.0-2" "" [] false, (fresh_ids, true)).

Lemma budget_witness :
  @spends machine _ 16 (@debian_worker _ (@traced_net _ busy) json_nvd json_canonical "noble" busy_package) ∧
  nvd_requests (@debian_worker _ (@traced_net _ busy) json_nvd json_canonical "noble" busy_package
    (mkEnrich (host obedient, []) init)).2 = 16%nat.
Proof.
  split; [|vm_compute; reflexivity].
  exact (proj2 (proj2 (proj2 (@nvd_budget machine machine_host busy json_nvd json_canonical json_redhat
    "curl" "https://support.apple.com/en-us/1" "" [] "noble" busy_package eq_refl)))).
Defined.

(** Apple's index answers with an error page. *)
Definition mac : machine :=
  mkMachine (λ _, ("* Label: macOS Sequoia 15.4.1-24E263" +:+ nl +:+ "  Title: macOS Sequoia 15.4.1, Size: 1K", None)) [].
Definition down : Net machine := site (λ _, Ok (503, "Service Unavailable")).

Lemma apple_witness :
  (ParseDarwinUpdateList (answers mac []).1) =
    [mkUpdate "macOS Sequoia 15.4.1-24E263" "" "" "macOS Sequoia 15.4.1" [] false] ∧
  ∃ pkgs e', @listDarwinUpdates machine machine_host down json_nvd map_to_list (mkEnrich mac init) = (Ok pkgs, e') ∧
    pkgs = ParseDarwinUpdateList (answers mac []).1 ∧
    ImportanceAssessment pkgs = ("low", "routine updates; no known CVEs addressed").
Proof.
  split; [vm_compute; reflexivity|].
  refine (@apple_error_page_routine machine machine_host down json_nvd map_to_list (λ m, reflexivity _)
    (mkEnrich mac init) _ _ 503 "Service Unavailable" _ eq_refl _ eq_refl _); vm_compute; reflexivity.
Defined.

(** A dry run with two packages. *)
Lemma inst_witness :
  ParseDebianInstLines ("Reading package lists..." +:+ nl +:+ cat_all ((λ u, inst_text (Name u) (OldVersion u) (NewVersion u) "noble)" +:+ nl) <$>
    [mkUpdate "curl" "8.5.0-1" "8.5.0-2" "" [] false; mkUpdate "libfoo" "" "1.0" "" [] false])) =
    [mkUpdate "curl" "8.5.0-1" "8.5.0-2" "" [] false; mkUpdate "libfoo" "" "1.0" "" [] false].
Proof.
  apply inst_lines_read_back; [|done|done|done].
  repeat constructor; (done || by split).
Defined.

(** ** An agent on Ubuntu *)

Definition granted : Approval.ApprovalEntry :=
  Approval.mkApproval "id0" "" "" "" "" "" "approved" 0 None "" 0 "" false "" "" false.

(** Short texts for the values of this example: an approval is its status. *)
Definition text_json {A} (z : A) (print : A → string) (read : string → A) : Json A :=
  {| zero := z; Marshal := λ a, Some (print a); Unmarshal := λ doc _, (read doc, true) |}.

#[local] Instance raw_text : RawJson :=
  {| compact := id; Valid := λ _, true; MarshalRaw := λ _, Some "";
     MarshalRawIndent := λ _, Some ""; UnmarshalRaw := λ _, Some ∅ |}.
#[local] Instance json_approval : Json Approval.ApprovalEntry :=
  text_json granted Approval.Status (λ doc, Approval.set_status doc "" None granted).
#[local] Instance json_timeline : Json (list Timeline.TimelineEntry) := text_json [] (λ _, "") (λ _, []).
#[local] Instance json_skill : Json SkillState.State :=
  text_json (SkillState.mkState "" "" "" "") SkillState.Health (λ doc, SkillState.mkState "" doc "" "").
#[local] Instance json_note : Json notification := text_json (mkNote "" "" 0) Subject (λ doc, mkNote doc "" 0).
#[local] Instance json_text : Json string := text_json "" id id.

(** A memory that never fails: the texts under their names. *)
Record shelf := mkShelf { docs : list (string * string); attributes : list (string * string) }.

Fixpoint find (k : string) (l : list (string * string)) : option string :=
  match l with [] => None | (k', v) :: l => if String.eqb k k' then Some v else find k l end.
Definition read_text {A} {J : Json A} (k : string) (l : list (string * string)) : A * bool :=
  match find k l with Some doc => Unmarshal doc zero | None => (zero, false) end.

#[local] Instance shelf_mem : MemStore shelf := {|
  mem_ok := λ _, True;
  doc_past := λ _ _ _, True;
  ReadDoc := λ A J name m, read_text name (docs m);
  WriteDoc := λ A J _ name v m, (None, mkShelf ((name, default "" (Marshal v)) :: docs m) (attributes m));
  GetAttr := λ A J key m, read_text key (attributes m);
  AllAttrs := λ m, Ok (list_to_map (attributes m));
  SetAttr := λ A J key v m, (None, mkShelf (docs m) ((key, default "" (Marshal v)) :: attributes m));
  DelAttr := λ key m, (None, mkShelf (docs m) (filter (λ kv, kv.1 ≠ key) (attributes m)));
|}.

(** Every command succeeds; the services are out of reach. *)
#[local] Instance offline : Net (world shelf) := {|
  Get := λ url w, (Err (NetError "unreachable"), w);
  Now := λ w, (0, w);
  Await := λ d w, (None, w);
  CtxErr := λ w, None;
|}.

Definition release_file (path : string) (w : world shelf) : result string string :=
  if String.eqb path "/etc/os-release" then Ok "ID=ubuntu" else Err "absent".
Definition no_stat (path : string) (w : world shelf) : stat_result := StatNotExist.

Definition agent (exec : nat → list string → string * option string) : patcher (world shelf) :=
  mkPatcher (mkWorld (mkShelf [] []) (λ n, 1784900000 * Second + Z.of_nat n) 0
    (λ n, "id" +:+ Itoa (Z.of_nat n)) 0 [] exec []) false.

Definition grant : list (Approval.event * (shelf → shelf)) :=
  [(Approval.Poll, λ m, (SetAttr (Approval.AttrsKey "id0") granted m).2)].

Definition willing := agent (λ _ _, ("1 upgraded, 0 newly installed, 0 to remove", None)).
Definition nothing_seen (i : nat) : enrich (world shelf) := mkEnrich (host willing) init.
Definition patch (events : list (Approval.event * (shelf → shelf))) :=
  PatchTool.patch_tool (λ _, 0) map_to_list "linux" 1000 "web1" no_stat release_file init nothing_seen events.

Lemma decision_witness :
  ["sudo"; "-n"; "apt-get"; "upgrade"; "-y"] ∈ w_run (host (patch grant willing).2) ∧
  decided (λ _, 0) grant (asking map_to_list "linux" 1000 no_stat release_file init nothing_seen OSDebian willing).
Proof.
  split; [vm_compute; repeat constructor|].
  pose proof (patches_need_decision (λ _, 0) map_to_list "linux" 1000 "web1" no_stat release_file
    (λ _ _, eq_refl) (λ _, eq_refl) (λ _ _, eq_refl) init nothing_seen grant willing OSDebian) as Hd.
  destruct Hd as (checks & cmds & E & Hc & _ & H); [vm_compute; reflexivity|].
  enough (Exists (changes OSDebian) cmds) as Hx by exact (proj2 (H Hx)). clear H.
  match type of E with ?l = _ =>
    assert (["sudo"; "-n"; "apt-get"; "upgrade"; "-y"] ∈ l) as Hin by (vm_compute; repeat constructor) end.
  rewrite E in Hin. clear E. apply elem_of_app in Hin. destruct Hin as [Hin|Hin]; [vm_compute in Hin; inversion Hin|].
  apply list_elem_of_fmap in Hin as (argv & Hw & Hin).
  assert (changes OSDebian argv) as Hch.
  { left. destruct argv as [|name args]; [discriminate Hw|]. cbn in Hw. injection Hw as <- <-. split; [repeat constructor|done]. }
  apply elem_of_app in Hin as [Hin|Hin]; [|apply Exists_exists; by exists argv].
  exfalso. by apply (looking_harmless _ _ (proj1 (Forall_forall _ _) Hc argv Hin)).
Defined.

(** The package manager is locked by another process. *)
Definition locked := agent (λ _ _, ("E: Could not get lock", Some "exit status 100")).

Lemma failed_check_witness :
  ∃ w', patch grant locked =
    (Some (Ok ("System packages are up to date." +:+ para +:+ "E: Could not get lock")), w') ∧
  (PatchTool.pre_check (λ _, 0) "linux" 1000 no_stat release_file locked).1 =
    (true, "", Some "apt-get update: exit status 100").
Proof.
  pose (h := PatchTool.world_host "linux" 1000 no_stat release_file).
  assert (@detectOS _ h "linux" (host locked) = Ok OSDebian) as Ho by (vm_compute; reflexivity).
  assert ((@UpdatesAvailable _ h OSDebian locked).1 = (false, "E: Could not get lock", Some "apt-get update: exit status 100"))
    as Hu by (vm_compute; reflexivity).
  destruct (@UpdatesAvailable _ h OSDebian locked) as [u p1] eqn:Eu. cbn [fst] in Hu. subst u.
  destruct (failed_check_reads_up_to_date (λ _, 0) map_to_list "linux" 1000 "web1" no_stat release_file
    init nothing_seen grant locked OSDebian (false, "E: Could not get lock") "apt-get update: exit status 100"
    p1 "" p1 Ho Eu eq_refl) as [H1 H2].
  eexists. split; [exact H1|by rewrite H2].
Defined.
