(* ===== verification/Largest.v ===== *)
(** * The search for the largest files and directories ([check_drives/largest.go])

    [TopLargest] opens at most fifty directories under a root, the promising ones
    first, and adds the size of every directory it discovers to all directories above
    it.  The nodes the code links by pointers are a list here: a node is its index, and
    its parent an earlier index.  The file system is a parameter. *)

From S2P Require Import Prelude GoStrings GoText.

Module Largest.

Record SizedEntry := mkEntry { Path : string; Size : Z }.

Definition maxDirsExplored : nat := 50.
Definition maxChildrenPerDir : nat := 20.
Definition promoteThreshold : Z := 50 * 1024 * 1024.
Definition pseudoFSDirs : list string := ["proc"; "sys"; "dev"; "run"].
Definition staticSystemDirs : list string := ["usr"; "lib"; "lib32"; "lib64"; "libx32"; "bin"; "sbin"; "snap"].

Record dirNode := mkNode { path : string; total : Z; parent : option nat; dev : Z; devOK : bool }.

Definition add_total (size : Z) (n : dirNode) : dirNode :=
  mkNode (path n) (wrapu64 (total n + size)) (parent n) (dev n) (devOK n).

(** A directory entry: [info] is what [Info] tells of it, whether it is a regular file
    and its size. *)
Record DirEntry := mkDirEntry { Name : string; IsDir : bool; info : option (bool * Z) }.

Definition regular_size (e : DirEntry) : option Z :=
  match info e with Some (true, size) => Some size | _ => None end.

Section Scan.
Context `{!SortSlice}.
(** [os.ReadDir], [deviceID], and the error of the context before the [i]-th directory. *)
Context (ReadDir : string → result string (list DirEntry)) (deviceID : string → Z * bool) (ctx_err : nat → option string).

Definition self_sizes (entries : list DirEntry) : list Z :=
  omap (λ e, if IsDir e then None else regular_size e) entries.

Definition dirSelfSize (dir : string) : Z :=
  match ReadDir dir with
  | Err _ => 0
  | Ok entries => foldl (λ sum size, wrapu64 (sum + size)) 0 (self_sizes entries)
  end.

(** The nodes, the queue, the candidates and the files seen. *)
Record state := mkState { nodes : list dirNode; queue : list nat; candidates : list nat; files : list SizedEntry }.

Definition total_of (ns : list dirNode) (i : nat) : Z := match ns !! i with Some n => total n | None => 0 end.

(** [propagate]: the node and everything above it; parents come before their children,
    so [i + 1] steps are enough. *)
Fixpoint propagate (fuel : nat) (i : nat) (size : Z) (ns : list dirNode) : list dirNode :=
  match fuel, ns !! i with
  | S fuel', Some n =>
      let ns := <[i := add_total size n]> ns in
      match parent n with Some p => propagate fuel' p size ns | None => ns end
  | _, _ => ns
  end.

(** One entry of a directory: a child, a file, or nothing. *)
Definition scan_entry (cur : dirNode) (i : nat) (e : DirEntry) : option (dirNode + SizedEntry) :=
  let p := JoinPath (path cur) (Name e) in
  if IsDir e then
    if bool_decide (parent cur = None) && bool_decide (Name e ∈ pseudoFSDirs) then None
    else
      let '(childDev, childDevOK) := deviceID p in
      if devOK cur && childDevOK && negb (childDev =? dev cur) then None
      else Some (inl (mkNode p (dirSelfSize p) (Some i) childDev childDevOK))
  else match regular_size e with Some size => Some (inr (mkEntry p size)) | None => None end.

Definition lefts {A B} (l : list (A + B)) : list A := omap (λ x, match x with inl a => Some a | inr _ => None end) l.
Definition rights {A B} (l : list (A + B)) : list B := omap (λ x, match x with inr b => Some b | inl _ => None end) l.

Definition cap_children (children : list dirNode) : list dirNode :=
  if (maxChildrenPerDir <? length children)%nat
  then take maxChildrenPerDir (Slice (λ a b, total b <? total a) children)
  else children.

Definition add_child (at_root : bool) (i : nat) (s : state) (child : dirNode) : state :=
  let id := length (nodes s) in
  mkState (propagate (S i) i (total child) (nodes s ++ [child]))
    (if at_root && bool_decide (Base (path child) ∈ staticSystemDirs) then queue s else queue s ++ [id])
    (candidates s ++ [id]) (files s).

Definition promoted (ns : list dirNode) (i : nat) : bool := promoteThreshold <=? total_of ns i.

(** One iteration on a queue that is not empty. *)
Definition explore (s : state) : state :=
  match SliceStable (λ i j, promoted (nodes s) i && negb (promoted (nodes s) j)) (queue s) with
  | [] => s
  | i :: q =>
      let s := mkState (nodes s) q (candidates s) (files s) in
      match nodes s !! i with
      | None => s
      | Some cur =>
          match ReadDir (path cur) with
          | Err _ => s
          | Ok entries =>
              let found := omap (scan_entry cur i) entries in
              let s := mkState (nodes s) (queue s) (candidates s) (files s ++ rights found) in
              foldl (add_child (bool_decide (parent cur = None)) i) s (cap_children (lefts found))
          end
      end
  end.

(** The loop; [left] directories may still be opened. *)
Fixpoint scan (left : nat) (s : state) : result string state :=
  match left, queue s with
  | S left', _ :: _ =>
      match ctx_err (maxDirsExplored - left) with
      | Some e => Err e
      | None => scan left' (explore s)
      end
  | _, _ => Ok s
  end.

Definition topNDirs (ns : list dirNode) (cands : list nat) (topN : nat) : list SizedEntry :=
  (λ i, mkEntry (match ns !! i with Some n => path n | None => "" end) (total_of ns i)) <$>
    take topN (Slice (λ i j, total_of ns j <? total_of ns i) cands).

Definition topNFiles (entries : list SizedEntry) (topN : nat) : list SizedEntry :=
  take topN (Slice (λ a b, Size b <? Size a) entries).

Definition start (root : string) : state :=
  let '(d, ok) := deviceID root in mkState [mkNode root 0 None d ok] [0%nat] [] [].

Definition TopLargest (root : string) (topN : nat) : result string (list SizedEntry * list SizedEntry) :=
  match scan maxDirsExplored (start root) with
  | Err e => Err e
  | Ok s => Ok (topNDirs (nodes s) (candidates s) topN, topNFiles (files s) topN)
  end.

End Scan.

End Largest.
