(* ===== verification/Drives.v ===== *)
(** * Disk usage, SMART attributes and their trends ([skills/check_drives])

    One survey collapses mounts of the same storage, judges usage and SMART status,
    records a sample of each mount and each SMART attribute in a rolling history, and
    judges the histories.  The probes that differ between operating systems (the mounts,
    the SMART reports and attributes) are parameters; they are in [DiskProbes]. *)

From Corelib Require Import SpecFloat.
From S2P Require Import Prelude GoStrings GoTime GoText GoDuration Rolling Json Memory MemStore World KeyStore Largest.

Module Drives.
Import Float64.

Definition usedPctWarning : spec_float := of_Z 80.
Definition usedPctCritical : spec_float := of_Z 90.

Record DiskStat := mkDisk { Mount : string; Device : string; Total : Z; Free : Z; FSType : string }.

Definition Used (d : DiskStat) : Z := if Total d <? Free d then 0 else Total d - Free d.

(** [float64(part) / float64(whole) * 100]. *)
Definition percent (part whole : Z) : spec_float :=
  if whole =? 0 then zero else mul (div (of_Z part) (of_Z whole)) (of_Z 100).
Definition UsedPct (d : DiskStat) : spec_float := percent (Used d) (Total d).

Record SmartReport := mkSmart { s_Device : string; Available : bool; Healthy : bool; Findings : list string }.

(** ** Collapsing mounts *)

Definition dedupeFreeTolerance : spec_float := Float.ratio 1 100.

Definition sameStorage (a b : DiskStat) : bool :=
  if (Total a =? 0) || negb (Total a =? Total b) then false
  else
    let diff := if Free b <? Free a then Free a - Free b else Free b - Free a in
    Float.ltb (div (of_Z diff) (of_Z (Total a))) dedupeFreeTolerance.

Definition preferredMounts : list string := ["/"; "/System/Volumes/Data"].
Definition isPreferredMount (mount : string) : bool := bool_decide (mount ∈ preferredMounts).

(** The first kept disk of the same storage is replaced by a preferred mount; a
    disk like none of them is added. *)
Fixpoint dedupe_into (out : list DiskStat) (d : DiskStat) : list DiskStat :=
  match out with
  | [] => [d]
  | o :: rest =>
      if sameStorage o d then (if isPreferredMount (Mount d) && negb (isPreferredMount (Mount o)) then d else o) :: rest
      else o :: dedupe_into rest d
  end.

Definition DedupeDisks (disks : list DiskStat) : list DiskStat :=
  foldl (λ out d, if String.eqb (FSType d) "devfs" then out else dedupe_into out d) [] disks.

(** ** Health *)

Definition full_label (d : DiskStat) : string := Mount d +:+ " is " +:+ Float.format 1 (UsedPct d) +:+ "% full".

Definition disk_criticals (smart : gmap string (list SmartReport)) (d : DiskStat) : list string :=
  (if Float.geb (UsedPct d) usedPctCritical then [full_label d] else []) ++
  ((λ sr, "SMART status FAILED for " +:+ s_Device sr +:+ " (" +:+ Join (Findings sr) "; " +:+ ")") <$>
     filter (λ sr, Available sr && negb (Healthy sr) = true) (default [] (smart !! Device d))).

Definition disk_warnings (d : DiskStat) : list string :=
  if Float.geb (UsedPct d) usedPctCritical then []
  else if Float.geb (UsedPct d) usedPctWarning then [full_label d] else [].

Definition diskHealth (disks : list DiskStat) (smart : gmap string (list SmartReport)) : string * string :=
  verdict (concat (disk_criticals smart <$> disks)) (concat (disk_warnings <$> disks)) "all disks healthy".

(** ** Least squares *)

(** [math.Abs(x) < 1e-9]. *)
Definition negligible (x : spec_float) : bool := Float.ltb (SFabs x) (Float.ratio 1 1000000000).

(** The slope, per day, of values over instants; 0 below three samples. *)
Definition slope_per_day (points : list (Z * spec_float)) : spec_float :=
  match points with
  | (origin, _) :: _ :: _ :: _ =>
      let n := of_Z (Z.of_nat (length points)) in
      let '(sx, sy, sxy, sx2) := foldl (λ '(sx, sy, sxy, sx2) '(t, y),
        let x := Float.hours (time_sub t origin) in
        (add sx x, add sy y, add sxy (mul x y), add sx2 (mul x x))) (zero, zero, zero, zero) points in
      let denom := sub (mul n sx2) (mul sx sx) in
      if negligible denom then zero
      else mul (div (sub (mul n sxy) (mul sx sy)) denom) (of_Z 24)
  | _ => zero
  end.

(** ** Usage trends *)

Definition DiskTrendsDomain : string := "Disk Trends".
Definition TrendAttrsKey : string := "disk_trends".
Definition trendMaxAge : Z := 7 * 24 * Hour.
Definition trendMinInterval : Z := 30 * Minute.
Definition trendGrowthPerDay : spec_float := Float.ratio 10 7.
Definition trendWarningDays : Z := 30.
Definition trendCriticalDays : Z := 7.
Definition trendFullPct : spec_float := of_Z 90.

Record DiskSample := mkSample { d_Time : Z; d_UsedPct : spec_float; d_UsedBytes : Z; d_TotalBytes : Z }.
Record DiskTrend := mkTrend { t_Mount : string; Samples : list DiskSample; SlopePerDay : spec_float; Forecast : Z }.

Definition ComputeSlope (samples : list DiskSample) : spec_float :=
  slope_per_day ((λ s, (d_Time s, d_UsedPct s)) <$> samples).

Definition ForecastDays (currentPct slopePerDay : spec_float) : Z :=
  if Float.leb slopePerDay zero || Float.geb currentPct trendFullPct then -1
  else Float.ceil_int (div (sub trendFullPct currentPct) slopePerDay).

(** A mount path as a map key. *)
Definition underscore (c : ascii) : ascii :=
  if Ascii.eqb c "/" || Ascii.eqb c "\" || Ascii.eqb c ":" then "_"%char else c.
Definition sanitizeMount (mount : string) : string := TrimPrefix (map_bytes underscore mount) "_".

Definition record_disk (now : Z) (trends : gmap string DiskTrend) (d : DiskStat) : gmap string DiskTrend :=
  let key := sanitizeMount (Mount d) in
  let samples := match trends !! key with Some e => Samples e | None => [] end in
  if Rolling.too_recent d_Time trendMinInterval now samples then trends
  else
    let samples := Rolling.pruned d_Time trendMaxAge now (samples ++ [mkSample now (UsedPct d) (Used d) (Total d)]) in
    let slope := ComputeSlope samples in
    let currentPct := match last samples with Some s => d_UsedPct s | None => zero end in
    <[key := mkTrend (Mount d) samples slope (ForecastDays currentPct slope)]> trends.

Definition trend_label (t : DiskTrend) : string :=
  t_Mount t +:+ " growing " +:+ Float.format 1 (SlopePerDay t) +:+ "%/day (fills in ~" +:+ Itoa (Forecast t) +:+ " days)".

(** A trend that grows too fast and has a forecast below [days]. *)
Definition fills_within (days : Z) (t : DiskTrend) : bool :=
  negb (Float.leb (SlopePerDay t) trendGrowthPerDay) && (0 <=? Forecast t) && (Forecast t <? days).

(** [entries] are the trends in the order Go visits them. *)
Definition TrendHealth (entries : list DiskTrend) : string * string :=
  verdict (trend_label <$> filter (λ t, fills_within trendCriticalDays t = true) entries)
    (trend_label <$> filter (λ t, fills_within trendWarningDays t && negb (fills_within trendCriticalDays t) = true) entries) "".

(** ** SMART trends *)

Definition SmartTrendAttrsKey : string := "smart_trends".
Definition smartTrendMaxAge : Z := 30 * 24 * Hour.
Definition smartTrendMinInterval : Z := Hour.

Record RawSmartAttrs := mkRaw { r_Device : string; r_Attrs : gmap string Z }.
Record SmartAttrSample := mkAttrSample { a_Time : Z; a_Value : Z }.
Record SmartAttrTrend := mkAttrTrend { a_Name : string; a_Samples : list SmartAttrSample; Delta : Z; a_Slope : spec_float }.
Record SmartDeviceTrend := mkDeviceTrend { dt_Device : string; dt_Attrs : gmap string SmartAttrTrend }.

Definition computeSmartSlope (samples : list SmartAttrSample) : spec_float :=
  slope_per_day ((λ s, (a_Time s, of_Z (a_Value s))) <$> samples).

Definition delta_of (samples : list SmartAttrSample) : Z :=
  match samples, last samples with
  | first :: _ :: _, Some s => wrap64 (a_Value s - a_Value first)
  | _, _ => 0
  end.

Definition record_attr (now : Z) (name : string) (value : Z) (attrs : gmap string SmartAttrTrend) : gmap string SmartAttrTrend :=
  let samples := match attrs !! name with Some t => a_Samples t | None => [] end in
  if Rolling.too_recent a_Time smartTrendMinInterval now samples then attrs
  else
    let samples := Rolling.pruned a_Time smartTrendMaxAge now (samples ++ [mkAttrSample now value]) in
    <[name := mkAttrTrend name samples (delta_of samples) (computeSmartSlope samples)]> attrs.

(** Every attribute of a device is recorded on its own, so the order of the visits
    does not matter. *)
Definition record_device (now : Z) (trends : gmap string SmartDeviceTrend) (r : RawSmartAttrs) : gmap string SmartDeviceTrend :=
  if String.eqb (r_Device r) "" || bool_decide (r_Attrs r = ∅) then trends
  else
    let key := sanitizeMount (r_Device r) in
    let attrs := match trends !! key with Some e => dt_Attrs e | None => ∅ end in
    <[key := mkDeviceTrend (r_Device r) (map_fold (record_attr now) attrs (r_Attrs r))]> trends.

Definition criticalSmartAttrs (name : string) : option bool :=
  if String.eqb name "Reallocated_Sector_Ct" || String.eqb name "Current_Pending_Sector" then Some false
  else if String.eqb name "Offline_Uncorrectable" || String.eqb name "Reported_Uncorrect" then Some true
  else None.

Definition is_wear (name : string) : bool := String.eqb name "NVMe_Wear_Pct" || String.eqb name "Wear".

(** What one attribute adds: a label, and whether it is critical. *)
Definition attr_issue (device name : string) (t : SmartAttrTrend) : option (bool * string) :=
  match a_Samples t, last (a_Samples t) with
  | _ :: _ :: _, Some s =>
      if is_wear name then
        let label := device +:+ " " +:+ name +:+ " wear: " +:+ Itoa (a_Value s) +:+ "%" in
        if 90 <=? a_Value s then Some (true, label) else if 70 <=? a_Value s then Some (false, label) else None
      else
        match criticalSmartAttrs name with
        | Some critical =>
            if Delta t <=? 0 then None
            else Some (critical || Float.gtb (a_Slope t) (of_Z 1),
                       device +:+ " " +:+ name +:+ " +" +:+ Itoa (Delta t) +:+ " from baseline")
        | None => None
        end
  | _, _ => None
  end.

(** [entries]: device, attribute name and trend, in the order of the visits. *)
Definition SmartTrendHealth (entries : list (string * string * SmartAttrTrend)) : string * string :=
  let issues := omap (λ '(device, name, t), attr_issue device name t) entries in
  verdict (snd <$> filter (λ i, i.1 = true) issues) (snd <$> filter (λ i, i.1 = false) issues) "".

(** ** The survey *)

Definition formatBytes (b : Z) : string :=
  let scaled (unit : Z) (name : string) := Float.format 2 (div (of_Z b) (of_Z unit)) +:+ " " +:+ name in
  if 2 ^ 40 <=? b then scaled (2 ^ 40) "TB"
  else if 2 ^ 30 <=? b then scaled (2 ^ 30) "GB"
  else if 2 ^ 20 <=? b then scaled (2 ^ 20) "MB"
  else Itoa b +:+ " B".

Definition usageSummary (disks : list DiskStat) (summary : string) : string :=
  foldl (λ s d, s +:+ nl +:+ Mount d +:+ ": " +:+ Float.format 1 (UsedPct d) +:+ "% used (" +:+
                formatBytes (Free d) +:+ " free of " +:+ formatBytes (Total d) +:+ ")") summary disks.

Record checkOutcome := mkOutcome {
  disks : list DiskStat;
  smartCache : gmap string (list SmartReport);
  health : string;
  summary : string;
}.

(** ** The report *)

Section Report.
Context `{!SortSlice}.
(** The file system, and the errors of the context during the scan of the [k]-th disk. *)
Context (ReadDir : string → result string (list Largest.DirEntry)) (deviceID : string → Z * bool).
Context (ctx_err : nat → nat → option string).

Definition topLargestCount : nat := 3.

Definition smart_text (sr : SmartReport) : string :=
  if Available sr
  then "SMART:      " +:+ (if Healthy sr then "PASSED" else "FAILED") +:+ " (" +:+ s_Device sr +:+ ")" +:+ nl +:+
       Join ((λ f, "  " +:+ f +:+ nl) <$> Findings sr) ""
  else "".

Definition largest_text (title : string) (entries : list Largest.SizedEntry) : string :=
  match entries with
  | [] => ""
  | _ => title +:+ nl +:+
         Join ((λ e, "  " +:+ Largest.Path e +:+ " (" +:+ formatBytes (Largest.Size e) +:+ ")" +:+ nl) <$> entries) ""
  end.

Definition disk_text (smart : gmap string (list SmartReport)) (k : nat) (d : DiskStat) : string :=
  "Mount:      " +:+ Mount d +:+ nl +:+
  (if String.eqb (FSType d) "" then "" else "Filesystem: " +:+ FSType d +:+ nl) +:+
  "Total:      " +:+ formatBytes (Total d) +:+ nl +:+
  "Used:       " +:+ formatBytes (Used d) +:+ " (" +:+ Float.format 1 (UsedPct d) +:+ "%)" +:+ nl +:+
  "Free:       " +:+ formatBytes (Free d) +:+ nl +:+
  (if String.eqb (Device d) "" then "" else Join (smart_text <$> default [] (smart !! Device d)) "") +:+
  (match Largest.TopLargest ReadDir deviceID (ctx_err k) (Mount d) topLargestCount with
   | Err _ => ""
   | Ok (dirs, fs) => largest_text "Top directories:" dirs +:+ largest_text "Top files:" fs
   end).

(** A blank line between two disks. *)
Definition buildReport (ds : list DiskStat) (smart : gmap string (list SmartReport)) : string :=
  Join (imap (disk_text smart) ds) nl.

End Report.

Section Ops.
Context `{!SortSlice, !RawJson, !Json SkillState.State, !Json (gmap string DiskTrend), !Json (gmap string SmartDeviceTrend), !MemStore M}.
Context (zone : Z → Z).

(** The probes, and the orders in which Go visits the maps. *)
Context (localDisks : W M (result string (list DiskStat))).
Context (CheckSmart : string → W M (list SmartReport)).
Context (CollectRawSmartAttrs : list DiskStat → W M (list RawSmartAttrs)).
Context (ReadDir : string → result string (list Largest.DirEntry)) (deviceID : string → Z * bool).
Context (ctx_err : nat → nat → option string).
Context (visit : gmap string DiskTrend → list DiskTrend).
Context (visit_smart : gmap string SmartDeviceTrend → list (string * string * SmartAttrTrend)).

Definition RecordSamples (ds : list DiskStat) (now : Z) : W M (gmap string DiskTrend * option mem_error) :=
  '(trends, _) ← get_key (V := gmap string DiskTrend) DiskTrendsDomain TrendAttrsKey;
  let trends := foldl (record_disk now) trends ds in
  err ← set_key DiskTrendsDomain TrendAttrsKey trends;
  mret (trends, err).

Definition RecordSmartSamples (raw : list RawSmartAttrs) (now : Z) : W M (gmap string SmartDeviceTrend * option mem_error) :=
  '(trends, _) ← get_key (V := gmap string SmartDeviceTrend) DiskTrendsDomain SmartTrendAttrsKey;
  let trends := foldl (record_device now) trends raw in
  err ← set_key DiskTrendsDomain SmartTrendAttrsKey trends;
  mret (trends, err).

Fixpoint collect_smart (ds : list DiskStat) (cache : gmap string (list SmartReport)) : W M (gmap string (list SmartReport)) :=
  match ds with
  | [] => mret cache
  | d :: rest =>
      if String.eqb (Device d) "" then collect_smart rest cache
      else match cache !! Device d with
           | Some _ => collect_smart rest cache
           | None => r ← CheckSmart (Device d); collect_smart rest (<[Device d := r]> cache)
           end
  end.
Definition collectSmartReports (ds : list DiskStat) : W M (gmap string (list SmartReport)) := collect_smart ds ∅.

Definition save (h s : string) : W M unit := _ ← SkillState.Save zone "check_drives" h s; mret tt.

Definition runCheck : W M (result string checkOutcome) :=
  r ← localDisks;
  match r with
  | Err e => _ ← save "critical" ("failed to read disk usage: " +:+ e); mret (Err ("disk_usage: " +:+ e))
  | Ok all =>
      let ds := DedupeDisks all in
      match ds with
      | [] => _ ← save "ok" "no local disks found"; mret (Ok (mkOutcome [] ∅ "ok" "no local disks found"))
      | _ =>
          smart ← collectSmartReports ds;
          now ← now_;
          '(trends, _) ← RecordSamples ds now;
          raw ← CollectRawSmartAttrs ds;
          now' ← now_;
          '(smartTrends, _) ← RecordSmartSamples raw now';
          let v := worse (worse (diskHealth ds smart) (TrendHealth (visit trends))) (SmartTrendHealth (visit_smart smartTrends)) in
          _ ← save v.1 v.2;
          mret (Ok (mkOutcome ds smart v.1 v.2))
      end
  end.

Definition tool : W M (result string string) :=
  r ← runCheck;
  match r with
  | Err e => mret (Err e)
  | Ok out => match disks out with
              | [] => mret (Ok "No local disks found.")
              | ds => mret (Ok (buildReport ReadDir deviceID ctx_err ds (smartCache out)))
              end
  end.

(** Whether the model is needed, the report, and an error. *)
Definition pre_check : W M (bool * string * option string) :=
  r ← runCheck;
  match r with
  | Err e => mret (true, "", Some e)
  | Ok out =>
      if String.eqb (health out) "ok" then mret (false, usageSummary (disks out) (summary out), None)
      else mret (true, buildReport ReadDir deviceID ctx_err (disks out) (smartCache out), None)
  end.

End Ops.

End Drives.
