(* ===== verification/DiskProbes.v ===== *)
(** * Mounts and SMART status ([check_drives/disks_*.go], [smart_*.go])

    The mounts of local file systems, the physical disks under a device, and the reports
    and counters read with [smartctl] on Linux and macOS and with PowerShell on Windows.
    The system calls, the directories under /sys and the decoding of JSON are
    parameters. *)

From S2P Require Import Prelude GoStrings GoText Json Memory MemStore World Drives.

Module DiskProbes.
Import Drives.

(** ** Mounts *)

Definition localFSTypes : list string :=
  ["ext2"; "ext3"; "ext4"; "xfs"; "btrfs"; "f2fs"; "vfat"; "exfat"; "zfs"; "reiserfs"; "jfs"; "fuseblk"].

Section Mounts.
(** [statfs]: the block size, the blocks and the free ones. *)
Context (Statfs : string → option (Z * Z * Z)).

Definition mount_line (acc : list string * list DiskStat) (line : string) : list string * list DiskStat :=
  let '(seen, ds) := acc in
  match Fields line with
  | device :: mount :: fsType :: _ =>
      if bool_decide (fsType ∈ localFSTypes) && negb (bool_decide (mount ∈ seen)) then
        match Statfs mount with
        | None => (mount :: seen, ds)
        | Some (bsize, blocks, bfree) =>
            (mount :: seen, ds ++ [mkDisk mount device (wrapu64 (bsize * blocks)) (wrapu64 (bsize * bfree)) fsType])
        end
      else acc
  | _ => acc
  end.

Definition linux_disks (mounts : result string string) : result string (list DiskStat) :=
  match mounts with
  | Err e => Err ("disk_monitor: open /proc/mounts: " +:+ e)
  | Ok text =>
      if scan_overflows text then Err "disk_monitor: reading /proc/mounts: bufio.Scanner: token too long"
      else Ok (foldl mount_line ([], []) (ScanLines text)).2
  end.
End Mounts.

(** ** Physical disks *)

Definition is_digit (c : ascii) : bool := match digit c with Some _ => true | None => false end.

(** One or more bytes of a kind, as many as there are: what they are and the rest. *)
Definition many1 (p : ascii → bool) (s : string) : option (string * string) :=
  match span p s with ("", _) => None | r => Some r end.

(** The alternatives of [partitionRe] after [/dev/]. *)
Definition disk_name (s : string) : option (string * string) :=
  match s with
  | String c (String "d" rest) =>
      if Ascii.eqb c "s" || Ascii.eqb c "h" || Ascii.eqb c "v"
      then '(l, r) ← many1 is_lower rest; Some (String c (String "d" l), r)
      else None
  | _ =>
      match CutPrefix "nvme" s with
      | Some rest =>
          '(a, r) ← many1 is_digit rest;
          match r with
          | String "n" r' => '(b, r'') ← many1 is_digit r'; Some ("nvme" +:+ a +:+ "n" +:+ b, r'')
          | _ => None
          end
      | None => rest ← CutPrefix "mmcblk" s; '(a, r) ← many1 is_digit rest; Some ("mmcblk" +:+ a, r)
      end
  end.

Definition all_digits (s : string) : bool := negb (String.eqb s "") && forall_bytes is_digit s.

(** [(?:p?\d+)?$]. *)
Definition partition_suffix (s : string) : bool :=
  String.eqb s "" || all_digits s || match s with String "p" r => all_digits r | _ => false end.

(** [partitionRe.FindStringSubmatch(dev)[1]]: the disk of a disk or partition path. *)
Definition partition_parent (dev : string) : option string :=
  rest ← CutPrefix "/dev/" dev;
  '(name, suffix) ← disk_name rest;
  if partition_suffix suffix then Some ("/dev/" +:+ name) else None.

Example partition_samples :
  partition_parent "/dev/sda1" = Some "/dev/sda" ∧ partition_parent "/dev/nvme0n1p1" = Some "/dev/nvme0n1" ∧
  partition_parent "/dev/mmcblk0p1" = Some "/dev/mmcblk0" ∧ partition_parent "/dev/sdab" = Some "/dev/sdab" ∧
  partition_parent "/dev/mapper/vg-root" = None ∧ partition_parent "/dev/sda1x" = None ∧ partition_parent "/dev/dm-0" = None.
Proof. by split_and!; vm_compute. Qed.

(** The devices a device-mapper device is built on, from [/sys/class/block]. *)
Definition dmSlaves (EvalSymlinks : string → result string string) (ReadDir : string → result string (list string))
    (dev : string) : list string :=
  let real := match EvalSymlinks dev with Ok r => r | Err _ => dev end in
  match ReadDir (JoinPath (JoinPath "/sys/class/block" (Base real)) "slaves") with
  | Ok names => (λ n, "/dev/" +:+ n) <$> names
  | Err _ => []
  end.

Section Parents.
(** The devices a device-mapper device is built on. *)
Context (slaves : string → list string).

Definition add_disk (results : list string) (disk : string) : list string :=
  if bool_decide (disk ∈ results) then results else results ++ [disk].

(** [visit] with the devices seen and the disks found; [None]: out of fuel. *)
Fixpoint visit_dev (fuel : nat) (dev : string) (st : list string * list string) : option (list string * list string) :=
  match fuel with
  | O => None
  | S fuel' =>
      let '(seen, results) := st in
      if bool_decide (dev ∈ seen) then Some st
      else
        let seen := dev :: seen in
        match partition_parent dev with
        | Some disk => Some (seen, add_disk results disk)
        | None => foldl (λ acc slave, st ← acc; visit_dev fuel' slave st) (Some (seen, results)) (slaves dev)
        end
  end.

Definition parentDevices (fuel : nat) (device : string) : option (list string) := snd <$> visit_dev fuel device ([], []).
End Parents.

(** ** Reports *)

Record ata_attr := mkAta { ata_ID : Z; ata_Value : Z }.
Record nvme_log := mkNvme { CriticalWarning : Z; PercentageUsed : Z; MediaErrors : Z }.
Record smartctlOutput := mkSmartctl {
  SmartStatus : option bool; AtaSmartAttributes : option (list ata_attr); NvmeLog : option nvme_log; Temperature : option Z }.

Definition criticalATAAttrs (id : Z) : option string :=
  if id =? 5 then Some "Reallocated_Sector_Ct"
  else if id =? 197 then Some "Current_Pending_Sector"
  else if id =? 198 then Some "Offline_Uncorrectable"
  else if id =? 187 then Some "Reported_Uncorrect"
  else None.

(** What an ATA attribute adds. *)
Definition ata_finding (a : ata_attr) : option string :=
  match criticalATAAttrs (ata_ID a) with
  | Some name => if ata_Value a <=? 0 then None else Some (name +:+ " is " +:+ Itoa (ata_Value a) +:+ " (nonzero indicates degrading sectors)")
  | None => None
  end.

Definition nvme_findings (n : nvme_log) : list string :=
  (if CriticalWarning n =? 0 then [] else ["NVMe critical warning flags: 0x" +:+ hex (CriticalWarning n)]) ++
  (if 0 <? MediaErrors n then ["NVMe media errors: " +:+ Itoa (MediaErrors n)] else []) ++
  (if 90 <=? PercentageUsed n then ["NVMe endurance used: " +:+ Itoa (PercentageUsed n) +:+ "%"] else []).

Definition nvme_bad (n : nvme_log) : bool := negb (CriticalWarning n =? 0) || (0 <? MediaErrors n).

(** The report of a decoded output. *)
Definition smart_report (device : string) (out : smartctlOutput) : SmartReport :=
  let ata := match AtaSmartAttributes out with Some table => omap ata_finding table | None => [] end in
  let passed := match SmartStatus out with Some p => p | None => true end in
  let bad := match NvmeLog out with Some n => nvme_bad n | None => false end in
  let findings :=
    (if passed then [] else ["Overall SMART health check: FAILED"]) ++ ata ++
    (match NvmeLog out with Some n => nvme_findings n | None => [] end) ++
    (match Temperature out with Some t => if 0 <? t then ["Temperature: " +:+ Itoa t +:+ "°C"] else [] | None => [] end) in
  mkSmart device true (passed && (match ata with [] => true | _ => false end) && negb bad)
    (match findings with [] => ["No issues detected"] | _ => findings end).

(** The counters of a decoded output. *)
Definition ata_counter (attrs : gmap string Z) (a : ata_attr) : gmap string Z :=
  match criticalATAAttrs (ata_ID a) with Some name => <[name := ata_Value a]> attrs | None => attrs end.

Definition raw_attrs (out : smartctlOutput) : gmap string Z :=
  let attrs := match AtaSmartAttributes out with Some table => foldl ata_counter ∅ table | None => ∅ end in
  match NvmeLog out with Some n => <["NVMe_Wear_Pct" := PercentageUsed n]> attrs | None => attrs end.

Section Smartctl.
Context `{!MemStore M, !Json smartctlOutput}.
(** Whether [smartctl] is installed, and whether this is Linux without root. *)
Context (installed needs_sudo : bool) (slaves : string → list string) (fuel : nat).

Definition smartctl (args : list string) : list string :=
  if needs_sudo then ["sudo"; "-n"; "smartctl"] ++ args else "smartctl" :: args.

Definition checkSmartDevice (device : string) : W M SmartReport :=
  if negb installed then mret (mkSmart device false false [])
  else
    '(data, err) ← run_process (smartctl ["-H"; "-A"; "-j"; device]);
    if bool_decide (err ≠ None) && String.eqb data "" then mret (mkSmart device false false [])
    else
      let '(out, ok) := Unmarshal data zero in
      mret (if ok : bool then smart_report device out else mkSmart device false false []).

Fixpoint check_devices (devices : list string) : W M (list SmartReport) :=
  match devices with
  | [] => mret []
  | dev :: rest => r ← checkSmartDevice dev; rs ← check_devices rest; mret (r :: rs)
  end.

Definition CheckSmart (device : string) : W M (list SmartReport) :=
  check_devices (default [] (parentDevices slaves fuel device)).

Fixpoint collect_raw (seen : list string) (ds : list DiskStat) : W M (list RawSmartAttrs) :=
  match ds with
  | [] => mret []
  | d :: rest =>
      if String.eqb (Device d) "" || bool_decide (Device d ∈ seen) then collect_raw seen rest
      else
        '(data, err) ← run_process (smartctl ["-A"; "-j"; Device d]);
        rs ← collect_raw (Device d :: seen) rest;
        if bool_decide (err ≠ None) && String.eqb data "" then mret rs
        else
          let '(out, ok) := Unmarshal data zero in
          let attrs := if ok : bool then raw_attrs out else ∅ in
          mret (if bool_decide (attrs = ∅) then rs else mkRaw (Device d) attrs :: rs)
  end.

Definition CollectRawSmartAttrs (ds : list DiskStat) : W M (list RawSmartAttrs) :=
  if installed then collect_raw [] ds else mret [].

End Smartctl.

(** ** macOS *)

(** The fields of [Statfs_t] that are used; [m_local]: whether MNT_LOCAL is set. *)
Record statfs := mkStatfs {
  m_local : bool; Mntonname : string; Mntfromname : string; Bsize : Z; Blocks : Z; Bfree : Z; Fstypename : string }.

(** [count] and [mounts] are the two calls of [Getfsstat]. *)
Definition darwin_disks (count : result string Z) (mounts : result string (list statfs)) : result string (list DiskStat) :=
  match count with
  | Err e => Err ("disk_monitor: getfsstat count: " +:+ e)
  | Ok n =>
      if n =? 0 then Ok []
      else match mounts with
           | Err e => Err ("disk_monitor: getfsstat: " +:+ e)
           | Ok ms =>
               Ok ((λ m, mkDisk (Mntonname m) (Mntfromname m) (wrapu64 (Bsize m * Blocks m)) (wrapu64 (Bsize m * Bfree m)) (Fstypename m))
                     <$> filter (λ m, m_local m = true) ms)
           end
  end.

(** [partitionRe] of macOS. *)
Definition darwin_parent (device : string) : option string :=
  rest ← CutPrefix "/dev/disk" device;
  '(n, suffix) ← many1 is_digit rest;
  match suffix with String "s" part => if all_digits part then Some ("/dev/disk" +:+ n) else None | _ => None end.

Definition darwin_parentDevices (device : string) : list string :=
  if String.eqb device "" then [] else [match darwin_parent device with Some disk => disk | None => device end].

(** ** Windows *)

Record psPartition := mkPartition { DriveLetter : string; DiskNumber : Z }.
Record PSPhysicalDisk := mkPhysical {
  p_DeviceId : Z; FriendlyName : string; MediaType : string; HealthStatus : string; OperationalStatus : string }.
Record psReliabilityCounter := mkCounter { c_DeviceId : Z; c_Temperature : Z; Wear : Z; ReadErrorsTotal : Z; WriteErrorsTotal : Z }.

Definition psPartitionCmd : string :=
  "Get-Partition | Where-Object {$_.DriveLetter} | Select-Object DriveLetter, DiskNumber | ConvertTo-Json -Depth 1 -Compress".

Definition of_disk (diskNum : Z) (rest : string) : string :=
  "Get-PhysicalDisk | Where-Object {[string]$_.DeviceId -eq " +:+ String "034" (Itoa diskNum) +:+ String "034" "} | " +:+ rest.
Definition psGetPhysicalDiskCmd (diskNum : Z) : string :=
  of_disk diskNum "Select-Object DeviceId, FriendlyName, MediaType, HealthStatus, OperationalStatus | ConvertTo-Json -Depth 2 -Compress".
Definition psReliabilityCmd (diskNum : Z) : string :=
  of_disk diskNum ("Get-StorageReliabilityCounter | Select-Object DeviceId, Temperature, Wear, ReadErrorsTotal, WriteErrorsTotal | " +:+
                   "ConvertTo-Json -Depth 1 -Compress").

(** The letters and their disks, a later partition of a letter over an earlier one. *)
Definition letter_map (parts : list psPartition) : gmap string Z :=
  foldl (λ m p, if String.eqb (DriveLetter p) "" then m else <[ToUpper (DriveLetter p) := DiskNumber p]> m) ∅ parts.

Definition drive_letters : list string :=
  ["A"; "B"; "C"; "D"; "E"; "F"; "G"; "H"; "I"; "J"; "K"; "L"; "M"; "N"; "O"; "P"; "Q"; "R"; "S"; "T"; "U"; "V"; "W"; "X"; "Y"; "Z"].

(** [fixed root]: the total and the free bytes of a fixed drive whose space can be read. *)
Definition letter_disk (fixed : string → option (Z * Z)) (diskMap : gmap string Z) (letter : string) : option DiskStat :=
  let root := letter +:+ ":\" in
  '(total, free) ← fixed root;
  Some (mkDisk root (match diskMap !! letter with Some n => "PhysicalDrive" +:+ Itoa n | None => "" end) total free "").

Definition windows_parentDevices (device : string) : list string := if String.eqb device "" then [] else [device].

(** [fmt.Sscanf(s, "%d", &n)] on text without line breaks. *)
Definition scan_int (s : string) : option Z :=
  let s := TrimLeftFunc is_space s in
  let '(sign, body) := match s with String "-" r => (-1, r) | String "+" r => (1, r) | _ => (1, s) end in
  '(ds, _) ← many1 is_digit body;
  n ← digits 0 ds;
  if (min64 <=? sign * n) && (sign * n <=? max64) then Some (sign * n) else None.

Example scan_samples : scan_int "12 (x)" = Some 12 ∧ scan_int "-3" = Some (-3) ∧ scan_int "x" = None ∧ scan_int "" = None.
Proof. by split_and!; vm_compute. Qed.

Definition disk_number (device : string) : option Z := scan_int (TrimPrefix device "PhysicalDrive").

Definition PhysicalDiskToReport (d : PSPhysicalDisk) : SmartReport :=
  let healthy := String.eqb (HealthStatus d) "Healthy" in
  let findings :=
    (if healthy then [] else ["HealthStatus: " +:+ HealthStatus d]) ++
    (if String.eqb (OperationalStatus d) "OK" then [] else ["OperationalStatus: " +:+ OperationalStatus d]) ++
    (if String.eqb (MediaType d) "" || String.eqb (MediaType d) "Unspecified" then [] else ["MediaType: " +:+ MediaType d]) in
  mkSmart ("PhysicalDrive" +:+ Itoa (p_DeviceId d) +:+ " (" +:+ FriendlyName d +:+ ")") true healthy
    (match findings with [] => ["No issues detected"] | _ => findings end).

Section Windows.
Context `{!MemStore M, !Json (list psPartition), !Json (list PSPhysicalDisk), !Json (list psReliabilityCounter)}.

(** The rows of an answer; [None]: it does not decode. *)
Definition ps_rows {A} {J : Json (list A)} (data : string) : option (list A) :=
  match ps_array data with
  | None => Some []
  | Some doc => match Unmarshal doc zero with (rows, true) => Some rows | _ => None end
  end.

Definition driveLetterToDiskNumber : W M (gmap string Z) :=
  '(out, err) ← run_process (powershell "powershell.exe" psPartitionCmd);
  mret (match err with
        | Some _ => ∅
        | None => match ps_rows out with Some parts => letter_map parts | None => ∅ end
        end).

Definition windows_disks (fixed : string → option (Z * Z)) : W M (result string (list DiskStat)) :=
  diskMap ← driveLetterToDiskNumber;
  mret (Ok (omap (letter_disk fixed diskMap) drive_letters)).

Definition windows_CheckSmart (device : string) : W M (list SmartReport) :=
  match windows_parentDevices device with
  | [] => mret []
  | physical :: _ =>
      match disk_number physical with
      | None => mret []
      | Some n =>
          '(out, err) ← run_process (powershell "powershell.exe" (psGetPhysicalDiskCmd n));
          mret (if bool_decide (err ≠ None) && String.eqb out "" then []
                else match ps_rows out with Some ds => PhysicalDiskToReport <$> ds | None => [] end)
      end
  end.

(** [ParseReliabilityCounter]; [None]: no row, or one that does not decode. *)
Definition ParseReliabilityCounter (data : string) : option (gmap string Z) :=
  match ps_rows data with
  | Some (c :: _) =>
      Some {[ "Wear" := Wear c; "Temperature_C" := c_Temperature c; "ReadErrors" := ReadErrorsTotal c; "WriteErrors" := WriteErrorsTotal c ]}
  | _ => None
  end.

Fixpoint collect_counters (seen : list string) (ds : list DiskStat) : W M (list RawSmartAttrs) :=
  match ds with
  | [] => mret []
  | d :: rest =>
      if String.eqb (Device d) "" || bool_decide (Device d ∈ seen) then collect_counters seen rest
      else match disk_number (Device d) with
           | None => collect_counters (Device d :: seen) rest
           | Some n =>
               '(out, err) ← run_process (powershell "powershell.exe" (psReliabilityCmd n));
               rs ← collect_counters (Device d :: seen) rest;
               mret (if bool_decide (err ≠ None) && String.eqb out "" then rs
                     else match ParseReliabilityCounter out with Some attrs => mkRaw (Device d) attrs :: rs | None => rs end)
           end
  end.

Definition windows_CollectRawSmartAttrs (ds : list DiskStat) : W M (list RawSmartAttrs) := collect_counters [] ds.
End Windows.

End DiskProbes.
