(* ===== verification/DrivesFacts.v ===== *)
(** * Theorems on the disk survey: the search for large directories, the trends and the
    pre-check, the probes of the three systems *)

From Corelib Require Import SpecFloat.
From S2P Require Import Prelude GoStrings GoTime GoText GoDuration Rolling Json Memory MemStore World KeyStore Largest Drives.
From S2P Require Import DiskProbes.

Section LargestFacts.

Import Largest.

Ltac wrap_lia := unfold wrapu64, maxu64 in *; Z.div_mod_to_equations; lia.

(** ** Totals *)

Definition counted (i : nat) (c : dirNode) : Z := if bool_decide (parent c = Some i) then total c else 0.

(** The totals of the nodes right below [i]. *)
Definition below (ns : list dirNode) (i : nat) : Z := foldr (λ c sum, counted i c + sum) 0 ns.

Lemma below_app ns ms i : below (ns ++ ms) i = below ns i + below ms i.
Proof. unfold below. induction ns as [|n ns IH]; cbn [app foldr]; [cbn; lia|]. rewrite IH. lia. Qed.

Lemma below_insert ns j n n' i : ns !! j = Some n →
  below (<[j := n']> ns) i = below ns i + counted i n' - counted i n.
Proof.
  revert j. induction ns as [|m ns IH]; intros [|j] Hj; [done..| |].
  - injection Hj as ->. cbn. lia.
  - specialize (IH j Hj). change (<[S j := n']> (m :: ns)) with (m :: <[j := n']> ns). unfold below in *. cbn [foldr]. lia.
Qed.

(** Parents come first. *)
Definition ordered (ns : list dirNode) : Prop := ∀ i n p, ns !! i = Some n → parent n = Some p → (p < i)%nat.

Lemma below_none ns i : ordered ns → (length ns ≤ i)%nat → below ns i = 0.
Proof.
  intros Ho Hi. assert (∀ n, n ∈ ns → counted i n = 0) as Hc.
  { intros n [j Hj]%list_elem_of_lookup. unfold counted. destruct (bool_decide_reflect (parent n = Some i)) as [Hp|]; [|done].
    pose proof (Ho j n i Hj Hp). apply lookup_lt_Some in Hj. lia. }
  clear Ho Hi. unfold below. induction ns as [|n ns IH]; [done|]. cbn [foldr].
  rewrite IH by (intros; apply Hc; by constructor). rewrite (Hc n) by constructor. lia.
Qed.

Section Facts.
Context `{SL : !SortSlice}.
Context (ReadDir : string → result string (list DirEntry)) (deviceID : string → Z * bool) (ctx_err : nat → option string).

Abbreviation dirSelfSize := (dirSelfSize ReadDir).
Abbreviation explore := (explore ReadDir deviceID).
Abbreviation scan := (scan ReadDir deviceID ctx_err).

(** What a directory holds itself; nothing is counted for the root. *)
Definition own (n : dirNode) : Z := match parent n with Some _ => dirSelfSize (path n) | None => 0 end.

Definition in_u64 (n : Z) : Prop := 0 ≤ n ≤ maxu64.

Lemma self_size_range dir : in_u64 (dirSelfSize dir).
Proof.
  unfold Largest.dirSelfSize, in_u64. destruct (ReadDir dir) as [entries|]; [|unfold maxu64; lia].
  assert (∀ l sum, in_u64 sum → in_u64 (foldl (λ sum size, wrapu64 (sum + size)) sum l)) as H.
  { induction l as [|x l IH]; intros sum Hs; cbn; [done|]. apply IH. unfold in_u64. wrap_lia. }
  apply H. unfold in_u64, maxu64. lia.
Qed.

(** Every total is right, up to [d] still missing from the total of node [k]. *)
Definition off (k : option nat) (d : Z) (ns : list dirNode) : Prop := ∀ i n, ns !! i = Some n →
  in_u64 (total n) ∧ wrapu64 (total n + (if bool_decide (k = Some i) then d else 0)) = wrapu64 (own n + below ns i).
Definition balanced (ns : list dirNode) : Prop := ordered ns ∧ off None 0 ns.

Lemma insert_ordered ns i n size : ns !! i = Some n → ordered ns → ordered (<[i := add_total size n]> ns).
Proof.
  intros Hi Ho j m p Hj Hp. apply list_lookup_insert_Some in Hj as [(-> & <- & _)|[_ Hj]]; [|by eapply Ho].
  by apply (Ho j n p Hi).
Qed.

(** One step up: the debt moves to the parent. *)
Lemma insert_off ns i n size : ordered ns → ns !! i = Some n → off (Some i) size ns →
  off (parent n) size (<[i := add_total size n]> ns).
Proof.
  intros Ho Hi Hoff j m Hj. rewrite (below_insert ns i n) by done.
  assert (counted j (add_total size n) - counted j n = if bool_decide (parent n = Some j) then wrapu64 (total n + size) - total n else 0) as Hc.
  { unfold counted. cbn. destruct (bool_decide _); lia. }
  apply list_lookup_insert_Some in Hj as [(-> & <- & _)|[Hne Hj]].
  - destruct (Hoff j n Hi) as [Hr Hb]. rewrite bool_decide_eq_true_2 in Hb by done.
    rewrite bool_decide_eq_false_2 in Hc |- * by (intros Hp; specialize (Ho j n j Hi Hp); lia).
    change (own (add_total size n)) with (own n). cbn [total add_total]. split; [unfold in_u64; wrap_lia|].
    replace (own n + (below ns j + counted j (add_total size n) - counted j n)) with (own n + below ns j) by lia.
    rewrite <- Hb. wrap_lia.
  - destruct (Hoff j m Hj) as [Hr Hb]. rewrite bool_decide_eq_false_2 in Hb by congruence. split; [done|].
    destruct (bool_decide (parent n = Some j)); wrap_lia.
Qed.

Lemma propagate_length fuel i size ns : length (propagate fuel i size ns) = length ns.
Proof.
  revert i ns. induction fuel as [|fuel IH]; intros i ns; cbn; [done|]. destruct (ns !! i) as [n|]; [|done].
  destruct (parent n); [rewrite IH|]; by rewrite length_insert.
Qed.

Lemma propagate_balanced fuel i size ns : (i < fuel)%nat → (i < length ns)%nat → ordered ns → off (Some i) size ns →
  balanced (propagate fuel i size ns).
Proof.
  revert i ns. induction fuel as [|fuel IH]; intros i ns Hf Hl Ho Hoff; [lia|]. cbn.
  destruct (lookup_lt_is_Some_2 ns i Hl) as [n Hn]. rewrite Hn.
  pose proof (insert_ordered ns i n size Hn Ho) as Ho'. pose proof (insert_off ns i n size Ho Hn Hoff) as Hoff'.
  destruct (parent n) as [p|] eqn:Ep.
  - pose proof (Ho i n p Hn Ep). apply IH; [lia|rewrite length_insert; lia|done|done].
  - split; [done|]. intros j m Hj. specialize (Hoff' j m Hj). by rewrite !bool_decide_eq_false_2 in * by done.
Qed.

(** ** The invariant of the scan *)

Lemma add_child_balanced at_root i s child : (i < length (nodes s))%nat →
  parent child = Some i → total child = dirSelfSize (path child) → balanced (nodes s) →
  let s' := add_child at_root i s child in balanced (nodes s') ∧ (i < length (nodes s'))%nat.
Proof.
  intros Hi Hp Ht [Ho Hb]. cbn [nodes add_child]. rewrite propagate_length, length_app. split; [|cbn; lia].
  assert (ordered (nodes s ++ [child])) as Ho'.
  { intros j m p [Hj|[Hge Hj]]%lookup_app_Some Hm; [by eapply Ho|]. apply list_lookup_singleton_Some in Hj as [Hz <-]. simplify_eq. lia. }
  apply propagate_balanced; [lia|rewrite length_app; lia|done|].
  intros j m Hj. rewrite below_app. unfold below at 2. cbn [foldr]. unfold counted at 1. rewrite Hp.
  apply lookup_app_Some in Hj as [Hj|[Hge Hj]].
  - destruct (Hb j m Hj) as [Hr Hbj]. rewrite (bool_decide_eq_false_2 (None = _)) in Hbj by done. split; [done|].
    destruct (bool_decide (Some i = Some j)); wrap_lia.
  - apply list_lookup_singleton_Some in Hj as [Hz <-]. pose proof (self_size_range (path child)) as Hr. rewrite <- Ht in Hr.
    split; [done|]. rewrite bool_decide_eq_false_2 by (intros [= ->]; lia). rewrite (below_none (nodes s) j) by (done || lia).
    unfold own. rewrite Hp, Ht. f_equal; lia.
Qed.

Lemma scan_entry_child cur i e child : scan_entry ReadDir deviceID cur i e = Some (inl child) →
  parent child = Some i ∧ total child = dirSelfSize (path child).
Proof.
  unfold scan_entry. destruct (IsDir e); [|by destruct (regular_size e)]. destruct (_ && _); [done|].
  destruct (deviceID _) as [d ok]. destruct (_ && _); [done|]. by intros [= <-].
Qed.

Lemma cap_children_incl children c : c ∈ cap_children children → c ∈ children.
Proof.
  unfold cap_children. destruct (_ <? _)%nat; [|done]. intros Hc. rewrite <- (Slice_perm (λ a b, total b <? total a)).
  by eapply elem_of_sublist, sublist_take.
Qed.

Lemma add_children_balanced at_root i l s : (i < length (nodes s))%nat → balanced (nodes s) →
  (∀ c, c ∈ l → parent c = Some i ∧ total c = dirSelfSize (path c)) → balanced (nodes (foldl (add_child at_root i) s l)).
Proof.
  revert s. induction l as [|c l IH]; intros s Hi Hb Hc; [done|]. cbn. destruct (Hc c) as [Hp Ht]; [constructor|].
  destruct (add_child_balanced at_root i s c Hi Hp Ht Hb) as [Hb' Hi'].
  apply IH; [done..|]. intros c' Hc'. apply Hc. by constructor.
Qed.

Lemma explore_balanced s : balanced (nodes s) → balanced (nodes (explore s)).
Proof.
  intros Hb. unfold Largest.explore. destruct (SliceStable _ _) as [|i q]; [done|]. cbn [nodes].
  destruct (nodes s !! i) as [cur|] eqn:Hi; [|done]. destruct (ReadDir (path cur)) as [entries|]; [|done].
  apply add_children_balanced; [by eapply lookup_lt_Some|done|]. intros c Hc%cap_children_incl.
  unfold lefts in Hc. apply list_elem_of_omap in Hc as ([c'|] & Hin & [= ->]).
  apply list_elem_of_omap in Hin as (e & _ & He). by apply scan_entry_child in He.
Qed.

Lemma scan_balanced left s s' : scan left s = Ok s' → balanced (nodes s) → balanced (nodes s').
Proof.
  revert s. induction left as [|left IH]; intros s; cbn; [by intros [= ->]|]. destruct (queue s); [by intros [= ->]|].
  destruct (ctx_err _); [done|]. intros Hs Hb. apply (IH _ Hs). by apply explore_balanced.
Qed.

(** The totals add up: after a scan the total of every directory recorded is the
    size of the regular files in it (nothing for the root) plus the totals of the
    directories recorded right below it, modulo 2^64, whatever the order in which
    directories were opened and their sizes propagated. *)
Theorem totals_add_up root s : scan maxDirsExplored (start deviceID root) = Ok s →
  ∀ i n, nodes s !! i = Some n → total n = wrapu64 (own n + below (nodes s) i).
Proof.
  intros Hs i n Hn. apply scan_balanced in Hs as [_ Hb].
  - destruct (Hb i n Hn) as [Hr Hw]. rewrite bool_decide_eq_false_2 in Hw by done. rewrite <- Hw. unfold in_u64 in Hr. wrap_lia.
  - unfold start. destruct (deviceID root) as [d ok]. cbn. split.
    + intros [|j] m p Hj Hp; cbn in Hj; [by injection Hj as <-|done].
    + intros [|j] m Hj; cbn in Hj; [injection Hj as <-|done]. cbn. split; [unfold in_u64, maxu64; lia|done].
Qed.

(** ** The largest ones *)

Lemma ltb_order {A} (f : A → Z) :
  (∀ a b, (f b <? f a) = true → (f a <? f b) = false) ∧
  (∀ a b c, (f a <? f b) = false → (f b <? f c) = false → (f a <? f c) = false).
Proof. split; intros; lia. Qed.

Lemma largest_first {A} (f : A → Z) n l a b :
  a ∈ take n (Slice (λ x y, f y <? f x) l) → b ∈ l → b ∈ take n (Slice (λ x y, f y <? f x) l) ∨ f b ≤ f a.
Proof.
  intros Ha Hb. rewrite <- (Slice_perm (λ x y, f y <? f x) l) in Hb. rewrite <- (take_drop n (Slice _ l)) in Hb.
  apply elem_of_app in Hb as [Hb|Hb]; [by left|]. right. destruct (ltb_order f) as [H1 H2].
  pose proof (in_order_take _ n _ a b (Slice_in_order (λ x y, f y <? f x) l (λ a b, H1 a b) (λ a b c, H2 a b c)) Ha Hb) as H. by apply Z.ltb_ge in H.
Qed.

(** The answer is the largest of what was seen: at most [topN] directories and files,
    every one seen with its final total, and each directory or file seen that is not
    listed is no larger than any of those listed. *)
Theorem largest_listed root topN dirs fs s :
  scan maxDirsExplored (start deviceID root) = Ok s →
  TopLargest ReadDir deviceID ctx_err root topN = Ok (dirs, fs) →
  (length dirs ≤ topN)%nat ∧ (length fs ≤ topN)%nat ∧
  (∀ e, e ∈ fs → e ∈ files s) ∧ (∀ e x, e ∈ files s → x ∈ fs → e ∈ fs ∨ Size e ≤ Size x) ∧
  (∀ i n x, i ∈ candidates s → nodes s !! i = Some n → x ∈ dirs → mkEntry (path n) (total n) ∈ dirs ∨ total n ≤ Size x).
Proof.
  intros Hs. unfold TopLargest. rewrite Hs. intros [= <- <-]. unfold topNDirs, topNFiles. rewrite length_fmap, !length_take.
  split_and!; [lia|lia| | |].
  - intros e He. rewrite <- (Slice_perm (λ a b, Size b <? Size a)). by eapply elem_of_sublist, sublist_take.
  - intros e x He Hx. by apply (largest_first Size topN (files s) x e).
  - intros i n x Hi Hn (j & -> & Hj)%list_elem_of_fmap. cbn [Size].
    destruct (largest_first (total_of (nodes s)) topN (candidates s) j i Hj Hi) as [Hin|Hle].
    + left. apply list_elem_of_fmap. exists i. split; [|done]. unfold total_of. by rewrite Hn.
    + right. unfold total_of at 1 in Hle. by rewrite Hn in Hle.
Qed.

End Facts.

End LargestFacts.

Import Drives.

(** ** Histories *)

Definition disk_rolling : list DiskSample → Prop := Rolling.rolling d_Time trendMinInterval trendMaxAge.
Definition attr_rolling : list SmartAttrSample → Prop := Rolling.rolling a_Time smartTrendMinInterval smartTrendMaxAge.

Definition disks_rolling (trends : gmap string DiskTrend) : Prop := map_Forall (λ _ t, disk_rolling (Samples t)) trends.
Definition devices_rolling (trends : gmap string SmartDeviceTrend) : Prop :=
  map_Forall (λ _ t, map_Forall (λ _ a, attr_rolling (a_Samples a)) (dt_Attrs t)) trends.

Lemma lookup_rolling (trends : gmap string DiskTrend) key : disks_rolling trends →
  disk_rolling (match trends !! key with Some e => Samples e | None => [] end).
Proof. intros H. destruct (trends !! key) as [t|] eqn:E; [by apply (H key)|apply Rolling.rolling_nil]. Qed.

Lemma record_disk_rolling now trends d : disks_rolling trends → disks_rolling (record_disk now trends d).
Proof.
  intros H. unfold record_disk. destruct (Rolling.too_recent _ _ _ _) eqn:Er; [done|].
  apply map_Forall_insert_2; [|done]. cbn. apply Rolling.rolling_append; [done..| |done].
  by apply lookup_rolling.
Qed.

Lemma record_attr_rolling now name v attrs : map_Forall (λ _ a, attr_rolling (a_Samples a)) attrs →
  map_Forall (λ _ a, attr_rolling (a_Samples a)) (record_attr now name v attrs).
Proof.
  intros H. unfold record_attr. destruct (Rolling.too_recent _ _ _ _) eqn:Er; [done|].
  apply map_Forall_insert_2; [|done]. cbn. apply Rolling.rolling_append; [done..| |done].
  destruct (attrs !! name) as [t|] eqn:E; [by apply (H name)|apply Rolling.rolling_nil].
Qed.

Lemma record_device_rolling now trends r : devices_rolling trends → devices_rolling (record_device now trends r).
Proof.
  intros H. unfold record_device. destruct (_ || _); [done|]. apply map_Forall_insert_2; [|done]. cbn.
  apply (map_fold_weak_ind (λ attrs _, map_Forall (λ _ a, attr_rolling (a_Samples a)) attrs)).
  - destruct (trends !! sanitizeMount (r_Device r)) as [t|] eqn:E; [exact (H _ _ E)|apply map_Forall_empty].
  - intros name v m attrs _ Ha. by apply record_attr_rolling.
Qed.

(** ** Collapsing mounts *)

Lemma dedupe_into_incl out d x : x ∈ dedupe_into out d → x ∈ out ∨ x = d.
Proof.
  induction out as [|o out IH]; cbn; [set_solver|]. destruct (sameStorage o d).
  - destruct (_ && _); set_solver.
  - set_solver.
Qed.

Lemma sameStorage_total a b : sameStorage a b = true → Total a = Total b.
Proof. unfold sameStorage. destruct (Z.eqb_spec (Total a) (Total b)); [done|]. by rewrite orb_true_r. Qed.

Lemma dedupe_into_new out d : ∃ x, x ∈ dedupe_into out d ∧ Total x = Total d.
Proof.
  induction out as [|o out (x & Hx & Ht)]; cbn; [exists d; set_solver|]. destruct (sameStorage o d) eqn:E.
  - apply sameStorage_total in E. destruct (_ && _); [exists d|exists o]; set_solver.
  - exists x. set_solver.
Qed.

Lemma dedupe_into_kept out d o : o ∈ out → ∃ x, x ∈ dedupe_into out d ∧ Total x = Total o.
Proof.
  induction out as [|a out IH]; cbn; [set_solver|]. destruct (sameStorage a d) eqn:E; intros [-> |Ho]%elem_of_cons.
  - apply sameStorage_total in E. destruct (_ && _); [exists d|exists a]; set_solver.
  - exists o. set_solver.
  - exists a. set_solver.
  - destruct (IH Ho) as (x & Hx & Ht). exists x. set_solver.
Qed.

(** Nothing is invented, and no capacity disappears. *)
Lemma dedupe_subset ds d : d ∈ DedupeDisks ds → d ∈ ds ∧ FSType d ≠ "devfs".
Proof.
  unfold DedupeDisks. assert (∀ out, d ∈ foldl (λ out d, if String.eqb (FSType d) "devfs" then out else dedupe_into out d) out ds →
    d ∈ out ∨ (d ∈ ds ∧ FSType d ≠ "devfs")) as H.
  { induction ds as [|a ds IH]; intros out Hd; cbn in *; [by left|]. apply IH in Hd as [Hd|[? ?]]; [|set_solver].
    destruct (String.eqb_spec (FSType a) "devfs"); [by left|]. apply dedupe_into_incl in Hd as [?| ->]; set_solver. }
  intros [Hd|?]%H; [by apply elem_of_nil in Hd|done].
Qed.

Lemma dedupe_total ds d : d ∈ ds → FSType d ≠ "devfs" → ∃ x, x ∈ DedupeDisks ds ∧ Total x = Total d.
Proof.
  unfold DedupeDisks. set (f := λ out d, _).
  assert (∀ l out n, (∃ x, x ∈ out ∧ Total x = n) → ∃ x, x ∈ foldl f out l ∧ Total x = n) as Hk.
  { induction l as [|a l IH]; intros out n H; cbn; [done|]. apply IH. unfold f. destruct (String.eqb _ _); [done|].
    destruct H as (x & Hx & <-). by apply dedupe_into_kept. }
  generalize (@nil DiskStat). induction ds as [|a ds IH]; intros out Hd Hf; [by apply elem_of_nil in Hd|].
  apply elem_of_cons in Hd as [-> |Hd]; cbn; [|by apply IH]. apply Hk. unfold f at 1.
  destruct (String.eqb_spec (FSType a) "devfs"); [done|]. apply dedupe_into_new.
Qed.

Section Survey.
Context `{SL : !SortSlice, RJ : !RawJson, JS : !Json SkillState.State, JD : !Json (gmap string DiskTrend), JA : !Json (gmap string SmartDeviceTrend), MS : !MemStore M}.
Context (zone : Z → Z).
Context (localDisks : W M (result string (list DiskStat))) (CheckSmart : string → W M (list SmartReport)).
Context (CollectRawSmartAttrs : list DiskStat → W M (list RawSmartAttrs)).
Context (ReadDir : string → result string (list Largest.DirEntry)) (deviceID : string → Z * bool) (ctx_err : nat → nat → option string).
Context (visit : gmap string DiskTrend → list DiskTrend).
Context (visit_smart : gmap string SmartDeviceTrend → list (string * string * SmartAttrTrend)).

Abbreviation stored m := (key_value (V := gmap string DiskTrend) DiskTrendsDomain TrendAttrsKey m).
Abbreviation stored_smart m := (key_value (V := gmap string SmartDeviceTrend) DiskTrendsDomain SmartTrendAttrsKey m).

(** ** Bounds *)

Definition small_trends (trends : gmap string DiskTrend) : Prop := ∀ key t, trends !! key = Some t → (length (Samples t) ≤ 337)%nat.
Definition small_smart (smart : gmap string SmartDeviceTrend) : Prop :=
  ∀ key dev name a, smart !! key = Some dev → dt_Attrs dev !! name = Some a → (length (a_Samples a) ≤ 721)%nat.

Lemma rolling_small trends : disks_rolling trends → small_trends trends.
Proof.
  intros Ht key t E. pose proof (Rolling.rolling_length d_Time trendMinInterval trendMaxAge ltac:(done) ltac:(done) _ (Ht _ _ E)) as Hl.
  change (trendMaxAge / trendMinInterval + 1) with 337 in Hl. lia.
Qed.

Lemma rolling_smart smart : devices_rolling smart → small_smart smart.
Proof.
  intros Hv key dev name a E Ea. pose proof (Rolling.rolling_length a_Time smartTrendMinInterval smartTrendMaxAge ltac:(done) ltac:(done) _ (Hv _ _ E _ _ Ea)) as Hl.
  change (smartTrendMaxAge / smartTrendMinInterval + 1) with 721 in Hl. lia.
Qed.

Context `{RT : !RawTotal M, ML : !MemStoreLaws M, RD : !JsonRoundtrip (gmap string DiskTrend), RA : !JsonRoundtrip (gmap string SmartDeviceTrend)}.
Context `{CD : !JsonCompact (gmap string DiskTrend), CA : !JsonCompact (gmap string SmartDeviceTrend)}.

(** The histories stored are spaced and not too old. *)
Definition trends_rolling (m : M) : Prop := disks_rolling (stored m).1 ∧ devices_rolling (stored_smart m).1.

(** One recording, with what it returns to the survey, or anything else that leaves the
    keys of the domain alone. *)
Inductive recording (w w' : world M) : Prop :=
| recording_disks ds now trends e : in64 (w_clock w (w_ticks w)) →
    RecordSamples ds now w = ((trends, e), w') → recording w w'
| recording_smart raw now smart e : in64 (w_clock w (w_ticks w)) →
    RecordSmartSamples raw now w = ((smart, e), w') → recording w w'
| recording_other : mem_ok (w_mem w') → keys_of DiskTrendsDomain (w_mem w') = keys_of DiskTrendsDomain (w_mem w) → recording w w'.

Lemma record_samples_rolling ds now w trends e w' : in64 (w_clock w (w_ticks w)) → mem_ok (w_mem w) →
  RecordSamples ds now w = ((trends, e), w') → trends_rolling (w_mem w) →
  disks_rolling trends ∧ mem_ok (w_mem w') ∧ trends_rolling (w_mem w').
Proof.
  intros Hc Hm Hr [Hd Hs]. unfold RecordSamples, mbind, W_bind in Hr. rewrite get_key_run in Hr.
  destruct (stored (w_mem w)) as [t0 ok] eqn:E0. destruct (set_key _ _ _ w) as [e1 w1] eqn:Es. unfold mret, W_ret in Hr. injection Hr as <- <- <-.
  assert (disks_rolling (foldl (record_disk now) t0 ds)) as Ht.
  { apply Rolling.fold_invariant; [|done]. intros. by apply record_disk_rolling. }
  destruct (set_key_or _ _ _ _ _ _ Es Hc Hm) as (Hm' & _ & Hk & Ho). split_and!; [done|done|]. unfold trends_rolling.
  rewrite (Ho _ JA SmartTrendAttrsKey CA) by done. split; [|done]. destruct Hk as [->|[_ ->]]; [by rewrite E0|done].
Qed.

Lemma record_smart_rolling raw now w smart e w' : in64 (w_clock w (w_ticks w)) → mem_ok (w_mem w) →
  RecordSmartSamples raw now w = ((smart, e), w') → trends_rolling (w_mem w) →
  devices_rolling smart ∧ mem_ok (w_mem w') ∧ trends_rolling (w_mem w').
Proof.
  intros Hc Hm Hr [Hd Hs]. unfold RecordSmartSamples, mbind, W_bind in Hr. rewrite get_key_run in Hr.
  destruct (stored_smart (w_mem w)) as [t0 ok] eqn:E0. destruct (set_key _ _ _ w) as [e1 w1] eqn:Es. unfold mret, W_ret in Hr. injection Hr as <- <- <-.
  assert (devices_rolling (foldl (record_device now) t0 raw)) as Ht.
  { apply Rolling.fold_invariant; [|done]. intros. by apply record_device_rolling. }
  destruct (set_key_or _ _ _ _ _ _ Es Hc Hm) as (Hm' & _ & Hk & Ho). split_and!; [done|done|]. unfold trends_rolling.
  rewrite (Ho _ JD TrendAttrsKey CD) by done. split; [done|]. destruct Hk as [->|[_ ->]]; [by rewrite E0|done].
Qed.

Lemma recording_rolling w w' : recording w w' → mem_ok (w_mem w) ∧ trends_rolling (w_mem w) → mem_ok (w_mem w') ∧ trends_rolling (w_mem w').
Proof.
  intros [ds now trends e Hc Hr|raw now smart e Hc Hr|Hm' Hk] [Hm Ht].
  - by apply (record_samples_rolling ds now w trends e w').
  - by apply (record_smart_rolling raw now w smart e w').
  - split; [done|]. unfold trends_rolling, key_value. by rewrite Hk.
Qed.

(** C33. The trend histories stored stay small for ever: from a memory whose samples are
    at least half an hour apart over at most seven days (hourly over thirty for SMART),
    such as one without any, they are so after any number of recordings, whatever the
    clock does and whichever writes fail, which leaves at most 337 samples of a mount and
    721 of a SMART attribute; and the histories a further recording hands to the survey are
    bounded likewise. *)
Theorem trend_histories_bounded w0 w :
  mem_ok (w_mem w0) → trends_rolling (w_mem w0) → rtc recording w0 w →
  trends_rolling (w_mem w) ∧ small_trends (stored (w_mem w)).1 ∧ small_smart (stored_smart (w_mem w)).1 ∧
  (in64 (w_clock w (w_ticks w)) → ∀ ds raw now,
    small_trends (RecordSamples ds now w).1.1 ∧ small_smart (RecordSmartSamples raw now w).1.1).
Proof.
  intros Hm0 Ht0 Hrun.
  destruct (rtc_preserves recording (λ w, mem_ok (w_mem w) ∧ trends_rolling (w_mem w)) w0 w recording_rolling Hrun) as [Hm Ht]; [done|].
  split; [done|]. split; [by apply rolling_small; destruct Ht|]. split; [by apply rolling_smart; destruct Ht|]. intros Hc ds raw now. split.
  - destruct (RecordSamples ds now w) as [[trends e] w'] eqn:E. cbn. by apply rolling_small, (record_samples_rolling ds now w trends e w').
  - destruct (RecordSmartSamples raw now w) as [[smart e] w'] eqn:E. cbn. by apply rolling_smart, (record_smart_rolling raw now w smart e w').
Qed.

(** ** Mounts that share a key *)

Lemma recorded_recent now trends d :
  let t := record_disk now trends d in
  Rolling.too_recent d_Time trendMinInterval now
    (match t !! sanitizeMount (Mount d) with Some e => Samples e | None => [] end) = true.
Proof.
  cbv zeta. unfold record_disk. set (s := mkSample _ _ _ _).
  set (l := match trends !! sanitizeMount (Mount d) with Some e => Samples e | None => [] end).
  destruct (Rolling.too_recent d_Time trendMinInterval now l) eqn:Er; [done|]. rewrite lookup_insert_eq. cbn [Samples].
  by apply Rolling.appended_recent.
Qed.

(** Two mounts whose paths differ only in slashes, backslashes, colons and
    underscores share one history, and of a survey that sees both the second leaves
    no trace: its usage is never recorded and its growth never seen. *)
Theorem mount_collision_masks now trends d1 d2 :
  sanitizeMount (Mount d1) = sanitizeMount (Mount d2) →
  foldl (record_disk now) trends [d1; d2] = record_disk now trends d1.
Proof.
  intros E. cbn [foldl]. pose proof (recorded_recent now trends d1) as H. cbv zeta in H. rewrite E in H.
  unfold record_disk at 1. by rewrite H.
Qed.

(** ** The pre-check *)

(** A disk with nothing to report. *)
Definition fine (smart : gmap string (list SmartReport)) (d : DiskStat) : Prop :=
  Float.geb (UsedPct d) usedPctWarning = false ∧ Float.geb (UsedPct d) usedPctCritical = false ∧
  ∀ sr, sr ∈ default [] (smart !! Device d) → Available sr = true → Healthy sr = true.

Lemma disks_fine ds smart : (diskHealth ds smart).1 = "ok" → ∀ d, d ∈ ds → fine smart d.
Proof.
  unfold diskHealth. rewrite verdict_ok, !concat_nil. intros [Hc Hw] d Hd.
  assert (disk_criticals smart d = []) as H1 by (by apply Hc, list_elem_of_fmap_2).
  assert (disk_warnings d = []) as H2 by (by apply Hw, list_elem_of_fmap_2).
  unfold disk_criticals, disk_warnings in *. destruct (Float.geb (UsedPct d) usedPctCritical) eqn:Ec; [done|].
  destruct (Float.geb (UsedPct d) usedPctWarning) eqn:E; [done|]. split_and!; [done..|]. intros sr Hsr Ha.
  apply app_eq_nil in H1 as [_ H1]. apply fmap_nil_inv in H1. destruct (Healthy sr) eqn:Eh; [done|].
  destruct (filter_none _ _ _ H1 Hsr). by rewrite Ha, Eh.
Qed.

Lemma trends_fine entries : (TrendHealth entries).1 = "ok" → ∀ t, t ∈ entries → fills_within trendWarningDays t = false.
Proof.
  unfold TrendHealth. rewrite verdict_ok. intros [Hc%fmap_nil_inv Hw%fmap_nil_inv] t Ht.
  pose proof (filter_none _ _ _ Hc Ht) as H1. pose proof (filter_none _ _ _ Hw Ht) as H2. cbn in H1, H2.
  destruct (fills_within trendWarningDays t); [|done]. by destruct (fills_within trendCriticalDays t).
Qed.

Lemma attrs_fine entries : (SmartTrendHealth entries).1 = "ok" →
  ∀ device name t, (device, name, t) ∈ entries → attr_issue device name t = None.
Proof.
  unfold SmartTrendHealth. rewrite verdict_ok. intros [Hc%fmap_nil_inv Hw%fmap_nil_inv] device name t Ht.
  destruct (attr_issue device name t) as [[c label]|] eqn:E; [|done]. exfalso.
  set (issues := omap _ entries) in *.
  assert ((c, label) ∈ issues) as Hi. { apply list_elem_of_omap. by exists (device, name, t). }
  destruct c; [by apply (filter_none _ _ _ Hc Hi)|by apply (filter_none _ _ _ Hw Hi)].
Qed.

(** C32. The model is left out only when there is nothing to tell: if the loops over the
    recorded maps visit every entry and the pre-check says so without an error, the
    mounts were read, and, unless none is left after collapsing, no disk is at 80 % or
    more or has a failed SMART report, no mount recorded both grows by more than 10/7 % a
    day and is forecast to reach 90 % in less than thirty days, and no SMART attribute
    recorded has an issue. *)
Theorem quiet_precheck_is_healthy w text w' :
  (∀ trends key t, trends !! key = Some t → t ∈ visit trends) →
  (∀ trends key dev name t, trends !! key = Some dev → dt_Attrs dev !! name = Some t → (dt_Device dev, name, t) ∈ visit_smart trends) →
  pre_check zone localDisks CheckSmart CollectRawSmartAttrs ReadDir deviceID ctx_err visit visit_smart w = ((false, text, None), w') →
  ∃ all w1, localDisks w = (Ok all, w1) ∧
    (DedupeDisks all = [] ∨
     ∃ smart w2 trends e1 w3 raw w4 attrs e2 w5, collectSmartReports CheckSmart (DedupeDisks all) w1 = (smart, w2) ∧
       RecordSamples (DedupeDisks all) (now_ w2).1 (now_ w2).2 = ((trends, e1), w3) ∧
       CollectRawSmartAttrs (DedupeDisks all) w3 = (raw, w4) ∧
       RecordSmartSamples raw (now_ w4).1 (now_ w4).2 = ((attrs, e2), w5) ∧
       (∀ d, d ∈ DedupeDisks all → fine smart d) ∧
       (∀ key t, trends !! key = Some t → fills_within trendWarningDays t = false) ∧
       (∀ key dev name t, attrs !! key = Some dev → dt_Attrs dev !! name = Some t → attr_issue (dt_Device dev) name t = None)).
Proof.
  intros Hvisit Hsmart. unfold pre_check, runCheck, mbind, W_bind.
  destruct (localDisks w) as [[all|e] w1]; [|by destruct (save _ _ _ w1)]. intros H. exists all, w1. split; [done|].
  destruct (DedupeDisks all) as [|d0 ds]; [by left|]. right. set (l := d0 :: ds) in *.
  destruct (collectSmartReports CheckSmart l w1) as [smart w2]. destruct (now_ w2) as [now w2'] eqn:Hn.
  destruct (RecordSamples l now w2') as [[trends e1] w3] eqn:Hr. destruct (CollectRawSmartAttrs l w3) as [raw w4] eqn:Hraw.
  destruct (now_ w4) as [now' w4'] eqn:Hn'. destruct (RecordSmartSamples raw now' w4') as [[attrs e2] w5] eqn:Ha.
  set (v := worse _ _) in H. destruct (save zone v.1 v.2 w5) as [[] w6]. cbn in H.
  destruct (String.eqb_spec v.1 "ok") as [E|]; [|done].
  apply worse_ok in E as [E E3]; [apply worse_ok in E as [E1 E2]|..]; try apply worse_cases; try apply verdict_cases.
  exists smart, w2, trends, e1, w3, raw, w4, attrs, e2, w5. rewrite Hn, Hn'. cbn [fst snd]. split_and!; [done..|by apply disks_fine| |].
  - intros key t Ht. apply (trends_fine (visit trends)); [done|]. by apply (Hvisit trends key).
  - intros key dev name t Hd Ht. apply (attrs_fine (visit_smart attrs)); [done|]. by apply (Hsmart attrs key).
Qed.
End Survey.

Section DiskProbesFacts.

Import Drives DiskProbes.

(** ** Mounts *)

Section Mounts.
Context (Statfs : string → option (Z * Z * Z)).

Definition distinct_mounts (acc : list string * list DiskStat) : Prop :=
  NoDup (Mount <$> acc.2) ∧ ∀ d, d ∈ acc.2 → Mount d ∈ acc.1 ∧ FSType d ∈ localFSTypes.

Lemma mount_line_distinct acc line : distinct_mounts acc → distinct_mounts (mount_line Statfs acc line).
Proof.
  destruct acc as [seen ds]. intros [Hnd Hin]. cbn in *. unfold mount_line.
  destruct (Fields line) as [|device [|mount [|fsType rest]]]; [by split..|].
  destruct (bool_decide_reflect (fsType ∈ localFSTypes)) as [Hf|]; [|by split].
  destruct (bool_decide_reflect (mount ∈ seen)) as [|Hs]; [by split|]. cbn [andb negb].
  destruct (Statfs mount) as [[[bsize blocks] bfree]|]; unfold distinct_mounts; cbn [fst snd].
  - split.
    + rewrite fmap_app. apply NoDup_app. split_and!; [done| |apply NoDup_singleton].
      intros m (d & -> & Hd)%list_elem_of_fmap [= E]%list_elem_of_singleton. cbn in E. apply Hs. rewrite <- E. by apply Hin.
    + intros d [Hd|Hd]%elem_of_app; [destruct (Hin d Hd); split; [by constructor|done]|].
      apply list_elem_of_singleton in Hd as ->. split; [constructor|done].
  - split; [done|]. intros d Hd. destruct (Hin d Hd). split; [by constructor|done].
Qed.

Lemma linux_disks_distinct mounts ds : linux_disks Statfs mounts = Ok ds →
  NoDup (Mount <$> ds) ∧ ∀ d, d ∈ ds → FSType d ∈ localFSTypes.
Proof.
  unfold linux_disks. destruct mounts as [text|]; [|done]. destruct (scan_overflows text); [done|]. intros [= <-].
  assert (∀ l acc, distinct_mounts acc → distinct_mounts (foldl (mount_line Statfs) acc l)) as H.
  { induction l as [|x l IH]; intros acc Ha; cbn; [done|]. by apply IH, mount_line_distinct. }
  destruct (H (ScanLines text) ([], [])) as [Hn Hi].
  - split; [constructor|]. intros d Hd. by apply elem_of_nil in Hd.
  - split; [done|]. intros d Hd. by apply Hi.
Qed.
End Mounts.

(** ** Physical disks *)

Section Parents.
Context (slaves : string → list string).

(** The devices of [devices] not seen yet. *)
Definition unseen (devices seen : list string) : nat := length (filter (λ d, d ∉ seen) devices).

Lemma unseen_mono devices seen seen' : (∀ d, d ∈ seen → d ∈ seen') → (unseen devices seen' ≤ unseen devices seen)%nat.
Proof.
  intros H. unfold unseen. induction devices as [|d l IH]; [done|]. rewrite !filter_cons.
  destruct (decide (d ∉ seen')), (decide (d ∉ seen)); cbn; try lia. exfalso. naive_solver.
Qed.

Lemma unseen_cons devices seen d : d ∈ devices → d ∉ seen → (unseen devices (d :: seen) < unseen devices seen)%nat.
Proof.
  intros Hd Hs. unfold unseen. induction devices as [|x l IH]; [by apply elem_of_nil in Hd|]. rewrite !filter_cons.
  pose proof (unseen_mono l seen (d :: seen) ltac:(intros; by constructor)) as Hm. unfold unseen in Hm.
  apply elem_of_cons in Hd as [-> |Hd].
  - rewrite decide_False by (intros []; constructor). rewrite decide_True by done. cbn. lia.
  - specialize (IH Hd). destruct (decide (x ∉ d :: seen)) as [Hx|Hx], (decide (x ∉ seen)) as [Hy|Hy]; cbn; try lia.
    exfalso. apply Hy. intros Hin. apply Hx. by constructor.
Qed.

(** The devices are closed under the mappings. *)
Definition closed (devices : list string) : Prop := ∀ d s, d ∈ devices → s ∈ slaves d → s ∈ devices.

Lemma visit_total devices fuel dev seen results : closed devices → dev ∈ devices → (unseen devices seen < fuel)%nat →
  ∃ seen' results', visit_dev slaves fuel dev (seen, results) = Some (seen', results') ∧ (∀ d, d ∈ seen → d ∈ seen').
Proof.
  intros Hc. revert dev seen results. induction fuel as [|fuel IH]; intros dev seen results Hd Hf; [lia|]. cbn.
  destruct (bool_decide_reflect (dev ∈ seen)) as [|Hs]; [by exists seen, results|].
  destruct (partition_parent dev) as [disk|]; [exists (dev :: seen); eexists; split; [done|]; by constructor|].
  pose proof (unseen_cons devices seen dev Hd Hs) as Hlt.
  assert (∀ l seen1 results1, (∀ s, s ∈ l → s ∈ devices) → (∀ d, d ∈ dev :: seen → d ∈ seen1) →
    ∃ seen' results', foldl (λ acc slave, st ← acc; visit_dev slaves fuel slave st) (Some (seen1, results1)) l = Some (seen', results') ∧
      (∀ d, d ∈ seen1 → d ∈ seen')) as Hl.
  { induction l as [|s l IHl]; intros seen1 results1 Hs1 Hsub; cbn; [by exists seen1, results1|].
    destruct (IH s seen1 results1) as (seen2 & results2 & -> & H2).
    - apply Hs1. constructor.
    - pose proof (unseen_mono devices (dev :: seen) seen1 Hsub). lia.
    - destruct (IHl seen2 results2) as (seen3 & results3 & -> & H3); [intros; apply Hs1; by constructor|auto|].
      exists seen3, results3. split; [done|]. auto. }
  destruct (Hl (slaves dev) (dev :: seen) results) as (seen' & results' & -> & H'); [intros s; by apply Hc|done|].
  exists seen', results'. split; [done|]. intros d Hd'. apply H'. by constructor.
Qed.

(** The search for the physical disks under a device ends, cycles of the mappings
    included: for a closed set of devices, one step more than there are devices is
    enough fuel, whatever the mappings. *)
Theorem parents_terminate devices fuel device : closed devices → device ∈ devices → (length devices < fuel)%nat →
  ∃ disks, parentDevices slaves fuel device = Some disks.
Proof.
  intros Hc Hd Hf. unfold parentDevices.
  destruct (visit_total devices fuel device [] [] Hc Hd) as (seen & disks & -> & _); [|by exists disks].
  unfold unseen. pose proof (length_filter (λ d, d ∉ []) devices). lia.
Qed.

End Parents.

(** ** Reports *)

(** An attribute of a table is degraded: a critical one with a positive count. *)
Definition degraded (a : ata_attr) : Prop := criticalATAAttrs (ata_ID a) ≠ None ∧ 0 < ata_Value a.

Lemma ata_finding_none a : ata_finding a = None ↔ ¬ degraded a.
Proof.
  unfold ata_finding, degraded. destruct (criticalATAAttrs (ata_ID a)) as [name|]; [|naive_solver].
  destruct (Z.leb_spec (ata_Value a) 0); split; try done; [intros _ [_ ?]; lia|intros Hn; exfalso; apply Hn; by split].
Qed.

Lemma omap_nil_iff {A B} (f : A → option B) l : omap f l = [] ↔ ∀ x, x ∈ l → f x = None.
Proof.
  split.
  - intros E x Hx. destruct (f x) as [b|] eqn:Ef; [|done]. exfalso.
    assert (b ∈ omap f l) as Hb by (apply list_elem_of_omap; by exists x). rewrite E in Hb. by apply elem_of_nil in Hb.
  - intros H. apply elem_of_nil_inv. intros b (x & Hx & Hf)%list_elem_of_omap. by rewrite (H x Hx) in Hf.
Qed.

(** A disk is reported healthy exactly when its overall assessment passed or is
    missing, no critical ATA attribute counts a sector, and the NVMe log, if there is
    one, has no critical warning and no media errors. *)
Theorem smart_healthy_exact device out :
  Healthy (smart_report device out) = true ↔
  SmartStatus out ≠ Some false ∧
  (∀ table a, AtaSmartAttributes out = Some table → a ∈ table → ¬ degraded a) ∧
  (∀ n, NvmeLog out = Some n → CriticalWarning n = 0 ∧ MediaErrors n ≤ 0).
Proof.
  cbn [smart_report Healthy]. rewrite !andb_true_iff. rewrite negb_true_iff.
  assert ((match SmartStatus out with Some p => p | None => true end) = true ↔ SmartStatus out ≠ Some false) as ->.
  { destruct (SmartStatus out) as [[]|]; naive_solver. }
  assert ((match NvmeLog out with Some n => nvme_bad n | None => false end) = false ↔
    ∀ n, NvmeLog out = Some n → CriticalWarning n = 0 ∧ MediaErrors n ≤ 0) as ->.
  { destruct (NvmeLog out) as [n|]; [|done]. unfold nvme_bad. rewrite orb_false_iff, negb_false_iff. split.
    - intros [? ?] m [= <-]. lia.
    - intros H. destruct (H n eq_refl). lia. }
  set (ata := match AtaSmartAttributes out with Some table => omap ata_finding table | None => [] end).
  assert ((match ata with [] => true | _ => false end) = true ↔
    ∀ table a, AtaSmartAttributes out = Some table → a ∈ table → ¬ degraded a) as ->; [|naive_solver].
  assert ((match ata with [] => true | _ => false end) = true ↔ ata = []) as -> by (by destruct ata). subst ata.
  destruct (AtaSmartAttributes out) as [table|]; [|naive_solver]. rewrite omap_nil_iff. split.
  - intros H t a [= <-] Ha. apply ata_finding_none. by apply H.
  - intros H a Ha. apply ata_finding_none. by apply (H table).
Qed.

(** ** macOS and Windows *)

(** A partition of macOS is checked through its disk. *)
Theorem darwin_partition n k : all_digits n = true → all_digits k = true →
  darwin_parentDevices ("/dev/disk" +:+ n +:+ "s" +:+ k) = ["/dev/disk" +:+ n].
Proof.
  intros [Hn0 Hn]%andb_true_iff Hk. unfold darwin_parentDevices, darwin_parent.
  rewrite CutPrefix_append. cbn [mbind option_bind]. unfold many1. rewrite span_all by done.
  destruct n as [|c n]; [done|]. change ("s" +:+ k) with (String "s" k). cbn [mbind option_bind fst snd]. by rewrite Hk.
Qed.

(** A drive of Windows that is listed is fixed, and has a device exactly when a partition
    carries its letter; the drives are listed once, in order. *)
Theorem windows_drives (J : Json (list psPartition)) `{!MemStore M} fixed (w : world M) ds w' :
  windows_disks fixed w = (Ok ds, w') →
  ∃ diskMap, ds = omap (letter_disk fixed diskMap) drive_letters ∧ NoDup (Mount <$> ds) ∧
    (∀ d, d ∈ ds → fixed (Mount d) = Some (Total d, Free d)) ∧
    (∀ l total free, l ∈ drive_letters → fixed (l +:+ ":\") = Some (total, free) → (l +:+ ":\") ∈ Mount <$> ds).
Proof.
  unfold windows_disks, mbind, W_bind. destruct (driveLetterToDiskNumber w) as [diskMap w1].
  assert (NoDup drive_letters) as Hnd by (apply (bool_decide_unpack _); by vm_compute). revert Hnd.
  generalize drive_letters as ls. intros ls Hnd [= <- _]. exists diskMap.
  assert (Hsplit : ∀ l d, letter_disk fixed diskMap l = Some d → Mount d = l +:+ ":\" ∧ fixed (Mount d) = Some (Total d, Free d)).
  { intros l d. unfold letter_disk. destruct (fixed (l +:+ ":\")) as [[total free]|] eqn:E; [|done]. by intros [= <-]. }
  split; [done|]. split; [|split].
  - induction ls as [|l ls IH]; [constructor|]. apply NoDup_cons in Hnd as [Hl Hnd]. cbn.
    destruct (letter_disk fixed diskMap l) as [d|] eqn:E; [|by apply IH]. cbn. constructor; [|by apply IH].
    intros (d' & Hd' & (l' & Hl' & E')%list_elem_of_omap)%list_elem_of_fmap. apply Hsplit in E as [E _], E' as [E' _].
    apply Hl. assert (l = l') as ->; [|done]. apply (append_inj_r _ _ ":\"). congruence.
  - intros d (l & _ & E)%list_elem_of_omap. apply (Hsplit l d E).
  - intros l total free Hl E. apply list_elem_of_fmap.
    exists (mkDisk (l +:+ ":\") (match diskMap !! l with Some n => "PhysicalDrive" +:+ Itoa n | None => "" end) total free "").
    split; [done|]. apply list_elem_of_omap. exists l. split; [done|]. unfold letter_disk. by rewrite E.
Qed.

End DiskProbesFacts.
