(* ===== verification/Temperature.v ===== *)
(** * Temperature sensors and sustained heat ([skills/analyze_system_temperature])

    One survey reads the sensors, judges the readings, records a sample of each in a
    rolling history and judges the averages of the histories.  [linux_temps],
    [darwin_temps] and [windows_temps] read the sensors; the survey takes any of them. *)

From Corelib Require Import SpecFloat.
From S2P Require Import Prelude GoStrings GoTime GoText GoDuration Rolling Json Memory MemStore World KeyStore.

Module Temperature.
Import Float64.

Definition tempWarningC : spec_float := of_Z 80.
Definition tempCriticalC : spec_float := of_Z 90.

Record TempSensor := mkSensor { Name : string; CelsiusC : spec_float }.

(** ** One set of readings *)

Definition reading (s : TempSensor) : string := Name s +:+ " " +:+ Float.format 1 (CelsiusC s) +:+ "°C".

Definition is_critical (c : spec_float) : bool := Float.geb c tempCriticalC.
Definition is_warning (c : spec_float) : bool := negb (Float.geb c tempCriticalC) && Float.geb c tempWarningC.

Definition tempHealth (sensors : list TempSensor) : string * string :=
  verdict (reading <$> filter (λ s, is_critical (CelsiusC s) = true) sensors)
    (reading <$> filter (λ s, is_warning (CelsiusC s) = true) sensors) "all sensors within normal range".

Definition report_line (s : TempSensor) : string :=
  "  " +:+ pad_right 28 (Name s +:+ ":") +:+ " " +:+ Float.format 1 (CelsiusC s) +:+ "°C" +:+
  (if is_critical (CelsiusC s) then " (CRITICAL)" else if is_warning (CelsiusC s) then " (WARNING)" else "") +:+ nl.

Definition BuildReport (sensors : list TempSensor) : string :=
  foldl (λ sb s, sb +:+ report_line s) ("Temperature" +:+ nl) sensors.

(** ** Histories *)

Definition trendAttrsKey : string := "temperature_trends".
Definition trendMaxAge : Z := 24 * Hour.
Definition trendMinInterval : Z := 2 * Minute.
Definition sustainedWindow : Z := 15 * Minute.
Definition sustainedMinSamples : nat := 3.

Record TempSample := mkSample { t_Time : Z; t_CelsiusC : spec_float }.
Record TempTrend := mkTrend { Sensor : string; Samples : list TempSample; RecentAvgC : spec_float }.

Definition underscore (c : ascii) : ascii :=
  if Ascii.eqb c " " || Ascii.eqb c "/" || Ascii.eqb c "\" || Ascii.eqb c ":" then "_"%char else c.
Definition sanitizeSensor (name : string) : string := TrimPrefix (map_bytes underscore name) "_".

(** The samples not before the window. *)
Definition recent (samples : list TempSample) (now : Z) : list TempSample :=
  filter (λ s, (t_Time s <? now - sustainedWindow) = false) samples.

Definition recentAverage (samples : list TempSample) (now : Z) : spec_float :=
  let r := recent samples now in
  match r with
  | [] => zero
  | _ => div (foldl (λ sum s, add sum (t_CelsiusC s)) zero r) (of_Z (Z.of_nat (length r)))
  end.

Definition recentCount (samples : list TempSample) (now : Z) : nat := length (recent samples now).

Definition samples_of (trends : gmap string TempTrend) (key : string) : list TempSample :=
  match trends !! key with Some e => Samples e | None => [] end.

Definition record_sensor (now : Z) (trends : gmap string TempTrend) (s : TempSensor) : gmap string TempTrend :=
  let key := sanitizeSensor (Name s) in
  let samples := samples_of trends key in
  if Rolling.too_recent t_Time trendMinInterval now samples then trends
  else
    let samples := Rolling.pruned t_Time trendMaxAge now (samples ++ [mkSample now (CelsiusC s)]) in
    <[key := mkTrend (Name s) samples (recentAverage samples now)]> trends.

(** The body of [RecordSamples] between the load and the save. *)
Definition record_all (now : Z) (sensors : list TempSensor) (trends : gmap string TempTrend) : gmap string TempTrend :=
  foldl (record_sensor now) trends sensors.

Definition sustained_label (t : TempTrend) : string :=
  Sensor t +:+ " sustained avg " +:+ Float.format 1 (RecentAvgC t) +:+ "°C over last 15 min".

(** [entries] are the trends in the order Go visits them. *)
Definition SustainedHealth (entries : list TempTrend) (now : Z) : string * string :=
  let judged := filter (λ t, (recentCount (Samples t) now <? sustainedMinSamples)%nat = false) entries in
  verdict (sustained_label <$> filter (λ t, is_critical (RecentAvgC t) = true) judged)
    (sustained_label <$> filter (λ t, is_warning (RecentAvgC t) = true) judged) "".

(** ** The survey *)

Record CheckResult := mkResult { Health : string; Report : string; Summary : string }.

Section Ops.
Context `{!RawJson, !Json SkillState.State, !Json (gmap string TempTrend), !MemStore M}.
Context (zone : Z → Z).
Context (localTemps : W M (result string (list TempSensor))).
Context (visit : gmap string TempTrend → list TempTrend).

Definition RecordSamples (sensors : list TempSensor) (now : Z) : W M (gmap string TempTrend * option mem_error) :=
  '(trends, _) ← get_attr (A := gmap string TempTrend) trendAttrsKey;
  let trends := record_all now sensors trends in
  err ← set_attr trendAttrsKey trends;
  mret (trends, err).

Definition save (h s : string) : W M unit := _ ← SkillState.Save zone "analyze_system_temperature" h s; mret tt.

Definition no_sensors : string := "no temperature sensors detected on this host".

Definition runCheck : W M (result string CheckResult) :=
  r ← localTemps;
  match r with
  | Err e =>
      _ ← save "critical" ("failed to read temperature sensors: " +:+ e);
      mret (Err ("analyze_system_temperature: " +:+ e))
  | Ok [] => _ ← save "ok" no_sensors; mret (Ok (mkResult "ok" (no_sensors +:+ ".") no_sensors))
  | Ok sensors =>
      now ← now_;
      '(trends, _) ← RecordSamples sensors now;
      now' ← now_;
      let v := worse (tempHealth sensors) (SustainedHealth (visit trends) now') in
      _ ← save v.1 v.2;
      mret (Ok (mkResult v.1 (BuildReport sensors) v.2))
  end.

Definition tool : W M (string * option string) :=
  r ← runCheck;
  mret (match r with Ok res => (Report res, None) | Err e => ("", Some e) end).

Definition pre_check : W M (bool * string * option string) :=
  r ← runCheck;
  mret (match r with
        | Err e => (true, "", Some e)
        | Ok res => (negb (String.eqb (Health res) "ok"), Report res, None)
        end).

End Ops.

(** ** The built-in responsibility *)

Definition frequency : Z := 15 * Minute.

(** Whether a host gets it: the sensors read, and there are some. *)
Definition AutoResponsibility (temps : result string (list TempSensor)) : bool :=
  match temps with Ok (_ :: _) => true | _ => false end.

(** ** Thermal zones of Linux *)

Section Linux.
Context `{!SortSlice}.
(** The files, and whether the context is done before the [i]-th zone. *)
Context (read_file : string → result string string) (done : nat → bool).

Definition read_zone (zone : string) : option TempSensor :=
  match read_file (JoinPath zone "temp") with
  | Err _ => None
  | Ok raw =>
      match ParseInt (TrimSpace raw) with
      | None => None
      | Some milliC =>
          let name := match read_file (JoinPath zone "type") with
                      | Ok typ => if String.eqb (TrimSpace typ) "" then Base zone else TrimSpace typ
                      | Err _ => Base zone
                      end in
          Some (mkSensor name (div (of_Z milliC) (of_Z 1000)))
      end
  end.

(** The loop over the zones; [None] when the context is done on the way. *)
Fixpoint read_zones (i : nat) (zones : list string) : option (list TempSensor) :=
  match zones with
  | [] => Some []
  | zone :: rest =>
      if done i then None
      else match read_zones (S i) rest with
           | Some sensors => Some (match read_zone zone with Some s => s :: sensors | None => sensors end)
           | None => None
           end
  end.

Definition linux_temps (glob : result string (list string)) (cancelled : string) : result string (list TempSensor) :=
  match glob with
  | Err e => Err ("analyze_system_temperature: glob thermal zones: " +:+ e)
  | Ok zones =>
      match read_zones 0 zones with
      | None => Err cancelled
      | Some sensors => Ok (Slice (λ a b, str_ltb (Name a) (Name b)) sensors)
      end
  end.

End Linux.

(** ** Dies of macOS, read with [powermetrics] *)

(** One match of [powermetricsTempRe] at the start of a line: the kind, the number and
    what follows. *)
Definition die_match (s : string) : option (string * string * string) :=
  let reading (kind : string) :=
    rest ← CutPrefix (kind +:+ " die temperature:") s;
    let '(number, rest) := span (λ c, match digit c with Some _ => true | None => Ascii.eqb c "." end) (TrimLeftFunc re_space rest) in
    match number, TrimLeftFunc re_space rest with
    | String _ _, String "C" rest => Some (kind, number, rest)
    | _, _ => None
    end in
  match reading "CPU" with Some m => Some m | None => reading "GPU" end.

(** [FindAllStringSubmatch]; [bol]: at the start of a line.  A round consumes a byte. *)
Fixpoint find_dies (fuel : nat) (bol : bool) (s : string) : list (string * string) :=
  match fuel, s with
  | S fuel', String c s' =>
      match (if bol then die_match s else None) with
      | Some (kind, number, rest) => (kind, number) :: find_dies fuel' false rest
      | None => find_dies fuel' (Ascii.eqb c lf) s'
      end
  | _, _ => []
  end.

Definition die_sensor (m : string * string) : option TempSensor :=
  match Float.ParseFloat m.2 with (c, true) => Some (mkSensor (m.1 +:+ " die") c) | _ => None end.

Definition darwin_sensors (out : string) : list TempSensor := omap die_sensor (find_dies (String.length out) true out).

Example die_samples :
  darwin_sensors ("**** SMC ****" +:+ nl +:+ "CPU die temperature: 52.34 C" +:+ nl +:+ " GPU die temperature: 1 C" +:+ nl +:+
                  "GPU die temperature: 48 C (fan)" +:+ nl +:+ "CPU die temperature: 1.2.3 C") =
    [mkSensor "CPU die" (Float.ratio 5234 100); mkSensor "GPU die" (of_Z 48)].
Proof. by vm_compute. Qed.

(** ** ACPI zones of Windows *)

Definition PSThermalZoneCmd : string :=
  let q := String "034" "" in
  "Get-CimInstance -Namespace " +:+ q +:+ "root/wmi" +:+ q +:+ " -ClassName MSAcpi_ThermalZoneTemperature -ErrorAction SilentlyContinue | " +:+
  "Select-Object InstanceName, CurrentTemperature | ConvertTo-Json -Compress".

(** The temperature is in tenths of a Kelvin. *)
Record PSThermalZone := mkZone { InstanceName : string; CurrentTemperature : Z }.

Definition zone_sensor (z : PSThermalZone) : TempSensor :=
  mkSensor (if String.eqb (InstanceName z) "" then "ACPI Thermal Zone" else InstanceName z)
    (sub (div (of_Z (CurrentTemperature z)) (of_Z 10)) (Float.ratio 27315 100)).

Section Others.
Context `{!MemStore M, !Json (list PSThermalZone)}.

Definition runPowermetrics (installed root : bool) : W M (string * option string) :=
  if negb installed then mret ("", Some "not found")
  else
    let argv := ["powermetrics"; "--samplers"; "smc"; "-i1"; "-n1"] in
    run_process (if root then argv else ["sudo"; "-n"] ++ argv).

Definition darwin_temps (installed root : bool) : W M (result string (list TempSensor)) :=
  '(out, err) ← runPowermetrics installed root;
  mret (Ok (match err with Some _ => [] | None => darwin_sensors out end)).

(** [inr tt]: the document does not decode. *)
Definition ParsePSThermalZones (data : string) : list PSThermalZone + unit :=
  match ps_array data with
  | None => inl []
  | Some doc => match Unmarshal doc Json.zero with (zones, true) => inl zones | _ => inr tt end
  end.

Definition windows_temps : W M (result string (list TempSensor)) :=
  '(out, err) ← run_process (powershell "powershell.exe" PSThermalZoneCmd);
  mret (Ok (match ParsePSThermalZones out with
            | inl zones => if bool_decide (err ≠ None) && String.eqb out "" then [] else zone_sensor <$> zones
            | inr _ => []
            end)).
End Others.

End Temperature.
