(* ===== verification/MemUse.v ===== *)
(** * Memory utilisation ([skills/analyze_memory_utilization])

    The readings of Linux (/proc/meminfo), macOS and Windows, the verdict, the rolling history of the
    usage with its search for growth, and the pre-check of the loop.  The survey takes
    any way to read the statistics. *)

From Corelib Require Import SpecFloat.
From S2P Require Import Prelude GoStrings GoTime GoText GoDuration Rolling Json Memory MemStore World KeyStore Drives.

Module MemUse.
Import Float64.

Record MemStat := mkStat { Total : Z; Available : Z; SwapTotal : Z; SwapFree : Z }.

Definition Used (m : MemStat) : Z := if Total m <? Available m then 0 else Total m - Available m.
Definition UsedPct (m : MemStat) : spec_float := Drives.percent (Used m) (Total m).
Definition SwapUsed (m : MemStat) : Z := if SwapTotal m <? SwapFree m then 0 else SwapTotal m - SwapFree m.
Definition SwapUsedPct (m : MemStat) : spec_float := Drives.percent (SwapUsed m) (SwapTotal m).

Definition formatBytes (b : Z) : string := Drives.formatBytes b.

Definition used_text (used : Z) (pct : spec_float) : string := formatBytes used +:+ " (" +:+ Float.format 1 pct +:+ "%)".

Definition BuildReport (m : MemStat) : string :=
  "RAM" +:+ nl +:+
  "  Total:     " +:+ formatBytes (Total m) +:+ nl +:+
  "  Used:      " +:+ used_text (Used m) (UsedPct m) +:+ nl +:+
  "  Available: " +:+ formatBytes (Available m) +:+ nl +:+
  (if 0 <? SwapTotal m then
     nl +:+ "Swap" +:+ nl +:+
     "  Total:     " +:+ formatBytes (SwapTotal m) +:+ nl +:+
     "  Used:      " +:+ used_text (SwapUsed m) (SwapUsedPct m) +:+ nl +:+
     "  Free:      " +:+ formatBytes (SwapFree m) +:+ nl
   else "").

Definition memoryHealth (m : MemStat) : string * string :=
  (pct_health (UsedPct m),
   "RAM used: " +:+ Float.format 1 (UsedPct m) +:+ "% (" +:+ formatBytes (Used m) +:+ " / " +:+ formatBytes (Total m) +:+ ")").

(** ** /proc/meminfo *)

Definition meminfo_line (vals : gmap string Z) (line : string) : gmap string Z :=
  match Fields line with
  | f0 :: f1 :: _ =>
      match ParseUint f1 with
      | (val, true) => <[TrimSuffix f0 ":" := wrapu64 (val * 1024)]> vals
      | _ => vals
      end
  | _ => vals
  end.

Definition linux_memory (meminfo : result string string) : result string MemStat :=
  match meminfo with
  | Err e => Err ("memory_monitor: open /proc/meminfo: " +:+ e)
  | Ok text =>
      if scan_overflows text then Err "memory_monitor: reading /proc/meminfo: bufio.Scanner: token too long"
      else
        let vals := foldl meminfo_line ∅ (ScanLines text) in
        let get key := default 0 (vals !! key) in
        let available := if get "MemAvailable" =? 0 then get "MemFree" else get "MemAvailable" in
        Ok (mkStat (get "MemTotal") available (get "SwapTotal") (get "SwapFree"))
  end.

(** ** macOS: [sysctl], whose calls are parameters *)

Definition sysctl {A} (get : string → result string A) (key : string) : result string A :=
  match get key with Ok a => Ok a | Err e => Err ("memory_monitor: " +:+ key +:+ ": " +:+ e) end.

(** The total and the free swap of an [xsw_usage]. *)
Definition swap_usage (raw : result string string) : Z * Z :=
  match raw with
  | Ok raw => if 16 <=? len raw then (le_uint 0 8 raw, le_uint 8 8 raw) else (0, 0)
  | Err _ => (0, 0)
  end.

Definition darwin_memory (SysctlUint64 SysctlUint32 : string → result string Z) (SysctlRaw : string → result string string) :
    result string MemStat :=
  totalMem ← sysctl SysctlUint64 "hw.memsize";
  pageSize ← sysctl SysctlUint32 "hw.pagesize";
  freePages ← sysctl SysctlUint32 "vm.page_free_count";
  let specPages := match SysctlUint32 "vm.page_speculative_count" with Ok n => n | Err _ => 0 end in
  let swap := swap_usage (SysctlRaw "vm.swapusage") in
  mret (mkStat totalMem (wrapu64 ((freePages + specPages) * pageSize)) swap.1 swap.2).

(** ** Windows: the fields of [MEMORYSTATUSEX] that are used *)

Record memoryStatusEx := mkStatusEx { ullTotalPhys : Z; ullAvailPhys : Z; ullTotalPageFile : Z; ullAvailPageFile : Z }.

Definition windows_memory (status : result string memoryStatusEx) : result string MemStat :=
  match status with
  | Err e => Err ("memory_monitor: GlobalMemoryStatusEx: " +:+ e)
  | Ok ms =>
      let paged := ullTotalPhys ms <? ullTotalPageFile ms in
      Ok (mkStat (ullTotalPhys ms) (ullAvailPhys ms)
            (if paged then ullTotalPageFile ms - ullTotalPhys ms else 0)
            (if paged && (ullAvailPhys ms <? ullAvailPageFile ms) then ullAvailPageFile ms - ullAvailPhys ms else 0))
  end.

(** ** The trend *)

Definition trendAttrsKey : string := "memory_usage_trend".
Definition trendMaxAge : Z := 25 * Hour.
Definition trendMinInterval : Z := 5 * Minute.
Definition growthEscalationPts : spec_float := of_Z 20.
Definition growthLookback : Z := 20 * Hour.

Record UsageSample := mkSample { u_Time : Z; u_UsedPct : spec_float }.

Definition record_usage (now : Z) (usedPct : spec_float) (samples : list UsageSample) : list UsageSample :=
  Rolling.pruned u_Time trendMaxAge now
    (if Rolling.too_recent u_Time trendMinInterval now samples then samples else samples ++ [mkSample now usedPct]).

Definition growth_text (s : UsageSample) (usedPct : spec_float) (now : Z) : string :=
  "RAM usage grew " +:+ Float.format 1 (sub usedPct (u_UsedPct s)) +:+ " points over the last " +:+
  Float.format 0 (Float.hours (time_sub now (u_Time s))) +:+ "h (" +:+ Float.format 1 (u_UsedPct s) +:+ "% -> " +:+
  Float.format 1 usedPct +:+ "%), possible leak".

(** The growth since a sample is large enough to report. *)
Definition grew (usedPct : spec_float) (s : UsageSample) : bool := Float.geb (sub usedPct (u_UsedPct s)) growthEscalationPts.

(** "" when there is nothing to report. *)
Fixpoint GrowthIssue (samples : list UsageSample) (usedPct : spec_float) (now : Z) : string :=
  match samples with
  | [] => ""
  | s :: rest =>
      if now - growthLookback <? u_Time s then ""
      else if grew usedPct s then growth_text s usedPct now
      else GrowthIssue rest usedPct now
  end.

(** ** The survey *)

Section Ops.
Context `{!RawJson, !Json SkillState.State, !Json (list UsageSample), !MemStore M}.
Context (zone : Z → Z) (localMemory : W M (result string MemStat)).

Definition save (h s : string) : W M unit := _ ← SkillState.Save zone "analyze_memory_utilization" h s; mret tt.

Definition runCheck : W M (result string (MemStat * string)) :=
  r ← localMemory;
  match r with
  | Err e => _ ← save "critical" ("failed to read memory usage: " +:+ e); mret (Err ("memory_usage: " +:+ e))
  | Ok stat => _ ← save (memoryHealth stat).1 (memoryHealth stat).2; mret (Ok (stat, BuildReport stat))
  end.

Definition tool : W M (string * option string) :=
  r ← runCheck;
  mret (match r with Ok (_, report) => (report, None) | Err e => ("", Some e) end).

Definition RecordSample (usedPct : spec_float) (now : Z) : W M (list UsageSample * option mem_error) :=
  '(samples, _) ← get_attr (A := list UsageSample) trendAttrsKey;
  let samples := record_usage now usedPct samples in
  err ← set_attr trendAttrsKey samples;
  mret (samples, err).

Definition pre_check : W M (bool * string * option string) :=
  r ← runCheck;
  match r with
  | Err e => mret (true, "", Some e)
  | Ok (stat, report) =>
      now ← now_;
      '(samples, _) ← RecordSample (UsedPct stat) now;
      if Float.geb (UsedPct stat) usedPctWarning then mret (true, report, None)
      else
        let growth := GrowthIssue samples (UsedPct stat) now in
        if String.eqb growth "" then mret (false, report, None)
        else mret (true, report +:+ nl +:+ "Trend: " +:+ growth +:+ nl, None)
  end.

End Ops.
End MemUse.
