(* ===== verification/CpuUse.v ===== *)
(** * CPU utilisation ([skills/analyze_cpu_utilization])

    The usage between two readings of the counters of Linux, macOS or Windows, the verdict and the pre-check of the
    loop.  The survey takes any way to measure the usage. *)

From Corelib Require Import SpecFloat.
From S2P Require Import Prelude GoStrings GoTime GoText GoDuration Rolling Json Memory MemStore World KeyStore Drives.

Module Cpu.
Import Float64.

Record CPUStat := mkStat {
  UsedPct : spec_float; NumCPU : Z; LoadAvg1 : spec_float; LoadAvg5 : spec_float; LoadAvg15 : spec_float }.

Definition NeedsInvestigation (s : CPUStat) : bool :=
  Float.geb (UsedPct s) usedPctWarning ||
  ((0 <? NumCPU s) && (let n := of_Z (NumCPU s) in
     Float.gtb (LoadAvg1 s) n || Float.gtb (LoadAvg5 s) n || Float.gtb (LoadAvg15 s) n)).

Definition cpuHealth (s : CPUStat) : string * string :=
  (pct_health (UsedPct s),
   "CPU used: " +:+ Float.format 1 (UsedPct s) +:+ "% (" +:+ Itoa (NumCPU s) +:+ " logical CPUs, load avg " +:+
   Float.format 2 (LoadAvg1 s) +:+ "/" +:+ Float.format 2 (LoadAvg5 s) +:+ "/" +:+ Float.format 2 (LoadAvg15 s) +:+ ")").

Definition BuildReport (s : CPUStat) : string :=
  "CPU" +:+ nl +:+
  "  Logical CPUs: " +:+ Itoa (NumCPU s) +:+ nl +:+
  "  Usage:        " +:+ Float.format 1 (UsedPct s) +:+ "%" +:+ nl +:+
  (if Float.gtb (LoadAvg1 s) zero || Float.gtb (LoadAvg5 s) zero || Float.gtb (LoadAvg15 s) zero
   then "  Load avg:     " +:+ Float.format 2 (LoadAvg1 s) +:+ " (1m)  " +:+ Float.format 2 (LoadAvg5 s) +:+ " (5m)  " +:+
        Float.format 2 (LoadAvg15 s) +:+ " (15m)" +:+ nl
   else "").

(** ** /proc/stat *)

Record cpuTicks := mkTicks { user : Z; nice : Z; system : Z; idle : Z; iowait : Z; irq : Z; softirq : Z; steal : Z }.

Definition total (t : cpuTicks) : Z :=
  wrapu64 (user t + nice t + system t + idle t + iowait t + irq t + softirq t + steal t).
Definition idleTotal (t : cpuTicks) : Z := wrapu64 (idle t + iowait t).

Definition ticks_of (fields : list string) : cpuTicks :=
  let parse (i : nat) := match fields !! i with Some f => (ParseUint f).1 | None => 0 end in
  mkTicks (parse 1%nat) (parse 2%nat) (parse 3%nat) (parse 4%nat) (parse 5%nat) (parse 6%nat) (parse 7%nat) (parse 8%nat).

Fixpoint find_cpu (lines : list string) : result string cpuTicks :=
  match lines with
  | [] => Err "cpu_usage: cpu line not found in /proc/stat"
  | line :: rest =>
      if HasPrefix line "cpu " then
        let fields := Fields line in
        if (length fields <? 5)%nat then Err "cpu_usage: unexpected /proc/stat format" else Ok (ticks_of fields)
      else find_cpu rest
  end.

Definition readProcStat (stat : result string string) : result string cpuTicks :=
  match stat with
  | Err e => Err ("cpu_usage: open /proc/stat: " +:+ e)
  | Ok text => find_cpu (ScanLines text)
  end.

(** The share of a time that was not idle. *)
Definition usage (total idle : Z) : spec_float :=
  let totalDelta := of_Z total in
  let idleDelta := of_Z idle in
  if Float.gtb totalDelta zero then mul (sub (of_Z 1) (div idleDelta totalDelta)) (of_Z 100) else zero.

Definition used_pct (t1 t2 : cpuTicks) : spec_float :=
  usage (wrapu64 (total t2 - total t1)) (wrapu64 (idleTotal t2 - idleTotal t1)).

(** ** /proc/loadavg *)

Definition readLoadAvg (loadavg : result string string) : spec_float * spec_float * spec_float :=
  match loadavg with
  | Err _ => (zero, zero, zero)
  | Ok data =>
      match Fields data with
      | f0 :: f1 :: f2 :: _ => ((Float.ParseFloat f0).1, (Float.ParseFloat f1).1, (Float.ParseFloat f2).1)
      | _ => (zero, zero, zero)
      end
  end.

(** ** macOS: kern.cp_time and vm.loadavg *)

Record darwinTicks := mkDarwin { d_user : Z; d_nice : Z; d_sys : Z; d_intr : Z; d_idle : Z }.
Definition darwin_total (t : darwinTicks) : Z := wrapu64 (d_user t + d_nice t + d_sys t + d_intr t + d_idle t).

Definition readCPTime (raw : result string string) : result string darwinTicks :=
  match raw with
  | Err e => Err ("cpu_usage: kern.cp_time: " +:+ e)
  | Ok raw =>
      if len raw <? 20 then Err ("cpu_usage: kern.cp_time: short read (" +:+ Itoa (len raw) +:+ " bytes)")
      else
        let field (i : nat) := le_uint (i * 4) 4 raw in
        Ok (mkDarwin (field 0%nat) (field 1%nat) (field 2%nat) (field 3%nat) (field 4%nat))
  end.

Definition darwin_used_pct (t1 t2 : darwinTicks) : spec_float :=
  usage (wrapu64 (darwin_total t2 - darwin_total t1)) (wrapu64 (d_idle t2 - d_idle t1)).

Definition darwinLoadAvg (raw : result string string) : spec_float * spec_float * spec_float :=
  match raw with
  | Err _ => (zero, zero, zero)
  | Ok raw =>
      let fscale := of_Z (le_uint 12 8 raw) in
      if (len raw <? 20) || SFeqb fscale zero then (zero, zero, zero)
      else (div (of_Z (le_uint 0 4 raw)) fscale, div (of_Z (le_uint 4 4 raw)) fscale, div (of_Z (le_uint 8 4 raw)) fscale)
  end.

(** ** Windows: GetSystemTimes *)

Record filetime := mkFiletime { LowDateTime : Z; HighDateTime : Z }.
Definition filetime_uint64 (f : filetime) : Z := Z.lor (Z.shiftl (HighDateTime f) 32) (LowDateTime f).

Record system_times := mkTimes { t_idle : filetime; t_kernel : filetime; t_user : filetime }.

(** The time of the kernel includes the idle time. *)
Definition windows_used_pct (t1 t2 : system_times) : spec_float :=
  let busy t := wrapu64 (filetime_uint64 (t_kernel t) + filetime_uint64 (t_user t)) in
  usage (wrapu64 (busy t2 - busy t1)) (wrapu64 (filetime_uint64 (t_idle t2) - filetime_uint64 (t_idle t1))).

Section Ops.
Context `{!RawJson, !Json SkillState.State, !MemStore M} (zone : Z → Z).

(** The second of waiting with the error of a context that ends before it, and
    [runtime.NumCPU()]. *)
Context (a_second : W M (option string)) (num_cpu : Z).

(** Two readings a second apart. *)
Definition two_readings {T} (read : W M (result string T)) (finish : T → T → W M CPUStat) : W M (result string CPUStat) :=
  r1 ← read;
  match r1 with
  | Err e => mret (Err e)
  | Ok t1 =>
      cancelled ← a_second;
      match cancelled with
      | Some e => mret (Err e)
      | None =>
          r2 ← read;
          match r2 with
          | Err e => mret (Err e)
          | Ok t2 => stat ← finish t1 t2; mret (Ok stat)
          end
      end
  end.

(** The files and system calls are parameters. *)
Definition linux_cpu (proc_stat load_avg : W M (result string string)) : W M (result string CPUStat) :=
  two_readings (r ← proc_stat; mret (readProcStat r))
    (λ t1 t2, text ← load_avg; let '(l1, l5, l15) := readLoadAvg text in mret (mkStat (used_pct t1 t2) num_cpu l1 l5 l15)).

Definition darwin_cpu (cp_time loadavg : W M (result string string)) : W M (result string CPUStat) :=
  two_readings (r ← cp_time; mret (readCPTime r))
    (λ t1 t2, raw ← loadavg; let '(l1, l5, l15) := darwinLoadAvg raw in mret (mkStat (darwin_used_pct t1 t2) num_cpu l1 l5 l15)).

Definition windows_cpu (GetSystemTimes : W M (result string system_times)) : W M (result string CPUStat) :=
  two_readings
    (r ← GetSystemTimes; mret (match r with Ok t => Ok t | Err e => Err ("cpu_usage: GetSystemTimes: " +:+ e) end))
    (λ t1 t2, mret (mkStat (windows_used_pct t1 t2) num_cpu zero zero zero)).

Context (localCPU : W M (result string CPUStat)).

Definition save (h s : string) : W M unit := _ ← SkillState.Save zone "analyze_cpu_utilization" h s; mret tt.

Definition runCheck : W M (result string (CPUStat * string)) :=
  r ← localCPU;
  match r with
  | Err e => _ ← save "critical" ("failed to read CPU usage: " +:+ e); mret (Err ("cpu_usage: " +:+ e))
  | Ok stat => _ ← save (cpuHealth stat).1 (cpuHealth stat).2; mret (Ok (stat, BuildReport stat))
  end.

Definition tool : W M (string * option string) :=
  r ← runCheck;
  mret (match r with Ok (_, report) => (report, None) | Err e => ("", Some e) end).

Definition pre_check : W M (bool * string * option string) :=
  r ← runCheck;
  mret (match r with
        | Err e => (true, "", Some e)
        | Ok (stat, report) => (NeedsInvestigation stat, report, None)
        end).

End Ops.
End Cpu.
