(* ===== verification/NetUse.v ===== *)
(** * Network utilisation ([skills/analyze_network_utilization])

    The rates between two readings of the counters of Linux, macOS or Windows, the
    rolling baseline of rates with its medians, and the pre-check of the loop, which
    judges a reading against the baseline before it. *)

From Corelib Require Import SpecFloat.
From S2P Require Import Prelude GoStrings GoTime GoText GoDuration Rolling Json Memory MemStore World KeyStore Drives.

Module Net.
Import Float64.

Definition defaultSampleSeconds : spec_float := of_Z 1.
Definition minSampleSeconds : spec_float := Float.ratio 1 10.
Definition maxSampleSeconds : spec_float := of_Z 10.
Definition preCheckSampleSeconds : spec_float := of_Z 5.

Definition clamp (d : spec_float) : spec_float :=
  let d := if Float.leb d zero then defaultSampleSeconds else d in
  let d := if Float.ltb d minSampleSeconds then minSampleSeconds else d in
  if Float.gtb d maxSampleSeconds then maxSampleSeconds else d.

Definition formatBandwidth (mbps : spec_float) : string :=
  if Float.geb mbps (of_Z 1024) then Float.format 2 (div mbps (of_Z 1024)) +:+ " GB/s"
  else if Float.geb mbps (of_Z 1) then Float.format 2 mbps +:+ " MB/s"
  else Float.format 2 (mul mbps (of_Z 1024)) +:+ " KB/s".

Definition BuildReport (down up : spec_float) : string :=
  "Download: " +:+ formatBandwidth down +:+ nl +:+ "Upload:   " +:+ formatBandwidth up +:+ nl.

(** A counter that went down gives no rate. *)
Definition rate (before after : Z) (d : spec_float) : spec_float :=
  if before <=? after then div (div (of_Z (after - before)) d) (of_Z (1024 * 1024)) else zero.

(** ** /proc/net/dev *)

Definition dev_line (sums : Z * Z) (line : string) : Z * Z :=
  match Cut ":" line with
  | None => sums
  | Some (before, after) =>
      if String.eqb (TrimSpace before) "lo" then sums
      else
        let fields := Fields after in
        match fields !! 0%nat, fields !! 8%nat with
        | Some f0, Some f8 =>
            match ParseUint f0, ParseUint f8 with
            | (rx, true), (tx, true) => (wrapu64 (sums.1 + rx), wrapu64 (sums.2 + tx))
            | _, _ => sums
            end
        | _, _ => sums
        end
  end.

Definition linux_snapshot (dev : result string string) : result string (Z * Z) :=
  match dev with
  | Err e => Err ("netmon: open /proc/net/dev: " +:+ e)
  | Ok text =>
      if scan_overflows text then Err "netmon: reading /proc/net/dev: bufio.Scanner: token too long"
      else Ok (foldl dev_line (0, 0) (drop 2 (ScanLines text)))
  end.

(** ** macOS: the messages of NET_RT_IFLIST2

    The constants of the system and the layout of a header are parameters: [decode] gives
    the flags and the bytes received and sent. *)

Section Darwin.
Context (SizeofIfMsghdr2 RTM_IFINFO2 IFF_LOOPBACK IFF_UP : Z) (decode : string → Z * Z * Z).

Definition byte_at (i : nat) (data : string) : Z := le_uint i 1 data.

Definition iflist_message (sums : Z * Z) (data : string) : Z * Z :=
  let msgLen := le_uint 0 2 data in
  if (byte_at 3 data =? RTM_IFINFO2) && (SizeofIfMsghdr2 <=? msgLen) then
    let '(flags, ibytes, obytes) := decode (take_bytes (Z.to_nat SizeofIfMsghdr2) data) in
    if (Z.land flags IFF_LOOPBACK =? 0) && negb (Z.land flags IFF_UP =? 0)
    then (wrapu64 (sums.1 + ibytes), wrapu64 (sums.2 + obytes)) else sums
  else sums.

Fixpoint iflist (fuel : nat) (sums : Z * Z) (data : string) : Z * Z :=
  match fuel with
  | O => sums
  | S fuel' =>
      let msgLen := le_uint 0 2 data in
      if (len data <? 4) || (msgLen <? 4) || (len data <? msgLen) then sums
      else iflist fuel' (iflist_message sums data) (drop_bytes (Z.to_nat msgLen) data)
  end.

(** A message has four bytes or more, so the length is enough fuel. *)
Definition darwin_snapshot (data : result string string) : result string (Z * Z) :=
  match data with
  | Err e => Err ("netmon: sysctl NET_RT_IFLIST2: " +:+ e)
  | Ok data => Ok (iflist (String.length data) (0, 0) data)
  end.
End Darwin.

(** ** Windows: an adapter, and its row when GetIfEntry2Ex finds it *)

Record adapter := mkAdapter { loopback : bool; row : option (bool * Z * Z) }.

Definition adapter_sums (sums : Z * Z) (a : adapter) : Z * Z :=
  match row a with
  | Some (up, inOctets, outOctets) =>
      if negb (loopback a) && up then (wrapu64 (sums.1 + inOctets), wrapu64 (sums.2 + outOctets)) else sums
  | None => sums
  end.

(** [size_error]: that of the first call, a buffer overflow apart. *)
Definition windows_snapshot (size_error : option string) (adapters : result string (list adapter)) : result string (Z * Z) :=
  match size_error, adapters with
  | Some e, _ => Err ("netmon: GetAdaptersInfo size: " +:+ e)
  | None, Err e => Err ("netmon: GetAdaptersInfo: " +:+ e)
  | None, Ok l => Ok (foldl adapter_sums (0, 0) l)
  end.

(** ** The baseline *)

Definition networkDomain : string := "Network".
Definition baselineAttrsKey : string := "network_rate_baseline".
Definition baselineMaxAge : Z := 7 * 24 * Hour.
Definition baselineMinInterval : Z := 5 * Minute.
Definition baselineMinSamples : nat := 4.
Definition anomalyFactor : spec_float := of_Z 3.
Definition anomalyFloorMBps : spec_float := of_Z 1.

Record RateSample := mkSample { r_Time : Z; DownMBps : spec_float; UpMBps : spec_float }.

Definition record_rate (now : Z) (down up : spec_float) (samples : list RateSample) : list RateSample * bool :=
  let appended := negb (Rolling.too_recent r_Time baselineMinInterval now samples) in
  (Rolling.pruned r_Time baselineMaxAge now (if appended then samples ++ [mkSample now down up] else samples), appended).

(** [sort.Float64s] puts the values that are not a number first. *)
Definition is_nan (x : spec_float) : bool := match x with S754_nan => true | _ => false end.
Definition float_less (x y : spec_float) : bool := Float.ltb x y || (is_nan x && negb (is_nan y)).
Definition Float64s (vals : list spec_float) : list spec_float := SliceStable float_less vals.

Definition median (vals : list spec_float) : spec_float :=
  match vals with
  | [] => zero
  | _ =>
      let sorted := Float64s vals in
      let mid := (length vals / 2)%nat in
      let at_ (i : nat) := default zero (sorted !! i) in
      if Nat.odd (length vals) then at_ mid else div (add (at_ (mid - 1)%nat) (at_ mid)) (of_Z 2)
  end.

Definition medians (samples : list RateSample) : spec_float * spec_float :=
  (median (DownMBps <$> samples), median (UpMBps <$> samples)).

Definition safeRatio (cur base : spec_float) : spec_float :=
  if Float.leb base (Float.ratio 1 1000) then of_Z 999 else div cur base.

Definition unusual (rate med : spec_float) : bool :=
  Float.gtb rate anomalyFloorMBps && Float.gtb rate (mul anomalyFactor med).

Definition anomaly_text (direction : string) (rate med : spec_float) : string :=
  direction +:+ " rate " +:+ Float.format 2 rate +:+ " MB/s is " +:+ Float.format 1 (safeRatio rate med) +:+
  "x the 7-day median (" +:+ Float.format 2 med +:+ " MB/s)".

(** "" when traffic is within the baseline. *)
Definition AnomalyIssue (samples : list RateSample) (down up : spec_float) : string :=
  if (length samples <? baselineMinSamples)%nat
  then "not enough baseline history yet to judge whether current traffic is normal"
  else
    let '(medDown, medUp) := medians samples in
    if unusual down medDown then anomaly_text "download" down medDown
    else if unusual up medUp then anomaly_text "upload" up medUp
    else "".

(** ** The survey *)

Section Ops.
Context `{!RawJson, !Json SkillState.State, !Json (list RateSample), !MemStore M}.
Context (zone : Z → Z).

(** The counters, and the wait with the error of a context that ends before it. *)
Context (snapshot : W M (result string (Z * Z))) (wait : Z → W M (option string)).

Definition save (h s : string) : W M unit := _ ← SkillState.Save zone "analyze_network_utilization" h s; mret tt.

Definition read_counters : W M (result string (Z * Z)) :=
  r ← snapshot;
  match r with
  | Err e => _ ← save "critical" ("failed to read network counters: " +:+ e); mret (Err ("network_usage: " +:+ e))
  | Ok c => mret (Ok c)
  end.

Definition sampleRates (durationSeconds : spec_float) : W M (result string (spec_float * spec_float)) :=
  let d := clamp durationSeconds in
  r1 ← read_counters;
  match r1 with
  | Err e => mret (Err e)
  | Ok (in1, out1) =>
      cancelled ← wait (default 0 (truncate (mul d (of_Z Second))));
      match cancelled with
      | Some e => mret (Err e)
      | None =>
          r2 ← read_counters;
          match r2 with
          | Err e => mret (Err e)
          | Ok (in2, out2) =>
              let down := rate in1 in2 d in
              let up := rate out1 out2 d in
              _ ← save "ok" ("Download: " +:+ formatBandwidth down +:+ ", Upload: " +:+ formatBandwidth up);
              mret (Ok (down, up))
          end
      end
  end.

Definition tool (durationSeconds : spec_float) : W M (result string string) :=
  r ← sampleRates durationSeconds;
  mret (match r with Ok (down, up) => Ok (BuildReport down up) | Err e => Err e end).

Definition RecordSample (down up : spec_float) (now : Z) : W M (list RateSample * bool * option mem_error) :=
  '(samples, _) ← get_key (V := list RateSample) networkDomain baselineAttrsKey;
  let '(samples, appended) := record_rate now down up samples in
  err ← set_key networkDomain baselineAttrsKey samples;
  mret (samples, appended, err).

(** The history the reading is judged against. *)
Definition before (samples : list RateSample) (appended : bool) : list RateSample :=
  if appended then take (length samples - 1) samples else samples.

Definition pre_check : W M (bool * string * option string) :=
  r ← sampleRates preCheckSampleSeconds;
  match r with
  | Err e => mret (true, "", Some e)
  | Ok (down, up) =>
      now ← now_;
      '(samples, appended, _) ← RecordSample down up now;
      let report := BuildReport down up in
      let issue := AnomalyIssue (before samples appended) down up in
      if String.eqb issue "" then mret (false, report +:+ "Traffic is within this host's 7-day baseline.", None)
      else mret (true, report +:+ "Anomaly: " +:+ issue +:+ nl, None)
  end.

End Ops.
End Net.
