(* ===== verification/UsageFacts.v ===== *)
(** * Theorems on temperature, memory, CPU and network utilisation *)

From Corelib Require Import SpecFloat.
From S2P Require Import Prelude GoStrings GoTime GoText GoDuration Rolling Json Memory MemStore World KeyStore Drives Temperature.
From S2P Require Import MemUse CpuUse NetUse.

Section TemperatureFacts.

Import Temperature.

(** ** Sparse histories *)

(** Samples at least [d] apart, none after [T]. *)
Definition apart (d : Z) (a b : TempSample) : Prop := t_Time a + d ≤ t_Time b.
Definition sparse_samples (d T : Z) (l : list TempSample) : Prop :=
  StronglySorted (apart d) l ∧ Forall (λ s, t_Time s ≤ T) l.
Definition sparse (d T : Z) (trends : gmap string TempTrend) : Prop :=
  map_Forall (λ _ t, sparse_samples d T (Samples t)) trends.

Lemma sparse_later d T T' trends : T ≤ T' → sparse d T trends → sparse d T' trends.
Proof.
  intros Hle H. eapply map_Forall_impl; [exact H|]. intros _ t [Hs Hf]. split; [done|]. eapply Forall_impl; [done|]. cbn. lia.
Qed.

Lemma drop_sublist {A} (time : A → Z) cutoff l : sublist (Rolling.drop_before time cutoff l) l.
Proof. induction l as [|a l IH]; cbn; [done|]. destruct (_ <? _); [by constructor|done]. Qed.

Lemma StronglySorted_sublist {A} (R : A → A → Prop) l k : sublist l k → StronglySorted R k → StronglySorted R l.
Proof.
  induction 1 as [|x l k Hs IH|x l k Hs IH]; intros Hk; [done|..]; apply StronglySorted_inv in Hk as [Hk Hx]; [|by apply IH].
  constructor; [by apply IH|]. rewrite Forall_forall in *. intros y Hy. apply Hx. by eapply elem_of_sublist.
Qed.

Lemma StronglySorted_snoc {A} (R : A → A → Prop) l x : StronglySorted R l → Forall (λ a, R a x) l → StronglySorted R (l ++ [x]).
Proof.
  induction 1 as [|a l Hs IH Ha]; intros Hx; cbn; [by repeat constructor|].
  apply Forall_cons in Hx as [Hax Hx]. constructor; [by apply IH|]. apply Forall_app. by repeat constructor.
Qed.

Lemma recent_sparse d now l : sustainedWindow < 2 * d → sparse_samples d now l → (recentCount l now < sustainedMinSamples)%nat.
Proof.
  intros Hd [Hs Hf]. unfold recentCount, recent. set (r := filter _ l).
  assert (StronglySorted (apart d) r) as Hr. { eapply StronglySorted_sublist; [apply sublist_filter|done]. }
  assert (∀ s, s ∈ r → now - sustainedWindow ≤ t_Time s ≤ now) as Hin.
  { intros s [Hb Hl]%list_elem_of_filter. rewrite Forall_forall in Hf. specialize (Hf s Hl). cbn in Hf. lia. }
  destruct r as [|a [|b [|c r]]]; cbn; [unfold sustainedMinSamples; lia..|]. exfalso.
  apply StronglySorted_inv in Hr as [Hr Ha]. apply StronglySorted_inv in Hr as [_ Hb].
  apply Forall_cons in Ha as [Hab _]. apply Forall_cons in Hb as [Hbc _]. unfold apart in *.
  pose proof (Hin a ltac:(set_solver)). pose proof (Hin c ltac:(set_solver)). lia.
Qed.

(** A sample taken at [now], at least [d] after the others. *)
Lemma sparse_append d T now c l : 0 ≤ d → T + d ≤ now → sparse_samples d T l →
  sparse_samples d now (Rolling.pruned t_Time trendMaxAge now (l ++ [mkSample now c])).
Proof.
  intros Hd HT [Hs Hf]. unfold Rolling.pruned. set (k := l ++ [_]).
  assert (sparse_samples d now k) as [Hks Hkf].
  { split; [apply StronglySorted_snoc; [done|]|apply Forall_app; split; [|by repeat constructor]];
      (eapply Forall_impl; [done|]); unfold apart; cbn; lia. }
  split; [eapply StronglySorted_sublist; [apply drop_sublist|done]|].
  rewrite Forall_forall in *. intros s Hs'. apply Hkf. eapply elem_of_sublist; [done|apply drop_sublist].
Qed.

(** During a survey at [now] a history is as it was before, or already has its sample. *)
Definition half_done (d T now : Z) (trends : gmap string TempTrend) : Prop :=
  map_Forall (λ _ t, sparse_samples d T (Samples t) ∨
    (sparse_samples d now (Samples t) ∧ Rolling.too_recent t_Time trendMinInterval now (Samples t) = true)) trends.

Lemma record_half_done d T now trends s : 0 ≤ d → T + d ≤ now → half_done d T now trends → half_done d T now (record_sensor now trends s).
Proof.
  intros Hd HT H. unfold record_sensor. destruct (Rolling.too_recent _ _ _ (samples_of _ _)) eqn:Er; [done|].
  apply map_Forall_insert_2; [|done]. right. cbn. split; [|by apply Rolling.appended_recent].
  apply (sparse_append d T); [done..|]. unfold samples_of in *. destruct (trends !! _) as [t|] eqn:E; [|by split; constructor].
  destruct (H _ _ E) as [?|[_ Hr]]; [done|]. by rewrite Hr in Er.
Qed.

Lemma record_sparse d T now sensors trends : 0 ≤ d → T + d ≤ now → sparse d T trends → sparse d now (record_all now sensors trends).
Proof.
  intros Hd HT H. assert (half_done d T now (record_all now sensors trends)) as Hh.
  { unfold record_all. apply (Rolling.fold_invariant (half_done d T now)); [intros; by apply record_half_done|].
    eapply map_Forall_impl; [exact H|]. by left. }
  eapply map_Forall_impl; [exact Hh|]. intros _ t [[Hs Hf]|[? _]]; [|done]. split; [done|].
  eapply Forall_impl; [done|]. cbn. lia.
Qed.

(** ** Surveys that are far apart *)

(** The instants of the surveys, each at least [d] after the one before. *)
Fixpoint paced (d T : Z) (runs : list (Z * list TempSensor)) : Prop :=
  match runs with [] => True | (now, _) :: rest => T + d ≤ now ∧ paced d now rest end.

Definition survey (trends : gmap string TempTrend) (run : Z * list TempSensor) : gmap string TempTrend :=
  record_all run.1 run.2 trends.

Definition last_run (T : Z) (runs : list (Z * list TempSensor)) : Z := foldl (λ _ run, run.1) T runs.

Lemma surveys_sparse d T runs trends : 0 ≤ d → paced d T runs → sparse d T trends →
  sparse d (last_run T runs) (foldl survey trends runs).
Proof.
  intros Hd. revert T trends. induction runs as [|[now sensors] runs IH]; intros T trends Hp H; [done|].
  destruct Hp as [HT Hp]. apply IH; [done|]. by apply (record_sparse d T).
Qed.

Lemma nothing_judged entries now : (∀ t, t ∈ entries → (recentCount (Samples t) now < sustainedMinSamples)%nat) →
  SustainedHealth entries now = ("ok", "").
Proof.
  intros H. unfold SustainedHealth. assert (filter (λ t, (recentCount (Samples t) now <? sustainedMinSamples)%nat = false) entries = []) as ->.
  { apply elem_of_nil_inv. intros t [Hc Ht]%list_elem_of_filter. specialize (H t Ht). apply Nat.ltb_ge in Hc. lia. }
  done.
Qed.

(** The scheduled check cannot see sustained heat.  It runs every fifteen minutes,
    and three samples within fifteen minutes are needed: with surveys at least [d]
    apart, where two gaps of [d] exceed the window (every [d] of eight minutes or more),
    the sustained verdict after any number of them is ok, whatever the sensors read. *)
Theorem sustained_never_fires d T runs trends now visit :
  sustainedWindow < 2 * d → paced d T runs → sparse d T trends → last_run T runs ≤ now →
  (∀ m t, t ∈ (visit m : list TempTrend) → ∃ key, (m : gmap string TempTrend) !! key = Some t) →
  SustainedHealth (visit (foldl survey trends runs)) now = ("ok", "").
Proof.
  intros Hd Hp Hs Hn Hvisit. assert (0 ≤ d) by (unfold sustainedWindow, Minute, Second in Hd; lia).
  apply nothing_judged. intros t [key Ht]%Hvisit.
  apply (recent_sparse d); [done|]. pose proof (surveys_sparse d T runs trends ltac:(done) Hp Hs) as H'.
  by apply (sparse_later d _ now) in H'; [apply (H' key)|].
Qed.

(** ** Sensors that share a name *)

(** Of two sensors with the same name (the package sensors of a two-socket host are
    all called x86_pkg_temp), or whose names differ only in blanks, slashes, colons and
    underscores, a survey records the first one only. *)
Theorem namesake_not_recorded now trends s1 s2 :
  sanitizeSensor (Name s1) = sanitizeSensor (Name s2) →
  record_all now [s1; s2] trends = record_all now [s1] trends.
Proof.
  intros E. cbn. set (t := record_sensor now trends s1).
  assert (Rolling.too_recent t_Time trendMinInterval now (samples_of t (sanitizeSensor (Name s1))) = true) as H.
  { subst t. unfold record_sensor. destruct (Rolling.too_recent _ _ _ (samples_of trends _)) eqn:Er; [done|].
    unfold samples_of at 1. rewrite lookup_insert_eq. by apply Rolling.appended_recent. }
  unfold record_sensor. by rewrite <- E, H.
Qed.

(** ** Bounds *)

Definition temps_rolling (trends : gmap string TempTrend) : Prop :=
  map_Forall (λ _ t, Rolling.rolling t_Time trendMinInterval trendMaxAge (Samples t)) trends.

Lemma record_sensor_rolling now trends s : temps_rolling trends → temps_rolling (record_sensor now trends s).
Proof.
  intros H. unfold record_sensor. destruct (Rolling.too_recent _ _ _ _) eqn:Er; [done|].
  apply map_Forall_insert_2; [|done]. apply Rolling.rolling_append; [done..| |done].
  unfold samples_of. destruct (trends !! _) as [t|] eqn:E; [by apply (H _ _ E)|apply Rolling.rolling_nil].
Qed.

Lemma temps_bounded runs trends key t : temps_rolling trends → foldl survey trends runs !! key = Some t → (length (Samples t) ≤ 721)%nat.
Proof.
  intros H. assert (temps_rolling (foldl survey trends runs)) as Hr.
  { apply Rolling.fold_invariant; [|done]. intros m run Hm. unfold survey, record_all. apply Rolling.fold_invariant; [|done]. intros. by apply record_sensor_rolling. }
  intros E. pose proof (Rolling.rolling_length t_Time trendMinInterval trendMaxAge ltac:(done) ltac:(done) _ (Hr _ _ E)) as Hl.
  change (trendMaxAge / trendMinInterval + 1) with 721 in Hl. lia.
Qed.

(** ** The pre-check *)

Section Survey.
Context `{RJ : !RawJson, JS : !Json SkillState.State, JT : !Json (gmap string TempTrend), MS : !MemStore M}.
Context (zone : Z → Z) (localTemps : W M (result string (list TempSensor))) (visit : gmap string TempTrend → list TempTrend).

(** The model is skipped exactly when there is nothing to tell about the readings:
    the pre-check does not ask for it only if the sensors could be read and none of
    them is at 80 degrees or more, and a host whose sensors cannot be read always asks
    for it. *)
Theorem cool_precheck w text e w' :
  pre_check zone localTemps visit w = ((false, text, e), w') →
  ∃ sensors w1, localTemps w = (Ok sensors, w1) ∧ e = None ∧
    ∀ s, s ∈ sensors → Float.geb (CelsiusC s) tempCriticalC = false ∧ Float.geb (CelsiusC s) tempWarningC = false.
Proof.
  unfold pre_check, runCheck, mbind, W_bind. destruct (localTemps w) as [[sensors|err] w1]; [|by destruct (save _ _ _ w1)].
  intros H. exists sensors, w1. split; [done|]. destruct sensors as [|s0 ss].
  { destruct (save _ _ _ w1). injection H as <- <- <-. split; [done|]. intros s Hs. by apply elem_of_nil in Hs. }
  set (l := s0 :: ss) in *. destruct (now_ w1) as [now w2]. destruct (RecordSamples l now w2) as [[trends e1] w3].
  destruct (now_ w3) as [now' w4]. set (v := worse _ _) in H. destruct (save zone v.1 v.2 w4) as [[] w5]. cbn in H.
  destruct (String.eqb_spec v.1 "ok") as [E|]; [|done]. injection H as <- <- <-. split; [done|].
  apply worse_ok in E as [E _]; try apply verdict_cases.
  unfold tempHealth in E. rewrite verdict_ok in E. destruct E as [Hc%fmap_nil_inv Hw%fmap_nil_inv]. intros s Hs.
  pose proof (filter_none _ _ _ Hc Hs) as H1. pose proof (filter_none _ _ _ Hw Hs) as H2. cbn in H1, H2.
  unfold is_critical, is_warning in *. by destruct (Float.geb (CelsiusC s) tempCriticalC), (Float.geb (CelsiusC s) tempWarningC).
Qed.

End Survey.

End TemperatureFacts.

(** ** Memory growth *)

Section Growth.
Import MemUse.

Lemma growth_text_nonempty s pct now : growth_text s pct now ≠ "".
Proof. done. Qed.

(** Times that do not decrease. *)
Definition in_time (l : list UsageSample) : Prop := StronglySorted (λ a b, u_Time a ≤ u_Time b) l.

(** A possible leak is reported exactly when some sample at least twenty hours old
    is twenty or more percentage points below the current usage. *)
Theorem growth_reported_iff samples pct now : in_time samples →
  GrowthIssue samples pct now ≠ "" ↔ ∃ s, s ∈ samples ∧ u_Time s ≤ now - growthLookback ∧ grew pct s = true.
Proof.
  induction 1 as [|s l Hs IH Hl]; cbn [GrowthIssue]; [split; [done|intros (s & Hs & _); by apply elem_of_nil in Hs]|].
  destruct (Z.ltb_spec (now - growthLookback) (u_Time s)) as [Hy|Ho].
  { split; [done|]. intros (x & [-> |Hx]%elem_of_cons & Ht & _); [lia|]. rewrite Forall_forall in Hl. specialize (Hl x Hx). cbn in Hl. lia. }
  destruct (grew pct s) eqn:Eg.
  { split; [intros _; exists s; by split; [constructor|]|done]. }
  rewrite IH. split.
  - intros (x & Hx & ?). exists x. split; [by constructor|done].
  - intros (x & [-> |Hx]%elem_of_cons & Ht & Hg); [by rewrite Hg in Eg|]. by exists x.
Qed.

Definition usage_rolling : list UsageSample → Prop := Rolling.rolling u_Time trendMinInterval trendMaxAge.

Lemma record_usage_rolling now pct l : usage_rolling l → usage_rolling (record_usage now pct l).
Proof.
  intros H. unfold record_usage. destruct (Rolling.too_recent _ _ _ l) eqn:E.
  - by apply Rolling.rolling_pruned.
  - by apply Rolling.rolling_append.
Qed.

Lemma spaced_in_time l : Rolling.spaced u_Time trendMinInterval l → in_time l.
Proof.
  induction l as [|a l IH]; intros Hs; [constructor|]. specialize (IH (Rolling.spaced_tail _ _ a l Hs)). constructor; [done|].
  destruct l as [|b l]; [constructor|]. destruct Hs as [Hab _]. apply StronglySorted_inv in IH as [_ Hb].
  unfold trendMinInterval, Minute, Second in Hab. constructor; [lia|]. eapply Forall_impl; [done|]. cbn. lia.
Qed.

(** The oldest sample is not what decides, although the comment says so: a history
    whose oldest sample shows no growth at all is reported when any other sample of
    twenty hours or more ago was low, as after a reboot. *)
Theorem growth_not_from_oldest : ∃ oldest later pct now,
  in_time [oldest; later] ∧ u_Time oldest ≤ now - growthLookback ∧ Float.leb pct (u_UsedPct oldest) = true ∧
  GrowthIssue [oldest; later] pct now ≠ "".
Proof.
  exists (mkSample 0 (Float64.of_Z 60)), (mkSample Hour (Float64.of_Z 30)), (Float64.of_Z 60), (24 * Hour).
  split_and!; [by apply spaced_in_time|vm_compute; done|done|]. vm_compute. done.
Qed.

End Growth.

(** ** CPU *)

Section Cpu.
Import Cpu.

(** The kernel's iowait counter may go down.  Then the idle ticks between two
    readings wrap around and a host that was busy all the time, with four processors
    and no load average yet, reads as idle: the health saved is ok, and the model is
    not asked. *)
Theorem iowait_drop_hides_load :
  let t1 := mkTicks 1000 0 0 5000 50 0 0 0 in
  let t2 := mkTicks 1400 0 0 5000 49 0 0 0 in
  let stat := mkStat (used_pct t1 t2) 4 Float64.zero Float64.zero Float64.zero in
  Float.ltb (used_pct t1 t2) Float64.zero = true ∧ (cpuHealth stat).1 = "ok" ∧ NeedsInvestigation stat = false.
Proof. by split_and!; vm_compute. Qed.

(** The counters of macOS have 32 bits and wrap around; then a host that was busy for 950
    of 1000 ticks reads as idle. *)
Theorem darwin_wrap_reads_idle :
  let t1 := mkDarwin 1000 0 0 0 (2 ^ 32 - 50) in
  let t2 := mkDarwin 1950 0 0 0 0 in
  let stat := mkStat (darwin_used_pct t1 t2) 4 Float64.zero Float64.zero Float64.zero in
  Float.format 1 (darwin_used_pct t1 t2) = "0.0" ∧ (cpuHealth stat).1 = "ok" ∧ NeedsInvestigation stat = false.
Proof. by split_and!; vm_compute. Qed.

(** In the C structure the 64-bit scale is aligned to eight bytes, at 16; read at 12, a
    load of 8 on one processor is no load. *)
Definition le_text (n : nat) (v : Z) : string :=
  foldr (λ i s, String (ascii_of_N (Z.to_N (v / 256 ^ Z.of_nat i mod 256))) s) "" (seq 0 n).

Theorem darwin_load_misread :
  let raw := le_text 4 (8 * 2048) +:+ le_text 4 (8 * 2048) +:+ le_text 4 (8 * 2048) +:+ le_text 4 0 +:+ le_text 8 2048 in
  let '(l1, l5, l15) := darwinLoadAvg (Ok raw) in
  Float.format 2 l1 = "0.00" ∧ NeedsInvestigation (mkStat Float64.zero 1 l1 l5 l15) = false.
Proof. by vm_compute. Qed.

End Cpu.

(** ** Network *)

Section Net.
Import Net.

(** *** The order of [sort.Float64s] *)

(** The position of a value: kind, then two numbers. *)
Definition rank (x : spec_float) : Z * Z * Z :=
  match x with
  | S754_nan => (0, 0, 0)
  | S754_infinity true => (1, 0, 0)
  | S754_finite true m e => (2, - e, - Zpos m)
  | S754_zero _ => (3, 0, 0)
  | S754_finite false m e => (4, e, Zpos m)
  | S754_infinity false => (5, 0, 0)
  end.

Definition rank_lt (a b : Z * Z * Z) : Prop :=
  a.1.1 < b.1.1 ∨ (a.1.1 = b.1.1 ∧ (a.1.2 < b.1.2 ∨ (a.1.2 = b.1.2 ∧ a.2 < b.2))).

Lemma float_less_rank x y : float_less x y = true ↔ rank_lt (rank x) (rank y).
Proof.
  unfold float_less, Float.ltb, SFltb, rank_lt.
  destruct x as [sx|[]| |[] mx ex], y as [sy|[]| |[] my ey]; cbn [SFcompare rank is_nan fst snd negb andb orb];
    try (split; [done|lia]); try (split; [lia|done]).
  - change (Pos.compare_cont Eq mx my) with (mx ?= my)%positive.
    destruct (Z.compare_spec ex ey), (Pos.compare_spec mx my); cbn; split; try done; lia.
  - change (Pos.compare_cont Eq mx my) with (mx ?= my)%positive.
    destruct (Z.compare_spec ex ey), (Pos.compare_spec mx my); cbn; split; try done; lia.
Qed.

Lemma float_less_false x y : float_less x y = false ↔ ¬ rank_lt (rank x) (rank y).
Proof. rewrite <- float_less_rank. by destruct (float_less x y). Qed.

Lemma Float64s_in_order vals : in_order float_less (Float64s vals).
Proof.
  apply SliceStable_in_order.
  - intros a b Hl%float_less_rank. apply float_less_false. unfold rank_lt in *. lia.
  - intros a b c H1%float_less_false H2%float_less_false. apply float_less_false. unfold rank_lt in *. lia.
Qed.

Lemma filter_forall {A} (P : A → Prop) `{!∀ x, Decision (P x)} l : Forall P l → filter P l = l.
Proof. induction 1 as [|x l Hx Hl IH]; [done|]. rewrite filter_cons, decide_True by done. by rewrite IH. Qed.

(** In an ordered list the elements up to an index are not greater, the others not less. *)
Lemma in_order_split l i m : in_order float_less l → l !! i = Some m →
  (S i ≤ length (filter (λ x, float_less m x = false) l))%nat ∧
  (length l - i ≤ length (filter (λ x, float_less x m = false) l))%nat.
Proof.
  intros Ho Hi. pose proof (lookup_lt_Some _ _ _ Hi) as Hlt. pose proof (take_drop_middle l i m Hi) as El.
  rewrite <- El in Ho. apply StronglySorted_app in Ho as (Hx & _ & Hr).
  apply StronglySorted_inv in Hr as [_ Hr].
  assert (float_less m m = false) as Hm by (apply float_less_false; unfold rank_lt; lia).
  assert (filter (λ x, float_less m x = false) (take i l) = take i l) as E1.
  { apply filter_forall. rewrite Forall_forall. intros x Hin. apply Hx; [done|by constructor]. }
  assert (filter (λ x, float_less x m = false) (drop (S i) l) = drop (S i) l) as E2.
  { apply filter_forall. exact Hr. }
  rewrite <- El at 1 3. rewrite !filter_app, !filter_cons, !decide_True, E1, E2, !length_app by done. cbn [length].
  rewrite length_take, length_drop. lia.
Qed.

(** The median of an odd number of rates is one of them, and at least half of them
    (itself counted) are not greater and at least half not less. *)
Theorem median_splits vals : Nat.Odd (length vals) →
  median vals ∈ vals ∧
  (length vals < 2 * length (filter (λ x, float_less (median vals) x = false) vals))%nat ∧
  (length vals < 2 * length (filter (λ x, float_less x (median vals) = false) vals))%nat.
Proof.
  intros Ho. unfold median. destruct vals as [|v vals]; [by destruct Ho; cbn in *; lia|]. set (l := v :: vals) in *.
  rewrite (proj2 (Nat.odd_spec _)) by done. destruct Ho as [k Hk].
  assert (length l / 2 = k)%nat as -> by (rewrite Hk; symmetry; apply (Nat.div_unique _ 2 k 1); lia).
  assert (length (Float64s l) = length l) as Hlen by apply SliceStable_length.
  destruct (lookup_lt_is_Some_2 (Float64s l) k) as [m Hm]; [lia|]. rewrite Hm. change (default Float64.zero (Some m)) with m.
  pose proof (SliceStable_perm float_less l : Float64s l ≡ₚ l) as Hp.
  destruct (in_order_split _ _ _ (Float64s_in_order l) Hm) as [H1 H2]. rewrite Hp in H1, H2.
  split; [rewrite <- Hp; by eapply list_elem_of_lookup_2|]. lia.
Qed.

(** *** The baseline *)

Definition rates_rolling : list RateSample → Prop := Rolling.rolling r_Time baselineMinInterval baselineMaxAge.

Lemma record_rate_rolling now down up l : rates_rolling l → rates_rolling (record_rate now down up l).1.
Proof.
  intros H. unfold record_rate. cbn. destruct (Rolling.too_recent _ _ _ l) eqn:E; cbn.
  - by apply Rolling.rolling_pruned.
  - by apply Rolling.rolling_append.
Qed.

Lemma take_init {A} (l : list A) x : take (length (l ++ [x]) - 1) (l ++ [x]) = l.
Proof. rewrite length_app. cbn [length]. apply take_app_length'. lia. Qed.

(** What the reading is judged against: the samples before it that are at most a week old. *)
Lemma judged_history now down up l :
  before (record_rate now down up l).1 (record_rate now down up l).2 = Rolling.pruned r_Time baselineMaxAge now l.
Proof.
  unfold record_rate, before. cbn. destruct (Rolling.too_recent _ _ _ l); cbn; [done|]. unfold Rolling.pruned.
  induction l as [|a l IH]; cbn.
  - destruct (Z.ltb_spec now (now - baselineMaxAge)) as [Hx|]; [|done]. unfold baselineMaxAge, Hour, Minute, Second in Hx. lia.
  - destruct (_ <? _); [done|]. apply (take_init (a :: l)).
Qed.

Lemma anomaly_empty l down up : AnomalyIssue l down up = "" ↔
  (baselineMinSamples ≤ length l)%nat ∧ unusual down (medians l).1 = false ∧ unusual up (medians l).2 = false.
Proof.
  unfold AnomalyIssue. destruct (Nat.ltb_spec (length l) baselineMinSamples) as [Hl|Hl].
  { split; [done|]. intros [? _]. lia. }
  destruct (medians l) as [md mu]. cbn. destruct (unusual down md); [by split; [done|intros (_ & ? & _)]|].
  by destruct (unusual up mu); split; [| intros (_ & _ & ?)| |].
Qed.

Section Survey.
Context `{RJ : !RawJson, JS : !Json SkillState.State, JR : !Json (list RateSample), MS : !MemStore M}.
Context (zone : Z → Z) (snapshot : W M (result string (Z * Z))) (wait : Z → W M (option string)).

(** The model is skipped only against a real baseline: when the pre-check does not
    ask for it, the counters were read, and at least four samples of the last week from
    before this reading are in the memory, of whose median neither rate is more than
    the triple unless it is at most 1 MB/s.  A young host, and one whose counters
    cannot be read, always ask for it. *)
Theorem quiet_network_has_baseline w text e w' :
  pre_check zone snapshot wait w = ((false, text, e), w') →
  ∃ down up w1 history,
    sampleRates zone snapshot wait preCheckSampleSeconds w = (Ok (down, up), w1) ∧
    history = Rolling.pruned r_Time baselineMaxAge (now_ w1).1
                (key_value (V := list RateSample) networkDomain baselineAttrsKey (w_mem w1)).1 ∧
    (4 ≤ length history)%nat ∧ unusual down (medians history).1 = false ∧ unusual up (medians history).2 = false ∧ e = None.
Proof.
  unfold pre_check, mbind, W_bind. destruct (sampleRates _ _ _ _ w) as [[[down up]|err] w1]; [|done].
  unfold RecordSample, mbind, W_bind. destruct (now_ w1) as [now w2] eqn:En. rewrite get_key_run.
  assert (w_mem w2 = w_mem w1) as -> by (by injection En as _ <-).
  destruct (key_value _ _ (w_mem w1)) as [samples ok] eqn:Ek. pose proof (judged_history now down up samples) as Hj.
  destruct (record_rate now down up samples) as [samples' appended]. cbn [fst snd] in Hj.
  destruct (set_key _ _ samples' w2) as [e1 w3]. cbn. rewrite Hj.
  set (h := Rolling.pruned _ _ _ _). destruct (String.eqb_spec (AnomalyIssue h down up) "") as [Ea|]; [|done].
  intros H. apply anomaly_empty in Ea as (H1 & H2 & H3). exists down, up, w1, h. injection H as _ <- _. rewrite Ek.
  injection En as <- _. by split_and!.
Qed.

End Survey.
End Net.

(** ** Bounds *)

(** The histories of memory usage and of network rates stay small: if their samples
    are at least five minutes apart over at most 25 hours and 7 days, so they are after
    any number of recordings at any instants, which leaves at most 301 and 2017. *)
Theorem usage_histories_bounded (mem : list (Z * spec_float)) (net : list (Z * spec_float * spec_float)) samples rates :
  usage_rolling samples → rates_rolling rates →
  let samples' := foldl (λ l '(now, pct), MemUse.record_usage now pct l) samples mem in
  let rates' := foldl (λ l '(now, down, up), (Net.record_rate now down up l).1) rates net in
  usage_rolling samples' ∧ rates_rolling rates' ∧ (length samples' ≤ 301)%nat ∧ (length rates' ≤ 2017)%nat.
Proof.
  intros Hs Hr samples' rates'.
  assert (usage_rolling samples') as Hs'.
  { apply Rolling.fold_invariant; [|done]. intros l [now pct] Hl. by apply record_usage_rolling. }
  assert (rates_rolling rates') as Hr'.
  { apply Rolling.fold_invariant; [|done]. intros l [[now down] up] Hl. by apply record_rate_rolling. }
  split_and!; [done..| |].
  - pose proof (Rolling.rolling_length MemUse.u_Time MemUse.trendMinInterval MemUse.trendMaxAge ltac:(done) ltac:(done) _ Hs') as Hl.
    change (MemUse.trendMaxAge / MemUse.trendMinInterval + 1) with 301 in Hl. lia.
  - pose proof (Rolling.rolling_length Net.r_Time Net.baselineMinInterval Net.baselineMaxAge ltac:(done) ltac:(done) _ Hr') as Hl.
    change (Net.baselineMaxAge / Net.baselineMinInterval + 1) with 2017 in Hl. lia.
Qed.

(** ** The counters of macOS *)

Section Messages.
Import Net.
Context (SizeofIfMsghdr2 RTM_IFINFO2 IFF_LOOPBACK IFF_UP : Z) (decode : string → Z * Z * Z).

Lemma concat_cons_empty (m : string) ms : String.concat "" (m :: ms) = m +:+ String.concat "" ms.
Proof. destruct ms; [|done]. cbn. symmetry. apply append_nil_r. Qed.

(** A message says its own length. *)
Definition framed (m : string) : Prop := 4 ≤ len m ∧ le_uint 0 2 m = len m.

Lemma message_prefix sums m rest : framed m → 
  iflist_message SizeofIfMsghdr2 RTM_IFINFO2 IFF_LOOPBACK IFF_UP decode sums (m +:+ rest) =
  iflist_message SizeofIfMsghdr2 RTM_IFINFO2 IFF_LOOPBACK IFF_UP decode sums m.
Proof.
  intros [H4 Hl]. unfold len in H4. unfold iflist_message, byte_at. rewrite !le_uint_prefix by lia.
  destruct (_ =? _); [|done]. cbn [andb]. destruct (Z.leb_spec SizeofIfMsghdr2 (le_uint 0 2 m)) as [Hs|]; [|done].
  rewrite take_bytes_prefix; [done|]. rewrite Hl in Hs. unfold len in Hs. lia.
Qed.

Lemma iflist_messages ms fuel sums : Forall framed ms → (String.length (String.concat "" ms) ≤ fuel)%nat →
  iflist SizeofIfMsghdr2 RTM_IFINFO2 IFF_LOOPBACK IFF_UP decode fuel sums (String.concat "" ms) = foldl (iflist_message SizeofIfMsghdr2 RTM_IFINFO2 IFF_LOOPBACK IFF_UP decode) sums ms.
Proof.
  intros Hms. revert fuel sums. induction Hms as [|m ms [H4 Hl] Hms IH]; intros fuel sums Hf; [by destruct fuel|].
  rewrite concat_cons_empty in Hf |- *. pose proof (len_append m (String.concat "" ms)) as Ha.
  assert (0 ≤ len (String.concat "" ms)) by (unfold len; lia).
  destruct fuel as [|fuel]; [unfold len in *; lia|]. cbn [iflist foldl].
  rewrite le_uint_prefix by (unfold len in H4; lia). rewrite Hl.
  rewrite (proj2 (Z.ltb_ge _ _)), (proj2 (Z.ltb_ge (len m) 4)), (proj2 (Z.ltb_ge _ (len m))) by lia. cbn [orb].
  rewrite message_prefix by done. unfold len at 1. rewrite Nat2Z.id, drop_bytes_append. apply IH.
  unfold len in *. lia.
Qed.

(** A well-formed answer of the routing socket is summed message by message, and the loop
    reaches its end. *)
Theorem messages_summed ms : Forall framed ms →
  darwin_snapshot SizeofIfMsghdr2 RTM_IFINFO2 IFF_LOOPBACK IFF_UP decode (Ok (String.concat "" ms)) = Ok (foldl (iflist_message SizeofIfMsghdr2 RTM_IFINFO2 IFF_LOOPBACK IFF_UP decode) (0, 0) ms).
Proof. intros Hms. unfold darwin_snapshot. by rewrite iflist_messages. Qed.

End Messages.
