(* ===== verification/VitalsExamples.v ===== *)
(** * The theorems on disks, temperatures and utilisation on concrete hosts *)

From Corelib Require Import SpecFloat.
From S2P Require Import Prelude GoStrings GoTime GoText GoDuration Rolling Json Memory MemStore World KeyStore.
From S2P Require Import Largest DrivesFacts Drives DiskProbes Temperature UsageFacts MemUse CpuUse NetUse.

(** ** Recordings in the store *)

Module Recorded.

#[local] Instance float_eq_dec : EqDecision spec_float.
Proof. solve_decision. Defined.
#[local] Instance float_countable : Countable spec_float.
Proof.
  apply (inj_countable'
    (λ f, match f with
          | S754_zero s => inl (inl s) | S754_infinity s => inl (inr s) | S754_nan => inr None | S754_finite s m e => inr (Some (s, m, e))
          end)
    (λ c, match c with
          | inl (inl s) => S754_zero s | inl (inr s) => S754_infinity s | inr None => S754_nan | inr (Some (s, m, e)) => S754_finite s m e
          end)).
  by intros [].
Defined.
#[local] Instance sample_eq_dec : EqDecision Drives.DiskSample.
Proof. solve_decision. Defined.
#[local] Instance sample_countable : Countable Drives.DiskSample.
Proof.
  apply (inj_countable' (λ s : Drives.DiskSample, let '(Drives.mkSample a b c d) := s in (a, b, c, d)) (λ '(a, b, c, d), Drives.mkSample a b c d)).
  by intros [].
Defined.
#[local] Instance trend_eq_dec : EqDecision Drives.DiskTrend.
Proof. solve_decision. Defined.
#[local] Instance trend_countable : Countable Drives.DiskTrend.
Proof.
  apply (inj_countable' (λ t : Drives.DiskTrend, let '(Drives.mkTrend a b c d) := t in (a, b, c, d)) (λ '(a, b, c, d), Drives.mkTrend a b c d)).
  by intros [].
Defined.
#[local] Instance attr_sample_eq_dec : EqDecision Drives.SmartAttrSample.
Proof. solve_decision. Defined.
#[local] Instance attr_sample_countable : Countable Drives.SmartAttrSample.
Proof. apply (inj_countable' (λ s, (Drives.a_Time s, Drives.a_Value s)) (λ '(a, b), Drives.mkAttrSample a b)). by intros []. Defined.
#[local] Instance attr_eq_dec : EqDecision Drives.SmartAttrTrend.
Proof. solve_decision. Defined.
#[local] Instance attr_countable : Countable Drives.SmartAttrTrend.
Proof.
  apply (inj_countable' (λ t : Drives.SmartAttrTrend, let '(Drives.mkAttrTrend a b c d) := t in (a, b, c, d)) (λ '(a, b, c, d), Drives.mkAttrTrend a b c d)).
  by intros [].
Defined.
#[local] Instance device_eq_dec : EqDecision Drives.SmartDeviceTrend.
Proof. solve_decision. Defined.
#[local] Instance device_countable : Countable Drives.SmartDeviceTrend.
Proof. apply (inj_countable' (λ t, (Drives.dt_Device t, Drives.dt_Attrs t)) (λ '(a, b), Drives.mkDeviceTrend a b)). by intros []. Defined.

#[local] Existing Instance CountableJson.raw_json.
#[local] Existing Instance CountableJson.raw_json_roundtrip.
#[local] Instance json_disks : Json (gmap string Drives.DiskTrend) := CountableJson.json ∅.
#[local] Instance json_disks_roundtrip : JsonRoundtrip (gmap string Drives.DiskTrend) := CountableJson.json_roundtrip _.
#[local] Instance json_disks_compact : JsonCompact (gmap string Drives.DiskTrend) := CountableJson.json_compact _.
#[local] Instance json_devices : Json (gmap string Drives.SmartDeviceTrend) := CountableJson.json ∅.
#[local] Instance json_devices_roundtrip : JsonRoundtrip (gmap string Drives.SmartDeviceTrend) := CountableJson.json_roundtrip _.
#[local] Instance json_devices_compact : JsonCompact (gmap string Drives.SmartDeviceTrend) := CountableJson.json_compact _.
#[local] Instance disk_mem : MemStore Store.Store := store_mem false None false.
#[local] Instance disk_laws : MemStoreLaws Store.Store := store_mem_laws false None false.
#[local] Instance disk_total : RawTotal Store.Store := store_raw_total false None false.

(** The clock stands still. *)
Definition new_host : world Store.Store :=
  mkWorld (Store.mkStore true ∅ None 0) (λ _, Hour) 0 (λ _, "") 0 [] (λ _ _, ("", None)) [].

Definition small_disk : Drives.DiskStat := Drives.mkDisk "/" "/dev/sda" 1000 400 "ext4".
Definition worn : list Drives.RawSmartAttrs := [Drives.mkRaw "/dev/sda" {[ "Wear" := 3 ]}].

Lemma set_key_clock {V} {J : Json V} domain key (v : V) (w : world Store.Store) : w_clock (set_key domain key v w).2 = w_clock w.
Proof.
  unfold set_key. destruct (Marshal v); [|reflexivity]. unfold read_doc, write_doc, on_mem, now_, mbind, W_bind.
  destruct (ReadDoc _ _) as [b ok]. cbn. by destruct (Store.on_domain _ _ _).
Qed.

Lemma survey_disks ds now w : w_clock w = (λ _, Hour) →
  recording w (Drives.RecordSamples ds now w).2 ∧ w_clock (Drives.RecordSamples ds now w).2 = (λ _, Hour).
Proof.
  intros Hc. split.
  - destruct (Drives.RecordSamples ds now w) as [[trends e] w'] eqn:E. eapply recording_disks; [|exact E]. rewrite Hc. split; discriminate.
  - unfold Drives.RecordSamples, mbind, W_bind. rewrite get_key_run. destruct (key_value _ _ _) as [t ok].
    rewrite <- Hc. rewrite <- (set_key_clock Drives.DiskTrendsDomain Drives.TrendAttrsKey (foldl (Drives.record_disk now) t ds) w).
    by destruct (set_key _ _ _ w).
Qed.

Lemma survey_smart raw now w : w_clock w = (λ _, Hour) → recording w (Drives.RecordSmartSamples raw now w).2.
Proof.
  intros Hc. destruct (Drives.RecordSmartSamples raw now w) as [[smart e] w'] eqn:E. eapply recording_smart; [|exact E]. rewrite Hc. split; discriminate.
Qed.

(** Two surveys and an attribute. *)
Definition after_one := (Drives.RecordSamples [small_disk] Hour new_host).2.
Definition after_two := (Drives.RecordSamples [small_disk] (Hour + 40 * Minute) after_one).2.
Definition after_smart := (Drives.RecordSmartSamples worn (Hour + 41 * Minute) after_two).2.

Lemma trend_histories_witness :
  small_trends (key_value Drives.DiskTrendsDomain Drives.TrendAttrsKey (w_mem after_smart)).1 ∧
  small_smart (key_value Drives.DiskTrendsDomain Drives.SmartTrendAttrsKey (w_mem after_smart)).1.
Proof.
  destruct (trend_histories_bounded new_host after_smart) as (_ & H1 & H2 & _); [| | |split; [exact H1|exact H2]].
  - intros name dir H. cbn in H. by rewrite lookup_empty in H.
  - unfold trends_rolling.
    assert ((key_value Drives.DiskTrendsDomain Drives.TrendAttrsKey (w_mem new_host)).1 = (∅ : gmap string Drives.DiskTrend)) as -> by (vm_compute; reflexivity).
    assert ((key_value Drives.DiskTrendsDomain Drives.SmartTrendAttrsKey (w_mem new_host)).1 = (∅ : gmap string Drives.SmartDeviceTrend)) as -> by (vm_compute; reflexivity).
    split; apply map_Forall_empty.
  - destruct (survey_disks [small_disk] Hour new_host eq_refl) as [R1 C1].
    destruct (survey_disks [small_disk] (Hour + 40 * Minute) after_one C1) as [R2 C2].
    eapply rtc_l; [exact R1|]. eapply rtc_l; [exact R2|]. apply rtc_once. exact (survey_smart worn (Hour + 41 * Minute) after_two C2).
Defined.

End Recorded.

(** ** A memory of one document *)

Definition week_of_rates : list Net.RateSample :=
  (λ i, Net.mkSample (Hour * i) (Float64.of_Z 2) (Float64.of_Z 1)) <$> [0; 1; 2; 3].

(** A value that decodes from any text and encodes to the empty one. *)
Definition fixed {A} (z v : A) : Json A := {| zero := z; Marshal := λ _, Some ""; Unmarshal := λ _ _, (v, true) |}.

#[local] Instance one_key : RawJson := {|
  compact := id; Valid := λ _, true; MarshalRaw := λ _, Some ""; MarshalRawIndent := λ _, Some "";
  UnmarshalRaw := λ _, Some {[ "network_rate_baseline" := "" ]};
|}.
#[local] Instance json_state : Json SkillState.State := fixed (SkillState.mkState "" "" "" "") (SkillState.mkState "" "" "" "").
#[local] Instance json_disks : Json (gmap string Drives.DiskTrend) := fixed ∅ ∅.
#[local] Instance json_devices : Json (gmap string Drives.SmartDeviceTrend) := fixed ∅ ∅.
#[local] Instance json_rates : Json (list Net.RateSample) := fixed [] week_of_rates.

#[local] Instance constant_mem : MemStore unit := {|
  mem_ok := λ _, True; doc_past := λ _ _ _, True;
  ReadDoc := λ A J name m, Unmarshal "" zero; WriteDoc := λ A J _ name v m, (None, m);
  GetAttr := λ A J key m, (zero, false); AllAttrs := λ m, Ok ∅;
  SetAttr := λ A J key v m, (None, m); DelAttr := λ key m, (None, m);
|}.

Definition host : world unit := mkWorld tt (λ n, 4 * Hour + Z.of_nat n) 0 (λ _, "") 0 [] (λ _ _, ("", None)) [].

(** ** Disks *)

Definition gib : Z := 2 ^ 30.
Definition root_disk : Drives.DiskStat := Drives.mkDisk "/" "/dev/sda" (100 * gib) (60 * gib) "ext4".
Definition data_disk : Drives.DiskStat := Drives.mkDisk "/srv/a_b" "/dev/sdb" (200 * gib) (150 * gib) "xfs".
Definition twin_disk : Drives.DiskStat := Drives.mkDisk "/srv/a/b" "/dev/sdc" (300 * gib) (10 * gib) "xfs".

Definition two_disks : W unit (result string (list Drives.DiskStat)) := mret (Ok [root_disk; data_disk]).
Definition smart_ok (device : string) : W unit (list Drives.SmartReport) := mret [Drives.mkSmart device true true []].
Definition raw_attrs (ds : list Drives.DiskStat) : W unit (list Drives.RawSmartAttrs) :=
  mret [Drives.mkRaw "/dev/sda" {[ "Reallocated_Sector_Ct" := 0 ]}].
Definition visit_trends (m : gmap string Drives.DiskTrend) : list Drives.DiskTrend := snd <$> map_to_list m.
Definition visit_attrs (m : gmap string Drives.SmartDeviceTrend) : list (string * string * Drives.SmartAttrTrend) :=
  concat ((λ '(_, dev), (λ '(name, a), (Drives.dt_Device dev, name, a)) <$> map_to_list (Drives.dt_Attrs dev)) <$> map_to_list m).

#[local] Existing Instance stable_slice.
Definition no_files (path : string) : result string (list Largest.DirEntry) := Err "denied".
Definition no_device (path : string) : Z * bool := (0, false).

Definition disk_check :=
  Drives.pre_check (λ _, 0) two_disks smart_ok raw_attrs no_files no_device (λ _ _, None) visit_trends visit_attrs host.

Lemma quiet_disks_witness :
  disk_check.1.1.1 = false ∧
  ∃ all w1, two_disks host = (Ok all, w1) ∧
    (Drives.DedupeDisks all = [] ∨
     ∃ smart w2 trends e1 w3 raw w4 attrs e2 w5, Drives.collectSmartReports smart_ok (Drives.DedupeDisks all) w1 = (smart, w2) ∧
       Drives.RecordSamples (Drives.DedupeDisks all) (now_ w2).1 (now_ w2).2 = ((trends, e1), w3) ∧
       raw_attrs (Drives.DedupeDisks all) w3 = (raw, w4) ∧
       Drives.RecordSmartSamples raw (now_ w4).1 (now_ w4).2 = ((attrs, e2), w5) ∧
       (∀ d, d ∈ Drives.DedupeDisks all → fine smart d) ∧
       (∀ key t, trends !! key = Some t → Drives.fills_within Drives.trendWarningDays t = false) ∧
       (∀ key dev name t, attrs !! key = Some dev → Drives.dt_Attrs dev !! name = Some t →
          Drives.attr_issue (Drives.dt_Device dev) name t = None)).
Proof.
  assert (disk_check.1.1.1 = false) as E by (vm_compute; reflexivity). split; [exact E|].
  destruct disk_check as [[[needs text] e] w'] eqn:Ed. cbn in E. subst needs.
  assert (e = None) as -> by (replace e with disk_check.1.2 by (rewrite Ed; reflexivity); vm_compute; reflexivity).
  apply (quiet_precheck_is_healthy (λ _, 0) two_disks smart_ok raw_attrs no_files no_device (λ _ _, None) visit_trends visit_attrs host text w' ).
  - intros trends key t Ht. unfold visit_trends. apply list_elem_of_fmap. exists (key, t). split; [reflexivity|].
    by apply elem_of_map_to_list.
  - intros trends key dev name t Hd Ht. unfold visit_attrs. apply list_elem_of_In, in_concat. eexists. split.
    + apply list_elem_of_In, list_elem_of_fmap. exists (key, dev). split; [reflexivity|]. by apply elem_of_map_to_list.
    + apply list_elem_of_In, list_elem_of_fmap. exists (name, t). split; [reflexivity|]. by apply elem_of_map_to_list.
  - exact Ed.
Defined.

Lemma mount_collision_witness :
  foldl (Drives.record_disk 0) ∅ [data_disk; twin_disk] = Drives.record_disk 0 ∅ data_disk.
Proof. apply (mount_collision_masks 0 ∅ data_disk twin_disk). vm_compute. reflexivity. Defined.

(** Mappings that go round in a circle. *)
Definition circle (dev : string) : list string :=
  if String.eqb dev "/dev/dm-0" then ["/dev/dm-1"; "/dev/sda3"] else if String.eqb dev "/dev/dm-1" then ["/dev/dm-0"] else [].

Lemma parents_witness : ∃ disks, DiskProbes.parentDevices circle 4 "/dev/dm-0" = Some disks.
Proof.
  apply (parents_terminate circle ["/dev/dm-0"; "/dev/dm-1"; "/dev/sda3"]).
  - intros d s Hd Hs. repeat (apply elem_of_cons in Hd as [-> |Hd]; [cbn in Hs; set_solver|]). by apply elem_of_nil in Hd.
  - constructor.
  - cbn. lia.
Defined.

(** ** Large directories *)

Definition file (name : string) (size : Z) : Largest.DirEntry := Largest.mkDirEntry name false (Some (true, size)).
Definition dir (name : string) : Largest.DirEntry := Largest.mkDirEntry name true None.
Definition tree (path : string) : result string (list Largest.DirEntry) :=
  if String.eqb path "/" then Ok [dir "opt"; dir "usr"; dir "proc"; file "swap" 500]
  else if String.eqb path "/opt" then Ok [dir "app"; file "a" 7]
  else if String.eqb path "/opt/app" then Ok [file "core" 9000; file "b" 2]
  else if String.eqb path "/usr" then Ok [file "c" 40]
  else Err "absent".
Definition never (i : nat) : option string := None.

Definition scanned := Largest.scan tree no_device never Largest.maxDirsExplored (Largest.start no_device "/").

Lemma totals_witness : ∃ s n, scanned = Ok s ∧ Largest.nodes s !! 1%nat = Some n ∧ Largest.total n = 9009 ∧
  Largest.total n = wrapu64 (own tree n + below (Largest.nodes s) 1).
Proof.
  destruct scanned as [s|e] eqn:E; [|exfalso; revert E; vm_compute; discriminate].
  destruct (Largest.nodes s !! 1%nat) as [n|] eqn:En; [|exfalso; revert En; injection E as <-; vm_compute; discriminate].
  exists s, n. split; [reflexivity|]. split; [exact En|]. split.
  - injection E as <-. injection En as <-. vm_compute. reflexivity.
  - exact (totals_add_up tree no_device never "/" s E 1%nat n En).
Defined.

Lemma largest_witness : ∃ s dirs fs,
  Largest.TopLargest tree no_device never "/" 1 = Ok (dirs, fs) ∧ fs = [Largest.mkEntry "/opt/app/core" 9000] ∧
  scanned = Ok s ∧ (∀ e x, e ∈ Largest.files s → x ∈ fs → e ∈ fs ∨ Largest.Size e ≤ Largest.Size x).
Proof.
  destruct scanned as [s|e] eqn:E; [|exfalso; revert E; vm_compute; discriminate].
  destruct (Largest.TopLargest tree no_device never "/" 1) as [[dirs fs]|e] eqn:Et; [|exfalso; revert Et; vm_compute; discriminate].
  exists s, dirs, fs. split; [reflexivity|]. split; [injection Et as _ <-; vm_compute; reflexivity|]. split; [reflexivity|].
  destruct (largest_listed tree no_device never "/" 1 dirs fs s E Et) as (_ & _ & _ & H & _). exact H.
Defined.

(** ** Temperature *)

Definition hot : list Temperature.TempSensor := [Temperature.mkSensor "x86_pkg_temp" (Float64.of_Z 99)].
Definition hourly : list (Z * list Temperature.TempSensor) := (λ i, (15 * Minute * i, hot)) <$> [1; 2; 3; 4].
Definition visit_temps (m : gmap string Temperature.TempTrend) : list Temperature.TempTrend := snd <$> map_to_list m.

Lemma sustained_witness : Temperature.SustainedHealth (visit_temps (foldl survey ∅ hourly)) (60 * Minute) = ("ok", "").
Proof.
  apply (sustained_never_fires (15 * Minute) 0 hourly ∅ (60 * Minute) visit_temps).
  - vm_compute. reflexivity.
  - cbn. repeat split; vm_compute; discriminate.
  - apply map_Forall_empty.
  - vm_compute. discriminate.
  - intros m t Ht. unfold visit_temps in Ht. apply list_elem_of_fmap in Ht as ([key t'] & -> & Hin).
    exists key. by apply elem_of_map_to_list.
Defined.

Definition mild : list Temperature.TempSensor := [Temperature.mkSensor "acpitz" (Float64.of_Z 41)].
#[local] Instance json_temps : Json (gmap string Temperature.TempTrend) := fixed ∅ ∅.
Definition cool_run := Temperature.pre_check (λ _, 0) (mret (Ok mild)) visit_temps host.

Lemma cool_witness : cool_run.1.1.1 = false ∧
  ∃ sensors w1, (mret (Ok mild) : W unit (result string (list Temperature.TempSensor))) host = (Ok sensors, w1) ∧ cool_run.1.2 = None.
Proof.
  assert (cool_run.1.1.1 = false) as E by (vm_compute; reflexivity). split; [exact E|].
  destruct cool_run as [[[needs text] e] w'] eqn:Ec. cbn in E. subst needs.
  destruct (cool_precheck (λ _, 0) (mret (Ok mild)) visit_temps host text e w' Ec) as (sensors & w1 & H1 & H2 & _).
  exists sensors, w1. split; [exact H1|exact H2].
Defined.

Lemma namesake_witness : Temperature.record_all 0 (hot ++ hot) ∅ = Temperature.record_all 0 hot ∅.
Proof. exact (namesake_not_recorded 0 ∅ _ _ eq_refl). Defined.

(** ** Utilisation *)

Definition dip : list MemUse.UsageSample := [MemUse.mkSample 0 (Float64.of_Z 60); MemUse.mkSample Hour (Float64.of_Z 30)].

Lemma growth_witness : MemUse.GrowthIssue dip (Float64.of_Z 60) (24 * Hour) ≠ "".
Proof.
  apply (growth_reported_iff dip (Float64.of_Z 60) (24 * Hour)).
  - apply spaced_in_time. vm_compute. split; [discriminate|exact I].
  - exists (MemUse.mkSample Hour (Float64.of_Z 30)). split; [repeat constructor|]. split; [vm_compute; discriminate|vm_compute; reflexivity].
Defined.

Definition three_rates : list spec_float := Float64.of_Z <$> [7; 1; 2].

Lemma median_witness : Net.median three_rates = Float64.of_Z 2 ∧ Net.median three_rates ∈ three_rates.
Proof. split; [vm_compute; reflexivity|]. apply (median_splits three_rates). exists 1%nat. reflexivity. Defined.

Definition two_more : list (Z * spec_float) := [(2 * Hour, Float64.of_Z 40); (2 * Hour + 1, Float64.of_Z 40)].

Lemma usage_histories_witness :
  (length (foldl (λ l '(now, pct), MemUse.record_usage now pct l) dip two_more) ≤ 301)%nat.
Proof.
  refine (proj1 (proj2 (proj2 (usage_histories_bounded _ [] dip [] _ (Rolling.rolling_nil _ _ _))))).
  split; [vm_compute; split; [discriminate|exact I]|]. intros a b [= <-] [= <-]. vm_compute. discriminate.
Defined.

(** Counters that grow by five megabytes in five seconds. *)
Definition counters : W unit (result string (Z * Z)) := λ w,
  (Ok (1048576 * 5 * Z.of_nat (w_ticks w), 0), (now_ w).2).
Definition net_check := Net.pre_check (λ _, 0) counters (λ _, mret None) host.

Lemma quiet_network_witness :
  net_check.1.1.1 = false ∧
  ∃ down up w1 history,
    Net.sampleRates (λ _, 0) counters (λ _, mret None) Net.preCheckSampleSeconds host = (Ok (down, up), w1) ∧
    history = Rolling.pruned Net.r_Time Net.baselineMaxAge (now_ w1).1
                (key_value (V := list Net.RateSample) Net.networkDomain Net.baselineAttrsKey (w_mem w1)).1 ∧
    (4 ≤ length history)%nat ∧ Net.unusual down (Net.medians history).1 = false ∧
    Net.unusual up (Net.medians history).2 = false.
Proof.
  assert (net_check.1.1.1 = false) as E by (vm_compute; reflexivity). split; [exact E|].
  destruct net_check as [[[needs text] e] w'] eqn:En. cbn in E. subst needs.
  destruct (quiet_network_has_baseline (λ _, 0) counters (λ _, mret None) host text e w' En) as (down & up & w1 & h & H1 & H2 & H3 & H4 & H5 & _).
  exists down, up, w1, h. repeat (split; [assumption|]). assumption.
Defined.
