(* ===== verification/Posture.v ===== *)
(** * Security posture snapshots and port profiles ([skills/check_security_posture])

    A run gathers a snapshot (listening ports, users, administrators, fingerprints,
    setuid binaries), compares it with the one stored by the previous run, classifies
    the ports against the deployed profile, and saves its health.  The file system, the
    hash and the walk of the binary directories are parameters of the gathering. *)

From S2P Require Import Prelude GoStrings GoTime GoText Json Memory MemStore World KeyStore.

Module Posture.

Definition domainName : string := "check_security_posture".
Definition maxListedChanges : nat := 40.
Definition maxSummaryItems : nat := 10.

Definition sort_strings (l : list string) : list string := SliceStable str_ltb l.

Record Snapshot := mkSnapshot {
  ListeningPorts : list string;
  Users : list string;
  AdminUsers : list string;
  SudoersHash : string;
  AuthorizedKeys : gmap string string;
  SetuidBinaries : list string;
  Errors : list string;
}.

(** ** Differences *)

Record Diff := mkDiff {
  AddedPorts : list string; RemovedPorts : list string;
  AddedUsers : list string; RemovedUsers : list string;
  AddedAdmins : list string; RemovedAdmins : list string;
  SudoersChanged : bool;
  ChangedAuthorizedKeys : list string;
  AddedSetuid : list string; RemovedSetuid : list string;
}.

Definition is_nil {A} (l : list A) : bool := match l with [] => true | _ => false end.

Definition Empty (d : Diff) : bool :=
  is_nil (AddedPorts d) && is_nil (RemovedPorts d) && is_nil (AddedUsers d) && is_nil (RemovedUsers d) &&
  is_nil (AddedAdmins d) && is_nil (RemovedAdmins d) && negb (SudoersChanged d) && is_nil (ChangedAuthorizedKeys d) &&
  is_nil (AddedSetuid d) && is_nil (RemovedSetuid d).

Definition diffLists (prev cur : list string) : list string * list string :=
  (sort_strings (filter (λ s, s ∉ prev) cur), sort_strings (filter (λ s, s ∉ cur) prev)).

(** The users with a fingerprint in either snapshot whose fingerprints differ. *)
Definition changed_keys (prev cur : gmap string string) : list string :=
  sort_strings (filter (λ u, default "" (prev !! u) ≠ default "" (cur !! u)) (fst <$> map_to_list (prev ∪ cur))).

Definition DiffSnapshots (prev cur : Snapshot) : Diff :=
  let ports := diffLists (ListeningPorts prev) (ListeningPorts cur) in
  let users := diffLists (Users prev) (Users cur) in
  let admins := diffLists (AdminUsers prev) (AdminUsers cur) in
  let setuid := diffLists (SetuidBinaries prev) (SetuidBinaries cur) in
  mkDiff ports.1 ports.2 users.1 users.2 admins.1 admins.2
    (negb (String.eqb (SudoersHash prev) (SudoersHash cur)))
    (changed_keys (AuthorizedKeys prev) (AuthorizedKeys cur)) setuid.1 setuid.2.

(** ** Ports against the profile *)

Record BaselinePortEntry := mkBaseline { Port : Z; Protocol : string; Severity : string; Description : string }.

Definition defaultUnclassifiedSeverity : string := "warning".

Definition severityRank (s : string) : Z :=
  if String.eqb s "critical" then 0 else if String.eqb s "warning" then 1 else if String.eqb s "info" then 2 else 0.

Record portFinding := mkFinding { Entry : string; f_Severity : string; f_Description : string }.

(** [\s] of a regular expression. *)
Definition re_space (c : ascii) : bool := is_space c && negb (code c =? 11).
Definition not_space (c : ascii) : bool := negb (re_space c).
Definition not_paren (c : ascii) : bool := negb (Ascii.eqb c ")").

(** What may follow the address: the end, or a process name in parentheses. *)
Definition entry_end (s : string) : bool :=
  match span re_space s with
  | ("", "") => true
  | (String _ _, String "(" rest) => match span not_paren rest with (_, String ")" "") => true | _ => false end
  | _ => false
  end.

(** [portEntryRe.FindStringSubmatch]: the protocol and the address. *)
Definition port_entry (entry : string) : option (string * string) :=
  let proto := take_bytes 3 entry in
  if String.eqb proto "tcp" || String.eqb proto "udp" then
    match span re_space (drop_bytes 3 entry) with
    | (String _ _, rest) =>
        match span not_space rest with
        | (String c a, tail) => if entry_end tail then Some (proto, String c a) else None
        | _ => None
        end
    | _ => None
    end
  else None.

Definition portFromAddr (addr : string) : option Z :=
  match LastCut ":" addr with
  | Some (_, p) => match Atoi p with (n, true) => Some n | _ => None end
  | None => None
  end.

Definition port_key (proto : string) (port : Z) : string := proto +:+ ":" +:+ Itoa port.

Definition profile (baseline : list BaselinePortEntry) : gmap string BaselinePortEntry :=
  foldl (λ m b, <[port_key (Protocol b) (Port b) := b]> m) ∅ baseline.

(** The finding of one listening port. *)
Definition classify (lookup : gmap string BaselinePortEntry) (entry : string) : option portFinding :=
  '(proto, addr) ← port_entry entry;
  port ← portFromAddr addr;
  match lookup !! port_key proto port with
  | Some b => if String.eqb (Severity b) "baseline" then None else Some (mkFinding entry (Severity b) (Description b))
  | None => Some (mkFinding entry defaultUnclassifiedSeverity "not in baseline profile")
  end.

Definition finding_less (a b : portFinding) : bool :=
  if severityRank (f_Severity a) =? severityRank (f_Severity b) then str_ltb (Entry a) (Entry b)
  else severityRank (f_Severity a) <? severityRank (f_Severity b).

Definition classifyPorts (entries : list string) (baseline : list BaselinePortEntry) : list portFinding :=
  match baseline with [] => [] | _ => SliceStable finding_less (omap (classify (profile baseline)) entries) end.

Definition has_finding (severity : string) (findings : list portFinding) : bool :=
  existsb (λ f, String.eqb (f_Severity f) severity) findings.
Definition hasCriticalFinding (findings : list portFinding) : bool := has_finding "critical" findings.
Definition hasWarningFinding (findings : list portFinding) : bool := has_finding "warning" findings.

(** ** The report *)

Definition size {A} (l : list A) : string := Itoa (Z.of_nat (length l)).

(** At most [maxListedChanges] lines, then how many are left. *)
Definition capped {A} (line : A → string) (items : list A) : string :=
  Join (line <$> take maxListedChanges items) "" +:+
  (if (maxListedChanges <? length items)%nat
   then "  … and " +:+ Itoa (Z.of_nat (length items) - Z.of_nat maxListedChanges) +:+ " more" +:+ nl else "").

Definition item_line (s : string) : string := "  " +:+ s +:+ nl.

Definition writeChangeList (label : string) (items : list string) : string :=
  match items with [] => "" | _ => label +:+ " (" +:+ size items +:+ "):" +:+ nl +:+ capped item_line items end.

Definition changes_title : string := "=== Changes Since Last Check ===" +:+ nl.

Definition writeDiffSection (d : Diff) : string :=
  changes_title +:+
  (if Empty d then "No changes detected." +:+ nl
   else
     writeChangeList "New listening ports" (AddedPorts d) +:+
     writeChangeList "Removed listening ports" (RemovedPorts d) +:+
     writeChangeList "New users" (AddedUsers d) +:+
     writeChangeList "Removed users" (RemovedUsers d) +:+
     writeChangeList "New admin users" (AddedAdmins d) +:+
     writeChangeList "Removed admin users" (RemovedAdmins d) +:+
     (if SudoersChanged d then "Sudoers configuration CHANGED (fingerprint differs from last check)" +:+ nl else "") +:+
     writeChangeList "authorized_keys changed for" (ChangedAuthorizedKeys d) +:+
     writeChangeList "New setuid binaries" (AddedSetuid d) +:+
     writeChangeList "Removed setuid binaries" (RemovedSetuid d)).

Definition key_users (s : Snapshot) : list string := sort_strings (fst <$> map_to_list (AuthorizedKeys s)).

Definition writeCurrentSection (s : Snapshot) : string :=
  nl +:+ "=== Current Posture ===" +:+ nl +:+
  "Listening ports (" +:+ size (ListeningPorts s) +:+ "):" +:+ nl +:+ capped item_line (ListeningPorts s) +:+
  "Login-capable users (" +:+ size (Users s) +:+ "): " +:+ Join (Users s) ", " +:+ nl +:+
  "Admin users (" +:+ size (AdminUsers s) +:+ "): " +:+ Join (AdminUsers s) ", " +:+ nl +:+
  (if String.eqb (SudoersHash s) "" then "" else "Sudoers fingerprint: " +:+ SudoersHash s +:+ nl) +:+
  (if is_nil (key_users s) then "" else
     "Users with authorized_keys (" +:+ size (key_users s) +:+ "): " +:+ Join (key_users s) ", " +:+ nl) +:+
  "Setuid/setgid binaries (" +:+ size (SetuidBinaries s) +:+ ")" +:+ nl +:+
  (match Errors s with
   | [] => ""
   | es => nl +:+ "Gathering limitations (snapshot is partial):" +:+ nl +:+ Join (item_line <$> es) ""
   end).

Definition writePortFindingsSection (findings : list portFinding) : string :=
  match findings with
  | [] => ""
  | _ => nl +:+ "=== Ports Beyond Baseline Profile ===" +:+ nl +:+
         capped (λ f, "  [" +:+ ToUpper (f_Severity f) +:+ "] " +:+ Entry f +:+ " — " +:+ f_Description f +:+ nl) findings
  end.

(** ** The summary *)

Definition summary_part (label : string) (items : list string) : option string :=
  match items with
  | [] => None
  | _ => Some (label +:+ ": " +:+ Join (take maxSummaryItems items) ", " +:+
               (if (maxSummaryItems <? length items)%nat
                then ", +" +:+ Itoa (Z.of_nat (length items) - Z.of_nat maxSummaryItems) +:+ " more" else ""))
  end.

Definition summarizeChanges (d : Diff) : string :=
  Join (omap id [
    summary_part "new ports" (AddedPorts d); summary_part "removed ports" (RemovedPorts d);
    summary_part "new users" (AddedUsers d); summary_part "removed users" (RemovedUsers d);
    summary_part "new admins" (AddedAdmins d); summary_part "removed admins" (RemovedAdmins d);
    if SudoersChanged d then Some "sudoers changed" else None;
    summary_part "authorized_keys changed for" (ChangedAuthorizedKeys d);
    summary_part "new setuid" (AddedSetuid d); summary_part "removed setuid" (RemovedSetuid d)]) "; ".

Definition count_changes (d : Diff) : Z :=
  Z.of_nat (length (AddedPorts d) + length (RemovedPorts d) + length (AddedUsers d) + length (RemovedUsers d) +
            length (AddedAdmins d) + length (RemovedAdmins d) + length (ChangedAuthorizedKeys d) +
            length (AddedSetuid d) + length (RemovedSetuid d)) + (if SudoersChanged d then 1 else 0).

Definition summarizePortFindings (findings : list portFinding) : string :=
  Join (omap (λ sev,
    match length (filter (λ f, f_Severity f = sev) findings) with
    | O => None
    | n => Some (Itoa (Z.of_nat n) +:+ " " +:+ sev)
    end) ["critical"; "warning"; "info"]) ", ".

Definition stateSummary (s : Snapshot) (d : Diff) (hasPrev : bool) (findings : list portFinding) : string :=
  size (ListeningPorts s) +:+ " listening ports, " +:+ size (Users s) +:+ " users, " +:+ size (AdminUsers s) +:+
  " admins, " +:+ size (SetuidBinaries s) +:+ " setuid binaries" +:+
  (if negb hasPrev then "; baseline established"
   else if Empty d then "; no changes since last check"
   else "; " +:+ Itoa (count_changes d) +:+ " posture change(s) since last check: " +:+ summarizeChanges d) +:+
  (match findings with
   | [] => ""
   | _ => "; " +:+ size findings +:+ " port(s) beyond baseline profile: " +:+ summarizePortFindings findings
   end).

(** ** The tool *)

Definition empty_snapshot : Snapshot := mkSnapshot [] [] [] "" ∅ [] [].
Definition empty_diff : Diff := mkDiff [] [] [] [] [] [] false [] [] [].

Definition posture_health (hasPrev : bool) (d : Diff) (findings : list portFinding) : string :=
  if hasCriticalFinding findings then "critical"
  else if hasWarningFinding findings then "warning"
  else if hasPrev && negb (Empty d) then "warning" else "ok".

Section Ops.
Context `{!RawJson, !Json SkillState.State, !Json Snapshot, !MemStore M}.
Context (zone : Z → Z) (gather : W M Snapshot) (mem_error_text : mem_error → string).

Definition tool (baseline : list BaselinePortEntry) : W M string :=
  cur ← gather;
  '(prev, hasPrev) ← read_doc (A := Snapshot) domainName;
  err ← write_doc domainName cur;
  let cur := match err with
             | None => cur
             | Some e => mkSnapshot (ListeningPorts cur) (Users cur) (AdminUsers cur) (SudoersHash cur) (AuthorizedKeys cur)
                           (SetuidBinaries cur) (Errors cur ++ ["snapshot not persisted: " +:+ mem_error_text e])
             end in
  let findings := classifyPorts (ListeningPorts cur) baseline in
  let diff := if hasPrev : bool then DiffSnapshots prev cur else empty_diff in
  let changes := if hasPrev : bool then writeDiffSection diff
                 else changes_title +:+ "No previous snapshot — this run establishes the baseline." +:+ nl in
  _ ← SkillState.Save zone "check_security_posture" (posture_health hasPrev diff findings) (stateSummary cur diff hasPrev findings);
  mret (changes +:+ writeCurrentSection cur +:+ writePortFindingsSection findings).

End Ops.

(** ** Gathering on Linux and macOS *)

Definition setuidSearchDirs : list string :=
  ["/usr/bin"; "/usr/sbin"; "/bin"; "/sbin"; "/usr/local/bin"; "/usr/local/sbin"; "/usr/libexec"; "/usr/lib/openssh"; "/opt/bin"].
Definition nonLoginShells : list string := ["nologin"; "false"; "sync"; "shutdown"; "halt"].
Definition adminGroups : list string := ["sudo"; "wheel"; "admin"].

Definition quote : ascii := "034".
Definition not_quote (c : ascii) : bool := negb (Ascii.eqb c quote).

(** [ssProcessRe]: the first quoted name after [users:((]. *)
Definition ss_process (line : string) : option string :=
  leftmost (λ s, rest ← CutPrefix ("users:((" +:+ String quote "") s;
                 match span not_quote rest with (String c n, String _ _) => Some (String c n) | _ => None end) line.

(** An entry is listed once. *)
Definition add_once (acc : list string) (entry : string) : list string :=
  if bool_decide (entry ∈ acc) then acc else acc ++ [entry].

Definition ss_entry (line : string) : option string :=
  match Fields line with
  | proto :: _ :: _ :: _ :: local :: _ =>
      Some (proto +:+ " " +:+ local +:+ (match ss_process line with Some p => " (" +:+ p +:+ ")" | None => "" end))
  | _ => None
  end.
Definition parseSS (out : string) : list string := foldl add_once [] (omap ss_entry (Lines out)).

Definition lsof_entry (line : string) : option string :=
  let fields := Fields line in
  match fields !! 0%nat, fields !! 8%nat with
  | Some cmd, Some addr => if String.eqb cmd "COMMAND" then None else Some ("tcp " +:+ addr +:+ " (" +:+ cmd +:+ ")")
  | _, _ => None
  end.
Definition parseLsof (out : string) : list string := foldl add_once [] (omap lsof_entry (Lines out)).

(** The users, the names with uid 0, and the homes. *)
Definition passwd_line (acc : list string * list string * gmap string string) (line : string) :=
  let '(users, uidZero, homes) := acc in
  match SplitByte ":" line with
  | name :: _ :: uid :: _ :: _ :: home :: shell :: _ =>
      if HasPrefix name "#" then acc
      else
        let uidZero := if String.eqb uid "0" then uidZero ++ [name] else uidZero in
        if bool_decide (Base shell ∈ nonLoginShells) || String.eqb shell "" then (users, uidZero, homes)
        else (users ++ [name +:+ " (uid " +:+ uid +:+ ")"], uidZero,
              if String.eqb home "" || String.eqb home "/" then homes else <[name := home]> homes)
  | _ => acc
  end.

Definition group_members (line : string) : list string :=
  match SplitByte ":" line with
  | group :: _ :: _ :: members :: _ =>
      if bool_decide (group ∈ adminGroups) then filter (λ m, m ≠ "") (TrimSpace <$> SplitByte "," members) else []
  | _ => []
  end.

Section Gather.
Context `{!MemStore M}.
Context (read_file : string → result string string) (stat : string → option (Z * Z)) (sha256 : string → string).
Context (sudoers_d : option (list (string * bool))) (EvalSymlinks : string → option string) (walk : string → list (string * bool)).

Definition passwdUsers : result string (list string * list string * gmap string string) :=
  match read_file "/etc/passwd" with
  | Err e => Err e
  | Ok data => Ok (foldl passwd_line ([], [], ∅) (Lines data))
  end.

Definition setToList (s : list string) : list string := sort_strings (remove_dups s).

Definition adminUsers (uidZero : list string) : list string * option string :=
  match read_file "/etc/group" with
  | Err e => (setToList uidZero, Some e)
  | Ok data => (setToList (uidZero ++ concat (group_members <$> Lines data)), None)
  end.

Definition fingerprintFile (path : string) : string :=
  match read_file path with
  | Ok data => take_bytes 23 ("sha256:" +:+ sha256 data)
  | Err _ => match stat path with
             | Some (mtime, len) => "meta:" +:+ Itoa mtime +:+ ":" +:+ Itoa len
             | None => ""
             end
  end.

Definition sudoers_paths : list string :=
  "/etc/sudoers" :: match sudoers_d with
                    | Some entries => (λ e, JoinPath "/etc/sudoers.d" e.1) <$> filter (λ e, e.2 = false) entries
                    | None => []
                    end.

Definition sudoersFingerprint : string :=
  let lines := omap (λ p, if String.eqb (fingerprintFile p) "" then None else Some (p +:+ "=" +:+ fingerprintFile p +:+ nl)) sudoers_paths in
  match lines with [] => "" | _ => take_bytes 16 (sha256 (Join lines "")) end.

Definition authorizedKeysFingerprints (homes : gmap string string) : gmap string string :=
  omap (λ home, let fp := fingerprintFile (JoinPath (JoinPath home ".ssh") "authorized_keys") in
                if String.eqb fp "" then None else Some fp) homes.

(** [walk dir] lists the files below [dir] with whether a setuid or setgid bit is set. *)
Definition setuid_dir (acc : list string * list string) (dir : string) : list string * list string :=
  let '(seen, out) := acc in
  match EvalSymlinks dir with
  | None => acc
  | Some resolved =>
      if bool_decide (resolved ∈ seen) then acc
      else (resolved :: seen, foldl add_once out (fst <$> filter (λ f, f.2 = true) (walk resolved)))
  end.
Definition setuidBinaries : list string := (foldl setuid_dir ([], []) setuidSearchDirs).2.

Definition runCmd (argv : list string) : W M (result string string) :=
  '(out, err) ← run_process argv;
  mret (match err with None => Ok out | Some e => Err (default "" (head argv) +:+ ": " +:+ e) end).

Definition listeningPorts : W M (list string * option string) :=
  r ← runCmd ["ss"; "-tulnpH"];
  match r with
  | Ok out => mret (parseSS out, None)
  | Err _ =>
      r ← runCmd ["lsof"; "-nP"; "-iTCP"; "-sTCP:LISTEN"];
      mret (match r with Ok out => (parseLsof out, None) | Err e => ([], Some ("neither ss nor lsof usable: " +:+ e)) end)
  end.

Definition gather : W M Snapshot :=
  '(ports, perr) ← listeningPorts;
  let '(users, uidZero, homes, uerr) :=
    match passwdUsers with Ok (u, z, h) => (u, z, h, None) | Err e => ([], [], ∅, Some e) end in
  let '(admins, aerr) := adminUsers uidZero in
  let note (label : string) (e : option string) : list string := match e with Some t => [label +:+ t] | None => [] end in
  mret (mkSnapshot (sort_strings ports) (sort_strings users) (sort_strings admins) sudoersFingerprint
    (authorizedKeysFingerprints homes) (sort_strings setuidBinaries)
    (note "listening ports: " perr ++ note "users: " uerr ++ note "admin users: " aerr)).

End Gather.

(** ** Gathering on Windows *)

Definition task_line (names : gmap string string) (line : string) : gmap string string :=
  match Split line (String quote (String "," (String quote ""))) with
  | image :: pid :: _ => if (Atoi pid).2 then <[pid := TrimPrefix image (String quote "")]> names else names
  | _ => names
  end.

Definition netstat_entry (names : gmap string string) (line : string) : option string :=
  let entry (proto local pid : string) :=
    proto +:+ " " +:+ local +:+
    match names !! pid with Some n => " (" +:+ n +:+ ")" | None => if String.eqb pid "" then "" else " (pid " +:+ pid +:+ ")" end in
  match Fields line with
  | f0 :: f1 :: f2 :: f3 :: rest =>
      if String.eqb (ToUpper f0) "TCP" then
        match rest with
        | f4 :: _ => if EqualFold f3 "LISTENING" then Some (entry "tcp" f1 f4) else None
        | [] => None
        end
      else if String.eqb (ToUpper f0) "UDP" then Some (entry "udp" f1 f3)
      else None
  | _ => None
  end.

Definition parseNetstat (names : gmap string string) (out : string) : list string :=
  foldl add_once [] (omap (netstat_entry names) (Lines out)).

Example netstat_samples :
  let q := String quote "" in
  let names := task_line ∅ (q +:+ "svchost.exe" +:+ q +:+ "," +:+ q +:+ "904" +:+ q +:+ "," +:+ q +:+ "Services" +:+ q) in
  parseNetstat names
    ("  Proto  Local Address  Foreign Address  State  PID" +:+ nl +:+ "  TCP  0.0.0.0:135  0.0.0.0:0  LISTENING  904" +:+ nl +:+
     "  TCP  10.0.0.5:50000  10.0.0.9:443  ESTABLISHED  904" +:+ nl +:+ "  UDP  0.0.0.0:123  *:*  77") =
  ["tcp 0.0.0.0:135 (svchost.exe)"; "udp 0.0.0.0:123 (pid 77)"].
Proof. by vm_compute. Qed.

(** The members of [net localgroup], between the dashes and the closing line. *)
Definition member_line (acc : bool * list string) (line : string) : bool * list string :=
  let '(inMembers, admins) := acc in
  let trimmed := TrimSpace line in
  if HasPrefix trimmed "----" then (true, admins)
  else if HasPrefix trimmed "The command completed" then (false, admins)
  else if inMembers && negb (String.eqb trimmed "") then (inMembers, admins ++ [trimmed])
  else acc.
Definition members (out : string) : list string := (foldl member_line (false, []) (Lines out)).2.

Section Windows.
Context `{!MemStore M}.

Definition pidNames : W M (gmap string string) :=
  r ← runCmd ["tasklist"; "/fo"; "csv"; "/nh"];
  mret (match r with Ok out => foldl task_line ∅ (Lines out) | Err _ => ∅ end).

Definition windows_ports : W M (result string (list string)) :=
  r ← runCmd ["netstat"; "-ano"];
  match r with
  | Err e => mret (Err e)
  | Ok out => names ← pidNames; mret (Ok (parseNetstat names out))
  end.

Definition localUsers : W M (result string (list string)) :=
  r ← runCmd ["powershell"; "-NoProfile"; "-Command"; "Get-LocalUser | Where-Object Enabled | Select-Object -ExpandProperty Name"];
  mret (match r with Ok out => Ok (filter (λ l, l ≠ "") (TrimSpace <$> Lines out)) | Err e => Err e end).

Definition administrators : W M (result string (list string)) :=
  r ← runCmd ["net"; "localgroup"; "Administrators"];
  mret (match r with Ok out => Ok (members out) | Err e => Err e end).

Definition windows_gather : W M Snapshot :=
  ports ← windows_ports;
  users ← localUsers;
  admins ← administrators;
  let listed (r : result string (list string)) := match r with Ok l => sort_strings l | Err _ => [] end in
  let note (label : string) (r : result string (list string)) := match r with Err e => [label +:+ e] | Ok _ => [] end in
  mret (mkSnapshot (listed ports) (listed users) (listed admins) "" ∅ []
    (note "listening ports: " ports ++ note "users: " users ++ note "admin users: " admins)).
End Windows.

End Posture.
