(* ===== verification/Nfs.v ===== *)
(** * NFS mounts and the emergency unmount ([skills/check_nfs])

    A survey reads the statistics of every NFS mount, judges each, detaches those whose
    queue of pending operations passes the critical threshold, and saves the worst
    health.  The files of /proc are parameters. *)

From Corelib Require Import SpecFloat.
From S2P Require Import Prelude GoStrings GoTime GoText GoDuration Rolling Json Memory MemStore World KeyStore.

Module Nfs.
Import Float64.

Definition pendingOpsWarning : Z := 500.
Definition pendingOpsCritical : Z := 2000.
Definition dStateProcWarning : Z := 1.
Definition dStateProcCritical : Z := 5.
Definition getattrMsWarning : spec_float := of_Z 1000.
Definition getattrMsCritical : spec_float := of_Z 5000.

Record NFSMountStats := mkStats { Mount : string; Remote : string; PendingOps : Z; GETATTRMs : spec_float; DStateProcs : Z }.
Record RawNFSStats := mkRaw { r_PendingOps : Z; r_GETATTRMs : spec_float; GETATTROps : Z }.
Record NFSMount := mkMount { m_Mount : string; m_Remote : string }.

(** ** Judging a mount *)

Definition worseHealth (a b : string) : string := if severityOf a <? severityOf b then b else a.

(** One measure: its health and its issue. *)
Definition level (critical warning : bool) (crit_text warn_text : string) : string * list string :=
  if critical then ("critical", [crit_text]) else if warning then ("warning", [warn_text]) else ("ok", []).

Definition AssessMount (s : NFSMountStats) : string * string :=
  let p := level (pendingOpsCritical <=? PendingOps s) (pendingOpsWarning <=? PendingOps s)
             (Itoa (PendingOps s) +:+ " pending ops (critical)") (Itoa (PendingOps s) +:+ " pending ops (warning)") in
  let ms := Float.format 0 (GETATTRMs s) in
  let g := level (Float.geb (GETATTRMs s) getattrMsCritical) (Float.geb (GETATTRMs s) getattrMsWarning)
             ("GETATTR " +:+ ms +:+ "ms (critical)") ("GETATTR " +:+ ms +:+ "ms (warning)") in
  let d := level (dStateProcCritical <=? DStateProcs s) (dStateProcWarning <=? DStateProcs s)
             (Itoa (DStateProcs s) +:+ " D-state NFS processes (critical)") (Itoa (DStateProcs s) +:+ " D-state NFS process(es) (warning)") in
  match p.2 ++ g.2 ++ d.2 with
  | [] => ("ok", "")
  | issues => (worseHealth (worseHealth p.1 g.1) d.1, Mount s +:+ ": " +:+ Join issues ", ")
  end.

(** ** /proc/self/mountstats *)

Definition int_or_0 (s : string) : Z := (Atoi s).1.

Definition parsePendingOps (proto : string) (vals : list string) : Z :=
  if String.eqb proto "tcp" || String.eqb proto "tcp6" then
    match vals !! 12%nat with
    | Some v => int_or_0 v
    | None => match vals !! 8%nat with Some v => int_or_0 v | None => 0 end
    end
  else 0.

(** The word after the first [fstype]; the loop starts two words after the mount point. *)
Fixpoint fstype_of (words : list string) : string :=
  match words with
  | a :: (b :: _) as rest => if String.eqb a "fstype" then b else fstype_of rest
  | _ => ""
  end.

(** The mount point and type of a [device] line. *)
Fixpoint device_line (words : list string) : option (string * string) :=
  match words with
  | a :: rest =>
      match rest with
      | on :: mount :: with_ :: _ :: _ =>
          if String.eqb a "mounted" && String.eqb on "on" && String.eqb with_ "with"
          then Some (mount, fstype_of (drop 2 rest)) else device_line rest
      | _ => None
      end
  | [] => None
  end.

Definition no_stats : RawNFSStats := mkRaw 0 zero 0.

(** The loop: the results, the mount of the block (of an NFS file system), its statistics. *)
Record parser := mkParser { found : gmap string RawNFSStats; block : string; inNFS : bool; current : RawNFSStats }.

Definition flush (p : parser) : gmap string RawNFSStats :=
  if negb (String.eqb (block p) "") && inNFS p then <[block p := current p]> (found p) else found p.

Definition xprt_line (cur : RawNFSStats) (fields : list string) : RawNFSStats :=
  match fields with
  | _ :: proto :: v :: vals => mkRaw (parsePendingOps proto (v :: vals)) (r_GETATTRMs cur) (GETATTROps cur)
  | _ => cur
  end.

Definition getattr_line (cur : RawNFSStats) (fields : list string) : RawNFSStats :=
  match fields !! 1%nat, fields !! 7%nat with
  | Some f1, Some f7 =>
      let ops := int_or_0 f1 in
      if 0 <? ops
      then mkRaw (r_PendingOps cur) (div (Float.Round (mul (div (Float.ParseFloat f7).1 (of_Z ops)) (of_Z 10))) (of_Z 10)) ops
      else cur
  | _, _ => cur
  end.

Definition stats_line (p : parser) (line : string) : parser :=
  let trimmed := TrimSpace line in
  if HasPrefix trimmed "device " then
    match device_line (Fields trimmed) with
    | Some (mount, fstype) => mkParser (flush p) mount (HasPrefix fstype "nfs") no_stats
    | None => mkParser (flush p) "" false no_stats
    end
  else if negb (inNFS p) || String.eqb (block p) "" then p
  else if HasPrefix trimmed "xprt:" then mkParser (found p) (block p) (inNFS p) (xprt_line (current p) (Fields trimmed))
  else if HasPrefix trimmed "GETATTR:" then mkParser (found p) (block p) (inNFS p) (getattr_line (current p) (Fields trimmed))
  else p.

Definition ParseMountstats (data : string) : gmap string RawNFSStats :=
  flush (foldl stats_line (mkParser ∅ "" false no_stats) (ScanLines data)).

(** ** The readings of Linux *)

Definition nfs_line (line : string) : option NFSMount :=
  match Fields line with
  | remote :: mount :: fstype :: _ =>
      if String.eqb fstype "nfs" || String.eqb fstype "nfs4" then Some (mkMount mount remote) else None
  | _ => None
  end.

(** The mounts, and an error with them. *)
Definition listNFSMounts (mounts : result string string) : list NFSMount * option string :=
  match mounts with
  | Err e => ([], Some ("check_nfs: open /proc/mounts: " +:+ e))
  | Ok text => (omap nfs_line (ScanLines text), if scan_overflows text then Some "bufio.Scanner: token too long" else None)
  end.

Definition gatherStats (mountstats : result string string) (mounts : list NFSMount) : list NFSMountStats :=
  match mountstats with
  | Err _ => (λ m, mkStats (m_Mount m) (m_Remote m) 0 zero 0) <$> mounts
  | Ok data =>
      let parsed := ParseMountstats data in
      (λ m, match parsed !! m_Mount m with
            | Some raw => mkStats (m_Mount m) (m_Remote m) (r_PendingOps raw) (r_GETATTRMs raw) 0
            | None => mkStats (m_Mount m) (m_Remote m) 0 zero 0
            end) <$> mounts
  end.

Definition starts_with_digit (s : string) : bool :=
  match s with String c _ => match digit c with Some _ => true | None => false end | "" => false end.

(** A process in uninterruptible sleep in NFS or RPC code. *)
Definition d_state (read_file : string → result string string) (pid : string) : bool :=
  match read_file ("/proc/" +:+ pid +:+ "/status") with
  | Err _ => false
  | Ok status =>
      Contains status ("State:" +:+ String tab "D") &&
      match read_file ("/proc/" +:+ pid +:+ "/wchan") with
      | Err _ => false
      | Ok wchan => let wc := TrimSpace wchan in Contains wc "nfs" || Contains wc "rpc" || Contains wc "sunrpc"
      end
  end.

(** [proc]: the entries of /proc with whether they are directories. *)
Definition countDStateProcs (proc : result string (list (string * bool))) (read_file : string → result string string) : Z :=
  match proc with
  | Err _ => 0
  | Ok entries => Z.of_nat (length (filter (λ e, e.2 && starts_with_digit e.1 && d_state read_file e.1 = true) entries))
  end.

(** ** The survey *)

Record CheckResult := mkResult { Health : string; Report : string; Summary : string }.

Definition nfsSummary (issues : list string) (totalMounts : nat) : string :=
  match issues with
  | [] => "all " +:+ Itoa (Z.of_nat totalMounts) +:+ " NFS mount(s) healthy"
  | _ => Join (take 3 issues) "; " +:+
         (if (3 <? length issues)%nat then " (+" +:+ Itoa (Z.of_nat (length issues) - 3) +:+ " more)" else "")
  end.

Definition buildMountSection (s : NFSMountStats) (h issue : string) : string :=
  (if String.eqb h "critical" then "!!" else if String.eqb h "warning" then " !" else "  ") +:+
  " Mount:       " +:+ Mount s +:+ nl +:+
  (if String.eqb (Remote s) "" then "" else "   Remote:      " +:+ Remote s +:+ nl) +:+
  "   Pending ops: " +:+ Itoa (PendingOps s) +:+ nl +:+
  (if Float.gtb (GETATTRMs s) zero then "   GETATTR avg: " +:+ Float.format 1 (GETATTRMs s) +:+ " ms" +:+ nl else "") +:+
  "   D-state:     " +:+ Itoa (DStateProcs s) +:+ " process(es)" +:+ nl +:+
  (if String.eqb issue "" then "" else "   Issue:       " +:+ issue +:+ nl).

(** What the loop over the mounts collects. *)
Record tally := mkTally { worst : string; issues : list string; unmounted : list string; sections : list string }.

Section Ops.
Context `{!RawJson, !Json SkillState.State, !MemStore M}.
Context (zone : Z → Z) (root : bool).
(** The files of /proc as they are when they are read. *)
Context (mounts_file mountstats_file : W M (result string string)) (dstate : W M Z).

Definition umount_argv (mount : string) : list string :=
  if root then ["umount"; "-l"; mount] else ["sudo"; "-n"; "umount"; "-l"; mount].

Definition lazyUnmount (mount : string) : W M (option string) :=
  '(out, err) ← run_process (umount_argv mount);
  mret (match err with
        | None => None
        | Some e => Some ("umount -l " +:+ mount +:+ ": " +:+ e +:+ ": " +:+ TrimSpace out)
        end).

Definition check_mount (t : tally) (s : NFSMountStats) : W M tally :=
  let '(h, issue) := AssessMount s in
  '(issue, gone) ← (if String.eqb h "critical" && (pendingOpsCritical <=? PendingOps s)
                    then err ← lazyUnmount (Mount s);
                         mret (match err with
                               | Some e => (issue +:+ " (auto-unmount failed: " +:+ e +:+ ")", [])
                               | None => (issue +:+ " [AUTO-UNMOUNTED]", [Mount s])
                               end)
                    else mret (issue, []));
  mret (mkTally (worseHealth (worst t) h) (if String.eqb issue "" then issues t else issues t ++ [issue])
    (unmounted t ++ gone) (sections t ++ [buildMountSection s h issue])).

Fixpoint check_mounts (t : tally) (stats : list NFSMountStats) : W M tally :=
  match stats with [] => mret t | s :: rest => t ← check_mount t s; check_mounts t rest end.

Definition no_mounts : CheckResult := mkResult "ok" "no NFS mounts found on this host" "".

Definition runCheck : W M CheckResult :=
  file ← mounts_file;
  let mounts := (listNFSMounts file).1 in
  match mounts with
  | [] => mret no_mounts
  | _ =>
      total ← dstate;
      stats ← mountstats_file;
      let stats := (λ s, mkStats (Mount s) (Remote s) (PendingOps s) (GETATTRMs s) total) <$> gatherStats stats mounts in
      t ← check_mounts (mkTally "ok" [] [] []) stats;
      let report := Join (sections t) (nl +:+ nl) +:+
        (match unmounted t with [] => "" | l => nl +:+ nl +:+ "EMERGENCY LAZY UNMOUNT executed for: " +:+ Join l ", " end) in
      let summary := nfsSummary (issues t) (length mounts) in
      _ ← SkillState.Save zone "check_nfs" (worst t) summary;
      mret (mkResult (worst t) report summary)
  end.

Definition tool : W M string := res ← runCheck; mret (Report res).

Definition pre_check : W M (bool * string) := res ← runCheck; mret (negb (String.eqb (Health res) "ok"), Report res).

End Ops.

End Nfs.
