(* ===== verification/Containers.v ===== *)
(** * Docker and Podman containers ([skills/check_containers])

    A survey lists the containers of each runtime that is installed, judges every one
    by its state and status, and saves the worst health. *)

From S2P Require Import Prelude GoStrings GoTime GoText GoDuration Rolling Json Memory MemStore World KeyStore.

Module Containers.

Record psEntry := mkEntry { ID : string; Names : string; Image : string; State : string; Status : string; Ports : string }.

(** [exitCodeRe]: the digits of the leftmost match. *)
Definition exit_digits (status : string) : option string :=
  leftmost (λ s, rest ← CutPrefix "Exited (" s;
                 match span (λ c, match digit c with Some _ => true | None => false end) rest with
                 | (String c d, String ")" _) => Some (String c d)
                 | _ => None
                 end) status.

Definition ExitCode (status : string) : Z := match exit_digits status with Some d => (Atoi d).1 | None => 0 end.

Definition assessContainer (name state status : string) : string * string :=
  if String.eqb state "dead" then ("critical", name +:+ ": dead")
  else if String.eqb state "restarting" then ("warning", name +:+ ": restarting (possible restart loop)")
  else if String.eqb state "paused" then ("warning", name +:+ ": paused")
  else if String.eqb state "exited" then
    let code := ExitCode status in
    if code =? 137 then ("critical", name +:+ ": OOM killed (exit 137)")
    else if negb (code =? 0) then ("warning", name +:+ ": exited with code " +:+ Itoa code)
    else ("ok", "")
  else if String.eqb state "running" then
    if Contains status "(unhealthy)" then ("critical", name +:+ ": health check failing") else ("ok", "")
  else ("ok", "").

Definition WorseHealth (a b : string) : string := if severityOf a <? severityOf b then b else a.

Definition HealthSummary (issues : list string) : string :=
  match issues with
  | [] => "all containers healthy"
  | _ => Join (take 3 issues) "; " +:+
         (if (3 <? length issues)%nat then " (+" +:+ Itoa (Z.of_nat (length issues) - 3) +:+ " more)" else "")
  end.

Definition display_name (c : psEntry) : string := if String.eqb (Names c) "" then take_bytes 12 (ID c) else Names c.

(** The verdict on one listed container. *)
Definition assess (c : psEntry) : string * string := assessContainer (display_name c) (ToLower (State c)) (Status c).

Definition container_line (c : psEntry) : string :=
  let '(h, issue) := assess c in
  (if String.eqb h "critical" then "!!" else if String.eqb h "warning" then " !" else "  ") +:+ " " +:+
  pad_right 30 (display_name c) +:+ "  " +:+ pad_right 12 (ToLower (State c)) +:+ "  " +:+ Status c +:+
  (if String.eqb (Ports c) "" then "" else "  [" +:+ Ports c +:+ "]") +:+
  (if String.eqb issue "" then "" else "  <- " +:+ issue) +:+ nl.

Definition is_issue (h : string) : bool := String.eqb h "critical" || String.eqb h "warning".

Definition buildSection (runtime : string) (containers : list psEntry) : string * list string * string :=
  ("=== " +:+ runtime +:+ " (" +:+ Itoa (Z.of_nat (length containers)) +:+ " container(s)) ===" +:+ nl +:+
     Join (container_line <$> containers) "",
   snd <$> filter (λ v, is_issue v.1 = true) (assess <$> containers),
   foldl WorseHealth "ok" (fst ∘ assess <$> containers)).

Record CheckResult := mkResult { Health : string; Report : string; Summary : string }.

Section Ops.
Context `{!RawJson, !Json SkillState.State, !Json psEntry, !MemStore M}.
Context (zone : Z → Z) (installed : string → bool).

Definition ps_argv (runtime : string) : list string := [runtime; "ps"; "-a"; "--no-trunc"; "--format"; "{{json .}}"].

Definition ps_line (line : string) : option psEntry :=
  let line := TrimSpace line in
  if String.eqb line "" then None
  else let '(e, ok) := Unmarshal line zero in if ok : bool then Some e else None.

Definition listContainers (runtime : string) : W M (result string (list psEntry)) :=
  '(out, err) ← run_process (ps_argv runtime);
  mret (match err with
        | Some e => Err e
        | None => if scan_overflows out then Err "bufio.Scanner: token too long" else Ok (omap ps_line (ScanLines out))
        end).

(** The sections, the issues and the worst health so far. *)
Definition scan_runtime (acc : list string * list string * string) (runtime : string) : W M (list string * list string * string) :=
  let '(sections, issues, worst) := acc in
  if negb (installed runtime) then mret acc
  else
    r ← listContainers runtime;
    mret (match r with
          | Err e =>
              let issue := runtime +:+ ": failed to list containers (" +:+ e +:+ ")" in
              (sections ++ ["=== " +:+ runtime +:+ " ===" +:+ nl +:+ issue], issues ++ [issue], WorseHealth worst "warning")
          | Ok [] => (sections ++ ["=== " +:+ runtime +:+ " ===" +:+ nl +:+ "No containers found."], issues, worst)
          | Ok containers =>
              let '(section, found, health) := buildSection runtime containers in
              (sections ++ [section], issues ++ found, WorseHealth worst health)
          end).

Definition no_runtime : string := "no container runtime (docker/podman) found on this host".

Definition runCheck : W M CheckResult :=
  acc ← scan_runtime ([], [], "ok") "docker";
  '(sections, issues, worst) ← scan_runtime acc "podman";
  match sections with
  | [] => _ ← SkillState.Save zone "check_containers" "ok" no_runtime; mret (mkResult "ok" no_runtime no_runtime)
  | _ =>
      let summary := HealthSummary issues in
      _ ← SkillState.Save zone "check_containers" worst summary;
      mret (mkResult worst (Join sections (nl +:+ nl)) summary)
  end.

Definition tool : W M string := res ← runCheck; mret (Report res).

Definition pre_check : W M (bool * string) := res ← runCheck; mret (negb (String.eqb (Health res) "ok"), Report res).

(** Whether the host gets the built-in responsibility: some runtime lists a container. *)
Definition has_containers (runtime : string) : W M bool :=
  if installed runtime then
    r ← listContainers runtime;
    mret (match r with Ok (_ :: _) => true | _ => false end)
  else mret false.

Definition AutoResponsibility : W M bool :=
  docker ← has_containers "docker";
  if docker : bool then mret true else has_containers "podman".

End Ops.

End Containers.
