(* ===== verification/SurveyFacts.v ===== *)
(** * Theorems on the posture, NFS and container surveys *)

From Corelib Require Import SpecFloat.
From S2P Require Import Prelude GoStrings GoTime GoText GoDuration Rolling Json Memory MemStore World KeyStore.
From S2P Require Import Posture Nfs Containers.

(** ** Posture: the administrators of Windows *)

Section Administrators.
Import Posture.

Definition dashes (l : string) : bool := HasPrefix (TrimSpace l) "----".
Definition closing (l : string) : bool := HasPrefix (TrimSpace l) "The command completed".

Lemma before_members header acc : Forall (λ l, dashes l = false) header → foldl member_line (false, acc) header = (false, acc).
Proof.
  induction 1 as [|l header Hl _ IH]; [done|]. cbn [foldl]. unfold member_line at 2. unfold dashes in Hl. rewrite Hl.
  cbn [andb]. destruct (HasPrefix (TrimSpace l) "The command completed"); exact IH.
Qed.

Lemma among_members ms acc : Forall (λ l, dashes l = false ∧ closing l = false) ms →
  foldl member_line (true, acc) ms = (true, acc ++ filter (λ l, l ≠ "") (TrimSpace <$> ms)).
Proof.
  intros H. revert acc. induction H as [|l ms [Hd Hc] _ IH]; intros acc; [by rewrite app_nil_r|].
  cbn [foldl]. unfold member_line at 2. unfold dashes, closing in Hd, Hc. rewrite Hd, Hc. cbn [andb fmap list_fmap].
  destruct (String.eqb_spec (TrimSpace l) "") as [E|E]; cbn [negb].
  - rewrite IH, filter_cons_False by (rewrite E; naive_solver). done.
  - rewrite IH, filter_cons_True by done. by rewrite <- app_assoc.
Qed.

(** The administrators are the lines between the dashes and the closing line, blank ones
    apart. *)
Theorem administrators_exact header rule ms last : Forall (λ l, dashes l = false) header → dashes rule = true →
  Forall (λ l, dashes l = false ∧ closing l = false) ms → dashes last = false → closing last = true →
  (foldl member_line (false, []) (header ++ [rule] ++ ms ++ [last])).2 = filter (λ l, l ≠ "") (TrimSpace <$> ms).
Proof.
  intros Hh Hr Hms Hl Hc. rewrite !foldl_app, before_members by done. cbn [foldl]. unfold member_line at 3.
  unfold dashes in Hr. rewrite Hr. rewrite among_members by done. unfold member_line, dashes, closing in *. by rewrite Hl, Hc.
Qed.

End Administrators.

(** ** Posture: differences *)

Section Differences.
Import Posture.

Lemma sort_strings_nil l : sort_strings l = [] ↔ l = [].
Proof. unfold sort_strings. split; [|by intros ->]. intros E. apply Permutation_nil. rewrite <- E. apply SliceStable_perm. Qed.

Lemma filter_nil_iff {A} (P : A → Prop) `{!∀ x, Decision (P x)} l : filter P l = [] ↔ ∀ x, x ∈ l → ¬ P x.
Proof.
  split; [intros E x Hx; exact (filter_none P l x E Hx)|]. intros Hn. apply elem_of_nil_inv. intros x [Hp Hx]%list_elem_of_filter. by apply (Hn x).
Qed.

Lemma diffLists_nil prev cur : (diffLists prev cur).1 = [] ∧ (diffLists prev cur).2 = [] ↔ ∀ x, x ∈ prev ↔ x ∈ cur.
Proof.
  unfold diffLists. cbn. rewrite !sort_strings_nil, !filter_nil_iff. split.
  - intros [H1 H2] x. split; intros Hx; apply dec_stable; eauto.
  - intros H. split; intros x Hx Hn; apply Hn; by apply H.
Qed.

Lemma changed_keys_nil prev cur : changed_keys prev cur = [] ↔ ∀ u, default "" (prev !! u) = default "" (cur !! u).
Proof.
  unfold changed_keys. rewrite sort_strings_nil, filter_nil_iff. split.
  - intros H u. destruct (prev !! u) as [a|] eqn:Ep, (cur !! u) as [b|] eqn:Ec; try done; apply dec_stable; intros Hn;
      (apply (H u); [|by rewrite Ep, Ec]); apply list_elem_of_fmap; (eexists (u, _)); (split; [done|]);
      apply elem_of_map_to_list, lookup_union_Some_raw; [by left|by left|by right].
  - intros H u _ Hn. by apply Hn.
Qed.

Lemma is_nil_true {A} (l : list A) : is_nil l = true ↔ l = [].
Proof. by destruct l. Qed.

(** The same listed ports, users, administrators and setuid binaries as sets, the same
    fingerprint of sudoers, and for every user the same fingerprint of the authorized
    keys, none counting as an empty one. *)
Definition same_posture (prev cur : Snapshot) : Prop :=
  (∀ x, x ∈ ListeningPorts prev ↔ x ∈ ListeningPorts cur) ∧ (∀ x, x ∈ Users prev ↔ x ∈ Users cur) ∧
  (∀ x, x ∈ AdminUsers prev ↔ x ∈ AdminUsers cur) ∧ (∀ x, x ∈ SetuidBinaries prev ↔ x ∈ SetuidBinaries cur) ∧
  SudoersHash prev = SudoersHash cur ∧
  ∀ u, default "" (AuthorizedKeys prev !! u) = default "" (AuthorizedKeys cur !! u).

(** A run reports no change exactly when nothing changed. *)
Theorem no_change_iff prev cur : Empty (DiffSnapshots prev cur) = true ↔ same_posture prev cur.
Proof.
  unfold same_posture, Empty, DiffSnapshots. cbn [AddedPorts RemovedPorts AddedUsers RemovedUsers AddedAdmins RemovedAdmins SudoersChanged
    ChangedAuthorizedKeys AddedSetuid RemovedSetuid].
  rewrite !andb_true_iff, !is_nil_true, negb_involutive, String.eqb_eq, changed_keys_nil, <- !diffLists_nil. tauto.
Qed.

(** ** Posture: ports *)

(** The last row of the profile for a port. *)
Fixpoint last_row (key : string) (baseline : list BaselinePortEntry) : option BaselinePortEntry :=
  match baseline with
  | [] => None
  | b :: rest => match last_row key rest with
                 | Some r => Some r
                 | None => if String.eqb (port_key (Protocol b) (Port b)) key then Some b else None
                 end
  end.

Lemma profile_lookup baseline key : profile baseline !! key = last_row key baseline.
Proof.
  unfold profile. assert (∀ m : gmap string BaselinePortEntry, foldl (λ m b, <[port_key (Protocol b) (Port b) := b]> m) m baseline !! key =
    match last_row key baseline with Some r => Some r | None => m !! key end) as H.
  { induction baseline as [|b l IH]; intros m; cbn; [done|]. rewrite IH. destruct (last_row key l); [done|].
    destruct (String.eqb_spec (port_key (Protocol b) (Port b)) key) as [<-|Hne]; [by rewrite lookup_insert_eq|by rewrite lookup_insert_ne]. }
  rewrite H. destruct (last_row key baseline); [done|apply lookup_empty].
Qed.

(** What the profile says of a port: nothing, or a severity and a description. *)
Definition verdict_on (baseline : list BaselinePortEntry) (proto : string) (port : Z) : option (string * string) :=
  match last_row (port_key proto port) baseline with
  | Some b => if String.eqb (Severity b) "baseline" then None else Some (Severity b, Description b)
  | None => Some (defaultUnclassifiedSeverity, "not in baseline profile")
  end.

(** With a profile deployed, the findings are exactly the listening ports the profile
    does not expect: an entry that reads as a port is reported unless the last row for its
    protocol and port says baseline, with the severity of that row, and as a warning if
    there is none; nothing else is reported. *)
Theorem findings_exact entries baseline f : baseline ≠ [] →
  f ∈ classifyPorts entries baseline ↔
  ∃ proto addr port, Entry f ∈ entries ∧ port_entry (Entry f) = Some (proto, addr) ∧ portFromAddr addr = Some port ∧
    verdict_on baseline proto port = Some (f_Severity f, f_Description f).
Proof.
  intros Hb. unfold classifyPorts. destruct baseline as [|b0 bs]; [done|]. set (l := b0 :: bs). rewrite SliceStable_perm, list_elem_of_omap.
  pose proof (profile_lookup l) as Hm. generalize dependent (profile l). intros m Hm. unfold classify, verdict_on. split.
  - intros (entry & He & Hc). destruct (port_entry entry) as [[proto addr]|] eqn:E1; [|done]. cbn in Hc.
    destruct (portFromAddr addr) as [port|] eqn:E2; [|done]. cbn in Hc. rewrite Hm in Hc. exists proto, addr, port.
    destruct (last_row (port_key proto port) l) as [b|]; [destruct (String.eqb _ _); [done|]|]; injection Hc as <-; cbn [Entry f_Severity f_Description]; by rewrite E1.
  - intros (proto & addr & port & He & E1 & E2 & Hv). exists (Entry f). split; [done|]. rewrite E1. cbn. rewrite E2. cbn.
    rewrite Hm. destruct f as [e s d]. cbn [Entry f_Severity f_Description] in Hv |- *.
    destruct (last_row (port_key proto port) l) as [b|]; [destruct (String.eqb _ _); [done|]|]; injection Hv as <- <-; done.
Qed.

(** *** Names that hide a port *)

Lemma paren_tail a b : ∃ x y, span not_paren (a +:+ ")" +:+ b) = (x, String ")" y) ∧ (a +:+ ")" +:+ b = x +:+ ")" +:+ y) ∧
  (String.length y ≥ String.length b)%nat.
Proof.
  induction a as [|c a (x & y & E & Es & Hl)].
  - exists "", b. split_and!; [done|done|lia].
  - rewrite append_cons. cbn [span]. unfold not_paren at 1. destruct (Ascii.eqb_spec c ")") as [->|Hc]; cbn.
    + exists "", (a +:+ ")" +:+ b). split_and!; [done..|]. rewrite !length_append. cbn. lia.
    + rewrite E. exists (String c x), y. split_and!; [done| |done]. by rewrite Es.
Qed.

(** A listening port is hidden from the profile by the name of its process: if the
    name contains a closing parenthesis the entry does not read as a port at all, and
    whatever the profile says of the port, no finding is made. *)
Theorem process_name_hides_port proto addr a b baseline :
  proto = "tcp" ∨ proto = "udp" → addr ≠ "" → forall_bytes not_space addr = true →
  classifyPorts [proto +:+ " " +:+ addr +:+ " (" +:+ a +:+ ")" +:+ b +:+ ")"] baseline = [].
Proof.
  intros Hp Ha Hs. unfold classifyPorts. destruct baseline as [|b0 bs]; [done|]. cbn [omap list_omap]. unfold classify.
  assert (port_entry (proto +:+ " " +:+ addr +:+ " (" +:+ a +:+ ")" +:+ b +:+ ")") = None) as ->; [|done].
  set (tail := " (" +:+ a +:+ ")" +:+ b +:+ ")").
  assert (entry_end tail = false) as He.
  { subst tail. unfold entry_end. change (span re_space (" (" +:+ a +:+ ")" +:+ b +:+ ")")) with (" ", "(" +:+ a +:+ ")" +:+ b +:+ ")").
    destruct (paren_tail a (b +:+ ")")) as (x & y & E & _ & Hl). change ("(" +:+ a +:+ ")" +:+ b +:+ ")") with (String "(" (a +:+ ")" +:+ b +:+ ")")).
    cbv beta iota. rewrite E. rewrite length_append in Hl. cbn in Hl. destruct y; [cbn in Hl; lia|done]. }
  assert (span not_space (addr +:+ tail) = (addr, tail)) as Ea by (by apply span_all).
  unfold port_entry. destruct addr as [|c0 addr']; [done|].
  assert (re_space c0 = false) as Hc0. { cbn in Hs. apply andb_true_iff in Hs as [Hc _]. unfold not_space in Hc. by apply negb_true_iff in Hc. }
  set (addr := String c0 addr') in *.
  assert (∀ x, take_bytes 3 (proto +:+ x) = proto ∧ drop_bytes 3 (proto +:+ x) = x) as Hpre by (intros x; destruct Hp as [-> | ->]; split; [by destruct x|done|by destruct x|done]).
  destruct (Hpre (" " +:+ addr +:+ tail)) as [-> ->]. assert (String.eqb proto "tcp" || String.eqb proto "udp" = true) as -> by (by destruct Hp as [-> | ->]).
  assert (span re_space (" " +:+ addr +:+ tail) = (" ", addr +:+ tail)) as ->.
  { apply (span_all re_space " "); [done|]. subst addr. by rewrite append_cons. }
  cbn iota beta. rewrite Ea. subst addr. cbn iota beta. by rewrite He.
Qed.

End Differences.

(** ** Posture: what is saved *)

Section Saved.
Import Posture.
Context `{RJ : !RawJson, JS : !Json SkillState.State, JP : !Json Snapshot, MS : !MemStore M}.
Context (zone : Z → Z) (gather : W M Snapshot) (text : mem_error → string).

(** A listening port that reads as one, and of which the profile deployed, if any, gives
    this severity. *)
Definition graded (baseline : list BaselinePortEntry) (cur : Snapshot) (severity : string) : Prop :=
  baseline ≠ [] ∧ ∃ entry proto addr port description, entry ∈ ListeningPorts cur ∧
    port_entry entry = Some (proto, addr) ∧ portFromAddr addr = Some port ∧
    verdict_on baseline proto port = Some (severity, description).

Lemma has_finding_graded baseline cur severity :
  has_finding severity (classifyPorts (ListeningPorts cur) baseline) = true ↔ graded baseline cur severity.
Proof.
  unfold has_finding, graded. rewrite existsb_exists. destruct baseline as [|b0 bs]; [split; [by intros (f & [] & _)|by intros [[] _]]|].
  set (l := b0 :: bs). setoid_rewrite <- list_elem_of_In. setoid_rewrite String.eqb_eq. split.
  - intros (f & Hf & <-). apply findings_exact in Hf as (proto & addr & port & He & H1 & H2 & H3); [|done].
    split; [done|]. by exists (Entry f), proto, addr, port, (f_Description f).
  - intros [_ (entry & proto & addr & port & description & He & H1 & H2 & H3)]. exists (mkFinding entry severity description).
    split; [|done]. apply findings_exact; [done|]. by exists proto, addr, port.
Qed.

Lemma health_cases hasPrev d findings (P Q R : Prop) :
  (has_finding "critical" findings = true ↔ P) → (has_finding "warning" findings = true ↔ Q) → (hasPrev && negb (Empty d) = true ↔ R) →
  let h := posture_health hasPrev d findings in
  (h = "critical" ↔ P) ∧ (h = "warning" ↔ ¬ P ∧ (Q ∨ R)) ∧ (h = "ok" ↔ ¬ P ∧ ¬ Q ∧ ¬ R).
Proof.
  intros HP HQ HR. unfold posture_health, hasCriticalFinding, hasWarningFinding. rewrite <- HP, <- HQ, <- HR.
  destruct (has_finding "critical" findings), (has_finding "warning" findings), (hasPrev && negb (Empty d)); cbn; intuition congruence.
Qed.

(** C34. The health a posture run saves: critical exactly when a listening port that reads
    as one is called critical by the profile; a warning exactly when none is, and one is
    called a warning (as a port without a row is) or there is a previous snapshot from
    which this one differs; and ok otherwise.  Drift never passes as healthy, while ports
    of severity info, and entries that do not read as a port, do. *)
Theorem drift_flagged baseline w cur w1 prev hasPrev report w' :
  gather w = (cur, w1) → ReadDoc domainName (w_mem w1) = (prev, hasPrev) →
  tool zone gather text baseline w = (report, w') →
  let drift := hasPrev = true ∧ ¬ same_posture prev cur in
  ∃ health summary e, SkillState.Save zone "check_security_posture" health summary (write_doc domainName cur w1).2 = (e, w') ∧
    (health = "critical" ↔ graded baseline cur "critical") ∧
    (health = "warning" ↔ ¬ graded baseline cur "critical" ∧ (graded baseline cur "warning" ∨ drift)) ∧
    (health = "ok" ↔ ¬ graded baseline cur "critical" ∧ ¬ graded baseline cur "warning" ∧ ¬ drift).
Proof.
  intros Hg Hr Ht drift. unfold tool, mbind, W_bind in Ht. rewrite Hg in Ht. unfold read_doc at 1 in Ht. rewrite Hr in Ht.
  destruct (write_doc domainName cur w1) as [err w2]. set (cur' := match err with None => cur | Some e => _ end) in Ht.
  assert (ListeningPorts cur' = ListeningPorts cur) as El by (subst cur'; by destruct err).
  assert (DiffSnapshots prev cur' = DiffSnapshots prev cur) as Ed by (subst cur'; by destruct err). rewrite El, Ed in Ht.
  destruct (SkillState.Save _ _ _ _ w2) as [e w3] eqn:Es. injection Ht as _ <-. do 3 eexists. split; [exact Es|].
  apply health_cases; [apply has_finding_graded..|]. subst drift. rewrite <- no_change_iff.
  destruct hasPrev; cbn; [|intuition congruence]. destruct (Empty _); cbn; intuition congruence.
Qed.

End Saved.

(** ** NFS *)

Section Unmount.
Import Nfs.
Context `{RJ : !RawJson, JS : !Json SkillState.State, MS : !MemStore M}.
Context (zone : Z → Z) (root : bool).
Context (mounts_file mountstats_file : W M (result string string)) (dstate : W M Z).

Definition overloaded (s : NFSMountStats) : bool := pendingOpsCritical <=? PendingOps s.

Lemma worseHealth_critical a b : a = "critical" ∨ b = "critical" → a ∈ ["ok"; "warning"; "critical"] → b ∈ ["ok"; "warning"; "critical"] →
  worseHealth a b = "critical".
Proof.
  intros H Ha Hb. rewrite !elem_of_cons, elem_of_nil in Ha, Hb.
  destruct Ha as [-> |[-> |[-> |[]]]], Hb as [-> |[-> |[-> |[]]]]; destruct H; done.
Qed.

Lemma level_cases c wn ct wt : (level c wn ct wt).1 ∈ ["ok"; "warning"; "critical"].
Proof. unfold level. destruct c, wn; cbn; set_solver. Qed.

Lemma worseHealth_cases a b : a ∈ ["ok"; "warning"; "critical"] → b ∈ ["ok"; "warning"; "critical"] → worseHealth a b ∈ ["ok"; "warning"; "critical"].
Proof. unfold worseHealth. by destruct (_ <? _). Qed.

Lemma overloaded_critical s : overloaded s = true → (AssessMount s).1 = "critical".
Proof.
  intros Ho. unfold AssessMount, overloaded in *. rewrite Ho. cbn [level snd fst app].
  apply worseHealth_critical; [left|by apply worseHealth_cases; [set_solver|apply level_cases]|apply level_cases].
  apply worseHealth_critical; [by left|set_solver|apply level_cases].
Qed.

Lemma check_mounts_run t stats (w : world M) :
  w_run (check_mounts root t stats w).2 = w_run w ++ (umount_argv root ∘ Mount <$> filter (λ s, overloaded s = true) stats) ∧
  w_mem (check_mounts root t stats w).2 = w_mem w.
Proof.
  revert t w. induction stats as [|s stats IH]; intros t w; cbn [check_mounts]; [by rewrite app_nil_r|].
  unfold mbind, W_bind. destruct (check_mount root t s w) as [t' w'] eqn:Ec.
  assert (w_run w' = w_run w ++ (if overloaded s then [umount_argv root (Mount s)] else []) ∧ w_mem w' = w_mem w) as [Hr Hm].
  { unfold check_mount in Ec. pose proof (overloaded_critical s) as Ho. destruct (AssessMount s) as [h issue]. cbn in Ho.
    fold (overloaded s) in Ec. unfold mbind, W_bind in Ec. destruct (overloaded s).
    - rewrite Ho in Ec by done. unfold lazyUnmount, run_process, mbind, W_bind in Ec. cbn in Ec.
      destruct (w_exec w _ _) as [out [e|]]; by injection Ec as _ <-.
    - rewrite andb_false_r in Ec. cbn in Ec. injection Ec as _ <-. by rewrite app_nil_r. }
  destruct (IH t' w') as [-> ->]. rewrite Hr, Hm, filter_cons, <- app_assoc. split; [|done].
  destruct (overloaded s); [rewrite decide_True by done|rewrite decide_False by done]; done.
Qed.

Lemma save_keeps_runs skill h s w : w_run (SkillState.Save zone skill h s w).2 = w_run w.
Proof.
  unfold SkillState.Save, set_key, mbind, W_bind. cbn. destruct (Marshal _); [|done].
  unfold read_doc, write_doc, on_mem, mbind, W_bind. cbn. destruct (ReadDoc _ _). cbn. by destruct (WriteDoc _ _ _ _).
Qed.

(** The commands of a survey. *)
Lemma unmount_runs w file w1 n w2 stats_text w3 res w' :
  mounts_file w = (file, w1) → dstate w1 = (n, w2) → mountstats_file w2 = (stats_text, w3) →
  w_run w1 = w_run w → w_run w2 = w_run w1 → w_run w3 = w_run w2 →
  runCheck zone root mounts_file mountstats_file dstate w = (res, w') →
  w_run w' = w_run w ++
    (umount_argv root ∘ Mount <$> filter (λ s, overloaded s = true) (gatherStats stats_text (listNFSMounts file).1)).
Proof.
  intros E1 E2 E3 R1 R2 R3 Hc. unfold runCheck, mbind, W_bind in Hc. rewrite E1 in Hc.
  destruct (listNFSMounts file).1 as [|m0 ms].
  { injection Hc as _ <-. rewrite R1. destruct stats_text; by rewrite app_nil_r. }
  rewrite E2, E3 in Hc. set (mounts := m0 :: ms) in *.
  set (stats := _ <$> gatherStats stats_text mounts) in Hc.
  destruct (check_mounts root _ stats w3) as [t w4] eqn:Ec.
  destruct (check_mounts_run (mkTally "ok" [] [] []) stats w3) as [Hr _]. rewrite Ec in Hr. cbn [snd] in Hr.
  pose proof (save_keeps_runs "check_nfs" (worst t) (nfsSummary (issues t) (length mounts)) w4) as Hk.
  destruct (SkillState.Save zone "check_nfs" _ _ w4) as [e w5]. cbn [snd] in Hk. injection Hc as _ <-.
  rewrite Hk, Hr, R3, R2, R1. f_equal. subst stats. generalize (gatherStats stats_text mounts). intros l.
  induction l as [|s l IH]; [done|]. rewrite fmap_cons, !filter_cons. unfold overloaded at 1 3. cbn [PendingOps].
  destruct (decide (_ = true)); [|done]. rewrite !fmap_cons. by f_equal.
Qed.

(** C11. The emergency unmount hits exactly the mounts it is meant for: if reading the
    files of /proc runs no command, the commands a survey runs are one lazy unmount, in
    the order of the mounts, for each NFS mount with 2000 pending operations or more
    (the text of the tool says more than 2000), and no others; a slow server or blocked
    processes alone never detach a mount. *)
Theorem unmount_exact w file w1 n w2 stats_text w3 res w' :
  mounts_file w = (file, w1) → dstate w1 = (n, w2) → mountstats_file w2 = (stats_text, w3) →
  w_run w1 = w_run w → w_run w2 = w_run w1 → w_run w3 = w_run w2 →
  runCheck zone root mounts_file mountstats_file dstate w = (res, w') →
  w_run w' = w_run w ++
    (umount_argv root ∘ Mount <$> filter (λ s, overloaded s = true) (gatherStats stats_text (listNFSMounts file).1)).
Proof. apply unmount_runs. Qed.

(** When there are no NFS mounts, or /proc/mounts cannot be read, the survey answers
    that all is well and saves nothing: the health an earlier run saved stays, also the
    critical one of the run that detached the last mount. *)
Theorem no_mounts_keeps_state w file w1 :
  mounts_file w = (file, w1) → (listNFSMounts file).1 = [] →
  pre_check zone root mounts_file mountstats_file dstate w = ((false, "no NFS mounts found on this host"), w1) ∧
  (∀ e, (listNFSMounts (Err e)).1 = []).
Proof. intros E1 Hm. unfold pre_check, runCheck, mbind, W_bind. by rewrite E1, Hm. Qed.

End Unmount.

(** ** Containers *)

Section Quiet.
Import Containers.
Context `{RJ : !RawJson, JS : !Json SkillState.State, JE : !Json psEntry, MS : !MemStore M}.
Context (zone : Z → Z) (installed : string → bool).

Abbreviation healths := ["ok"; "warning"; "critical"].

Lemma WorseHealth_ok a b : a ∈ healths → b ∈ healths → WorseHealth a b = "ok" → a = "ok" ∧ b = "ok".
Proof.
  intros Ha Hb. rewrite !elem_of_cons, elem_of_nil in Ha, Hb.
  destruct Ha as [-> |[-> |[-> |[]]]], Hb as [-> |[-> |[-> |[]]]]; done.
Qed.
Lemma WorseHealth_cases a b : a ∈ healths → b ∈ healths → WorseHealth a b ∈ healths.
Proof. unfold WorseHealth. by destruct (_ <? _). Qed.

Lemma assess_cases c : (assess c).1 ∈ healths.
Proof. unfold assess, assessContainer. repeat case_match; cbn; set_solver. Qed.

Lemma fold_worse (l : list string) h : h ∈ healths → (∀ x, x ∈ l → x ∈ healths) →
  foldl WorseHealth h l ∈ healths ∧ (foldl WorseHealth h l = "ok" → h = "ok" ∧ ∀ x, x ∈ l → x = "ok").
Proof.
  revert h. induction l as [|x l IH]; intros h Hh Hl; cbn; [split; [done|]; intros ->; split; [done|]; by intros x ?%elem_of_nil|].
  assert (x ∈ healths) as Hx by (apply Hl; constructor).
  destruct (IH (WorseHealth h x)) as [H1 H2]; [by apply WorseHealth_cases|intros; apply Hl; by constructor|]. split; [done|].
  intros E. apply H2 in E as [E Hall]. apply WorseHealth_ok in E as [-> ->]; [|done..]. split; [done|].
  intros y [-> |Hy]%elem_of_cons; [done|by apply Hall].
Qed.

(** What a scan of one runtime guarantees when the health is still ok after it. *)
Definition runtime_fine (runtime : string) (w : world M) : Prop :=
  installed runtime = true → ∃ cs w', listContainers runtime w = (Ok cs, w') ∧ ∀ c, c ∈ cs → (assess c).1 = "ok".

Lemma scan_runtime_ok runtime acc w : acc.2 ∈ healths →
  let r := scan_runtime installed acc runtime w in
  r.1.2 ∈ healths ∧ (r.1.2 = "ok" → acc.2 = "ok" ∧ runtime_fine runtime w) ∧ (r.1.1.1 = [] → acc.1.1 = [] ∧ r.1.2 = acc.2).
Proof.
  destruct acc as [[sections issues] worst]. cbn [snd]. intros Hw. unfold scan_runtime, runtime_fine.
  destruct (installed runtime); cbn [negb]; [|by split_and!]. unfold mbind, W_bind.
  destruct (listContainers runtime w) as [[cs|e] w']; cbn.
  - destruct cs as [|c0 cs]; cbn [fst snd].
    + split_and!; [done| |by intros []%app_eq_nil]. intros ->. split; [done|]. intros _. exists [], w'. split; [done|]. by intros c ?%elem_of_nil.
    + set (l := c0 :: cs). assert (∀ x, x ∈ (fst ∘ assess <$> l) → x ∈ healths) as Hl.
      { intros x (c & -> & _)%list_elem_of_fmap. apply assess_cases. }
      destruct (fold_worse (fst ∘ assess <$> l) "ok" ltac:(set_solver) Hl) as [H1 H2].
      split_and!; [by apply WorseHealth_cases| |by intros []%app_eq_nil]. intros E. apply WorseHealth_ok in E as [-> E]; [|done..]. split; [done|]. intros _.
      exists l, w'. split; [done|]. intros c Hc. destruct (H2 E) as [_ Hall]. apply Hall. apply list_elem_of_fmap. by exists c.
  - split_and!; [apply WorseHealth_cases; [done|set_solver]| |by intros []%app_eq_nil]. intros E. apply WorseHealth_ok in E as [_ E]; [done..|set_solver].
Qed.

(** The model is skipped only when every container is fine: if the pre-check does not
    ask for it, each runtime that is installed listed its containers, and none of them
    is dead, restarting, paused, failing its health check or ended with a code other
    than zero. *)
Theorem quiet_containers w text w' : pre_check zone installed w = ((false, text), w') →
  runtime_fine "docker" w ∧ runtime_fine "podman" (scan_runtime installed ([], [], "ok") "docker" w).2.
Proof.
  unfold pre_check, runCheck, mbind, W_bind.
  destruct (scan_runtime_ok "docker" ([], [], "ok") w) as (H1 & H2 & H5); [set_solver|].
  destruct (scan_runtime installed ([], [], "ok") "docker" w) as [[[sections1 issues1] worst1] w1]. cbn [fst snd] in *.
  destruct (scan_runtime_ok "podman" (sections1, issues1, worst1) w1 H1) as (H3 & H4 & H6).
  destruct (scan_runtime installed (sections1, issues1, worst1) "podman" w1) as [[[sections issues] worst] w2]. cbn [fst snd] in *.
  destruct sections as [|s0 ss].
  - intros _. destruct (H6 eq_refl) as [-> ->]. destruct (H5 eq_refl) as [_ ->]. destruct (H4 eq_refl) as [E Hp]. by destruct (H2 E).
  - destruct (SkillState.Save zone "check_containers" worst _ w2) as [e w3]. cbn. intros [= E _ _].
    apply negb_false_iff, String.eqb_eq in E. destruct (H4 E) as [E' Hp]. by destruct (H2 E').
Qed.

End Quiet.
