(* ===== verification/Config.v ===== *)
(** * Configuration ([utils/config/config.go])

    [Load] reads the YAML file, fills in defaults, and merges the optional files next to
    it: the system prompt, the purpose of the host, the profile of its ports (CSV) and the
    responsibilities of its operating system.  YAML decoding is a third-party package and
    a parameter; CSV decoding is [encoding/csv], modelled with the options the code sets. *)

From S2P Require Import Prelude GoStrings GoTime GoText World Loop Posture.

Module Config.
Import Loop Posture.

Definition dq : string := String "034" "".

(** ** Paths *)

Definition clean_step (rooted : bool) (out : list string) (c : string) : list string :=
  if String.eqb c "" || String.eqb c "." then out
  else if String.eqb c ".." then
    match reverse out with
    | last :: rest => if String.eqb last ".." then out ++ [c] else reverse rest
    | [] => if rooted then [] else [c]
    end
  else out ++ [c].

(** [filepath.Clean], [Dir] and [Join] on Unix. *)
Definition Clean (path : string) : string :=
  let rooted := HasPrefix path "/" in
  let p := (if rooted then "/" else "") +:+ Join (foldl (clean_step rooted) [] (SplitByte "/" path)) "/" in
  if String.eqb p "" then "." else p.

Definition Dir (path : string) : string :=
  Clean (match LastCut "/" path with Some (d, _) => d +:+ "/" | None => "" end).

Definition JoinAll (elems : list string) : string :=
  match filter (λ e, e ≠ "") elems with [] => "" | es => Clean (Join es "/") end.

Definition EnvKey : string := "AGENT_PATCHES_CONFIG".
Definition defaultFile : string := "config.yaml".

Definition filePath (env : string → string) : string :=
  if String.eqb (env EnvKey) "" then JoinAll ["."; defaultFile] else env EnvKey.

Section Paths.
Context (goos : string).
Definition OSResponsibilitiesPath (configPath : string) : string := JoinAll [Dir configPath; goos +:+ "-responsibilities.yaml"].
Definition OSSystemPromptPath (configPath : string) : string := JoinAll [Dir configPath; goos +:+ "-system-prompt.txt"].
End Paths.
Definition PurposePath (configPath : string) : string := JoinAll [Dir configPath; "purpose.txt"].
Definition BaselinePortsPath (configPath : string) : string := JoinAll [Dir configPath; "baseline_ports.csv"].

(** ** Settings *)

Record AgentSettings := mkAgent {
  Model : string; MaxTokens : Z; ResponsibilityMaxTokens : Z; SystemPrompt : string; MaxIter : Z;
  APIKey : string; BaseURL : string; RequestTimeout : string;
}.
Record LoggingSettings := mkLogging { Level : string; File : string; MaxBackups : Z }.
Record TasksSettings := mkTasks { Enabled : list string }.
Record StorageSettings := mkStorage { TasksFile : string }.
Record ServerSettings := mkServer { Host : string; s_Port : Z; s_Name : string; PublicURL : string }.
Record SecuritySettings := mkSecurity { Scheme : string; Token : string }.
Record MemorySettings := mkMemory { Root : string }.
Record LoopSettings := mkLoop { Heartbeat : string }.
Record LoginMonitorSettings := mkLogin {
  AllowedSources : list string; FailedLoginThreshold : Z; DisableUnusualLoginBaseline : bool; BaselineMinEvents : Z;
}.
Record NetworkMonitorSettings := mkNetwork {
  PollInterval : string; HistoryLimit : Z; DisableUnusualConnectionBaseline : bool; OwnPort : Z;
}.
Record StatusSettings := mkStatus { SummaryTTL : string }.

Record Settings := mkSettings {
  Agent : AgentSettings;
  Logging : LoggingSettings;
  Tasks : TasksSettings;
  Storage : StorageSettings;
  Server : ServerSettings;
  Security : SecuritySettings;
  MemoryCfg : MemorySettings;
  LoopCfg : LoopSettings;
  LoginMonitor : LoginMonitorSettings;
  NetworkMonitor : NetworkMonitorSettings;
  Status : StatusSettings;
  Responsibilities : list ResponsibilitySettings;
  ResponsibilitySystemPrompt : string;
  SystemPurpose : string;
  BaselinePorts : list BaselinePortEntry;
}.

(** ** Prompts *)

Definition defaultResponsibilitySystemPrompt : string := Join [
    "You are agent_patches, an AI system administrator. ";
    "You are responsible for the health, security, and upkeep of this system. ";
    "You will be given one specific responsibility to carry out using the tools ";
    "available to you. Investigate thoroughly, take corrective action when it is ";
    "safe and appropriate to do so, and report what you found and did clearly and ";
    "concisely. If report_findings is available to you, call it whenever you ";
    "observe something noteworthy, take an action, have a recommendation, or ";
    "need operator approval before proceeding.";
    nl +:+ nl;
    "TOOL SELECTION RULES (follow these exactly):";
    nl;
    "- run_diagnostic_command: use this for ALL read-only shell or PowerShell commands. ";
    "Linux examples: ps, top, df, du, ls, find, cat, grep, which, command -v, type, ";
    "ss, netstat, journalctl, dmesg, systemctl status, apt-cache, rpm -q, ";
    "docker ps/inspect/logs, podman ps/inspect/logs, kubectl get/describe/logs, ";
    "virsh list/dominfo/domstats. ";
    "Windows/PowerShell examples: Get-Process, Get-Service, Get-NetTCPConnection, ";
    "Get-ChildItem, Get-CimInstance, Get-PSDrive, Get-EventLog, Get-NetAdapter, netstat, ";
    "ipconfig, dir, and any powershell -Command " +:+ dq +:+ "Get-..." +:+ dq +:+ " or powershell -Command " +:+ dq +:+ "Select-..." +:+ dq +:+ " ";
    "that only reads or reports. These execute immediately with no operator involvement. ";
    "This is the default tool for investigation. A command is read-only based on what it ";
    "does, not why you are running it — listing, querying, and reporting commands are ";
    "ALWAYS run_diagnostic_command, even when the system has a critical problem or even ";
    "when the purpose of the investigation is to identify candidates for future cleanup. ";
    "Example: disk full at 100% — use run_diagnostic_command for ";
    dq +:+ "find / -xdev -type f -size +100M | sort -rn | head -20" +:+ dq +:+ " to identify large files, ";
    "then use run_approved_command only for the actual deletion such as " +:+ dq +:+ "rm /var/log/old.log" +:+ dq +:+ ". ";
    "The investigation step never requires approval regardless of how urgent the situation is.";
    nl;
    "- run_approved_command: use this ONLY when you intend to change system state — ";
    "installing or removing packages, starting/stopping/restarting services, deleting or ";
    "overwriting files, modifying configuration, or running PowerShell cmdlets that write ";
    "(Set-*, New-*, Remove-*, Start-Service, Stop-Service, Install-*, etc.). NEVER route ";
    "a read-only command through run_approved_command — not even when you are assessing ";
    "something in order to plan a cleanup or remediation. If you find yourself writing ";
    "ps, df, du, ls, which, find, cat, grep, ss, netstat, Get-*, dir, where, or Select-* into ";
    "run_approved_command, stop immediately and use run_diagnostic_command instead. ";
    "If no corrective action is needed, do NOT call run_approved_command at all — simply ";
    "write your conclusion in your response text or call report_findings. ";
    "NEVER submit an approval request with a placeholder command such as " +:+ dq +:+ "none" +:+ dq +:+ ", " +:+ dq +:+ "n/a" +:+ dq +:+ ", ";
    dq +:+ "no action" +:+ dq +:+ ", or " +:+ dq +:+ "no action required" +:+ dq +:+ ". If you have nothing to execute, say so in text. ";
    "Approvals are asynchronous: run_approved_command returns immediately with a ";
    "pending-approval confirmation and the command executes later, once the operator ";
    "approves. Never wait for, poll, or re-submit a pending approval — state in your ";
    "report that the remediation is pending operator approval and finish.";
    nl;
    "- Do not run echo (or Write-Output / Write-Host) through any tool — both tools ";
    "will reject it with an error. If you want to state a conclusion or confirm that ";
    "a check passed, write it in your response text or call report_findings. ";
    "Running echo via a command tool produces no useful information and wastes an approval slot.";
    nl +:+ nl;
    "INCIDENT LEDGER (when manage_incidents is available):";
    nl;
    "- The ledger records ongoing problems so they persist across runs. Any open ";
    "incidents are appended to your instructions — treat them as already known.";
    nl;
    "- When you find a persistent problem worth tracking (a filling disk, a runaway ";
    "process, a failing drive), report it with a stable kebab-case fingerprint such as ";
    dq +:+ "disk-full-var" +:+ dq +:+ " or " +:+ dq +:+ "high-cpu-chrome" +:+ dq +:+ ". If the same underlying problem is already ";
    "open, report against the existing fingerprint to record the recurrence — never ";
    "open a duplicate incident or file a duplicate finding for it.";
    nl;
    "- Log actions you take against an incident (action=log_action) and resolve ";
    "incidents that are no longer occurring (action=resolve, with a resolution note). ";
    "Do not open incidents for routine healthy check results.";
    nl +:+ nl;
    "BASELINES (when compare_to_baseline or read_agent_memory is available):";
    nl;
    "- Judge readings against this host's own history, not just fixed thresholds. ";
    "Call compare_to_baseline with your skill's memory domain (e.g. check_drives, ";
    "analyze_cpu_utilization, analyze_memory_utilization, analyze_network_utilization) ";
    "to get the current snapshot plus ~1-hour, ~24-hour, and ~7-day-old baselines.";
    nl;
    "- Report trends, not just levels: disk growth rate and predicted time-to-full, ";
    "sustained versus momentary load, and readings far above the same time last week ";
    "even when still below alert thresholds.";
    nl +:+ nl;
    "STANDING POLICIES:";
    nl;
    "- Some state-changing commands are pre-approved by operator-created standing ";
    "policies; when a run_approved_command call matches one it executes immediately and ";
    "the result says so. You cannot create or modify policies — only the operator can. ";
    "Submit commands normally and let the tool decide."] "".

(** ** CSV *)

(** The line ends as the reader normalises them: CR LF is LF, and a CR before the end of
    the file is dropped. *)
Fixpoint normalise (s : string) : string :=
  match s with
  | "" => ""
  | String c rest =>
      if Ascii.eqb c "013" then
        match rest with
        | "" => ""
        | String d _ => if Ascii.eqb d "010" then normalise rest else String c (normalise rest)
        end
      else String c (normalise rest)
  end.

(** Where the reader is: at the start of a record, in a comment, at the start of a field,
    in a field without quotes, in quotes, after a quote inside quotes. *)
Inductive mode := AtRecord | InComment | AtField | InBare | InQuotes | AfterQuote.

Inductive csv_error := ErrBareQuote | ErrQuote.

(** [done] are the records so far, [fields] the fields of this one, [acc] the field;
    the last two in reverse order of bytes and fields. *)
Record reader := mkReader { rd_mode : mode; rd_done : list (list string); rd_fields : list string; rd_acc : string }.

Fixpoint rev_string (s acc : string) : string :=
  match s with "" => acc | String c rest => rev_string rest (String c acc) end.

Definition push_field (r : reader) : list string := rd_fields r ++ [rev_string (rd_acc r) ""].
Definition end_record (r : reader) : reader := mkReader AtRecord (rd_done r ++ [push_field r]) [] "".
Definition end_field (r : reader) : reader := mkReader AtField (rd_done r) (push_field r) "".
Definition add_byte (m : mode) (c : ascii) (r : reader) : reader := mkReader m (rd_done r) (rd_fields r) (String c (rd_acc r)).
Definition to_mode (m : mode) (r : reader) : reader := mkReader m (rd_done r) (rd_fields r) (rd_acc r).

Definition in_bare (c : ascii) (r : reader) : result csv_error reader :=
  if Ascii.eqb c "," then Ok (end_field r)
  else if Ascii.eqb c "010" then Ok (end_record r)
  else if Ascii.eqb c "034" then Err ErrBareQuote
  else Ok (add_byte InBare c r).

Definition at_field (c : ascii) (r : reader) : result csv_error reader :=
  if Ascii.eqb c "034" then Ok (to_mode InQuotes r) else in_bare c r.

Definition csv_byte (c : ascii) (r : reader) : result csv_error reader :=
  match rd_mode r with
  | AtRecord => if Ascii.eqb c "#" then Ok (to_mode InComment r) else if Ascii.eqb c "010" then Ok r else at_field c r
  | InComment => Ok (if Ascii.eqb c "010" then to_mode AtRecord r else r)
  | AtField => at_field c r
  | InBare => in_bare c r
  | InQuotes => Ok (if Ascii.eqb c "034" then to_mode AfterQuote r else add_byte InQuotes c r)
  | AfterQuote =>
      if Ascii.eqb c "034" then Ok (add_byte InQuotes c r)
      else if Ascii.eqb c "," then Ok (end_field r)
      else if Ascii.eqb c "010" then Ok (end_record r)
      else Err ErrQuote
  end.

Fixpoint csv_bytes (s : string) (r : reader) : result csv_error reader :=
  match s with "" => Ok r | String c rest => r' ← csv_byte c r; csv_bytes rest r' end.

(** The end of the file. *)
Definition csv_eof (r : reader) : result csv_error (list (list string)) :=
  match rd_mode r with
  | AtRecord | InComment => Ok (rd_done r)
  | AtField | InBare | AfterQuote => Ok (rd_done (end_record r))
  | InQuotes => Err ErrQuote
  end.

Definition new_reader : reader := mkReader AtRecord [] [] "".

(** [csv.Reader.ReadAll] with [Comment = '#'] and [FieldsPerRecord = -1]. *)
Definition ReadAll (text : string) : result csv_error (list (list string)) :=
  r ← csv_bytes (normalise text) new_reader; csv_eof r.

(** ** The optional files *)

Inductive file := Contents (text : string) | NotExist | ReadError (msg : string).

Section Files.
Context (goos : string) (files : string → file).

Definition loadPurpose (configPath : string) : result string string :=
  let path := PurposePath configPath in
  match files path with
  | Contents data => Ok (TrimSpace data)
  | NotExist => Ok ""
  | ReadError e => Err ("reading " +:+ path +:+ ": " +:+ e)
  end.

Definition purposePromptBlock (purpose : string) : string :=
  nl +:+ nl +:+ "System purpose: " +:+ purpose +:+ nl +:+
  "Weigh this stated purpose when judging severity and remediation: normal " +:+
  "resource usage, running processes, or open connections that serve this " +:+
  "purpose are not incidents on their own. Do not recommend stopping, " +:+
  "disabling, or removing a service that is core to this system's purpose " +:+
  "in order to free resources — flag it only if it is genuinely malfunctioning.".

(** The entry of one row, if it is one. *)
Definition port_row (row : list string) : option BaselinePortEntry :=
  match row with
  | p :: proto :: severity :: description :: _ =>
      if EqualFold (TrimSpace p) "port" then None
      else match Atoi (TrimSpace p) with
           | (port, true) => Some (mkBaseline port (ToLower (TrimSpace proto)) (ToLower (TrimSpace severity)) (TrimSpace description))
           | _ => None
           end
  | _ => None
  end.

Definition csv_error_text (e : csv_error) : string :=
  match e with
  | ErrBareQuote => "bare " +:+ dq +:+ " in non-quoted-field"
  | ErrQuote => "extraneous or missing " +:+ dq +:+ " in quoted-field"
  end.

(** The text of an error leaves out the position the reader adds. *)
Definition loadBaselinePorts (configPath : string) : result string (list BaselinePortEntry) :=
  let path := BaselinePortsPath configPath in
  match files path with
  | NotExist => Ok []
  | ReadError e => Err ("reading " +:+ path +:+ ": " +:+ e)
  | Contents text =>
      match ReadAll text with
      | Err e => Err ("parsing " +:+ path +:+ ": " +:+ csv_error_text e)
      | Ok rows => Ok (omap port_row rows)
      end
  end.

Definition loadOSSystemPrompt (configPath : string) : result string string :=
  let path := OSSystemPromptPath goos configPath in
  match files path with
  | Contents data => Ok (TrimSpace data)
  | NotExist => Ok ""
  | ReadError e => Err ("reading " +:+ path +:+ ": " +:+ e)
  end.

(** [yaml_resps] decodes a file of responsibilities. *)
Context (yaml_resps : string → result string (list ResponsibilitySettings)).

Definition loadOSResponsibilities (configPath : string) : result string (list ResponsibilitySettings) :=
  let path := OSResponsibilitiesPath goos configPath in
  match files path with
  | NotExist => Ok []
  | ReadError e => Err ("reading " +:+ path +:+ ": " +:+ e)
  | Contents data => match yaml_resps data with Err e => Err ("parsing " +:+ path +:+ ": " +:+ e) | Ok rs => Ok rs end
  end.

Definition mergeResponsibilities (base override : list ResponsibilitySettings) : list ResponsibilitySettings :=
  match base with
  | [] => override
  | _ => filter (λ r, Name r ∉ (Name <$> override)) base ++ override
  end.

(** ** Loading *)

Context (env : string → string) (hostname : option string) (yaml : string → result string Settings).

Definition or_else (s d : string) : string := if String.eqb s "" then d else s.
Definition positive_or (n d : Z) : Z := if n <=? 0 then d else n.
Definition value_or {A} (r : result string A) (d : A) : A := match r with Ok a => a | Err _ => d end.

Definition default_server (s : ServerSettings) : ServerSettings :=
  mkServer (or_else (Host s) "0.0.0.0") (if s_Port s =? 0 then 8080 else s_Port s)
    (if String.eqb (s_Name s) "" then default "" hostname else s_Name s) (PublicURL s).

(** The prompt of responsibility runs before the purpose is appended. *)
Definition responsibility_prompt (path : string) (configured : string) : string :=
  if String.eqb configured "" then or_else (value_or (loadOSSystemPrompt path) "") defaultResponsibilitySystemPrompt
  else configured.

Definition complete (path : string) (s : Settings) : Settings :=
  let a := Agent s in
  let server := default_server (Server s) in
  let purpose := value_or (loadPurpose path) "" in
  let block := if String.eqb purpose "" then "" else purposePromptBlock purpose in
  let l := LoginMonitor s in
  let n := NetworkMonitor s in
  mkSettings
    (mkAgent (or_else (Model a) "DEFAULT") (MaxTokens a) (ResponsibilityMaxTokens a) (SystemPrompt a +:+ block) (MaxIter a)
       (APIKey a) (BaseURL a) (or_else (RequestTimeout a) "6m"))
    (mkLogging (Level (Logging s)) (File (Logging s)) (if MaxBackups (Logging s) =? 0 then 10 else MaxBackups (Logging s)))
    (Tasks s) (Storage s) server
    (mkSecurity (or_else (Scheme (Security s)) "none") (Token (Security s)))
    (mkMemory (or_else (Root (MemoryCfg s)) "./agent_memory"))
    (mkLoop (or_else (Heartbeat (LoopCfg s)) "1s"))
    (mkLogin (AllowedSources l) (positive_or (FailedLoginThreshold l) 3) (DisableUnusualLoginBaseline l) (positive_or (BaselineMinEvents l) 5))
    (mkNetwork (PollInterval n) (HistoryLimit n) (DisableUnusualConnectionBaseline n) (s_Port server))
    (mkStatus (or_else (SummaryTTL (Status s)) "5m"))
    (mergeResponsibilities (value_or (loadOSResponsibilities path) []) (Responsibilities s))
    (responsibility_prompt path (ResponsibilitySystemPrompt s) +:+ block)
    (if String.eqb purpose "" then SystemPurpose s else purpose)
    (value_or (loadBaselinePorts path) []).

Definition Load : result string Settings :=
  let path := filePath env in
  match files path with
  | NotExist => Err ("config: reading " +:+ path +:+ ": open " +:+ path +:+ ": no such file or directory")
  | ReadError e => Err ("config: reading " +:+ path +:+ ": " +:+ e)
  | Contents data =>
      match yaml data with
      | Err e => Err ("config: parsing " +:+ path +:+ ": " +:+ e)
      | Ok s => Ok (complete path s)
      end
  end.

End Files.

End Config.
