(* ===== verification/Views.v ===== *)
(** * Views of the histories, and the tools over the stores

    [NetworkView] and [LoginView] are the endpoints and tools that show the histories of
    connections and logins ([networkapi], [loginapi], [check_network_connections],
    [check_interactive_logins]) with the D-Bus enumeration of sessions ([logind]);
    [MemoryView] holds [compare_to_baseline], [read_agent_memory], [memoryapi] and
    [manage_incidents].  The D-Bus connection, the live poll and the JSON encoding of an
    answer are parameters. *)

From S2P Require Import Prelude GoStrings GoTime GoText GoDuration Json Memory MemStore World KeyStore.
From S2P Require Import Incidents History ConnMonitor LoginMonitor.

(** ** Times *)

Definition utc_zone : Z → Z := λ _, 0.
Definition utc_rfc3339 (t : Z) : string := Format utc_zone t.
(** The layouts ["2006-01-02 15:04:05 UTC"] and ["2006-01-02 15:04 UTC"]. *)
Definition utc_text (bytes : nat) (t : Z) : string :=
  let s := utc_rfc3339 t in take_bytes 10 s +:+ " " +:+ take_bytes bytes (drop_bytes 11 s) +:+ " UTC".

Definition field (label value : string) : string := if String.eqb value "" then "" else label +:+ value +:+ nl.

Module NetworkView.
Import ConnMonitor.

(** ** GET /network-connections *)

Definition maxRecentActivity : nat := 50.

Record ConnItem := mkItem {
  it_EventType : string; it_Direction : string; it_Proto : string; it_LocalAddr : string; it_LocalPort : Z;
  it_RemoteAddr : string; it_RemotePort : Z; it_State : string; it_PID : string; it_Process : string; it_Timestamp : string;
}.
Record NetResponse := mkNetResponse {
  nr_Active : list ConnItem; nr_RecentActivity : list ConnItem; nr_HistoryCount : Z; nr_Live : bool; nr_Note : string;
}.

Definition toItem (e : ConnEvent) : ConnItem :=
  mkItem (EventType e) (Direction e) (Proto e) (LocalAddr e) (LocalPort e) (RemoteAddr e) (RemotePort e) (State e) (PID e) (Process e)
    (utc_rfc3339 (Timestamp e)).
Definition toItems (events : list ConnEvent) : list ConnItem := toItem <$> events.

Definition net_from_history (history : list ConnEvent) : NetResponse :=
  mkNetResponse (toItems (ActiveConnections history)) (toItems (reverse (keep_last maxRecentActivity history)))
    (Z.of_nat (length history)) false "".

Definition net_live (conns : list Conn) (note : string) (now : Z) : NetResponse :=
  mkNetResponse (toItems (ExistingEvents conns now)) [] 0 true note.

(** ** The tool [check_network_connections] *)

Definition maxListedConnections : nat := 100.
Definition maxRecentEvents : nat := 50.

Definition processLabel (e : ConnEvent) : string :=
  if negb (String.eqb (Process e) "") then Process e
  else if negb (String.eqb (PID e) "") then "pid " +:+ PID e else "".

Definition countByDirection (events : list ConnEvent) : Z * Z :=
  (Z.of_nat (length (filter (λ e, Direction e = DirectionInbound) events)),
   Z.of_nat (length (filter (λ e, Direction e = DirectionOutbound) events))).

Definition ends (e : ConnEvent) : string :=
  ToUpper (Proto e) +:+ " " +:+ LocalAddr e +:+ ":" +:+ Itoa (LocalPort e) +:+ " -> " +:+ RemoteAddr e +:+ ":" +:+ Itoa (RemotePort e).

Definition conn_line (e : ConnEvent) : string :=
  "  " +:+ ends e +:+ (if String.eqb (State e) "" then "" else " [" +:+ State e +:+ "]") +:+
  (if String.eqb (processLabel e) "" then "" else " (" +:+ processLabel e +:+ ")") +:+ nl.

Definition writeConnGroup (label : string) (events : list ConnEvent) : string :=
  label +:+ " (" +:+ Itoa (Z.of_nat (length events)) +:+ "):" +:+ nl +:+
  (match events with
   | [] => "  none" +:+ nl
   | _ => Join (conn_line <$> take maxListedConnections events) "" +:+
          (if (maxListedConnections <? length events)%nat
           then "  … and " +:+ Itoa (Z.of_nat (length events) - Z.of_nat maxListedConnections) +:+ " more" +:+ nl else "")
   end).

Definition activity_line (e : ConnEvent) : string :=
  "[" +:+ utc_text 8 (Timestamp e) +:+ "] " +:+ pad_right 8 (EventType e) +:+ " " +:+ pad_right 8 (Direction e) +:+ " " +:+ ends e +:+
  (if String.eqb (processLabel e) "" then "" else " (" +:+ processLabel e +:+ ")") +:+ nl.

Definition writeActivitySection (history : list ConnEvent) : string :=
  nl +:+ "=== Recent Activity ===" +:+ nl +:+ Join (activity_line <$> reverse (keep_last maxRecentEvents history)) "".

Definition conn_less (a b : ConnEvent) : bool :=
  if LocalPort a =? LocalPort b then str_ltb (RemoteAddr a) (RemoteAddr b) else LocalPort a <? LocalPort b.

Section Sorted.
Context `{!SortSlice}.

Definition filterDirection (events : list ConnEvent) (d : string) : list ConnEvent :=
  Slice conn_less (filter (λ e, Direction e = d) events).

Definition writeActiveSection (active : list ConnEvent) : string :=
  "=== Active Connections ===" +:+ nl +:+
  (match active with
   | [] => "No active connections." +:+ nl
   | _ => writeConnGroup "Inbound" (filterDirection active DirectionInbound) +:+
          writeConnGroup "Outbound" (filterDirection active DirectionOutbound) +:+
          (match filterDirection active DirectionUnknown with [] => "" | l => writeConnGroup "Unknown direction" l end)
   end).

Context `{!RawJson, !Json SkillState.State, !Json (list ConnEvent), !MemStore M}.
Context (zone : Z → Z) (LiveSnapshot : W M (result string (list Conn))).

Definition net_handler (method : string) : W M (option NetResponse) :=
  if negb (String.eqb method "GET") then mret None
  else
    history ← ReadHistory;
    match history with
    | _ :: _ => mret (Some (net_from_history history))
    | [] =>
        conns ← LiveSnapshot;
        now ← now_;
        mret (Some (match conns with
                    | Err e => net_live [] ("connection snapshot unavailable: " +:+ e) now
                    | Ok l => net_live l "background connection monitor has not recorded any history yet" now
                    end))
    end.

Definition counted (active : list ConnEvent) : string :=
  let '(inbound, outbound) := countByDirection active in
  Itoa (Z.of_nat (length active)) +:+ " active connection(s) (" +:+ Itoa inbound +:+ " inbound, " +:+ Itoa outbound +:+ " outbound)".

Definition conn_report (history : list ConnEvent) : W M string :=
  let active := ActiveConnections history in
  _ ← SkillState.Save zone "check_network_connections" "ok"
        (counted active +:+ "; " +:+ Itoa (Z.of_nat (length history)) +:+ " history event(s)");
  mret (writeActiveSection active +:+ writeActivitySection history).

Definition no_history_yet : string := nl +:+ "(Background connection monitor has not recorded any history yet.)".

Definition conn_live_report : W M string :=
  conns ← LiveSnapshot;
  match conns with
  | Err e =>
      _ ← SkillState.Save zone "check_network_connections" "ok" ("connection snapshot unavailable: " +:+ e);
      mret ("Network connection snapshot unavailable: " +:+ e +:+ no_history_yet)
  | Ok l =>
      now ← now_;
      let active := ExistingEvents l now in
      _ ← SkillState.Save zone "check_network_connections" "ok" (counted active +:+ " [live snapshot]");
      mret (writeActiveSection active +:+ no_history_yet)
  end.

Definition conn_tool : W M string :=
  history ← ReadHistory;
  match history with _ :: _ => conn_report history | [] => conn_live_report end.

End Sorted.

End NetworkView.

Module Logind.

(** A D-Bus variant, as far as the type assertions look. *)
Inductive variant := VStr (s : string) | VBool (b : bool) | VU32 (n : Z) | VU64 (n : Z) | VList (l : list variant) | VOther.

Definition as_string (v : option variant) : string := match v with Some (VStr s) => s | _ => "" end.
Definition as_bool (v : option variant) : bool := match v with Some (VBool b) => b | _ => false end.

Record Session := mkSession {
  ID : string; Username : string; Class_ : string; SessionType : string; Seat : string; Remote : bool; RemoteHost : string;
  RemoteUser : string; TTY : string; Display : string; Leader : Z; Since : option Z;
}.

(** The instant of a microsecond count; [int64] of a [uint64] wraps. *)
Definition started (v : option variant) : option Z :=
  match v with Some (VU64 usec) => if 0 <? usec then Some (wrap64 usec * 1000) else None | _ => None end.

(** [FetchSessionInfo] on the properties. *)
Definition session_of (props : gmap string variant) : Session :=
  mkSession "" (as_string (props !! "Name")) (as_string (props !! "Class")) (as_string (props !! "Type"))
    (match props !! "Seat" with Some (VList (s :: _)) => as_string (Some s) | _ => "" end)
    (as_bool (props !! "Remote")) (as_string (props !! "RemoteHost")) (as_string (props !! "RemoteUser"))
    (as_string (props !! "TTY")) (as_string (props !! "Display"))
    (match props !! "Leader" with Some (VU32 n) => n | _ => 0 end) (started (props !! "Timestamp")).

Record raw_session := mkRaw { rs_ID : string; rs_User : string; rs_Seat : string; rs_Path : string }.

Definition or_raw (s d : string) : string := if String.eqb s "" then d else s.

Definition listed (get_all : string → option (gmap string variant)) (rs : raw_session) : option Session :=
  match get_all (rs_Path rs) with
  | None => None
  | Some props =>
      let i := session_of props in
      Some (mkSession (rs_ID rs) (or_raw (Username i) (rs_User rs)) (Class_ i) (SessionType i) (or_raw (Seat i) (rs_Seat rs)) (Remote i)
              (RemoteHost i) (RemoteUser i) (TTY i) (Display i) (Leader i) (Since i))
  end.

(** [ListSessionsConn]: [raw] is the answer of the manager, [get_all] that of a session. *)
Definition ListSessionsConn (raw : result string (list raw_session)) (get_all : string → option (gmap string variant)) :
    result string (list Session) :=
  match raw with Err e => Err ("ListSessions: " +:+ e) | Ok l => Ok (omap (listed get_all) l) end.

Definition session_text (i : Session) : string :=
  "Session ID:   " +:+ ID i +:+ nl +:+
  "User:         " +:+ Username i +:+ nl +:+
  field "Class:        " (Class_ i) +:+
  "Session type: " +:+ SessionType i +:+ nl +:+
  field "Seat:         " (Seat i) +:+
  field "TTY:          " (TTY i) +:+
  field "Display:      " (Display i) +:+
  (if Remote i then "Origin:       remote" +:+ nl +:+ field "From host:    " (RemoteHost i) +:+ field "Remote user:  " (RemoteUser i)
   else "Origin:       local console" +:+ nl) +:+
  (if 0 <? Leader i then "Leader PID:   " +:+ Itoa (Leader i) +:+ nl else "") +:+
  (match Since i with Some t => "Started:      " +:+ format_rfc1123_utc t +:+ nl | None => "" end).

Definition session_report (sessions : list Session) : string := Join (session_text <$> sessions) nl.

End Logind.

Module LoginView.
Import LoginMonitor.

(** ** GET /interactive-logins *)

Definition recentSessions : nat := 50.
Definition maxRecentFailed : nat := 20.

Record SessionItem := mkSessionItem {
  si_EventType : string; si_SessionID : string; si_Username : string; si_Class : string; si_SessionType : string; si_Remote : bool;
  si_RemoteHost : string; si_SourceIP : string; si_ResolvedHostname : string; si_TTY : string; si_Timestamp : string;
}.
Record FailedItem := mkFailedItem {
  fi_Username : string; fi_SourceIP : string; fi_RemoteHost : string; fi_ResolvedHostname : string; fi_Timestamp : string;
  fi_Service : string; fi_Reason : string;
}.
Record LoginResponse := mkLoginResponse {
  lr_Active : list SessionItem; lr_RecentActivity : list SessionItem; lr_RecentFailed : list FailedItem;
  lr_HistoryCount : Z; lr_FailedCount : Z; lr_Live : bool; lr_Note : string;
}.

Definition toSessionItem (e : LoginEvent) : SessionItem :=
  mkSessionItem (EventType e) (SessionID e) (Username e) (Class_ e) (SessionType e) (Remote e) (RemoteHost e) (SourceIP e)
    (ResolvedHostname e) (TTY e) (utc_rfc3339 (Timestamp e)).
Definition toSessionItems (events : list LoginEvent) : list SessionItem := toSessionItem <$> events.

Definition toFailedItem (e : FailedLoginEvent) : FailedItem :=
  mkFailedItem (fl_Username e) (fl_SourceIP e) (fl_RemoteHost e) (fl_ResolvedHostname e) (utc_rfc3339 (fl_Timestamp e))
    (fl_Service e) (fl_Reason e).
Definition toFailedItems (events : list FailedLoginEvent) : list FailedItem := toFailedItem <$> events.

Definition login_from_history (history : list LoginEvent) (failed : list FailedLoginEvent) : LoginResponse :=
  mkLoginResponse (toSessionItems (ActiveSessions history)) (toSessionItems (reverse (keep_last recentSessions history)))
    (toFailedItems (reverse (keep_last maxRecentFailed failed))) (Z.of_nat (length history)) (Z.of_nat (length failed)) false "".

(** The zero time. *)
Definition year_one : Z := -62135596800 * Second.

Definition live_item (s : Logind.Session) : SessionItem :=
  mkSessionItem "existing" (Logind.ID s) (Logind.Username s) (Logind.Class_ s) (Logind.SessionType s) (Logind.Remote s)
    (Logind.RemoteHost s) "" "" (Logind.TTY s) (utc_rfc3339 (default year_one (Logind.Since s))).

Definition login_live (sessions : list Logind.Session) (note : string) : LoginResponse :=
  mkLoginResponse (live_item <$> sessions) [] [] 0 0 true note.

(** ** The tool [check_interactive_logins] *)

Definition active_text (e : LoginEvent) : string :=
  "Session ID:   " +:+ SessionID e +:+ nl +:+
  "User:         " +:+ Username e +:+ nl +:+
  field "Class:        " (Class_ e) +:+
  field "Session type: " (SessionType e) +:+
  field "TTY:          " (TTY e) +:+
  (if Remote e then
     "Origin:       remote" +:+ nl +:+ field "Remote host:  " (RemoteHost e) +:+ field "Source IP:    " (SourceIP e) +:+
     (if String.eqb (ResolvedHostname e) (RemoteHost e) then "" else field "Hostname:     " (ResolvedHostname e))
   else "Origin:       local console" +:+ nl) +:+
  "Since:        " +:+ format_rfc1123_utc (Timestamp e) +:+ nl.

Definition origin (e : LoginEvent) : string :=
  if Remote e then
    Join (["remote"] ++
          (if negb (String.eqb (SourceIP e) "") then [SourceIP e] else if negb (String.eqb (RemoteHost e) "") then [RemoteHost e] else []) ++
          (if negb (String.eqb (ResolvedHostname e) "") && negb (String.eqb (ResolvedHostname e) (RemoteHost e)) &&
              negb (String.eqb (ResolvedHostname e) (SourceIP e)) then [ResolvedHostname e] else [])) ":"
  else "local".

Definition session_line (e : LoginEvent) : string :=
  "[" +:+ utc_text 5 (Timestamp e) +:+ "] " +:+ pad_right 8 (EventType e) +:+ " " +:+ pad_right 16 (Username e) +:+ " " +:+
  pad_right 12 (if String.eqb (TTY e) "" then SessionType e else TTY e) +:+ " (" +:+ origin e +:+ ")" +:+ nl.

Definition failed_source (e : FailedLoginEvent) : string :=
  let src := if String.eqb (fl_SourceIP e) "" then fl_RemoteHost e else fl_SourceIP e in
  let hostname := fl_ResolvedHostname e in
  if negb (String.eqb hostname "") && negb (String.eqb hostname (fl_RemoteHost e)) && negb (String.eqb hostname (fl_SourceIP e))
  then src +:+ " (" +:+ hostname +:+ ")" else src.

Definition failed_line (e : FailedLoginEvent) : string :=
  "[" +:+ utc_text 5 (fl_Timestamp e) +:+ "] " +:+ pad_right 16 (fl_Username e) +:+ " " +:+ pad_right 20 (failed_source e) +:+ " " +:+
  fl_Reason e +:+ nl.

Definition login_text (history : list LoginEvent) (failed : list FailedLoginEvent) : string :=
  "=== Active Sessions ===" +:+ nl +:+
  (match ActiveSessions history with [] => "No active login sessions." +:+ nl | active => Join (active_text <$> active) nl end) +:+
  nl +:+ "=== Recent Activity ===" +:+ nl +:+ Join (session_line <$> reverse (keep_last 50 history)) "" +:+
  nl +:+ "=== Recent Failed Login Attempts ===" +:+ nl +:+
  (match failed with [] => "No failed login attempts recorded." +:+ nl | _ => Join (failed_line <$> reverse (keep_last 20 failed)) "" end).

Section Ops.
Context `{!RawJson, !Json SkillState.State, !Json (list LoginEvent), !Json (list FailedLoginEvent), !MemStore M}.
Context (zone : Z → Z) (ListSessions : W M (result string (list Logind.Session))).

Definition login_handler (method : string) : W M (option LoginResponse) :=
  if negb (String.eqb method "GET") then mret None
  else
    '(history, _) ← ReadHistory;
    match history with
    | _ :: _ => '(failed, _) ← ReadFailedHistory; mret (Some (login_from_history history failed))
    | [] =>
        sessions ← ListSessions;
        mret (Some (match sessions with
                    | Err e => login_live [] ("session enumeration unavailable: " +:+ e)
                    | Ok l => login_live l "background login monitor has not recorded any history yet"
                    end))
    end.

Definition login_skill : string := "check_interactive_logins".
Definition no_logins_yet : string := nl +:+ "(Background login monitor has not recorded any history yet.)".

Definition login_live_report : W M string :=
  sessions ← ListSessions;
  match sessions with
  | Err e =>
      _ ← SkillState.Save zone login_skill "ok" ("session enumeration unavailable: " +:+ e);
      mret ("Login session enumeration unavailable: " +:+ e +:+ no_logins_yet)
  | Ok [] =>
      _ ← SkillState.Save zone login_skill "ok" "no active login sessions";
      mret ("No active login sessions." +:+ no_logins_yet)
  | Ok l =>
      _ ← SkillState.Save zone login_skill "ok" (Itoa (Z.of_nat (length l)) +:+ " active login session(s)");
      mret (Logind.session_report l +:+ no_logins_yet)
  end.

Definition login_tool : W M string :=
  '(history, _) ← ReadHistory;
  match history with
  | _ :: _ =>
      '(failed, _) ← ReadFailedHistory;
      _ ← SkillState.Save zone login_skill "ok"
            (Itoa (Z.of_nat (length (ActiveSessions history))) +:+ " active session(s); " +:+ Itoa (Z.of_nat (length history)) +:+
             " history events; " +:+ Itoa (Z.of_nat (length failed)) +:+ " failed attempts");
      mret (login_text history failed)
  | [] => login_live_report
  end.

End Ops.

End LoginView.

Module MemoryView.

(** ** [compare_to_baseline] *)

Definition baselineOffsets : list (string * Z) := [("hour_ago", Hour); ("day_ago", 24 * Hour); ("week_ago", 7 * 24 * Hour)].

(** The points of one domain: the current one, and the baselines under their names. *)
Definition point_step (nearest : Z → result mem_error Domain.Snapshot) (now : Z) (acc : list Z * list (string * Domain.Snapshot))
    (b : string * Z) : list Z * list (string * Domain.Snapshot) :=
  let '(seen, out) := acc in
  match nearest (now - b.2) with
  | Err _ => acc
  | Ok snap =>
      if bool_decide (Domain.Timestamp snap ∈ seen) then acc
      else (Domain.Timestamp snap :: seen, out ++ [(b.1, snap)])
  end.

Definition baseline_points (nearest : Z → result mem_error Domain.Snapshot) (now : Z) :
    option (Domain.Snapshot * list (string * Domain.Snapshot)) :=
  match nearest now with
  | Err _ => None
  | Ok current => Some (current, (foldl (point_step nearest now) ([Domain.Timestamp current], []) baselineOffsets).2)
  end.

(** The tool; [encode] is the JSON of the answer. *)
Definition compare_to_baseline (encode : string → Domain.Snapshot → list (string * Domain.Snapshot) → option string)
    (F : faults) (dir : option (gmap string dirent)) (domain : string) (now : Z) : result string string :=
  if String.eqb domain "" then Err "compare_to_baseline: domain must not be empty"
  else match baseline_points (λ target, Domain.ReadNearest F target (Some dir)) now with
       | None => Ok ("{" +:+ dquote +:+ "domain" +:+ dquote +:+ ":" +:+ Quote domain +:+ "," +:+ dquote +:+ "error" +:+ dquote +:+ ":" +:+
                     dquote +:+ "no snapshots available for this domain" +:+ dquote +:+ "}")
       | Some (current, out) =>
           match encode domain current out with Some text => Ok text | None => Err "compare_to_baseline: marshal" end
       end.

(** ** [read_agent_memory] *)

Definition defaultHistoryWindow : Z := Hour.

Definition window_of (text : string) : option Z :=
  if String.eqb text "" then Some defaultHistoryWindow
  else match ParseDuration text with Some w => if 0 <? w then Some w else None | None => None end.

Definition within (now window : Z) (snaps : list Domain.Snapshot) : list Domain.Snapshot :=
  filter (λ s, now - window ≤ Domain.Timestamp s) snaps.

Inductive memory_answer := BadWindow | HistoryError (e : mem_error) | NoHistory | History (l : list Domain.Snapshot) | NoSnapshot | Current (raw : string).

Definition read_agent_memory `{!RawJson} (F : faults) (dir : option (gmap string dirent)) (history : bool) (window : string) (now : Z) :
    memory_answer :=
  if history then
    match window_of window with
    | None => BadWindow
    | Some w =>
        match Domain.ReadHistory F (Some dir) with
        | Err e => HistoryError e
        | Ok snaps => match within now w snaps with [] => NoHistory | l => History l end
        end
    end
  else match dir with
       | None => NoSnapshot
       | Some d => match Store.current_raw F d with Some raw => Current raw | None => NoSnapshot end
       end.

(** ** GET and DELETE /memory *)

Inductive memory_response := Dumped (d : Store.Dump_) | Cleared | ServerError (e : mem_error) | NotAllowed.

Definition memory_handler `{!RawJson} (F : faults) (method : string) (s : Store.Store) : memory_response * Store.Store :=
  if String.eqb method "GET" then (match Store.Dump F s with Ok d => Dumped d | Err e => ServerError e end, s)
  else if String.eqb method "DELETE" then
    let '(r, s') := Store.Clear F s in (match r with Ok _ => Cleared | Err e => ServerError e end, s')
  else (NotAllowed, s).

(** ** [manage_incidents] *)

Record incident_input := mkInput { Action : string; in_Fingerprint : string; in_Title : string; in_Detail : string; in_Severity : string; in_Note : string }.

Section Incidents.
Context `{!RawJson, !Json (list Incidents.Incident), !MemStore M}.
Context (zone : Z → Z) (error_text : Incidents.inc_error → string) (encode : list Incidents.Incident → option string).

Definition tool_error {A} (text : string) (mem : option M) : result string A * option M := (Err ("manage_incidents: " +:+ text), mem).

Definition incidents_json : string := "{" +:+ dquote +:+ "incidents" +:+ dquote +:+ ":[]}".

Definition manage_incidents (c : Incidents.clock) (i : incident_input) (mem : option M) : result string string * option M :=
  let fp := in_Fingerprint i in
  if String.eqb (Action i) "list" then
    match Incidents.All mem with
    | [] => (Ok incidents_json, mem)
    | all => match encode all with Some text => (Ok text, mem) | None => tool_error "marshal" mem end
    end
  else if String.eqb (Action i) "report" then
    if String.eqb fp "" then tool_error "report requires a fingerprint" mem
    else if String.eqb (in_Title i) "" then tool_error "report requires a title" mem
    else match Incidents.Report zone c fp (in_Title i) (in_Detail i) (in_Severity i) mem with
         | (Err e, mem') => tool_error ("report: " +:+ error_text e) mem'
         | (Ok (inc, true), mem') => (Ok ("opened new incident " +:+ Quote (Incidents.Fingerprint inc)), mem')
         | (Ok (inc, false), mem') =>
             (Ok ("incident " +:+ Quote (Incidents.Fingerprint inc) +:+ " already open — recorded recurrence (first seen " +:+
                  Incidents.FirstSeen inc +:+ ", now seen " +:+ Itoa (Incidents.TimesSeen inc) +:+ " times)"), mem')
         end
  else if String.eqb (Action i) "log_action" then
    if String.eqb fp "" || String.eqb (in_Note i) "" then tool_error "log_action requires fingerprint and note" mem
    else match Incidents.LogAction zone c fp (in_Note i) mem with
         | (Err e, mem') => tool_error (error_text e) mem'
         | (Ok inc, mem') =>
             (Ok ("logged action on incident " +:+ Quote (Incidents.Fingerprint inc) +:+ " (" +:+
                  Itoa (Z.of_nat (length (Incidents.Actions inc))) +:+ " actions recorded)"), mem')
         end
  else if String.eqb (Action i) "resolve" then
    if String.eqb fp "" then tool_error "resolve requires a fingerprint" mem
    else match Incidents.Resolve zone c fp (in_Note i) mem with
         | (Err e, mem') => tool_error (error_text e) mem'
         | (Ok inc, mem') =>
             (Ok ("resolved incident " +:+ Quote (Incidents.Fingerprint inc) +:+ " (open since " +:+ Incidents.FirstSeen inc +:+
                  ", seen " +:+ Itoa (Incidents.TimesSeen inc) +:+ " times)"), mem')
         end
  else tool_error ("unknown action " +:+ Quote (Action i) +:+ " — use list, report, log_action, or resolve") mem.

End Incidents.

End MemoryView.
