(* ===== verification/Ops.v ===== *)
(** * Operating the agent: logging, the log endpoint, the gateway's door, the migration of
    the memory, the command line client

    [Logging] is [utils/logger], with the rotation of the log files at start-up; [LogView]
    is [logapi]; [Door] is the authentication of the gateway ([llm-gateway/main.go]);
    [Migration] is the command [migrate-memory]; [Client] is [cli]; [Tracing] is
    [utils/tracing], with the OpenTelemetry library a parameter. *)

From Corelib Require Import SpecFloat.
From S2P Require Import Prelude GoStrings GoTime GoText GoDuration Json Memory MemStore World KeyStore.

Module Logging.

Inductive level := Debug | Info | Warn | Error.

Definition parseLevel (s : string) : level :=
  let l := ToLower s in
  if String.eqb l "debug" then Debug
  else if String.eqb l "warn" || String.eqb l "warning" then Warn
  else if String.eqb l "error" then Error
  else Info.

(** The files by name; the system calls that fail are parameters. *)
Section Rotation.
Context (stat_fails remove_fails rename_fails : string → bool).

(** [os.IsNotExist] of the error of [os.Stat]. *)
Definition not_exist (name : string) (d : gmap string string) : bool :=
  if stat_fails name then false else match d !! name with Some _ => false | None => true end.

Definition Remove (name : string) (d : gmap string string) : gmap string string := if remove_fails name then d else delete name d.

Definition Rename (src dst : string) (d : gmap string string) : gmap string string :=
  if rename_fails src then d else match d !! src with Some c => <[dst := c]> (delete src d) | None => d end.

Definition backup (file : string) (n : nat) : string := file +:+ "." +:+ Itoa (Z.of_nat n).

(** The deletion of the oldest backups, from [n] up; [None] when the fuel runs out. *)
Fixpoint remove_old (fuel : nat) (file : string) (n : nat) (d : gmap string string) : option (gmap string string) :=
  match fuel with
  | O => None
  | S fuel' => if not_exist (backup file n) d then Some d else remove_old fuel' file (S n) (Remove (backup file n) d)
  end.

(** The shift of the backups [n], ..., 1 by one. *)
Fixpoint shift (file : string) (n : nat) (d : gmap string string) : gmap string string :=
  match n with O => d | S n' => shift file n' (Rename (backup file n) (backup file (S n)) d) end.

Definition rotateLog (fuel : nat) (file : string) (maxBackups : Z) (d : gmap string string) : option (gmap string string) :=
  if maxBackups <=? 0 then Some d
  else
    d ← remove_old fuel file (Z.to_nat maxBackups) d;
    Some (Rename file (backup file 1) (shift file (Z.to_nat maxBackups - 1) d)).

(** [Setup]: the level, the disk with the new log, or the error of opening it. *)
Definition Setup (fuel : nat) (open_error : option string) (lvl file : string) (maxBackups : Z) (d : gmap string string) :
    option (result string level * gmap string string) :=
  if String.eqb file "" then Some (Ok (parseLevel lvl), d)
  else
    d ← rotateLog fuel file maxBackups d;
    Some (match open_error with Some e => (Err e, d) | None => (Ok (parseLevel lvl), <[file := ""]> d) end).

End Rotation.

End Logging.

Module LogView.

Definition maxBytes : Z := 2 ^ 20.

Inductive answer := LogContent (content : string) (truncated : bool) (note : string) | LogFailed (e : string) | LogNotAllowed.

(** The log file: absent, unreadable, or its contents. *)
Inductive log_file := LogMissing | LogUnreadable (e : string) | LogText (text : string).

Definition log_handler (method logFile : string) (f : log_file) : answer :=
  if negb (String.eqb method "GET") then LogNotAllowed
  else if String.eqb logFile "" then LogContent "" false "agent is logging to stderr; no log file configured"
  else match f with
       | LogMissing => LogContent "" false "log file does not exist yet"
       | LogUnreadable e => LogFailed e
       | LogText text =>
           if maxBytes <? len text then LogContent (drop_bytes (Z.to_nat (len text - maxBytes)) text) true ""
           else LogContent text false ""
       end.

End LogView.

Module Door.

(** [requireBearer] of the gateway: whether the request is passed on. *)
Definition passes (token method path authorization : string) : bool :=
  if String.eqb method "GET" && (String.eqb path "/health" || String.eqb path "/health/ready") then true
  else if String.eqb token "" then true
  else match CutPrefix "Bearer " authorization with Some got => String.eqb got token | None => false end.

End Door.

Module Migration.

(** [json.RawMessage]. *)
Record raw_message := Raw { raw : string }.
#[export] Instance raw_message_json `{!RawJson} : Json raw_message := {|
  zero := Raw "";
  Marshal r := if Valid (raw r) then Some (compact (raw r)) else None;
  Unmarshal doc dst := if Valid doc then (Raw doc, true) else (dst, false);
|}.

Definition incidentsKey : string := "incidents".
Definition incidentsDomain : string := "Incidents".
Definition skillStatesDomain : string := "Skill States".

(** The keys that move under their own name, and their domains. *)
Definition fixed_moves : list (string * string) := [
  ("connection_history", "Network"); ("network_rate_baseline", "Network");
  ("disk_trends", "Disk Trends"); ("smart_trends", "Disk Trends")].

Definition dynamic (key : string) : bool := HasPrefix key "skill_state:" || HasPrefix key "responsibility_run:".

Definition dynamic_moves (attrs : gmap string string) : list (string * string) :=
  (λ k, (k, skillStatesDomain)) <$> SliceStable str_ltb (filter (λ k, dynamic k = true) (fst <$> map_to_list attrs)).

Definition action (dryRun : bool) (key domain suffix : string) : string :=
  "  " +:+ (if dryRun then "would migrate" else "migrating") +:+ " " +:+ pad_right 32 key +:+ " -> domain " +:+ Quote domain +:+ suffix.

(** What a run has printed and which keys it may purge; or the error that ended it. *)
Inductive outcome := Fatal (key : string) (e : mem_error) | Done (actions : list string) (purged : list string).

Section Ops.
Context `{!RawJson, !MemStore M}.

(** [moveKey]; [inl]: the keys to purge and the actions so far. *)
Definition move_key (dryRun : bool) (attrs : gmap string string) (acc : list string * list string) (move : string * string) :
    W M (list string * list string + outcome) :=
  let '(purgeKeys, actions) := acc in
  let '(key, domain) := move in
  match attrs !! key with
  | None => mret (inl acc)
  | Some r =>
      let acc' := (purgeKeys ++ [key], actions ++ [action dryRun key domain ""]) in
      if dryRun then mret (inl acc')
      else
        err ← set_key domain key (Raw r);
        mret (match err with Some e => inr (Fatal key e) | None => inl acc' end)
  end.

Fixpoint move_all (dryRun : bool) (attrs : gmap string string) (moves : list (string * string)) (acc : list string * list string) :
    W M (list string * list string + outcome) :=
  match moves with
  | [] => mret (inl acc)
  | m :: rest => r ← move_key dryRun attrs acc m; match r with inl acc' => move_all dryRun attrs rest acc' | inr o => mret (inr o) end
  end.

Definition move_incidents (dryRun : bool) (attrs : gmap string string) (acc : list string * list string) :
    W M (list string * list string + outcome) :=
  match attrs !! incidentsKey with
  | None => mret (inl acc)
  | Some r =>
      let acc' := (acc.1 ++ [incidentsKey], acc.2 ++ [action dryRun incidentsKey incidentsDomain " (whole blob)"]) in
      if dryRun then mret (inl acc')
      else
        err ← write_doc incidentsDomain (Raw r);
        mret (match err with Some e => inr (Fatal incidentsKey e) | None => inl acc' end)
  end.

Fixpoint purge_keys (keys : list string) (actions purged : list string) : W M outcome :=
  match keys with
  | [] => mret (Done actions purged)
  | k :: rest => err ← del_attr k; match err with Some e => mret (Fatal k e) | None => purge_keys rest actions (purged ++ [k]) end
  end.

Definition migrate (dryRun purge : bool) : W M outcome :=
  attrs ← all_attrs;
  match attrs with
  | Err e => mret (Fatal "" e)
  | Ok attrs =>
      if decide (attrs = ∅) then mret (Done [] [])
      else
        r1 ← move_all dryRun attrs fixed_moves ([], []);
        match r1 with
        | inr o => mret o
        | inl acc1 =>
            r2 ← move_incidents dryRun attrs acc1;
            match r2 with
            | inr o => mret o
            | inl acc2 =>
                r3 ← move_all dryRun attrs (dynamic_moves attrs) acc2;
                match r3 with
                | inr o => mret o
                | inl (purgeKeys, actions) =>
                    let actions := SliceStable str_ltb actions in
                    if (match actions with [] => true | _ => false end) || dryRun || negb purge then mret (Done actions [])
                    else purge_keys purgeKeys actions []
                end
            end
        end
  end.

End Ops.

End Migration.

Module Client.

(** The parts of the agent card that are used; the schemes in the order Go visits them. *)
Record AgentCard := mkCard {
  Name : string; Description : string; Version : string; SecuritySchemes : list string; Skills : list (string * string) }.

(** [a2a.SendMessageResult]: the texts of a message, or those of a task's status and
    artifacts. *)
Inductive SendMessageResult :=
  | ResultMessage (parts : list string)
  | ResultTask (status : option (list string)) (artifacts : list (list string)).

Definition extractText (r : SendMessageResult) : string :=
  match r with
  | ResultMessage parts => Join parts ""
  | ResultTask status artifacts => Join (default [] status) "" +:+ Join (concat artifacts) ""
  end.

(** The Authorization header of every request. *)
Definition authorization (token : string) : list string := if String.eqb token "" then [] else ["Bearer " +:+ token].

Definition buildMessage (skill : string) (args : list string) : string :=
  match args with
  | [] => "Run the " +:+ skill +:+ " skill."
  | _ => "Run the " +:+ skill +:+ " skill: " +:+ Join args " "
  end.

Definition skill_line (s : string * string) : string := "  " +:+ pad_right 16 s.1 +:+ " " +:+ s.2 +:+ nl.

Definition printSkills (c : AgentCard) : string :=
  match Skills c with
  | [] => "No skills available." +:+ nl
  | skills => "Available skills:" +:+ nl +:+ Join (skill_line <$> skills) ""
  end.

Definition printAgentCard (c : AgentCard) : string :=
  "Name:        " +:+ Name c +:+ nl +:+
  "Description: " +:+ Description c +:+ nl +:+
  "Version:     " +:+ Version c +:+ nl +:+
  "Auth:        " +:+ (match SecuritySchemes c with [] => "none" | names => Join names ", " end) +:+ nl +:+
  (match Skills c with [] => "" | skills => "Skills:" +:+ nl +:+ Join (skill_line <$> skills) "" end).

Record cli_flags := mkFlags { server : string; token : string; info : bool; verbose : bool }.

(** The exit code and what is written to the two outputs. *)
Record cli_exit := mkExit { exit_code : Z; out : string; err : string }.

Section Run.
(** The agent-to-agent library: the card of a server, a client for it, and one message
    with its headers; [usage] is the text of the flags. *)
Context (Resolve : string → result string AgentCard) (NewFromCard : AgentCard → option string).
Context (SendMessage : list string → string → result string SendMessageResult) (usage : string).

Definition New (url : string) : result string AgentCard :=
  match Resolve url with
  | Err e => Err ("client: resolve agent card from " +:+ url +:+ ": " +:+ e)
  | Ok card => match NewFromCard card with Some e => Err ("client: create from card: " +:+ e) | None => Ok card end
  end.

Definition SendTask (tok input : string) : result string string :=
  match SendMessage (authorization tok) input with
  | Err e => Err ("client: send message: " +:+ e)
  | Ok r => Ok (extractText r)
  end.

Definition cli_main (f : cli_flags) (env_token : string) (args : list string) : cli_exit :=
  let tok := if String.eqb (token f) "" then env_token else token f in
  let connecting := if verbose f then "Connecting to " +:+ server f +:+ "..." +:+ nl else "" in
  match New (server f) with
  | Err e => mkExit 1 "" (connecting +:+ "Error: could not connect to " +:+ server f +:+ ": " +:+ e +:+ nl)
  | Ok card =>
      if info f then mkExit 0 (printAgentCard card) connecting
      else match args with
           | [] => mkExit 1 "" (connecting +:+ usage +:+ nl +:+ printSkills card)
           | skill :: rest =>
               if bool_decide (skill ∈ fst <$> Skills card) then
                 let running := connecting +:+ (if verbose f then "Running skill " +:+ Quote skill +:+ "..." +:+ nl else "") in
                 match SendTask tok (buildMessage skill rest) with
                 | Err e => mkExit 1 "" (running +:+ "Error: " +:+ e +:+ nl)
                 | Ok result => mkExit 0 (result +:+ nl) running
                 end
               else mkExit 1 "" (connecting +:+ "Error: unknown skill " +:+ Quote skill +:+ nl +:+ nl +:+ printSkills card)
           end
  end.
End Run.

End Client.

Module Tracing.

Definition endpointEnvKey : string := "OTEL_EXPORTER_OTLP_ENDPOINT".
Definition samplerEnvKey : string := "OTEL_TRACES_SAMPLER".
Definition samplerArgEnvKey : string := "OTEL_TRACES_SAMPLER_ARG".
Definition shutdownTimeout : Z := 5 * Second.

(** The samplers of the library. *)
Inductive sampler := AlwaysSample | NeverSample | TraceIDRatioBased (fraction : spec_float) | ParentBased (root : sampler).

Definition ratio (arg : string) : spec_float :=
  let '(r, ok) := Float.ParseFloat arg in
  if negb ok || Float.ltb r Float64.zero || Float.gtb r (Float64.of_Z 1) then Float64.of_Z 1 else r.

Definition samplerFromEnv (getenv : string → string) : sampler :=
  let name := ToLower (TrimSpace (getenv samplerEnvKey)) in
  let arg := TrimSpace (getenv samplerArgEnvKey) in
  if String.eqb name "always_on" then AlwaysSample
  else if String.eqb name "always_off" then NeverSample
  else if String.eqb name "traceidratio" then TraceIDRatioBased (ratio arg)
  else if String.eqb name "parentbased_always_off" then ParentBased NeverSample
  else if String.eqb name "parentbased_traceidratio" then ParentBased (TraceIDRatioBased (ratio arg))
  else ParentBased AlwaysSample.

(** What is installed: the sampler, the default service name, and the propagators. *)
Record provider := mkProvider { Sampler : sampler; ServiceName : string; Propagators : list string }.

(** [Setup]: [None] leaves tracing off; [exporter] is the error of making the exporter. *)
Definition Setup (getenv : string → string) (exporter : option string) (defaultServiceName : string) : option provider :=
  if String.eqb (TrimSpace (getenv endpointEnvKey)) "" then None
  else match exporter with
       | Some _ => None
       | None => Some (mkProvider (samplerFromEnv getenv) defaultServiceName ["tracecontext"; "baggage"])
       end.

(** The time the shutdown has, given what is left of the caller's. *)
Definition shutdown_time (p : option provider) (left : Z) : Z := match p with Some _ => Z.min left shutdownTimeout | None => 0 end.

End Tracing.
