(* ===== verification/TaskLog.v ===== *)
(** * The log of tool executions ([utils/storage/storage.go])

    An append-only file of one JSON document per line, and the wrapper that records
    every execution of a tool in it. *)

From S2P Require Import Prelude GoStrings GoTime GoText Json World Agent.

Module TaskLog.

Record TaskRecord := mkRecord {
  ID : string; Name : string; Input : string; Result : string; Error : string; ExecutedAt : string;
}.

(** The backing file: absent, or its contents. *)
Definition file : Type := option string.

Inductive log_error := EOpen | EMarshal | EWrite | EStat | EParse | ETooLong.

(** The state of a process whose tools are wrapped. *)
Record process (S : Type) := mkProcess { p_inner : S; p_tasks : file; p_clock : nat → Z; p_ticks : nat }.
Arguments mkProcess {S}. Arguments p_inner {S}. Arguments p_tasks {S}. Arguments p_clock {S}. Arguments p_ticks {S}.

Section Store.
Context `{!Json TaskRecord}.

(** Opening creates the file; [opens] and [writes] say whether the calls succeed. *)
Definition Append (opens writes : bool) (record : TaskRecord) (f : file) : option log_error * file :=
  if negb opens then (Some EOpen, f)
  else
    let text := default "" f in
    match Marshal record with
    | None => (Some EMarshal, Some text)
    | Some data => if writes then (None, Some (text +:+ data +:+ nl)) else (Some EWrite, Some text)
    end.

(** [stats]: whether the file can be examined. *)
Definition SizeBytes (stats : bool) (f : file) : result log_error Z :=
  match f with None => Ok 0 | Some text => if stats then Ok (len text) else Err EStat end.

(** The loop of [All]: the records before the first line that does not parse. *)
Fixpoint read_records (lines : list string) (acc : list TaskRecord) : result log_error (list TaskRecord) :=
  match lines with
  | [] => Ok acc
  | line :: rest =>
      if String.eqb line "" then read_records rest acc
      else let '(r, ok) := Unmarshal line zero in
           if ok : bool then read_records rest (acc ++ [r]) else Err EParse
  end.

(** The records, and an error with them. *)
Definition All (opens : bool) (f : file) : list TaskRecord * option log_error :=
  match f with
  | None => ([], None)
  | Some text =>
      if negb opens then ([], Some EOpen)
      else match read_records (ScanLines text) [] with
           | Err e => ([], Some e)
           | Ok records => (records, if scan_overflows text then Some ETooLong else None)
           end
  end.

(** ** Recording tools *)

Definition utc : Z → Z := λ _, 0.

(** The record of one execution; [t_id] and [t_at] are the two readings of the clock. *)
Definition record_of (name input : string) (r : result string string) (t_id t_at : Z) : TaskRecord :=
  match r with
  | Ok out => mkRecord (hex t_id) name input out "" (Format utc t_at)
  | Err e => mkRecord (hex t_id) name input "" e (Format utc t_at)
  end.

(** [storedTool.Execute]; the error of [Append] is only logged. *)
Definition stored_exec {S} (opens writes : bool) (inner : @Agent.tool S) (input : string) (p : process S) :
    result string string * process S :=
  let '(r, s) := Agent.t_exec inner input (p_inner p) in
  let record := record_of (Agent.t_name inner) input r (p_clock p (p_ticks p)) (p_clock p (p_ticks p + 1)%nat) in
  (r, mkProcess s (Append opens writes record (p_tasks p)).2 (p_clock p) (p_ticks p + 2)).

Definition WrapTool {S} (opens writes : bool) (t : @Agent.tool S) : @Agent.tool (process S) :=
  Agent.mkTool (Agent.t_name t) (Agent.t_description t) (Agent.t_schema t) (stored_exec opens writes t).

Definition WrapAll {S} (opens writes : bool) (tools : list (@Agent.tool S)) : list (@Agent.tool (process S)) :=
  WrapTool opens writes <$> tools.

End Store.

End TaskLog.
