(* ===== verification/Status.v ===== *)
(** * Host metadata, the status response and its summary

    [SystemInfo] is [skills/capture_system_info]; [Status] is the package
    [status]: the response of GET /status, assembled from the memory, the loop and the
    probes, and the cached one-sentence description a model writes of it.  The system
    calls, the directory /sys/block and the hash are parameters. *)

From Corelib Require Import SpecFloat.
From S2P Require Import Prelude GoStrings GoTime GoText GoDuration Json Memory MemStore World KeyStore.
From S2P Require Import Timeline Drives TaskLog.

Module SystemInfo.
Import Float64.

Record Disk := mkDisk { Device : string; SizeOf : Z; DiskModel : string }.
Record NetInterface := mkNet { NetName : string; MAC : string; SpeedMbps : Z }.
Record Info := mkInfo {
  OS : string; Distribution : string; Version : string; Kernel : string; Hostname : string;
  CPUModel : string; CPUCores : Z; MemoryBytes : Z; Disks : list Disk; NetInterfaces : list NetInterface;
}.

(** ** The report *)

Definition formatBytes (b : Z) : string :=
  let in_unit (u : Z) (name : string) := Float.format 2 (div (of_Z b) (of_Z u)) +:+ name in
  if 2 ^ 40 <=? b then in_unit (2 ^ 40) " TB"
  else if 2 ^ 30 <=? b then in_unit (2 ^ 30) " GB"
  else if 2 ^ 20 <=? b then in_unit (2 ^ 20) " MB"
  else Itoa b +:+ " B".

(** [%10s]. *)
Fixpoint spaces (n : nat) : string := match n with O => "" | S n' => String " " (spaces n') end.
Definition pad_left (n : nat) (s : string) : string := spaces (n - RuneCount s) +:+ s.

Definition optional (label value : string) : string := if String.eqb value "" then "" else label +:+ value +:+ nl.

Definition disk_line (d : Disk) : string :=
  "  " +:+ pad_right 12 (Device d) +:+ " " +:+ pad_left 10 (formatBytes (SizeOf d)) +:+
  (if String.eqb (DiskModel d) "" then "" else "  (" +:+ DiskModel d +:+ ")") +:+ nl.

Definition net_line (n : NetInterface) : string :=
  "  " +:+ pad_right 12 (NetName n) +:+ " MAC=" +:+ pad_right 17 (MAC n) +:+ " Speed=" +:+
  (if 0 <? SpeedMbps n then Itoa (SpeedMbps n) +:+ " Mbps" else "unknown") +:+ nl.

Definition BuildReport (i : Info) : string :=
  "Hostname:     " +:+ Hostname i +:+ nl +:+
  "OS:           " +:+ OS i +:+ nl +:+
  optional "Distribution: " (Distribution i) +:+
  optional "Version:      " (Version i) +:+
  optional "Kernel:       " (Kernel i) +:+
  (if String.eqb (CPUModel i) "" then "" else "CPU:          " +:+ CPUModel i +:+ " (" +:+ Itoa (CPUCores i) +:+ " cores)" +:+ nl) +:+
  (if 0 <? MemoryBytes i then "Memory:       " +:+ formatBytes (MemoryBytes i) +:+ nl else "") +:+
  (match Disks i with [] => "" | ds => nl +:+ "Disks:" +:+ nl +:+ Join (disk_line <$> ds) "" end) +:+
  (match NetInterfaces i with [] => "" | ns => nl +:+ "Network Interfaces:" +:+ nl +:+ Join (net_line <$> ns) "" end).

(** ** Gathering on Linux *)

Section Gather.
Context (read_file : string → result string string).

(** PRETTY_NAME, NAME and VERSION_ID so far. *)
Definition release_line (acc : string * string * string) (line : string) : string * string * string :=
  let '(distribution, name, version) := acc in
  match Cut "=" line with
  | None => acc
  | Some (key, val) =>
      let val := Trim val (String "034" "") in
      if String.eqb key "PRETTY_NAME" then (val, name, version)
      else if String.eqb key "NAME" then (distribution, val, version)
      else if String.eqb key "VERSION_ID" then (distribution, name, val)
      else acc
  end.

Definition osRelease : string * string :=
  match read_file "/etc/os-release" with
  | Err _ => ("", "")
  | Ok text =>
      let '(distribution, name, version) := foldl release_line ("", "", "") (ScanLines text) in
      (if String.eqb distribution "" then name else distribution, version)
  end.

Definition cpu_line (acc : string * Z) (line : string) : string * Z :=
  let '(model, cores) := acc in
  match Cut ":" line with
  | None => acc
  | Some (key, val) =>
      let key := TrimSpace key in
      if String.eqb key "model name" then (if String.eqb model "" then TrimSpace val else model, cores)
      else if String.eqb key "processor" then (model, cores + 1)
      else acc
  end.

Definition cpuInfo : string * Z :=
  match read_file "/proc/cpuinfo" with Err _ => ("", 0) | Ok text => foldl cpu_line ("", 0) (ScanLines text) end.

Fixpoint find_total (lines : list string) : Z :=
  match lines with
  | [] => 0
  | line :: rest =>
      match Cut ":" line with
      | Some (key, val) =>
          if String.eqb key "MemTotal" then
            match Fields val with
            | [] => 0
            | v :: _ => match ParseUint v with (kb, true) => wrapu64 (kb * 1024) | _ => 0 end
            end
          else find_total rest
      | None => find_total rest
      end
  end.

Definition memTotal : Z := match read_file "/proc/meminfo" with Err _ => 0 | Ok text => find_total (ScanLines text) end.

Definition virtual (name : string) : bool :=
  HasPrefix name "loop" || HasPrefix name "ram" || HasPrefix name "dm-" || HasPrefix name "sr".

Definition block_device (name : string) : option Disk :=
  if virtual name then None
  else match read_file ("/sys/block/" +:+ name +:+ "/size") with
       | Err _ => None
       | Ok size =>
           match ParseUint (TrimSpace size) with
           | (sectors, true) =>
               Some (mkDisk name (wrapu64 (sectors * 512))
                       (match read_file ("/sys/block/" +:+ name +:+ "/device/model") with Ok m => TrimSpace m | Err _ => "" end))
           | _ => None
           end
       end.

(** [sys_block]: the names in /sys/block, if it can be read. *)
Definition blockDevices (sys_block : option (list string)) : list Disk :=
  match sys_block with None => [] | Some names => omap block_device names end.

(** An interface of [net.Interfaces]: its name, its address and whether it is a loopback. *)
Definition linuxNetInterfaces (ifaces : option (list (string * string * bool))) : list NetInterface :=
  match ifaces with
  | None => []
  | Some l =>
      omap (λ '(name, mac, loopback),
        if loopback : bool then None
        else Some (mkNet name mac
               (match read_file ("/sys/class/net/" +:+ name +:+ "/speed") with
                | Ok data => match Atoi (TrimSpace data) with (mbps, true) => if 0 <? mbps then mbps else 0 | _ => 0 end
                | Err _ => 0
                end))) l
  end.

Definition gather (hostname kernel : option string) (sys_block : option (list string))
    (ifaces : option (list (string * string * bool))) : Info :=
  let '(distribution, version) := osRelease in
  let '(model, cores) := cpuInfo in
  mkInfo "linux" distribution version (default "" kernel) (default "" hostname) model cores memTotal
    (blockDevices sys_block) (linuxNetInterfaces ifaces).

End Gather.

(** ** Gathering on macOS *)

(** The regular expressions on the blocks of [diskutil]: a label that starts a line, after
    white space, and the text from the value on. *)
Definition after_label (label : string) (line_start : string) : option string :=
  CutPrefix label (TrimLeftFunc re_space line_start).

(** The leftmost line start at which [f] succeeds. *)
Fixpoint first_line {A} (f : string → option A) (bol : bool) (s : string) : option A :=
  match (if bol then f s else None) with
  | Some r => Some r
  | None => match s with String c s' => first_line f (Ascii.eqb c lf) s' | "" => None end
  end.

Definition not_space (c : ascii) : bool := negb (re_space c).
Definition not_lf (c : ascii) : bool := negb (Ascii.eqb c lf).
Definition nonempty (s : string) : option string := if String.eqb s "" then None else Some s.

(** [\s*(Yes|No)]. *)
Definition yes_no (label block : string) : option bool :=
  first_line (λ s, rest ← after_label label s;
    let v := TrimLeftFunc re_space rest in
    if HasPrefix v "Yes" then Some true else if HasPrefix v "No" then Some false else None) true block.

Definition diskutil_identifier (block : string) : option string :=
  first_line (λ s, rest ← after_label "Device Identifier:" s; nonempty (span not_space (TrimLeftFunc re_space rest)).1) true block.

(** The model with its white space trimmed. *)
Definition diskutil_model (block : string) : string :=
  default "" (first_line (λ s, rest ← after_label "Device / Media Name:" s;
    Some (TrimSpace (span not_lf (TrimLeftFunc re_space rest)).1)) true block).

(** The digits of [(n Bytes)] at the start of the text. *)
Definition bytes_in_parens (s : string) : option string :=
  rest ← CutPrefix "(" s;
  let '(ds, rest) := span (in_range 48 57) rest in
  n ← nonempty ds;
  if HasPrefix rest " Bytes)" then Some n else None.

(** The last place on the line at which [f] succeeds. *)
Fixpoint rightmost {A} (f : string → option A) (s : string) : option A :=
  match s with
  | "" => f ""
  | String _ s' => match rightmost f s' with Some r => Some r | None => f s end
  end.

Definition diskutil_size (block : string) : Z :=
  match first_line (λ s, rest ← after_label "Disk Size:" s; rightmost bytes_in_parens (span not_lf rest).1) true block with
  | Some ds => (ParseUint ds).1
  | None => 0
  end.

Definition diskutil_disk (block : string) : option Disk :=
  match yes_no "Whole:" block, yes_no "Virtual:" block with
  | Some true, Some true => None
  | Some true, _ => id ← diskutil_identifier block; Some (mkDisk id (diskutil_size block) (diskutil_model block))
  | _, _ => None
  end.

Definition diskutil_disks (out : string) : list Disk := omap diskutil_disk (Split out "**********").

Example diskutil_samples :
  let disk0 := "   Device Identifier:         disk0" +:+ nl +:+ "   Whole:                     Yes" +:+ nl +:+
    "   Device / Media Name:       APPLE SSD  " +:+ nl +:+ "   Disk Size:                 500.1 GB (500107862016 Bytes) (exactly 976773168 512-Byte-Units)" +:+ nl in
  let disk1 := "   Device Identifier:         disk1" +:+ nl +:+ "   Whole:  Yes" +:+ nl +:+ "   Virtual:  Yes" +:+ nl in
  diskutil_disks (disk0 +:+ "**********" +:+ nl +:+ disk1) = [mkDisk "disk0" 500107862016 "APPLE SSD"].
Proof. by vm_compute. Qed.

(** [ifconfigSpeedRe]. *)
Definition media_speed (s : string) : option string :=
  rest ← CutPrefix "media:" s;
  match span re_space rest with
  | ("", _) => None
  | (_, rest) =>
      match span not_space rest with
      | ("", _) => None
      | (_, rest) =>
          match span re_space rest with
          | ("", _) => None
          | (_, rest) =>
              rest ← CutPrefix "(" rest;
              let '(ds, rest) := span (in_range 48 57) rest in
              n ← nonempty ds;
              if HasPrefix rest "base" then Some n else None
          end
      end
  end.

Definition ifconfig_speed (out : string) : Z := match leftmost media_speed out with Some n => (Atoi n).1 | None => 0 end.

Example speed_samples :
  ifconfig_speed ("media: autoselect (1000baseT <full-duplex>)" +:+ nl) = 1000 ∧ ifconfig_speed "media: autoselect (none)" = 0.
Proof. by split_and!; vm_compute. Qed.

Section Darwin.
Context `{!MemStore M}.
Context (Sysctl : string → option string) (SysctlUint32 SysctlUint64 : string → option Z).

Definition diskutilDisks : W M (list Disk) :=
  '(out, err) ← run_process ["diskutil"; "info"; "-all"];
  mret (match err with None => diskutil_disks out | Some _ => [] end).

Fixpoint darwin_interfaces (ifaces : list (string * string * bool)) : W M (list NetInterface) :=
  match ifaces with
  | [] => mret []
  | (name, mac, loopback) :: rest =>
      if loopback : bool then darwin_interfaces rest
      else
        '(out, err) ← run_process ["ifconfig"; name];
        rs ← darwin_interfaces rest;
        mret (mkNet name mac (match err with None => ifconfig_speed out | Some _ => 0 end) :: rs)
  end.

Definition darwinNetInterfaces (ifaces : option (list (string * string * bool))) : W M (list NetInterface) :=
  match ifaces with None => mret [] | Some l => darwin_interfaces l end.

Definition darwin_gather (hostname : option string) (ifaces : option (list (string * string * bool))) : W M Info :=
  disks ← diskutilDisks;
  nets ← darwinNetInterfaces ifaces;
  mret (mkInfo "darwin" "macOS" (default "" (Sysctl "kern.osproductversion")) (default "" (Sysctl "kern.osrelease"))
    (default "" hostname) (default "" (Sysctl "machdep.cpu.brand_string")) (default 0 (SysctlUint32 "hw.physicalcpu"))
    (default 0 (SysctlUint64 "hw.memsize")) disks nets).
End Darwin.

(** ** Gathering on Windows *)

Section Windows.
Context `{!MemStore M}.

Definition psValue (expr : string) : W M string :=
  '(out, err) ← run_process (powershell "powershell" expr);
  mret (match err with None => TrimSpace out | Some _ => "" end).

Definition psLines (expr : string) : W M (list string) :=
  '(out, err) ← run_process (powershell "powershell" expr);
  mret (match err with None => filter (λ l, l ≠ "") (TrimSpace <$> Lines out) | Some _ => [] end).

Definition fields_script (query fields : string) : string :=
  query +:+ " | ForEach-Object { " +:+ String "034" fields +:+ String "034" " }".

Definition windows_disk (line : string) : option Disk :=
  match SplitN line "|" 3 with
  | [device; size; model] => Some (mkDisk device (ParseUint size).1 model)
  | _ => None
  end.

Definition windowsDisks : W M (list Disk) :=
  lines ← psLines (fields_script "Get-CimInstance Win32_DiskDrive" "$($_.DeviceID)|$($_.Size)|$($_.Model)");
  mret (omap windows_disk lines).

Definition windows_interface (line : string) : option NetInterface :=
  match SplitN line "|" 3 with
  | [name; mac; speed] => Some (mkNet name mac (match ParseUint speed with (bps, true) => bps / 1000000 | _ => 0 end))
  | _ => None
  end.

Definition windowsNetInterfaces : W M (list NetInterface) :=
  lines ← psLines (fields_script ("Get-CimInstance Win32_NetworkAdapter -Filter " +:+ String "034" "PhysicalAdapter=true" +:+ String "034" "")
                     "$($_.Name)|$($_.MACAddress)|$($_.Speed)");
  mret (omap windows_interface lines).

Definition windows_gather (hostname : option string) : W M Info :=
  caption ← psValue "(Get-CimInstance Win32_OperatingSystem).Caption";
  version ← psValue "(Get-CimInstance Win32_OperatingSystem).Version";
  cpu ← psValue "(Get-CimInstance Win32_Processor).Name";
  cores ← psValue "(Get-CimInstance Win32_Processor).NumberOfLogicalProcessors";
  mem ← psValue "(Get-CimInstance Win32_ComputerSystem).TotalPhysicalMemory";
  disks ← windowsDisks;
  nets ← windowsNetInterfaces;
  mret (mkInfo "windows" caption version version (default "" hostname) cpu (Atoi cores).1 (ParseUint mem).1 disks nets).
End Windows.

End SystemInfo.

Module Status.
Import Timeline SystemInfo.

(** ** The prompt of the summary *)

Definition clip (s : string) (max : nat) : string :=
  if (String.length s <=? max)%nat then s else take_bytes max s +:+ "…".

Definition is_escalation (e : TimelineEntry) : bool := String.eqb (Type_ e) "escalation".
Definition is_critical (e : TimelineEntry) : bool := String.eqb (Severity e) "critical" && negb (is_escalation e).
Definition is_pending_approval (e : TimelineEntry) : bool :=
  String.eqb (Type_ e) "approval" &&
  match Timeline.Status e with Some s => String.eqb s "pending" | None => false end &&
  (String.eqb (Risk e) "high" || String.eqb (Risk e) "medium").

Definition filterEntries (entries : list TimelineEntry) (fn : TimelineEntry → bool) : list TimelineEntry :=
  filter (λ e, fn e = true) entries.

Definition detail_line (e : TimelineEntry) (max : nat) : string :=
  if String.eqb (Detail e) "" then "" else "  " +:+ clip (Detail e) max +:+ nl.

Definition issue_lines (e : TimelineEntry) : string := "- " +:+ Title e +:+ nl +:+ detail_line e 200.

Definition approval_lines (e : TimelineEntry) : string :=
  "- [" +:+ Risk e +:+ " risk] " +:+ Title e +:+ nl +:+
  (match ProposedAction e with
   | Some a => if String.eqb a "" then "" else "  Proposed action: " +:+ clip a 150 +:+ nl
   | None => ""
   end) +:+ detail_line e 150.

Definition buildSummaryPrompt (timeline : list TimelineEntry) : string :=
  let escalations := filterEntries timeline is_escalation in
  let criticals := filterEntries timeline is_critical in
  let approvals := filterEntries timeline is_pending_approval in
  (match escalations with
   | [] => ""
   | l => "ESCALATIONS (approval not acknowledged by operator):" +:+ nl +:+ Join (issue_lines <$> l) "" +:+ nl
   end) +:+
  (match criticals with [] => "" | l => "CRITICAL ISSUES:" +:+ nl +:+ Join (issue_lines <$> l) "" +:+ nl end) +:+
  (match approvals with
   | [] => ""
   | l => "PENDING APPROVALS (agent waiting for operator decision):" +:+ nl +:+ Join (approval_lines <$> l) ""
   end).

(** ** The summarizer *)

Definition defaultSummaryTTL : Z := 5 * Minute.

Definition summary_ttl (setting : string) : Z :=
  if String.eqb setting "" then defaultSummaryTTL
  else match ParseDuration setting with Some d => if 0 <? d then d else defaultSummaryTTL | None => defaultSummaryTTL end.

(** The zero time, and [time.Since]: the difference saturates. *)
Definition zero_time : Z := -62135596800 * Second.
Definition since (now t : Z) : Z := Z.min max64 (Z.max min64 (now - t)).

Record summarizer := mkSum { cached : string; cachedHash : string; cachedAt : Z; running : bool }.
Definition newSummarizer : summarizer := mkSum "" "" zero_time false.

Section Summary.
Context (promptHash : string → string) (ttl : Z).

Definition stale (s : summarizer) (now : Z) (hash : string) : bool :=
  (ttl <=? since now (cachedAt s)) || negb (String.eqb hash (cachedHash s)).

(** The first section of [get]: the description it returns, and the prompt of the
    refresh it goes on to start. *)
Definition get_look (s : summarizer) (timeline : list TimelineEntry) (now : Z) : string * option string :=
  let prompt := buildSummaryPrompt timeline in
  if String.eqb prompt "" then ("", None)
  else (cached s, if stale s now (promptHash prompt) && negb (running s) then Some prompt else None).

(** The second section: [true] if a goroutine is started. *)
Definition get_start (s : summarizer) : bool * summarizer :=
  if running s then (false, s) else (true, mkSum (cached s) (cachedHash s) (cachedAt s) true).

(** What [refresh] stores of the model's answer ([None] on an error or no choice). *)
Definition refresh_store (s : summarizer) (prompt : string) (answer : option string) (now : Z) : summarizer :=
  match answer with
  | None => s
  | Some content =>
      let summary := TrimSpace content in
      if String.eqb summary "" then s else mkSum summary (promptHash prompt) now (running s)
  end.

Definition refresh_end (s : summarizer) : summarizer := mkSum (cached s) (cachedHash s) (cachedAt s) false.

(** *** Concurrent calls

    [starting]: calls of [get] between their two sections; [asking] and [ending]:
    refreshes that wait for the model, and that are about to end; [asked]: the prompts
    sent to the model and its answers. *)
Record system := mkSys {
  sum : summarizer; starting : list string; asking : list string; ending : nat; asked : list (string * option string);
}.

Definition init : system := mkSys newSummarizer [] [] 0 [].

Inductive step : system → system → Prop :=
| step_look y timeline now prompt :
    (get_look (sum y) timeline now).2 = Some prompt →
    step y (mkSys (sum y) (prompt :: starting y) (asking y) (ending y) (asked y))
| step_start y l1 prompt l2 :
    starting y = l1 ++ prompt :: l2 →
    step y (mkSys (get_start (sum y)).2 (l1 ++ l2)
              (if (get_start (sum y)).1 then prompt :: asking y else asking y) (ending y) (asked y))
| step_answer y l1 prompt l2 answer now :
    asking y = l1 ++ prompt :: l2 →
    step y (mkSys (refresh_store (sum y) prompt answer now) (starting y) (l1 ++ l2) (S (ending y)) ((prompt, answer) :: asked y))
| step_end y n :
    ending y = S n →
    step y (mkSys (refresh_end (sum y)) (starting y) (asking y) n (asked y)).

End Summary.

(** ** The response *)

Record AgentInfo := mkAgentInfo { a_Hostname : string; a_Platform : string; a_OS : string; a_BuildTime : string; a_Purpose : string }.
Record StatusBlock := mkBlock { State : string; LastPoll : string; CurrentTask : option string; CurrentTasks : list string }.
Record Response := mkResponse {
  r_Agent : AgentInfo; r_Status : StatusBlock; r_Timeline : list TimelineEntry; LastPatchedAt : option string;
  StatusDescription : string; DiskTrends : option string; SmartTrends : option string;
  MemoryStoreBytes : Z; TasksLogBytes : Z;
}.

(** The entry of a skill that is not well. *)
Definition skill_entry (st : SkillState.State) : TimelineEntry :=
  mkEntry ("skillstate:" +:+ SkillState.Skill st) (SkillState.Time st) "observation"
    (SkillState.Skill st +:+ ": " +:+ SkillState.Summary st) (SkillState.Summary st) (SkillState.Health st)
    "" "" None None 0 "" None.

Definition merge_states (states : list SkillState.State) (timeline : list TimelineEntry) : list TimelineEntry :=
  foldl (λ tl st, if String.eqb (SkillState.Health st) "ok" then tl else skill_entry st :: tl) timeline states.

Definition activity (runningTasks : list string) (timeline : list TimelineEntry) : string :=
  match runningTasks with _ :: _ => "active" | [] => if hasAttention timeline then "attention" else "idle" end.

Section Build.
Context `{!RawJson, !Json SkillState.State, !Json (list TimelineEntry), !Json string, !MemStore M}.
Context (zone : Z → Z) (promptHash : string → string) (ttl : Z).
(** The patcher of the service, if the system was recognised, and the size of the memory. *)
Context (last_updated : option (W M (result string Z))) (store_bytes : M → Z).
Context (info : Info) (build_time purpose : string).

(** [GetKey] into a raw message; [null] counts as none. *)
Definition raw_key (domain key : string) : W M (option string) :=
  bucket ← all_keys domain;
  mret (match bucket !! key with Some raw => if String.eqb raw "null" then None else Some raw | None => None end).

Definition last_patched : W M (option string) :=
  '(patchTime, ok) ← get_attr (A := string) "last_patched_at";
  if ok && negb (String.eqb patchTime "") then mret (Some patchTime)
  else match last_updated with
       | None => mret None
       | Some probe => r ← probe; mret (match r with Ok t => Some (Format (λ _, 0) t) | Err _ => None end)
       end.

Definition memory_bytes : W M Z := λ w, (store_bytes (w_mem w), w).

(** The size of the task log, if there is one and it can be examined. *)
Definition tasks_bytes (tasks : option (bool * TaskLog.file)) : Z :=
  match tasks with Some (stats, f) => match TaskLog.SizeBytes stats f with Ok n => n | Err _ => 0 end | None => 0 end.

(** The response, and the prompt of a refresh to start. *)
Definition build (runningTasks : list string) (s : summarizer) (tasks : option (bool * TaskLog.file)) :
    W M (Response * option string) :=
  '(timeline, _) ← read_doc (A := list TimelineEntry) "timeline";
  states ← SkillState.LoadAll;
  let timeline := merge_states states timeline in
  let state := activity runningTasks timeline in
  patched ← last_patched;
  '(description, refresh) ← (if String.eqb state "attention" then now ← now_; mret (get_look promptHash ttl s timeline now)
                             else mret ("", None));
  diskTrends ← raw_key Drives.DiskTrendsDomain Drives.TrendAttrsKey;
  smartTrends ← raw_key Drives.DiskTrendsDomain Drives.SmartTrendAttrsKey;
  t ← now_;
  bytes ← memory_bytes;
  mret (mkResponse
      (mkAgentInfo (Hostname info) (OS info) (osLabel (Distribution info) (Version info) (OS info)) build_time purpose)
      (mkBlock state (Format zone t) (head runningTasks) runningTasks)
      timeline patched description diskTrends smartTrends bytes (tasks_bytes tasks), refresh).

End Build.

End Status.
