(* ===== verification/Server.v ===== *)
(** * The server: tools, wiring, authentication and routes ([main.go], [a2a/tool], [a2a/executor], [a2a/registry])

    [serve] is what the HTTP server answers to one request: the multiplexer chooses a
    handler by the path, a handler other than the agent card is wrapped to demand the
    bearer token when the scheme is [bearer], and the JSON-RPC handler demands it through
    an interceptor.  The handlers themselves are in the other files; the A2A library is a
    parameter.  [responsibilities] is the list the loop is given at start-up; [runServer]
    is the order of start-up and shutdown. *)

From S2P Require Import Prelude GoStrings GoTime GoText Json World Agent Loop TaskLog Posture Config Ops.

Module Server.
Import Config.

(** ** Typed tools *)

(** [typedTool.Execute]: an absent input leaves the zero value. *)
Definition typed_exec {T St : Type} {J : Json T} (name : string) (unmarshal_error : string → string)
    (handler : T → St → result string string * St) (input : string) (s : St) : result string string * St :=
  if String.eqb input "" then handler zero s
  else match Unmarshal input zero with
       | (v, true) => handler v s
       | (_, false) => (Err ("tool " +:+ Quote name +:+ ": unmarshal input: " +:+ unmarshal_error input), s)
       end.

Definition ping {St : Type} (_ : unit) (s : St) : result string string * St := (Ok "pong", s).

(** The registry in the order of registration. *)
Definition Register {S} (registry : list (Agent.tool S)) (t : Agent.tool S) : list (Agent.tool S) := registry ++ [t].

(** The names [runServer] registers. *)
Definition registered : list string := [
  "ping"; "check_for_pending_system_patches"; "check_reboot_required"; "check_drives"; "check_containers"; "check_nfs";
  "analyze_cpu_utilization"; "analyze_memory_utilization"; "analyze_network_utilization"; "analyze_system_temperature";
  "check_interactive_logins"; "check_network_connections"; "read_agent_memory"; "check_security_posture";
  "compare_to_baseline"; "manage_incidents"; "capture_system_info"; "report_findings"; "request_approval";
  "run_approved_command"; "run_diagnostic_command"].

(** The registrations of [runServer]: a tool that cannot be made ends the start-up. *)
Definition start_registry {S} (new : string → result string (Agent.tool S)) : result string (list (Agent.tool S)) :=
  foldl (λ acc name, registry ← acc; t ← new name; Ok (Register registry t)) (Ok []) registered.

(** The agent of interactive requests gets the recorded tools, the loop the registry. *)
Definition interactive_tools {S} `{!Json TaskLog.TaskRecord} (opens writes : bool) (registry : list (Agent.tool S)) :
    list (Agent.tool (TaskLog.process S)) := TaskLog.WrapAll opens writes registry.

(** A tool of the registry as it acts on the process. *)
Definition unrecorded {S} (t : Agent.tool S) : Agent.tool (TaskLog.process S) :=
  Agent.mkTool (Agent.t_name t) (Agent.t_description t) (Agent.t_schema t)
    (λ input p, let '(r, s) := Agent.t_exec t input (TaskLog.p_inner p) in
                (r, TaskLog.mkProcess s (TaskLog.p_tasks p) (TaskLog.p_clock p) (TaskLog.p_ticks p))).

Definition loop_registry {S} (registry : list (Agent.tool S)) : list (Agent.tool (TaskLog.process S)) := unrecorded <$> registry.

(** ** Executing a message *)

(** [extractText]: [None] is a nil message. *)
Definition extractText (parts : option (list string)) : string :=
  match parts with None => "" | Some texts => TrimSpace (Join texts "") end.

Definition Execute {St : Type} (run : string → St → result string string * St) (parts : option (list string)) (s : St) :
    result string string * St :=
  let input := extractText parts in
  if String.eqb input "" then (Err "message contains no text parts", s) else run input s.

(** ** Built-in responsibilities *)

Definition nfs_responsibility : Loop.ResponsibilitySettings := Loop.mkRS "nfs-health-check" "60m" "" (Join [
    "An NFS mount health issue was detected on this host (see the";
    "pre-gathered health report included with this instruction — no need to call";
    "check_nfs again unless you want a fresh read). Elevated pending ops (>500),";
    "slow GETATTR latency (>1000ms), D-state processes, or an emergency unmount";
    "([AUTO-UNMOUNTED] in the report) all warrant investigation.";
    "Use run_diagnostic_command to gather more context if useful:";
    "  nfsstat -m                     # per-mount NFS statistics";
    "  dmesg | grep -i nfs | tail -20 # kernel NFS messages";
    "  ps aux | awk '$8 ~ /^D/ {print}' | head -20  # D-state processes";
    "Call report_findings with your assessment and remediation recommendation. If";
    "an emergency unmount was performed, explain why the NFS server likely became";
    "unresponsive. Do not re-mount without operator approval via run_approved_command."] nl)
  ["check_nfs"; "run_diagnostic_command"; "run_approved_command"; "report_findings"] "on error".

Definition container_responsibility : Loop.ResponsibilitySettings := Loop.mkRS "container-health-check" "15m" "" (Join [
    "A container health issue was detected on this host (see the";
    "pre-gathered health report included with this instruction — no need to call";
    "check_containers again unless you want a fresh read). Containers stopped";
    "unexpectedly, stuck in a restart loop, OOM killed (exit 137), or failing their";
    "health check all warrant investigation. Use run_diagnostic_command to";
    "investigate logs (e.g. docker logs --tail 50 <name> or";
    "podman logs --tail 50 <name>) before proposing any restart via";
    "run_approved_command. Do not flag containers that exited cleanly";
    "(exit code 0) — those are expected for one-shot jobs. Call report_findings";
    "with your assessment."] nl)
  ["check_containers"; "run_diagnostic_command"; "run_approved_command"; "report_findings"] "on error".

Definition temperature_responsibility : Loop.ResponsibilitySettings := Loop.mkRS "temperature-health-check" "15m" "" (Join [
    "A temperature sensor reading above normal operating range was";
    "detected on this host (see the pre-gathered report included with this";
    "instruction — no need to call analyze_system_temperature again unless you";
    "want a fresh read). Sensors at/above 80°C are flagged as a warning; at/above";
    "90°C, or sustained above 80°C for 15+ minutes, are flagged as critical.";
    "Use run_diagnostic_command to gather more context if useful (e.g. checking";
    "for a failed fan, blocked airflow, or a runaway process driving load).";
    "Call report_findings with your assessment and remediation recommendation."] nl)
  ["analyze_system_temperature"; "run_diagnostic_command"; "report_findings"] "on error".

Definition inject (rs : Loop.ResponsibilitySettings) (wanted : bool) (l : list Loop.ResponsibilitySettings) :
    list Loop.ResponsibilitySettings :=
  if wanted && negb (existsb (λ r, String.eqb (Loop.Name r) (Loop.Name rs)) l) then l ++ [rs] else l.

(** The responsibilities the loop is given; [nfs], [containers], [sensors]: what the
    three probes found. *)
Definition responsibilities (nfs containers sensors : bool) (configured : list Loop.ResponsibilitySettings) :
    list Loop.ResponsibilitySettings :=
  inject temperature_responsibility sensors (inject container_responsibility containers (inject nfs_responsibility nfs configured)).

(** The names pre-checks are registered under. *)
Definition pre_checks : list string := [
  "nfs-health-check"; "temperature-health-check"; "container-health-check"; "cpu-utilization-check";
  "memory-utilization-check"; "disk-space-check"; "network-utilization-check"; "keep-system-up-to-date"].

(** The prompt of responsibility runs, with the host's metadata if it was gathered. *)
Definition with_metadata (prompt : string) (report : option string) : string :=
  match report with Some r => prompt +:+ para +:+ "Host metadata:" +:+ nl +:+ r | None => prompt end.

(** ** Names of the host *)

(** [lookupFQDN]; the resolver is a parameter. *)
Fixpoint first_name (lookup_addr : string → option (list string)) (addrs : list string) : option string :=
  match addrs with
  | [] => None
  | a :: rest => match lookup_addr a with
                 | Some (n :: _) => Some (TrimSuffix n ".")
                 | _ => first_name lookup_addr rest
                 end
  end.

Definition lookupFQDN (hostname : option string) (lookup_host : string → option (list string))
    (lookup_addr : string → option (list string)) : option string :=
  h ← hostname; addrs ← lookup_host h; first_name lookup_addr addrs.

Definition card_url (server : ServerSettings) (fqdn hostname : option string) : string :=
  if String.eqb (PublicURL server) "" then
    let host := if String.eqb (Host server) "0.0.0.0" || String.eqb (Host server) ""
                then match fqdn with Some f => f | None => default "localhost" hostname end
                else Host server in
    "http://" +:+ host +:+ ":" +:+ Itoa (s_Port server)
  else PublicURL server.

(** ** The agent card *)

Record AgentSkill := mkSkill { sk_ID : string; sk_Name : string; sk_Description : string; sk_Tags : list string }.
Record AgentCard := mkCard {
  c_Name : string; c_Description : string; c_Version : string; c_URL : string; c_Skills : list AgentSkill;
  c_Schemes : list string;
}.

Definition buildAgentCard {S} (url build_time scheme : string) (registry : list (Agent.tool S)) : AgentCard :=
  mkCard "agent_patches" "Server administration AI agent" build_time url
    ((λ t, mkSkill (Agent.t_name t) (Agent.t_name t) (Agent.t_description t) ["server-admin"]) <$> registry)
    (if String.eqb scheme "bearer" then ["bearer"] else []).

(** ** Authentication *)

(** The value of the first Authorization header, [""] if there is none. *)
Definition header_get (values : list string) : string := default "" (head values).

Definition bearer_ok (token value : string) : bool :=
  match CutPrefix "Bearer " value with Some got => String.eqb got token | None => false end.

Inductive response := Unauthorized | Handled (handler : string) | Redirected | AgentCardOf | Rpc (interactive : bool) | RpcUnauthenticated.

#[export] Instance response_eq_dec : EqDecision response.
Proof. solve_decision. Defined.

Definition requireBearer (token : string) (values : list string) (next : response) : response :=
  if bearer_ok token (header_get values) then next else Unauthorized.

(** [bearerInterceptor.Before] on the service parameter [authorization]. *)
Definition intercept (token : string) (params : option (list string)) : bool :=
  match params with Some (v :: _) => bearer_ok token v | _ => false end.

(** ** Routes *)

(** The patterns with a handler of this repository. *)
Definition routes : list (string * string) := [
  ("/status", "status"); ("/memory", "memory"); ("/approvals/", "approvals"); ("/manual-runs/", "manual-runs");
  ("/responsibilities", "responsibilities"); ("/policies", "policies"); ("/policies/", "policies"); ("/log", "log");
  ("/network-connections", "network-connections"); ("/interactive-logins", "interactive-logins"); ("/findings/", "findings")].

(** A pattern that ends in a slash matches every path below it. *)
Definition matches (pattern path : string) : bool :=
  if HasSuffix pattern "/" then HasPrefix path pattern else String.eqb pattern path.

(** The longest pattern that matches. *)
Fixpoint best (patterns : list (string * string)) (path : string) : option (string * string) :=
  match patterns with
  | [] => None
  | r :: rest =>
      match best rest path with
      | Some b => if matches r.1 path && (len b.1 <? len r.1) then Some r else Some b
      | None => if matches r.1 path then Some r else None
      end
  end.

(** The path as the multiplexer cleans it: a trailing slash stays. *)
Definition cleanPath (p : string) : string :=
  let p := if HasPrefix p "/" then p else "/" +:+ p in
  let np := Clean p in
  if HasSuffix p "/" && negb (String.eqb np "/") then np +:+ "/" else np.

(** [interactivePriorityMiddleware]: whether the context is tagged. *)
Definition interactivePriority (priority : string) : bool := String.eqb priority "interactive".

Record request := mkRequest { path : string; authorization : list string; priority : string }.

Section Serve.
(** The path of the agent card and the service parameters are the A2A library's. *)
Context (card_path : string) (service_params : request → option (list string)) (security : SecuritySettings).

Definition guarded (values : list string) (next : response) : response :=
  if String.eqb (Scheme security) "bearer" then requireBearer (Token security) values next else next.

Definition rpc (r : request) : response :=
  if String.eqb (Scheme security) "bearer" && negb (intercept (Token security) (service_params r)) then RpcUnauthenticated
  else Rpc (interactivePriority (priority r)).

(** A path without a handler of its own is redirected if it has one with a slash. *)
Definition serve (r : request) : response :=
  if negb (String.eqb (cleanPath (path r)) (path r)) then Redirected
  else if String.eqb (path r) card_path then AgentCardOf
  else match best routes (path r) with
       | Some (_, h) => guarded (authorization r) (Handled h)
       | None => if existsb (λ p, String.eqb p.1 (path r +:+ "/")) routes then Redirected else rpc r
       end.

End Serve.

(** ** The life of the process *)

Definition tracing_name (fqdn hostname : option string) : string :=
  match fqdn with
  | Some f => "endpoint-server-" +:+ f
  | None => match hostname with
            | Some h => if String.eqb h "" then "endpoint-server" else "endpoint-server-" +:+ h
            | None => "endpoint-server"
            end
  end.

Inductive worker := LoginWatch | FailedLoginWatch | ConnectionWatch | ExpirySweeper | RetentionSweeper | ResponsibilityLoop.

(** The goroutines, in the order in which they are started. *)
Definition workers : list worker :=
  [LoginWatch; FailedLoginWatch; ConnectionWatch; ExpirySweeper; RetentionSweeper; ResponsibilityLoop].

Inductive action :=
| ConfigFailed (e : string)
| LogFailed (e : string)
| SetUpTracing (p : option Tracing.provider)
| ToolFailed (e : string)
| Start (w : worker)
| Listen (addr : string)
| ListenFailed (e : string)
| ShutDown
| FlushTracing.

(** What the start-up meets: the configuration, the log file, the names of the host, the
    environment and the exporter of tracing, the tools, and the error of the listener
    ([None]: a signal ends the process). *)
Record boot (S : Type) := mkBoot {
  b_config : result string ServerSettings;
  b_log : option string;
  b_fqdn : option string;
  b_hostname : option string;
  b_getenv : string → string;
  b_exporter : option string;
  b_tools : result string (list (Agent.tool S));
  b_listener : option string;
}.
Arguments mkBoot {S}. Arguments b_config {S}. Arguments b_log {S}. Arguments b_fqdn {S}. Arguments b_hostname {S}.
Arguments b_getenv {S}. Arguments b_exporter {S}. Arguments b_tools {S}. Arguments b_listener {S}.

Definition addr (server : ServerSettings) : string := Host server +:+ ":" +:+ Itoa (s_Port server).

(** From the workers to the end: a listener that fails cancels the context. *)
Definition serving (server : ServerSettings) (listener : option string) : list action :=
  (Start <$> workers) ++ [Listen (addr server)] ++ (match listener with Some e => [ListenFailed e] | None => [] end) ++ [ShutDown].

(** [runServer]; the deferred flush of tracing comes last. *)
Definition runServer {S} (b : boot S) : list action :=
  match b_config b with
  | Err e => [ConfigFailed e]
  | Ok server =>
      match b_log b with
      | Some e => [LogFailed e]
      | None =>
          [SetUpTracing (Tracing.Setup (b_getenv b) (b_exporter b) (tracing_name (b_fqdn b) (b_hostname b)))] ++
          (match b_tools b with Err e => [ToolFailed e] | Ok _ => serving server (b_listener b) end) ++ [FlushTracing]
      end
  end.

(** The Windows service: what the service manager sends, and what it is told. *)
Inductive svc_request := SvcStop | SvcShutdown | SvcOther.
Inductive svc_state := StartPending | SvcRunning | StopPending.

(** [closed]: the channel of requests ends after those received. *)
Fixpoint svc_loop (closed : bool) (requests : list svc_request) : list svc_state :=
  match requests with
  | [] => if closed then [StopPending] else []
  | SvcOther :: rest => SvcRunning :: svc_loop closed rest
  | _ :: _ => [StopPending]
  end.

Definition service_states (closed : bool) (requests : list svc_request) : list svc_state :=
  [StartPending; SvcRunning] ++ svc_loop closed requests.

(** [main]: the exit status; [service]: the error of the service, when this is one. *)
Definition exit_status (service : option (option string)) : Z := match service with Some (Some _) => 1 | _ => 0 end.

Definition main {S} (service : option (option string)) (b : boot S) : list action * Z := (runServer b, exit_status service).

End Server.
