(* ===== verification/Toolbox.v ===== *)
(** * The tools of a Linux host ([main.go], the constructors of [skills])

    [toolbox] is the registry [runServer] fills: every tool with its typed input, its
    handler composed of the survey it runs, and the text or error it answers with.
    [pre_checks] are the surveys the loop runs before it asks the model.  What the code
    reads from outside (files, system calls, D-Bus, the context) is a view of the world;
    what it starts is a process of the world.  The wait for an operator receives the
    events of the machine, and the shutdown of the server at the latest. *)

From Corelib Require Import SpecFloat.
From S2P Require Import Prelude GoStrings GoTime GoText GoDuration Json Memory MemStore Incidents Regexp DiagnosticCommand Policy.
From S2P Require Import World KeyStore Agent Loop ConnMonitor LoginMonitor Timeline Approval ManualRun RunApproved.
From S2P Require Import Patching UpdateInfo UpdateList PatchTool Largest Drives DiskProbes Temperature MemUse CpuUse NetUse.
From S2P Require Import Posture Nfs Containers Config Views Status Server.

Module Toolbox.
Import Patching.

(** ** Inputs *)

Record networkUsageInput := mkNetworkUsage { DurationSeconds : spec_float }.
Record readMemoryInput := mkReadMemory { rm_Domain : string; History_ : bool; Window : string }.
Record compareToBaselineInput := mkCompare { cb_Domain : string }.
Record reportFindingsInput := mkReportFindings { Findings : list Timeline.Finding }.
Record requestApprovalInput := mkRequestApproval {
  ra_Title : string; ra_Detail : string; ra_ProposedAction : string; ra_Importance : string; ra_Risk : string;
}.
Record runCommandInput := mkRunCommand {
  rc_Title : string; rc_Command : string; rc_Reason : string; rc_Importance : string; rc_Risk : string;
}.
Record runDiagnosticInput := mkRunDiagnostic { rd_Command : string; rd_Reason : string }.

(** ** Texts of errors *)

Definition run_error_text (mem_text : mem_error → string) (e : RunApproved.run_error) : string :=
  let q := Quote in
  match e with
  | RunApproved.EEmptyCommand =>
      "run_approved_command: command must not be empty — if no action is needed, write your conclusion in response text instead"
  | RunApproved.ENoOp cmd =>
      "run_approved_command: " +:+ q cmd +:+ " is not an executable command — if no corrective action is needed, write your conclusion in response text or call report_findings instead of submitting a placeholder approval"
  | RunApproved.ENoOpBuiltin cmd =>
      "run_approved_command: " +:+ q cmd +:+ " is a no-op placeholder, not a real action — if no corrective action is needed, write your conclusion in response text or call report_findings instead of submitting a placeholder approval"
  | RunApproved.EEchoCommand =>
      "run_approved_command: echo is not a state-modifying command — write the message in your response text or call report_findings instead of routing it through an approval request"
  | RunApproved.EReadOnly cmd =>
      "run_approved_command: " +:+ q cmd +:+ " is a read-only diagnostic command and does not require operator approval — call run_diagnostic_command instead, which runs it immediately"
  | RunApproved.EManualInterrupted err => "manual run interrupted: " +:+ err
  | RunApproved.ESubmit err => "approval request failed: request_approval: write attrs: " +:+ mem_text err
  end.

(** ** The machine *)

Section Toolbox.
Context {M : Type}.

(** What the tools read of the outside. *)
Record machine := mkMachine {
  local_zone : Z → Z;
  uid : Z;
  hostname : string;
  kernel : option string;
  (** Files and directories. *)
  read_file : string → world M → result string string;
  stat_file : string → world M → stat_result;
  stat_entry : string → world M → option (Z * Z);
  read_dir : string → world M → result string (list Largest.DirEntry);
  sudoers_d : world M → option (list (string * bool));
  eval_symlinks : string → world M → option string;
  walk : string → world M → list (string * bool);
  statfs : string → world M → option (Z * Z * Z);
  device_id : string → Z * bool;
  dm_slaves : string → world M → list string;
  proc : world M → result string (list (string * bool));
  thermal_zones : world M → result string (list string);
  sys_block : world M → option (list string);
  interfaces : world M → option (list (string * string * bool));
  (** The processor, installed programs, sessions, and hashes. *)
  num_cpu : Z;
  smartctl_installed : bool;
  runtime_installed : string → bool;
  sessions : world M → result string (list Logind.Session);
  sha256 : string → string;
  (** The context: the error of a wait that it ends, and whether it is done in a walk. *)
  pause : Z → world M → option string;
  walk_done : nat → nat → option string;
  zones_done : nat → bool;
  cancelled : string;
  (** The files of a domain, and their read errors. *)
  domain_files : string → M → option (gmap string dirent);
  disk_faults : faults;
  (** The order in which maps are visited. *)
  visit_strings : gmap string string → list (string * string);
  visit_disks : gmap string Drives.DiskTrend → list Drives.DiskTrend;
  visit_smart : gmap string Drives.SmartDeviceTrend → list (string * string * Drives.SmartAttrTrend);
  visit_temps : gmap string Temperature.TempTrend → list Temperature.TempTrend;
  dm_depth : nat;
  (** What the patch tool knows of vulnerabilities, and the operator's part in a wait. *)
  nvd_state : world M → Nvd.nvdState;
  lookups : world M → nat → Nvd.enrich (world M);
  approval_events : world M → list (Approval.event * (M → M));
  manual_events : world M → list (ManualRun.event * (M → M));
  (** Texts. *)
  mem_text : mem_error → string;
  incident_text : Incidents.inc_error → string;
  invalid_text : string → Diagnostic.validate_error → string;
  decode_text : string → string;
  ss_text : string;
  history_json : list Domain.Snapshot → string;
  baseline_json : string → Domain.Snapshot → list (string * Domain.Snapshot) → option string;
  incidents_json : list Incidents.Incident → option string;
  describe : string → string;
  schema : string → string;
}.

Context `{!RawJson, !MemStore M, !SortSlice, !RegexpEngine, !Net (world M)}.
Context `{!Json unit, !Json networkUsageInput, !Json readMemoryInput, !Json compareToBaselineInput, !Json reportFindingsInput}.
Context `{!Json requestApprovalInput, !Json runCommandInput, !Json runDiagnosticInput, !Json MemoryView.incident_input}.
Context `{!Json SkillState.State, !Json string, !Json notification, !Json Approval.ApprovalEntry, !Json ManualRun.ManualRunEntry}.
Context `{!Json (list Timeline.TimelineEntry), !Json (list Policies.Policy), !Json (list Incidents.Incident)}.
Context `{!Json (gmap string Drives.DiskTrend), !Json (gmap string Drives.SmartDeviceTrend), !Json DiskProbes.smartctlOutput}.
Context `{!Json (gmap string Temperature.TempTrend), !Json (list MemUse.UsageSample), !Json (list Net.RateSample)}.
Context `{!Json Containers.psEntry, !Json Posture.Snapshot, !Json (list ConnMonitor.ConnEvent)}.
Context `{!Json (list LoginMonitor.LoginEvent), !Json (list LoginMonitor.FailedLoginEvent)}.
Context `{!Json Nvd.nvdResponse, !Json UpdateList.canonicalResponse, !Json UpdateList.redhatResponse}.
Context (E : machine).

(** A look at the world. *)
Definition look {A} (f : world M → A) : W M A := λ w, (f w, w).

(** Not root, on Linux. *)
Definition needs_sudo : bool := negb (uid E =? 0).

(** [tool.New]. *)
Definition tool_of {T} {J : Json T} (name : string) (handler : T → W M (result string string)) : Agent.tool (world M) :=
  Agent.mkTool name (describe E name) (schema E name) (Server.typed_exec name (decode_text E) handler).

(** A handler without an error of its own. *)
Definition plain {T} (c : W M string) : T → W M (result string string) := λ _, r ← c; mret (Ok r).

Definition fallible {T} (c : W M (string * option string)) : T → W M (result string string) :=
  λ _, '(text, err) ← c; mret (match err with Some e => Err e | None => Ok text end).

(** The wait of the process lasts until its shutdown. *)
Definition until_shutdown : W M (list (Approval.event * (M → M))) :=
  look (λ w, approval_events E w ++ [(Approval.Cancelled, id)]).

(** ** The surveys of Linux *)

Definition local_disks : W M (result string (list Drives.DiskStat)) :=
  look (λ w, DiskProbes.linux_disks (λ p, statfs E p w) (read_file E "/proc/mounts" w)).

Definition check_smart (device : string) : W M (list Drives.SmartReport) := λ w,
  DiskProbes.CheckSmart (smartctl_installed E) needs_sudo (λ d, dm_slaves E d w) (dm_depth E) device w.

Definition raw_smart (ds : list Drives.DiskStat) : W M (list Drives.RawSmartAttrs) := λ w,
  DiskProbes.CollectRawSmartAttrs (smartctl_installed E) needs_sudo ds w.

Definition drives {A} (c : (string → result string (list Largest.DirEntry)) → W M A) : W M A := λ w,
  c (λ p, read_dir E p w) w.

Definition drives_tool : W M (result string string) :=
  drives (λ dir, Drives.tool (local_zone E) local_disks check_smart raw_smart dir (device_id E) (walk_done E) (visit_disks E) (visit_smart E)).

Definition drives_check : W M (bool * string * option string) :=
  drives (λ dir, Drives.pre_check (local_zone E) local_disks check_smart raw_smart dir (device_id E) (walk_done E) (visit_disks E) (visit_smart E)).

Definition proc_file (path : string) : W M (result string string) := look (read_file E path).

Definition d_states : W M Z := look (λ w, Nfs.countDStateProcs (proc E w) (λ p, read_file E p w)).

Definition nfs_tool : W M string :=
  Nfs.tool (local_zone E) (uid E =? 0) (proc_file "/proc/mounts") (proc_file "/proc/self/mountstats") d_states.

Definition nfs_check : W M (bool * string) :=
  Nfs.pre_check (local_zone E) (uid E =? 0) (proc_file "/proc/mounts") (proc_file "/proc/self/mountstats") d_states.

Definition local_cpu : W M (result string Cpu.CPUStat) :=
  Cpu.linux_cpu (look (pause E Second)) (num_cpu E) (proc_file "/proc/stat") (proc_file "/proc/loadavg").

Definition local_memory : W M (result string MemUse.MemStat) := look (λ w, MemUse.linux_memory (read_file E "/proc/meminfo" w)).

Definition counters : W M (result string (Z * Z)) := look (λ w, Net.linux_snapshot (read_file E "/proc/net/dev" w)).

Definition wait_for (d : Z) : W M (option string) := look (pause E d).

Definition local_temps : W M (result string (list Temperature.TempSensor)) :=
  look (λ w, Temperature.linux_temps (λ p, read_file E p w) (zones_done E) (thermal_zones E w) (cancelled E)).

Definition live_connections : W M (result string (list ConnMonitor.Conn)) :=
  conns ← ConnMonitor.snapshot_linux;
  mret (match conns with Some l => Ok l | None => Err (ss_text E) end).

Definition posture : W M Posture.Snapshot := λ w,
  Posture.gather (λ p, read_file E p w) (λ p, stat_entry E p w) (sha256 E) (sudoers_d E w) (λ p, eval_symlinks E p w) (λ p, walk E p w) w.

Definition system_info : W M string :=
  look (λ w, SystemInfo.BuildReport (SystemInfo.gather (λ p, read_file E p w) (Some (hostname E)) (kernel E) (sys_block E w) (interfaces E w))).

(** ** The memory *)

Definition read_memory (i : readMemoryInput) : W M (result string string) :=
  now ← (if History_ i then now_ else mret 0);
  look (λ w,
    match MemoryView.read_agent_memory (disk_faults E) (domain_files E (rm_Domain i) (w_mem w)) (History_ i) (Window i) now with
    | MemoryView.BadWindow =>
        Err ("read_agent_memory: invalid window " +:+ Quote (Window i) +:+ ": must be a positive Go duration like " +:+
             dquote +:+ "1h" +:+ dquote +:+ " or " +:+ dquote +:+ "24h" +:+ dquote)
    | MemoryView.HistoryError e => Err ("read history " +:+ Quote (rm_Domain i) +:+ ": " +:+ mem_text E e)
    | MemoryView.NoHistory =>
        Ok ("{" +:+ dquote +:+ "domain" +:+ dquote +:+ ":" +:+ Quote (rm_Domain i) +:+ "," +:+ dquote +:+ "snapshots" +:+ dquote +:+ ":[]}")
    | MemoryView.History l => Ok (history_json E l)
    | MemoryView.NoSnapshot =>
        Ok ("{" +:+ dquote +:+ "domain" +:+ dquote +:+ ":" +:+ Quote (rm_Domain i) +:+ "," +:+ dquote +:+ "error" +:+ dquote +:+ ":" +:+
            dquote +:+ "no snapshot available" +:+ dquote +:+ "}")
    | MemoryView.Current raw => Ok raw
    end).

Definition compare_baseline (i : compareToBaselineInput) : W M (result string string) :=
  now ← now_;
  look (λ w, MemoryView.compare_to_baseline (baseline_json E) (disk_faults E) (domain_files E (cb_Domain i) (w_mem w)) (cb_Domain i) now).

(** The clock of an operation on the ledger. *)
Definition manage_incidents (i : MemoryView.incident_input) : W M (result string string) :=
  t1 ← now_; t2 ← now_; t3 ← now_;
  on_mem (λ m, let '(r, m') := MemoryView.manage_incidents (local_zone E) (incident_text E) (incidents_json E) (Incidents.mkClock t1 t2 t3) i (Some m) in
               (r, default m m')).

Definition state_line (s : SkillState.State) : string :=
  "- " +:+ SkillState.Skill s +:+ ": " +:+ SkillState.Health s +:+ " — " +:+ SkillState.Summary s +:+ " (as of " +:+ SkillState.Time s +:+ ")" +:+ nl.

Definition report_findings (i : reportFindingsInput) : W M (result string string) :=
  err ← Timeline.report_findings (local_zone E) (Findings i);
  match err with
  | Some e => mret (Err ("report_findings: " +:+ mem_text E e))
  | None =>
      states ← SkillState.LoadAll;
      mret (Ok ("recorded " +:+ Itoa (Z.of_nat (length (Findings i))) +:+ " finding(s)" +:+
                (match states with
                 | [] => ""
                 | _ => para +:+ "Last known state from check/analyze skills:" +:+ nl +:+ Join (state_line <$> states) ""
                 end)))
  end.

(** ** Commands, approvals and patches *)

Definition run_diagnostic (i : runDiagnosticInput) : W M (result string string) := λ w,
  let '(r, started) := Diagnostic.run_diagnostic Diagnostic.runShell_unix (w_exec w (length (w_run w))) (rd_Command i) in
  (match r with
   | Ok text => Ok text
   | Err Diagnostic.EEmptyCommand => Err "run_diagnostic_command: command must not be empty"
   | Err (Diagnostic.EInvalid e) => Err (invalid_text E (TrimSpace (rd_Command i)) e)
   end,
   mkWorld (w_mem w) (w_clock w) (w_ticks w) (w_uuid w) (w_ids w) (w_sent w) (w_exec w) (w_run w ++ started)).

Definition run_command (i : runCommandInput) : W M (result string string) := λ w,
  (r ← RunApproved.run_approved (local_zone E) (hostname E) needs_sudo (mem_text E) (manual_events E w ++ [(ManualRun.Cancelled, id)])
         (rc_Title i) (rc_Command i) (rc_Reason i) (rc_Importance i) (rc_Risk i);
   mret (match r with
         | Some (Ok text) => Ok text
         | Some (Err e) => Err (run_error_text (mem_text E) e)
         | None => Err (cancelled E)
         end)) w.

Definition request_approval (i : requestApprovalInput) : W M (result string string) :=
  events ← until_shutdown;
  r ← Approval.RequestApproval (local_zone E) events (ra_Title i) (ra_Detail i) (ra_ProposedAction i) (ra_Importance i) (ra_Risk i);
  mret (match r with
        | Approval.RDecision st => Ok st
        | Approval.RStoreError e => Err ("request_approval: write attrs: " +:+ mem_text E e)
        | Approval.RCancelled | Approval.RWaiting => Err (cancelled E)
        end).

(** A patcher for one call. *)
Definition with_patcher {A} (c : P (world M) A) : W M A := λ w, let '(a, p) := c (mkPatcher w false) in (a, host p).

Definition patch : W M (result string string) :=
  events ← until_shutdown;
  nst ← look (nvd_state E);
  view ← look (lookups E);
  r ← with_patcher (PatchTool.patch_tool (local_zone E) (visit_strings E) "linux" (uid E) (hostname E) (stat_file E) (read_file E) nst view events);
  mret (default (Err (cancelled E)) r).

Definition patch_check : W M (bool * string * option string) :=
  with_patcher (PatchTool.pre_check (local_zone E) "linux" (uid E) (stat_file E) (read_file E)).

(** ** The registry *)

Definition toolbox (baseline : list Posture.BaselinePortEntry) : list (Agent.tool (world M)) := [
  tool_of (T := unit) "ping" Server.ping;
  tool_of (T := unit) "check_for_pending_system_patches" (λ _, patch);
  tool_of (T := unit) "check_reboot_required" (plain (PatchTool.reboot_tool "linux" (uid E) (hostname E) (stat_file E) (read_file E)));
  tool_of (T := unit) "check_drives" (λ _, drives_tool);
  tool_of (T := unit) "check_containers" (plain (Containers.tool (local_zone E) (runtime_installed E)));
  tool_of (T := unit) "check_nfs" (plain nfs_tool);
  tool_of (T := unit) "analyze_cpu_utilization" (fallible (Cpu.tool (local_zone E) local_cpu));
  tool_of (T := unit) "analyze_memory_utilization" (fallible (MemUse.tool (local_zone E) local_memory));
  tool_of "analyze_network_utilization" (λ i, Net.tool (local_zone E) counters wait_for (DurationSeconds i));
  tool_of (T := unit) "analyze_system_temperature" (fallible (Temperature.tool (local_zone E) local_temps (visit_temps E)));
  tool_of (T := unit) "check_interactive_logins" (plain (LoginView.login_tool (local_zone E) (look (sessions E))));
  tool_of (T := unit) "check_network_connections" (plain (NetworkView.conn_tool (local_zone E) live_connections));
  tool_of "read_agent_memory" read_memory;
  tool_of (T := unit) "check_security_posture" (plain (Posture.tool (local_zone E) posture (mem_text E) baseline));
  tool_of "compare_to_baseline" compare_baseline;
  tool_of "manage_incidents" manage_incidents;
  tool_of (T := unit) "capture_system_info" (plain system_info);
  tool_of "report_findings" report_findings;
  tool_of "request_approval" request_approval;
  tool_of "run_approved_command" run_command;
  tool_of "run_diagnostic_command" run_diagnostic].

(** [RegisterPreCheck]: a survey without an error of its own. *)
Definition sure (c : W M (bool * string)) : Loop.PreCheck := '(b, report) ← c; mret (b, report, None).

Definition pre_checks : gmap string Loop.PreCheck := list_to_map [
  ("nfs-health-check", sure nfs_check);
  ("temperature-health-check", Temperature.pre_check (local_zone E) local_temps (visit_temps E));
  ("container-health-check", sure (Containers.pre_check (local_zone E) (runtime_installed E)));
  ("cpu-utilization-check", Cpu.pre_check (local_zone E) local_cpu);
  ("memory-utilization-check", MemUse.pre_check (local_zone E) local_memory);
  ("disk-space-check", drives_check);
  ("network-utilization-check", Net.pre_check (local_zone E) counters wait_for);
  ("keep-system-up-to-date", patch_check)].

(** The loop over this registry. *)
Definition loop_env (s : Agent.settings) (prompt : string) (baseline : list Posture.BaselinePortEntry)
    (complete : Agent.request → world M → result string (list Agent.choice) * world M) : Loop.env :=
  Loop.mkEnv s prompt (toolbox baseline) pre_checks complete.

End Toolbox.
Arguments machine : clear implicits.

End Toolbox.
