(* ===== verification/ToolboxFacts.v ===== *)
(** * Theorems on the registry: what the agent can make its host do

    Every process a tool or a pre-check starts is accounted for ([justified]): a probe
    that only looks, the unmount of an overloaded NFS mount, a diagnostic command the gate
    accepted, a command a standing policy matched, or a step of a patch run that changes
    the machine only after the operator's decision.  Whatever the model answers, a
    conversation and a responsibility consist of such steps. *)

From Corelib Require Import SpecFloat.
From S2P Require Import Prelude GoStrings GoTime GoText GoDuration Json Memory MemStore Incidents Regexp DiagnosticCommand Policy.
From S2P Require Import World KeyStore Agent AgentFacts Loop ConnMonitor LoginMonitor Timeline WorldFacts Approval ManualRun RunApproved RunApprovedFacts.
From S2P Require Import Patching PatchingFacts UpdateInfo UpdateList PatchTool PatchToolFacts Largest Drives DiskProbes Temperature MemUse CpuUse NetUse.
From S2P Require Import Posture Nfs Containers SurveyFacts Config Views TaskLog Status Server Toolbox.

Import Patching Toolbox.

(** ** Computations and the processes they start *)

Section Starts.
Context `{!MemStore M}.

(** Every process [c] starts satisfies [allowed]. *)
Definition starts {A} (allowed : list string → Prop) (c : W M A) : Prop :=
  ∀ w, ∃ new, w_run (c w).2 = w_run w ++ new ∧ Forall allowed new.

Lemma starts_quiet {A} l (c : W M A) : quiet c → starts l c.
Proof. intros Hc w. exists []. by rewrite Hc, app_nil_r. Qed.

Lemma starts_bind {A B} l (c : W M A) (f : A → W M B) : starts l c → (∀ a, starts l (f a)) → starts l (c ≫= f).
Proof.
  intros Hc Hf w. unfold mbind, W_bind. destruct (Hc w) as (n1 & E1 & F1). destruct (c w) as [a w1].
  destruct (Hf a w1) as (n2 & E2 & F2). exists (n1 ++ n2). cbn [snd] in *. by rewrite E2, E1, app_assoc, Forall_app.
Qed.

Lemma starts_process (l : list string → Prop) argv : l argv → starts l (run_process argv).
Proof. intros Hl w. exists [argv]. split; [done|]. by constructor. Qed.

Lemma starts_ret {A} l (a : A) : starts l (mret a).
Proof. by apply starts_quiet. Qed.

Lemma starts_look {A} l (f : world M → A) : starts l (look f).
Proof. by apply starts_quiet. Qed.

Lemma starts_weaken {A} (l l' : list string → Prop) (c : W M A) : (∀ argv, l argv → l' argv) → starts l c → starts l' c.
Proof. intros Hl Hc w. destruct (Hc w) as (new & E & F). exists new. split; [done|]. by eapply Forall_impl. Qed.

End Starts.

Section Keys.
Context `{!RawJson, !MemStore M}.

Lemma quiet_all_keys domain : quiet (M := M) (all_keys domain).
Proof. unfold all_keys. frame_world. Qed.

Lemma quiet_get_key {V} {J : Json V} domain key : quiet (M := M) (get_key (V := V) domain key).
Proof. unfold get_key. frame_world. Qed.

Lemma quiet_set_key {V} {J : Json V} domain key (v : V) : quiet (M := M) (set_key domain key v).
Proof. unfold set_key. frame_world. Qed.

End Keys.

#[export] Hint Resolve quiet_all_keys quiet_get_key quiet_set_key quiet_save quiet_request : world.
Create HintDb starts.
#[export] Hint Resolve starts_ret starts_look : starts.

(** Walk through a computation by its binds, matches and tests. *)
Ltac starts_auto :=
  repeat first
    [ solve [eauto with starts]
    | solve [apply starts_quiet; eauto with world]
    | apply starts_bind
    | progress intros
    | progress cbv zeta
    | match goal with
      | |- starts _ (match ?x with _ => _ end) => destruct x
      | |- starts _ (if ?x then _ else _) => destruct x
      end ].

(** ** The surveys *)

Section Surveys.
Context `{!RawJson, !MemStore M, !SortSlice, !Json SkillState.State}.
Context `{!Json (gmap string Drives.DiskTrend), !Json (gmap string Drives.SmartDeviceTrend), !Json DiskProbes.smartctlOutput}.
Context `{!Json (gmap string Temperature.TempTrend), !Json (list MemUse.UsageSample), !Json (list Net.RateSample)}.
Context `{!Json Containers.psEntry, !Json Posture.Snapshot, !Json (list ConnMonitor.ConnEvent)}.
Context `{!Json (list LoginMonitor.LoginEvent), !Json (list LoginMonitor.FailedLoginEvent)}.
Context (zone : Z → Z) (l : list string → Prop).

Lemma starts_cpu (localCPU : W M _) : starts l localCPU → starts l (Cpu.tool zone localCPU) ∧ starts l (Cpu.pre_check zone localCPU).
Proof. intros Hc. split; unfold Cpu.tool, Cpu.pre_check, Cpu.runCheck, Cpu.save; starts_auto. Qed.

Lemma starts_linux_cpu (a_second : W M (option string)) n (stat load : W M _) : starts l a_second → starts l stat → starts l load →
  starts l (Cpu.linux_cpu a_second n stat load).
Proof. intros Ha Hs Hl. unfold Cpu.linux_cpu, Cpu.two_readings. starts_auto. Qed.

Lemma starts_memory (localMemory : W M _) : starts l localMemory →
  starts l (MemUse.tool zone localMemory) ∧ starts l (MemUse.pre_check zone localMemory).
Proof. intros Hc. split; unfold MemUse.tool, MemUse.pre_check, MemUse.runCheck, MemUse.save, MemUse.RecordSample; starts_auto. Qed.

Lemma starts_rates (snapshot : W M _) wait d : starts l snapshot → (∀ n, starts l (wait n)) → starts l (Net.sampleRates zone snapshot wait d).
Proof. intros Hs Hw. unfold Net.sampleRates, Net.read_counters, Net.save. starts_auto. Qed.

Lemma starts_network (snapshot : W M _) wait : starts l snapshot → (∀ n, starts l (wait n)) →
  (∀ d, starts l (Net.tool zone snapshot wait d)) ∧ starts l (Net.pre_check zone snapshot wait).
Proof.
  intros Hs Hw. pose proof (λ d, starts_rates snapshot wait d Hs Hw) as Hr.
  split; [intros d|]; unfold Net.tool, Net.pre_check, Net.RecordSample; starts_auto.
Qed.

Lemma starts_temperature (temps : W M _) visit : starts l temps →
  starts l (Temperature.tool zone temps visit) ∧ starts l (Temperature.pre_check zone temps visit).
Proof.
  intros Ht. split; unfold Temperature.tool, Temperature.pre_check, Temperature.runCheck, Temperature.save, Temperature.RecordSamples; starts_auto.
Qed.

Lemma starts_smart (disks : W M _) smart raw visit visit_smart : starts l disks → (∀ d, starts l (smart d)) → (∀ ds, starts l (raw ds)) →
  starts l (Drives.runCheck zone disks smart raw visit visit_smart).
Proof.
  intros Hd Hs Hr. unfold Drives.runCheck, Drives.save, Drives.RecordSamples, Drives.RecordSmartSamples, Drives.collectSmartReports.
  assert (∀ ds cache, starts l (Drives.collect_smart smart ds cache)) as Hc.
  { intros ds. induction ds as [|d ds IH]; intros cache; cbn [Drives.collect_smart]; starts_auto. }
  starts_auto.
Qed.

Lemma starts_drives (disks : W M _) smart raw dir dev ctx visit visit_smart :
  starts l disks → (∀ d, starts l (smart d)) → (∀ ds, starts l (raw ds)) →
  starts l (Drives.tool zone disks smart raw dir dev ctx visit visit_smart) ∧
  starts l (Drives.pre_check zone disks smart raw dir dev ctx visit visit_smart).
Proof.
  intros Hd Hs Hr. pose proof (starts_smart disks smart raw visit visit_smart Hd Hs Hr). split; unfold Drives.tool, Drives.pre_check; starts_auto.
Qed.

Lemma starts_check_smart installed sudo slaves fuel device : (∀ d, l (DiskProbes.smartctl sudo ["-H"; "-A"; "-j"; d])) →
  starts l (DiskProbes.CheckSmart (M := M) installed sudo slaves fuel device).
Proof.
  intros Hl. unfold DiskProbes.CheckSmart. induction (default [] _) as [|d ds IH]; cbn [DiskProbes.check_devices]; [starts_auto|].
  unfold DiskProbes.checkSmartDevice. starts_auto; auto using starts_process.
Qed.

Lemma starts_raw_smart installed sudo ds : (∀ d, l (DiskProbes.smartctl sudo ["-A"; "-j"; d])) →
  starts l (DiskProbes.CollectRawSmartAttrs (M := M) installed sudo ds).
Proof.
  intros Hl. unfold DiskProbes.CollectRawSmartAttrs. destruct installed; [|starts_auto]. generalize ([] : list string).
  induction ds as [|d ds IH]; intros seen; cbn [DiskProbes.collect_raw]; starts_auto; auto using starts_process.
Qed.

Lemma starts_containers installed : (∀ rt, l (Containers.ps_argv rt)) →
  starts l (Containers.tool (M := M) zone installed) ∧ starts l (Containers.pre_check (M := M) zone installed).
Proof.
  intros Hl. split; unfold Containers.tool, Containers.pre_check, Containers.runCheck, Containers.scan_runtime, Containers.listContainers;
    starts_auto; auto using starts_process.
Qed.

Lemma starts_conns (live : W M _) : starts l live → starts l (NetworkView.conn_tool zone live).
Proof.
  intros Hl. unfold NetworkView.conn_tool, NetworkView.conn_report, NetworkView.conn_live_report, ConnMonitor.ReadHistory. starts_auto.
Qed.

Lemma starts_ss : l ["ss"; "-tunapH"] → l ["ss"; "-tunaH"] → starts l (ConnMonitor.snapshot_linux (M := M)).
Proof. intros H1 H2. unfold ConnMonitor.snapshot_linux, ConnMonitor.runCmd. starts_auto; auto using starts_process. Qed.

Lemma starts_logins (list : W M _) : starts l list → starts l (LoginView.login_tool zone list).
Proof.
  intros Hl. unfold LoginView.login_tool, LoginView.login_live_report, LoginMonitor.ReadHistory, LoginMonitor.ReadFailedHistory. starts_auto.
Qed.

Lemma starts_posture (g : W M _) errtext baseline : starts l g → starts l (Posture.tool zone g errtext baseline).
Proof. intros Hg. unfold Posture.tool. starts_auto. Qed.

Lemma starts_gather read stat sha sd eval wlk : l ["ss"; "-tulnpH"] → l ["lsof"; "-nP"; "-iTCP"; "-sTCP:LISTEN"] →
  starts l (Posture.gather (M := M) read stat sha sd eval wlk).
Proof.
  intros H1 H2. unfold Posture.gather, Posture.listeningPorts, Posture.runCmd. starts_auto; auto using starts_process.
Qed.

End Surveys.

(** ** Every tool is accounted for *)

Section Facts.
Context {M : Type} {MS : MemStore M}.
Context `{!RawJson, !SortSlice, !RegexpEngine, !Net (world M)}.
Context `{!Json unit, !Json networkUsageInput, !Json readMemoryInput, !Json compareToBaselineInput, !Json reportFindingsInput}.
Context `{!Json requestApprovalInput, !Json runCommandInput, !Json runDiagnosticInput, !Json MemoryView.incident_input}.
Context `{!Json SkillState.State, !Json string, !Json notification, !Json Approval.ApprovalEntry, !Json ManualRun.ManualRunEntry}.
Context `{!Json (list Timeline.TimelineEntry), !Json (list Policies.Policy), !Json (list Incidents.Incident)}.
Context `{!Json (gmap string Drives.DiskTrend), !Json (gmap string Drives.SmartDeviceTrend), !Json DiskProbes.smartctlOutput}.
Context `{!Json (gmap string Temperature.TempTrend), !Json (list MemUse.UsageSample), !Json (list Net.RateSample)}.
Context `{!Json Containers.psEntry, !Json Posture.Snapshot, !Json (list ConnMonitor.ConnEvent)}.
Context `{!Json (list LoginMonitor.LoginEvent), !Json (list LoginMonitor.FailedLoginEvent)}.
Context `{!Json Nvd.nvdResponse, !Json UpdateList.canonicalResponse, !Json UpdateList.redhatResponse}.
Context (E : machine M).

(** Requests start no process. *)
Context (Hget : ∀ url (w : world M), w_run (Get url w).2 = w_run w).
Context (Hnow : ∀ (w : world M), w_run (Now w).2 = w_run w).
Context (Hawait : ∀ d (w : world M), w_run (Await d w).2 = w_run w).

(** The process a command of the patcher becomes. *)
Definition patch_argv (argv : list string) : list string := command_argv "linux" (uid E) (hd "" argv) (tl argv).

(** Processes that only look. *)
Inductive probe : list string → Prop :=
| probe_containers runtime : probe (Containers.ps_argv runtime)
| probe_smart device : probe (DiskProbes.smartctl (needs_sudo E) ["-H"; "-A"; "-j"; device])
| probe_attributes device : probe (DiskProbes.smartctl (needs_sudo E) ["-A"; "-j"; device])
| probe_ports : probe ["ss"; "-tulnpH"]
| probe_files : probe ["lsof"; "-nP"; "-iTCP"; "-sTCP:LISTEN"]
| probe_connections : probe ["ss"; "-tunapH"]
| probe_sockets : probe ["ss"; "-tunaH"]
| probe_packages os argv : looking os argv → probe (patch_argv argv).

(** What the NFS survey reads in [w]. *)
Definition nfs_stats (w : world M) : list Nfs.NFSMountStats :=
  Nfs.gatherStats (read_file E "/proc/self/mountstats" w) (Nfs.listNFSMounts (read_file E "/proc/mounts" w)).1.

(** The unmounts of the mounts of [w] with too many pending operations. *)
Definition unmounts (w : world M) : list (list string) :=
  Nfs.umount_argv (uid E =? 0) ∘ Nfs.Mount <$> filter (λ s, overloaded s = true) (nfs_stats w).

(** What the patch tool waits for in [w], and the world in which it asks. *)
Definition wait_events (w : world M) : list (Approval.event * (M → M)) := approval_events E w ++ [(Approval.Cancelled, id)].
Definition asking_at (w : world M) (os : OSType) : world M :=
  asking (visit_strings E) "linux" (uid E) (stat_file E) (read_file E) (nvd_state E w) (lookups E w) os (mkPatcher w false).

(** Why the processes [new] were started from [w]. *)
Inductive justified (w : world M) : list (list string) → Prop :=
| by_looking new : Forall probe new → justified w new
| by_unmounting : justified w (unmounts w)
| by_gate cmd : Diagnostic.IsDiagnosticEligible cmd = true → justified w [["sh"; "-c"; cmd]]
| by_policy cmd p : RunApproved.refuse cmd = None → Policies.Match cmd (Some (w_mem w)) = Some p →
    justified w [RunApproved.argv (needs_sudo E) cmd]
| by_decision os checks cmds :
    Forall (looking os) checks → Forall (known os) cmds →
    (Exists (changes os) cmds →
     w_run (asking_at w os) = w_run w ++ (patch_argv <$> checks) ∧ decided (local_zone E) (wait_events w) (asking_at w os)) →
    justified w (patch_argv <$> checks ++ cmds).

(** A step from [w] to [w'] started only justified processes. *)
Definition accounted (w w' : world M) : Prop := ∃ new, w_run w' = w_run w ++ new ∧ justified w new.

Definition accounts {A} (c : W M A) : Prop := ∀ w, accounted w (c w).2.

Lemma accounts_probes {A} (c : W M A) : starts probe c → accounts c.
Proof. intros Hc w. destruct (Hc w) as (new & Ew & F). exists new. split; [done|by apply by_looking]. Qed.

Lemma accounts_quiet {A} (c : W M A) : quiet c → accounts c.
Proof. intros Hc. by apply accounts_probes, starts_quiet. Qed.

(** What follows quietly changes nothing. *)
Lemma accounts_then {A B} (c : W M A) (f : A → W M B) : accounts c → (∀ a, quiet (f a)) → accounts (c ≫= f).
Proof.
  intros Hc Hf w. unfold mbind, W_bind. specialize (Hc w). destruct (c w) as [a w1]. destruct Hc as (new & Ew & J).
  exists new. by rewrite Hf.
Qed.

Lemma accounts_look {A B} (f : world M → A) (g : A → W M B) : (∀ w, accounted w (g (f w) w).2) → accounts (look f ≫= g).
Proof. intros Hg w. apply Hg. Qed.

Hint Constructors probe : core.

Lemma quiet_look {A} (f : world M → A) : quiet (look f).
Proof. done. Qed.

Lemma accounts_nfs : accounts (Nfs.runCheck (local_zone E) (uid E =? 0) (proc_file E "/proc/mounts") (proc_file E "/proc/self/mountstats") (d_states E)).
Proof.
  intros w. destruct (Nfs.runCheck _ _ _ _ _ w) as [res w'] eqn:Er. cbn [snd].
  exists (unmounts w). split; [|apply by_unmounting]. unfold unmounts, nfs_stats.
  eapply (unmount_runs (local_zone E) (uid E =? 0) (proc_file E "/proc/mounts") (proc_file E "/proc/self/mountstats") (d_states E));
    [reflexivity..|exact Er].
Qed.

(** ** The tools *)

Lemma starts_local_disks : starts probe (local_disks E).
Proof. apply starts_look. Qed.

Lemma starts_devices d : starts probe (check_smart E d).
Proof. intros w. unfold check_smart. by apply starts_check_smart. Qed.

Lemma starts_attributes ds : starts probe (raw_smart E ds).
Proof. intros w. unfold raw_smart. by apply starts_raw_smart. Qed.

Lemma starts_live : starts probe (live_connections E).
Proof. unfold live_connections. apply starts_bind; [by apply starts_ss|]. intros; apply starts_ret. Qed.

Lemma starts_posture_of : starts probe (posture E).
Proof. intros w. unfold posture. by apply starts_gather. Qed.

Lemma starts_cpu_of : starts probe (local_cpu E).
Proof. apply starts_linux_cpu; apply starts_look. Qed.

#[local] Instance this_host : Host (world M) := PatchTool.world_host "linux" (uid E) (stat_file E) (read_file E).
#[local] Instance this_log : Logged (world M) := here_logged "linux" (uid E) (stat_file E) (read_file E).

Lemma starts_patcher {A} (c : P (world M) A) os : issues (looking os) c → starts probe (with_patcher c).
Proof.
  intros Hc w. unfold with_patcher. destruct (Hc (mkPatcher w false)) as (cs & Ew & F). destruct (c (mkPatcher w false)) as [a p].
  exists (patch_argv <$> cs). split; [exact Ew|]. apply Forall_fmap. eapply Forall_impl; [exact F|].
  intros argv Ha. by apply (probe_packages os).
Qed.

Lemma issues_checks os : issues (looking os) (UpdatesAvailable os : P (world M) _).
Proof. eapply issues_weaken; [|apply check_issues]. intros argv Ha. apply look_check. set_solver. Qed.

Lemma issues_reboot os : issues (looking os) (NeedsReboot os : P (world M) _).
Proof. eapply issues_weaken; [|apply query_issues]. intros argv Ha. apply look_check. set_solver. Qed.

Lemma issues_dist os : issues (looking os) (CheckDistUpgrade os : P (world M) _).
Proof. eapply issues_weaken; [|apply dist_issues]. done. Qed.

Lemma accounts_patch_check : accounts (patch_check E).
Proof.
  apply accounts_probes. intros w. unfold patch_check, PatchTool.pre_check, with_patcher.
  destruct (detectOS "linux" (host (mkPatcher w false))) as [os|e] eqn:Eo; [|exists []; by rewrite app_nil_r].
  refine (starts_patcher _ os _ w). apply issues_bind; [apply issues_checks|]. intros [[available out] [e|]]; [apply issues_ret|].
  apply issues_bind; [apply issues_dist|]. intros d. destruct available; [apply issues_ret|].
  apply issues_bind; [|intros; apply issues_ret]. unfold PatchTool.save. apply issues_bind; [|intros; apply issues_ret].
  apply issues_lift, quiet_save.
Qed.

Lemma accounts_reboot : accounts (PatchTool.reboot_tool "linux" (uid E) (hostname E) (stat_file E) (read_file E)).
Proof.
  apply accounts_probes. intros w. unfold PatchTool.reboot_tool.
  destruct (detectOS "linux" w) as [os|e]; [|exists []; by rewrite app_nil_r].
  pose proof (starts_patcher _ os (issues_reboot os) w) as Hr. unfold with_patcher in Hr. revert Hr.
  change (PatchTool.world_host "linux" (uid E) (stat_file E) (read_file E)) with this_host.
  by destruct (NeedsReboot os (mkPatcher w false)) as [r p].
Qed.

Lemma accounts_patch : accounts (patch E).
Proof.
  intros w. unfold patch, until_shutdown, look, with_patcher. unfold mbind, W_bind, mret, W_ret. fold (wait_events w).
  destruct (detectOS "linux" (host (mkPatcher w false))) as [os|e] eqn:Eo.
  - destruct (patch_tool_gated (local_zone E) (visit_strings E) "linux" (uid E) (hostname E) (stat_file E) (read_file E)
      Hget Hnow Hawait (nvd_state E w) (lookups E w) (wait_events w) (mkPatcher w false) os Eo) as (checks & cmds & El & Hc & Hk & Hd).
    destruct (PatchTool.patch_tool _ _ _ _ _ _ _ _ _ _ _) as [r p]. exists (patch_argv <$> checks ++ cmds).
    split; [exact El|]. by apply (by_decision w os).
  - pose proof (unknown_host_untouched (local_zone E) (visit_strings E) "linux" (uid E) (hostname E) (stat_file E) (read_file E)
      (nvd_state E w) (lookups E w) (wait_events w) (mkPatcher w false) e Eo) as El.
    destruct (PatchTool.patch_tool _ _ _ _ _ _ _ _ _ _ _) as [r p]. exists []. rewrite app_nil_r. split; [exact El|by apply by_looking].
Qed.

Lemma accounts_run_command i : accounts (run_command E i).
Proof.
  intros w. unfold run_command, mbind, W_bind. set (events := manual_events E w ++ _).
  pose proof (run_approved_law (local_zone E) (hostname E) (needs_sudo E) (mem_text E) events (rc_Title i) (rc_Command i) (rc_Reason i)
    (rc_Importance i) (rc_Risk i) w) as Hg. cbv zeta in Hg.
  destruct (RunApproved.run_approved _ _ _ _ _ _ _ _ _ _ w) as [r w1]. cbn [snd] in *.
  destruct (RunApproved.refuse _) as [e|] eqn:Hr; [injection Hg as _ ->|destruct (Policies.Match _ _) as [p|] eqn:Hm].
  - exists []. rewrite app_nil_r. split; [done|by apply by_looking].
  - eexists. split; [exact Hg|by eapply by_policy].
  - exists []. rewrite app_nil_r. split; [done|by apply by_looking].
Qed.

Lemma accounts_run_diagnostic i : accounts (run_diagnostic E i).
Proof.
  intros w. unfold run_diagnostic, Diagnostic.run_diagnostic. set (cmd := TrimSpace (rd_Command i)).
  destruct (String.eqb cmd ""); [exists []; split; [done|by apply by_looking]|].
  destruct (Diagnostic.validateCommand cmd) as [e|] eqn:Hv; [exists []; split; [done|by apply by_looking]|].
  destruct (w_exec w _ _) as [out err]. eexists. split; [done|]. apply by_gate. unfold Diagnostic.IsDiagnosticEligible. by rewrite Hv.
Qed.

(** Every call of a tool, whatever its arguments. *)
Definition tool_accounted (t : Agent.tool (world M)) : Prop := ∀ args w, accounted w (Agent.t_exec t args w).2.

Lemma tool_of_accounted {T} {J : Json T} name (handler : T → W M (result string string)) :
  (∀ i, accounts (handler i)) → tool_accounted (tool_of E name handler).
Proof.
  intros Hh args w. unfold tool_of, Server.typed_exec. cbn [Agent.t_exec]. destruct (String.eqb args ""); [apply Hh|].
  destruct (Unmarshal args _) as [v []]; [apply Hh|]. exists []. rewrite app_nil_r. split; [done|by apply by_looking].
Qed.

Lemma plain_accounted {T} {J : Json T} name (c : W M string) : accounts c → tool_accounted (tool_of E name (plain (T := T) c)).
Proof. intros Hc. apply tool_of_accounted. intros ?. unfold plain. apply accounts_then; [done|]. intros; apply quiet_ret. Qed.

Lemma fallible_accounted {T} {J : Json T} name (c : W M (string * option string)) :
  starts probe c → tool_accounted (tool_of E name (fallible (T := T) c)).
Proof.
  intros Hc. apply tool_of_accounted. intros ?. unfold fallible. apply accounts_then; [by apply accounts_probes|]. intros [? ?]; apply quiet_ret.
Qed.

Lemma drives_probe {A} (c : (string → result string (list Largest.DirEntry)) → W M A) :
  (∀ dir, starts probe (c dir)) → accounts (drives E c).
Proof. intros Hc. apply accounts_probes. intros w. apply Hc. Qed.

Lemma quiet_memory_tools :
  (∀ i, quiet (read_memory E i)) ∧ (∀ i, quiet (compare_baseline E i)) ∧ (∀ i, quiet (manage_incidents E i)) ∧
  (∀ i, quiet (report_findings E i)) ∧ (∀ i, quiet (request_approval E i)).
Proof.
  split_and!; intros i.
  - unfold read_memory. apply quiet_bind; [destruct (History_ i); frame_world|]. intros ?; apply quiet_look.
  - apply quiet_bind; [apply quiet_now|]. intros ?; apply quiet_look.
  - unfold manage_incidents. frame_world.
  - unfold report_findings, Timeline.report_findings, Timeline.entries_, SkillState.LoadAll. frame_world.
  - unfold request_approval. apply quiet_bind; [apply quiet_look|]. frame_world.
Qed.

Lemma toolbox_accounted baseline t : t ∈ toolbox E baseline → tool_accounted t.
Proof.
  destruct quiet_memory_tools as (Hread & Hcompare & Hmanage & Hreport & Happroval). revert t. apply Forall_forall. unfold toolbox.
  repeat apply Forall_cons_2; [..|apply Forall_nil_2].
  - apply tool_of_accounted. intros ?. by apply accounts_quiet.
  - apply tool_of_accounted. intros ?. apply accounts_patch.
  - apply plain_accounted, accounts_reboot.
  - apply tool_of_accounted. intros ?. apply drives_probe. intros dir.
    apply starts_drives; [apply starts_local_disks|apply starts_devices|apply starts_attributes].
  - apply plain_accounted, accounts_probes. by apply starts_containers.
  - apply plain_accounted. apply accounts_then; [apply accounts_nfs|]. intros; apply quiet_ret.
  - apply fallible_accounted, starts_cpu, starts_cpu_of.
  - apply fallible_accounted, starts_memory, starts_look.
  - apply tool_of_accounted. intros i. apply accounts_probes, starts_network; intros; apply starts_look.
  - apply fallible_accounted, starts_temperature, starts_look.
  - apply plain_accounted, accounts_probes, starts_logins, starts_look.
  - apply plain_accounted, accounts_probes, starts_conns, starts_live.
  - apply tool_of_accounted. intros i. by apply accounts_quiet.
  - apply plain_accounted, accounts_probes, starts_posture, starts_posture_of.
  - apply tool_of_accounted. intros i. by apply accounts_quiet.
  - apply tool_of_accounted. intros i. by apply accounts_quiet.
  - apply plain_accounted, accounts_quiet, quiet_look.
  - apply tool_of_accounted. intros i. by apply accounts_quiet.
  - apply tool_of_accounted. intros i. by apply accounts_quiet.
  - apply tool_of_accounted, accounts_run_command.
  - apply tool_of_accounted, accounts_run_diagnostic.
Qed.

Lemma pre_checks_accounted name c : pre_checks E !! name = Some c → accounts c.
Proof.
  unfold pre_checks. match goal with |- list_to_map ?l !! _ = _ → _ =>
    enough (∀ kv, kv ∈ l → accounts kv.2) as H' by (intros Hl%elem_of_list_to_map_2; exact (H' _ Hl)) end.
  apply Forall_forall. repeat apply Forall_cons_2; [..|apply Forall_nil_2]; cbn [snd].
  - apply accounts_then; [|intros [? ?]; apply quiet_ret]. apply accounts_then; [apply accounts_nfs|]. intros; apply quiet_ret.
  - apply accounts_probes, starts_temperature, starts_look.
  - apply accounts_then; [|intros [? ?]; apply quiet_ret]. apply accounts_probes. by apply starts_containers.
  - apply accounts_probes, starts_cpu, starts_cpu_of.
  - apply accounts_probes, starts_memory, starts_look.
  - apply drives_probe. intros dir. apply starts_drives; [apply starts_local_disks|apply starts_devices|apply starts_attributes].
  - apply accounts_probes, starts_network; intros; apply starts_look.
  - apply accounts_patch_check.
Qed.

(** ** Responsibilities and conversations *)

Section Runs.
Context `{!Json Loop.RunState} (baseline : list Posture.BaselinePortEntry).
Context (complete : Agent.request → world M → result string (list Agent.choice) * world M).

(** Talking to the model starts no process. *)
Context (Hcomplete : ∀ req w, w_run (complete req w).2 = w_run w).

(** What a responsibility does, step by step. *)
Inductive agent_step : world M → world M → Prop :=
| step_infer req w : agent_step w (complete req w).2
| step_tool t args w : t ∈ toolbox E baseline → agent_step w (Agent.t_exec t args w).2
| step_check name c w : pre_checks E !! name = Some c → agent_step w (c w).2
| step_record r out err w : agent_step w (Loop.persistRunState r out err w).2
| step_notify r out err w : agent_step w (Loop.maybeNotify r out err w).2.

Lemma step_accounted w w' : agent_step w w' → accounted w w'.
Proof.
  destruct 1 as [req w|t args w Ht|name c w Hc|r out err w|r out err w].
  - exists []. rewrite app_nil_r. split; [apply Hcomplete|by apply by_looking].
  - by apply (toolbox_accounted baseline).
  - by apply (pre_checks_accounted name).
  - apply accounts_quiet. unfold Loop.persistRunState. frame_world.
  - apply accounts_quiet. unfold Loop.maybeNotify. frame_world.
Qed.

Context (settings : Agent.settings) (prompt : string).
Abbreviation env := (loop_env E settings prompt baseline complete).

Lemma pre_check_steps r w : rtc agent_step w (Loop.pre_check env r w).2.
Proof.
  unfold Loop.pre_check. destruct (Loop.preChecks env !! _) as [pc|] eqn:Ec; [|constructor].
  pose proof (step_check _ pc w Ec) as Hs. unfold mbind, W_bind. destruct (pc w) as [[[needs report] err] w1]. by apply rtc_once.
Qed.

Lemma filtered_among names t : t ∈ Loop.filterTools env names → t ∈ toolbox E baseline.
Proof. intros (name & _ & Hi)%list_elem_of_omap. by apply index_among in Hi. Qed.

Lemma run_agent_steps r input w : rtc agent_step w (Loop.run_agent env r input w).2.
Proof.
  unfold Loop.run_agent. set (a := Agent.NewWithResponsibility _ _ _ _).
  pose proof (run_active complete a input (Agent.mkHost w [])) as Hr.
  destruct (Agent.Run _ a input _) as [res h]. cbn [snd Agent.h_state] in *. revert Hr. apply rtc_subrel. intros w1 w2.
  destruct 1 as [req s|t args s Ht]; [constructor|]. apply step_tool. exact (filtered_among _ _ Ht).
Qed.

Lemma report_steps r out err w :
  rtc agent_step w ((_ ← Loop.persistRunState r out err; Loop.maybeNotify r out err) w).2.
Proof.
  pose proof (step_record r out err w) as Hs. unfold mbind, W_bind. destruct (Loop.persistRunState r out err w) as [e w1].
  eapply rtc_l; [exact Hs|]. apply rtc_once, step_notify.
Qed.

Lemma execute_steps r w : rtc agent_step w (Loop.execute env r w).2.
Proof.
  unfold Loop.execute. unfold mbind at 1, W_bind at 1. pose proof (pre_check_steps r w) as Hp.
  destruct (Loop.pre_check env r w) as [[report|instruction] w1]; (etrans; [exact Hp|]); [apply report_steps|].
  unfold Loop.withOpenIncidents. unfold mbind at 1 2, W_bind at 1 2. match goal with |- context [Loop.run_agent env r ?i w1] =>
    pose proof (run_agent_steps r i w1) as Ha; destruct (Loop.run_agent env r i w1) as [[out|e] w2] end;
    (etrans; [exact Ha|]); apply report_steps.
Qed.

(** C1. No process without a reason: on a Linux host, whatever the model answers and
    whatever the machine reports, a run of a responsibility is a sequence of inferences, calls of registered
    tools, pre-checks and book-keeping, and the processes each step starts are justified
    by the world the step found: probes that only look, the unmount of NFS mounts with too
    many pending operations, one shell command the diagnostic gate accepts, one command a
    standing policy in the memory matches, or a patch run that changes the machine only
    after the operator's decision. *)
Theorem responsibility_accounted r w :
  rtc (λ w w', agent_step w w' ∧ accounted w w') w (Loop.execute env r w).2.
Proof. eapply rtc_subrel; [|apply execute_steps]. intros w1 w2 Hs. split; [done|by apply step_accounted]. Qed.

End Runs.

(** The requests of the server: the same tools, recorded. *)
Section Interactive.
Context `{!Json TaskLog.TaskRecord} (baseline : list Posture.BaselinePortEntry).
Abbreviation process := (TaskLog.process (world M)).
Context (complete : Agent.request → process → result string (list Agent.choice) * process).
Context (Hcomplete : ∀ req p, w_run (TaskLog.p_inner (complete req p).2) = w_run (TaskLog.p_inner p)).

Lemma recorded_accounted opens writes t args p : t ∈ Server.interactive_tools opens writes (toolbox E baseline) →
  accounted (TaskLog.p_inner p) (TaskLog.p_inner (Agent.t_exec t args p).2).
Proof.
  intros (t0 & -> & Ht)%list_elem_of_fmap. cbn [TaskLog.WrapTool Agent.t_exec]. unfold TaskLog.stored_exec.
  pose proof (toolbox_accounted baseline t0 Ht args (TaskLog.p_inner p)) as Ha. by destruct (Agent.t_exec t0 args _).
Qed.

(** C2. A message to the server, whoever sent it, makes a Linux host start only processes
    with a reason, as a responsibility does: it is answered by inferences and by recorded calls
    of the registered tools. *)
Theorem message_accounted opens writes settings parts p :
  let a := Agent.New (Server.interactive_tools opens writes (toolbox E baseline)) settings in
  let run input p := let '(r, h) := Agent.Run complete a input (Agent.mkHost p []) in (r, Agent.h_state h) in
  rtc (λ p p', activity complete (Agent.tools a) p p' ∧ accounted (TaskLog.p_inner p) (TaskLog.p_inner p')) p (Server.Execute run parts p).2.
Proof.
  cbv zeta. unfold Server.Execute. destruct (String.eqb _ ""); [constructor|]. set (a := Agent.New _ _).
  pose proof (run_active complete a (Server.extractText parts) (Agent.mkHost p [])) as Hr.
  destruct (Agent.Run _ a _ _) as [res h]. cbn [snd Agent.h_state] in *. revert Hr. apply rtc_subrel. intros p1 p2 Hs. split; [done|].
  destruct Hs as [req s|t args s Ht]; [|exact (recorded_accounted opens writes t args s Ht)].
  exists []. rewrite app_nil_r. split; [apply Hcomplete|by apply by_looking].
Qed.

End Interactive.

End Facts.
