(* ===== verification/PlatformFacts.v ===== *)
(** * Theorems on configuration, wiring, the task log, the status response, the views, and
    on operating the agent: log rotation, the door of the gateway, the migration, tracing,
    start-up and shutdown *)

From Corelib Require Import SpecFloat.
From S2P Require Import Prelude GoStrings GoTime GoText GoDuration Rolling Json Memory MemoryFacts MemStore World KeyStore Agent Loop Timeline.
From S2P Require Import History ConnMonitor LoginMonitor WorldFacts Views Ops.
From S2P Require Import Posture TaskLog Config Status Server.

(** ** Numbers in text *)

Lemma digits_no_space acc s n : digits acc s = Some n → forall_bytes (λ c, negb (is_space c)) s = true.
Proof.
  revert acc. induction s as [|c s IH]; intros acc H; [done|]. cbn in H |- *.
  destruct (digit c) as [d|] eqn:Hd; [|done]. apply andb_true_iff. split; [|by eapply IH].
  destruct c as [[] [] [] [] [] [] [] []]; try done; discriminate Hd.
Qed.

(** What reads as a number is one word, and not the heading of a column. *)
Lemma number_is_word s n : Atoi s = (n, true) → is_word s.
Proof.
  unfold Atoi. intros H. destruct s as [|c s]; [done|]. split; [done|].
  assert (∀ neg body, (match body, digits 0 body with
      | "", _ | _, None => (0, false)
      | _, Some n => let v := if neg : bool then - n else n in
          if v <? min64 then (min64, false) else if max64 <? v then (max64, false) else (v, true)
      end) = (n, true) → forall_bytes (λ c, negb (is_space c)) body = true) as Hb.
  { intros neg body Hn. destruct body as [|d body]; [done|]. destruct (digits 0 (String d body)) eqn:Hd; [|done]. by eapply digits_no_space. }
  destruct c as [[] [] [] [] [] [] [] []]; 
    first [exact (Hb true s H)|exact (Hb false s H)|match goal with |- forall_bytes _ ?b = _ => exact (Hb false b H) end].
Qed.

Lemma heading_no_number s : EqualFold s "port" = true → (Atoi s).2 = false.
Proof.
  unfold EqualFold. intros H%String.eqb_eq. destruct s as [|c s]; [done|]. cbn in H. injection H as Hc _.
  destruct c as [[] [] [] [] [] [] [] []]; try done; discriminate Hc.
Qed.

(** ** The CSV reader *)

Section Csv.
Import Config Posture.

(** A field in quotes, its quotes doubled. *)
Fixpoint double_quotes (s : string) : string :=
  match s with
  | "" => ""
  | String c rest => if Ascii.eqb c "034" then String c (String c (double_quotes rest)) else String c (double_quotes rest)
  end.
Definition quoted (s : string) : string := String "034" (double_quotes s +:+ dq).
Definition csv_line (fields : list string) : string := Join (quoted <$> fields) "," +:+ nl.
Definition csv_text (rows : list (list string)) : string := String.concat "" (csv_line <$> rows).

Lemma csv_bytes_app s t r : csv_bytes (s +:+ t) r = (r' ← csv_bytes s r; csv_bytes t r').
Proof.
  revert r. induction s as [|c s IH]; intros r; [done|]. rewrite append_cons. cbn [csv_bytes].
  destruct (csv_byte c r) as [r'|e]; [|done]. cbn. apply IH.
Qed.

Lemma rev_string_app s t acc : rev_string (s +:+ t) acc = rev_string t (rev_string s acc).
Proof. revert acc. induction s as [|c s IH]; intros acc; [done|]. rewrite append_cons. cbn. apply IH. Qed.

Lemma rev_string_rev s acc : rev_string (rev_string s acc) "" = rev_string acc s.
Proof. revert acc. induction s as [|c s IH]; intros acc; [done|]. cbn. by rewrite IH. Qed.

Lemma inside_quotes s done fs acc :
  csv_bytes (double_quotes s) (mkReader InQuotes done fs acc) = Ok (mkReader InQuotes done fs (rev_string s acc)).
Proof.
  revert acc. induction s as [|c s IH]; intros acc; [done|]. cbn [double_quotes].
  destruct (Ascii.eqb_spec c "034") as [->|Hc]; cbn; [apply IH|].
  rewrite (proj2 (Ascii.eqb_neq c "034")) by done. apply IH.
Qed.

Definition starts (m : mode) : Prop := m = AtRecord ∨ m = AtField.

Lemma read_quoted m s done fs : starts m →
  csv_bytes (quoted s) (mkReader m done fs "") = Ok (mkReader AfterQuote done fs (rev_string s "")).
Proof.
  intros Hm. unfold quoted. cbn [csv_bytes]. assert (csv_byte "034" (mkReader m done fs "") = Ok (mkReader InQuotes done fs "")) as ->
    by (by destruct Hm as [-> | ->]). cbn. rewrite csv_bytes_app, inside_quotes. done.
Qed.

Lemma push_back done fs s : push_field (mkReader AfterQuote done fs (rev_string s "")) = fs ++ [s].
Proof. unfold push_field. cbn. by rewrite rev_string_rev. Qed.

(** A record of quoted fields reads as its fields. *)
Lemma read_line m f fields done fs rest : starts m →
  csv_bytes (csv_line (f :: fields) +:+ rest) (mkReader m done fs "") =
  csv_bytes rest (mkReader AtRecord (done ++ [fs ++ f :: fields]) [] "").
Proof.
  unfold csv_line. revert m f fs. induction fields as [|g fields IH]; intros m f fs Hm.
  - cbn [fmap list_fmap Join String.concat]. rewrite <- append_assoc, csv_bytes_app, read_quoted by done.
    change (nl +:+ rest) with (String "010" rest).
    cbn [mbind result_bind csv_bytes csv_byte rd_mode Ascii.eqb Bool.eqb]. unfold end_record. by rewrite push_back.
  - change (Join (quoted <$> f :: g :: fields) ",") with (quoted f +:+ "," +:+ Join (quoted <$> g :: fields) ",").
    rewrite <- !append_assoc, csv_bytes_app, read_quoted by done.
    change ("," +:+ (Join (quoted <$> g :: fields) "," +:+ (nl +:+ rest))) with
      (String "," (Join (quoted <$> g :: fields) "," +:+ (nl +:+ rest))).
    cbn [mbind result_bind csv_bytes csv_byte rd_mode Ascii.eqb Bool.eqb]. unfold end_field. rewrite push_back.
    rewrite append_assoc. cbn [rd_done]. rewrite IH by (by right). by rewrite <- app_assoc.
Qed.

Lemma read_text rows done rest : Forall (λ r, r ≠ []) rows →
  csv_bytes (csv_text rows +:+ rest) (mkReader AtRecord done [] "") = csv_bytes rest (mkReader AtRecord (done ++ rows) [] "").
Proof.
  unfold csv_text. intros Hr. revert done. induction Hr as [|r rows Hne _ IH]; intros done; [by rewrite app_nil_r|].
  destruct r as [|f fields]; [done|].
  assert (String.concat "" (csv_line <$> (f :: fields) :: rows) = csv_line (f :: fields) +:+ String.concat "" (csv_line <$> rows)) as ->.
  { destruct rows as [|r' rows]; cbn [fmap list_fmap String.concat]; [by rewrite append_nil_r|done]. }
  rewrite <- append_assoc, read_line by (by left). rewrite IH. by rewrite <- app_assoc.
Qed.

Definition no_cr (s : string) : bool := forall_bytes (λ c, negb (Ascii.eqb c "013")) s.

Lemma normalise_plain s : no_cr s = true → normalise s = s.
Proof.
  induction s as [|c s IH]; [done|]. unfold no_cr in *. cbn [forall_bytes normalise]. intros [Hc Hs]%andb_true_iff.
  apply negb_true_iff in Hc. by rewrite Hc, IH.
Qed.

Lemma no_cr_app s t : no_cr (s +:+ t) = no_cr s && no_cr t.
Proof. apply forall_bytes_append. Qed.

Lemma no_cr_quoted s : no_cr s = true → no_cr (quoted s) = true.
Proof.
  intros Hs. unfold quoted. change (no_cr (double_quotes s +:+ dq) = true). rewrite no_cr_app, andb_true_r. revert Hs. unfold no_cr.
  induction s as [|c s IH]; [done|]. cbn [forall_bytes double_quotes]. intros [Hc Hs]%andb_true_iff.
  destruct (Ascii.eqb c "034"); cbn [forall_bytes]; by rewrite Hc, IH.
Qed.

Lemma no_cr_line fields : Forall (λ f, no_cr f = true) fields → no_cr (csv_line fields) = true.
Proof.
  intros Hf. unfold csv_line. rewrite no_cr_app, andb_true_r. induction Hf as [|f fields H _ IH]; [done|].
  destruct fields as [|g fields]; [by apply no_cr_quoted|].
  change (no_cr (quoted f +:+ "," +:+ Join (quoted <$> g :: fields) ",") = true). by rewrite !no_cr_app, no_cr_quoted, IH.
Qed.

Lemma no_cr_text rows : Forall (Forall (λ f, no_cr f = true)) rows → no_cr (csv_text rows) = true.
Proof.
  unfold csv_text. induction 1 as [|r rows H _ IH]; [done|]. destruct rows as [|r' rows]; [by apply no_cr_line|].
  change (no_cr (csv_line r +:+ String.concat "" (csv_line <$> r' :: rows)) = true). by rewrite no_cr_app, no_cr_line, IH.
Qed.

(** *** Profiles of ports *)

(** The row of an entry, the entries that can be written as a row, and what the loader
    makes of one. *)
Definition entry_row (e : BaselinePortEntry) : list string := [Itoa (Port e); Protocol e; Severity e; Description e].
Definition storable (e : BaselinePortEntry) : Prop := in64 (Port e) ∧ Forall (λ f, no_cr f = true) (entry_row e).
Definition normalised (e : BaselinePortEntry) : BaselinePortEntry :=
  mkBaseline (Port e) (ToLower (TrimSpace (Protocol e))) (ToLower (TrimSpace (Severity e))) (TrimSpace (Description e)).

Lemma row_entry e : storable e → port_row (entry_row e) = Some (normalised e).
Proof.
  intros [Hp _]. unfold port_row, entry_row. pose proof (Atoi_Itoa _ Hp) as Ha.
  rewrite (TrimSpace_word (Itoa (Port e))) by (by eapply number_is_word). rewrite Ha.
  destruct (EqualFold (Itoa (Port e)) "port") eqn:Eh; [apply heading_no_number in Eh; by rewrite Ha in Eh|done].
Qed.

(** Rows that are no entries: a heading, too few columns, or a port that is no number. *)
Definition stray_row (row : list string) : Prop :=
  Forall (λ f, no_cr f = true) row ∧
  ∃ first rest, row = first :: rest ∧
    (EqualFold (TrimSpace first) "port" = true ∨ (length row < 4)%nat ∨ (Atoi (TrimSpace first)).2 = false).

Lemma row_stray row : stray_row row → port_row row = None.
Proof.
  intros (_ & first & rest & -> & H). destruct rest as [|a [|b [|c rest]]]; [done..|]. cbn [port_row].
  destruct (EqualFold _ _); [done|]. destruct H as [?|[Hl|Ha]]; [done|cbn in Hl; lia|].
  destruct (Atoi (TrimSpace first)) as [n ok]. cbn in Ha. by subst.
Qed.

(** A profile as it may be written: entries and stray rows. *)
Definition row_of (l : BaselinePortEntry + list string) : list string := match l with inl e => entry_row e | inr row => row end.
Definition writable (l : BaselinePortEntry + list string) : Prop := match l with inl e => storable e | inr row => stray_row row end.
Definition entry_of (l : BaselinePortEntry + list string) : option BaselinePortEntry := match l with inl e => Some (normalised e) | inr _ => None end.

Lemma profile_rows ls : Forall writable ls →
  Forall (Forall (λ f, no_cr f = true)) (row_of <$> ls) ∧ Forall (λ r, r ≠ []) (row_of <$> ls).
Proof.
  intros H. split; apply Forall_fmap; eapply Forall_impl; try exact H; intros [e|row]; cbn.
  - by intros [_ ?].
  - by intros [? _].
  - done.
  - by intros (_ & first & rest & -> & _).
Qed.

Lemma rows_entries ls : Forall writable ls → omap port_row (row_of <$> ls) = omap entry_of ls.
Proof.
  induction 1 as [|l ls Hl _ IH]; [done|]. rewrite fmap_cons. cbn [omap list_omap]. rewrite IH. destruct l as [e|row]; cbn [row_of entry_of writable] in *.
  - by rewrite row_entry.
  - by rewrite row_stray.
Qed.

(** C38. A profile of ports written as CSV with every field in quotes is read back: whatever
    the fields contain except carriage returns, commas, quotes and line feeds included,
    loading the file gives its entries in order, with protocol and severity trimmed and in
    lower case and the description trimmed, and skips headings, rows of fewer than four
    columns and rows whose port is not a number. *)
Theorem profile_roundtrip files configPath ls : Forall writable ls →
  files (BaselinePortsPath configPath) = Contents (csv_text (row_of <$> ls)) →
  loadBaselinePorts files configPath = Ok (omap entry_of ls).
Proof.
  intros Hs Hf. destruct (profile_rows ls Hs) as [Hc Hn]. unfold loadBaselinePorts. rewrite Hf. unfold ReadAll, new_reader.
  rewrite normalise_plain by (by apply no_cr_text). rewrite <- (append_nil_r (csv_text _)), read_text by done.
  cbn [csv_bytes mbind result_bind csv_eof rd_mode rd_done app]. by rewrite rows_entries.
Qed.

(** A byte of a field without quotes. *)
Definition plain_byte (c : ascii) : bool := negb (Ascii.eqb c "," || Ascii.eqb c "010" || Ascii.eqb c "034" || Ascii.eqb c "013").

Lemma bare_quote_fails x rest done fs acc : forall_bytes plain_byte x = true →
  csv_bytes (x +:+ String "034" rest) (mkReader InBare done fs acc) = Err ErrBareQuote.
Proof.
  revert acc. induction x as [|c x IH]; intros acc; [done|]. cbn [forall_bytes]. intros [Hc Hx]%andb_true_iff.
  unfold plain_byte in Hc. rewrite negb_true_iff, !orb_false_iff in Hc. destruct Hc as [[[H1 H2] H3] _].
  rewrite append_cons. cbn. unfold in_bare. rewrite H1, H2, H3. cbn. by apply IH.
Qed.

(** One stray quote switches the whole profile off: after any number of good rows, a row
    whose first field has a quote after other text makes the file unreadable, and the
    agent runs with no profile at all, in which no listening port is ever a finding. *)
Theorem stray_quote_disables_profile goos files yaml_resps env hostname yaml ls c x rest s :
  Forall writable ls → plain_byte c = true → c ≠ "#"%char → forall_bytes plain_byte x = true → no_cr rest = true →
  files (BaselinePortsPath (filePath env)) = Contents (csv_text (row_of <$> ls) +:+ String c (x +:+ String "034" rest)) →
  Load goos files yaml_resps env hostname yaml = Ok s →
  BaselinePorts s = [] ∧ ∀ entries, classifyPorts entries (BaselinePorts s) = [].
Proof.
  intros Hs Hc Hh Hx Hr Hf HL. enough (BaselinePorts s = []) as -> by done.
  destruct (profile_rows ls Hs) as [Hcr Hn]. unfold Load in HL. destruct (files (filePath env)) as [data| |]; [|done..].
  destruct (yaml data) as [s0|]; [|done]. injection HL as <-. cbn [complete BaselinePorts].
  enough (ReadAll (csv_text (row_of <$> ls) +:+ String c (x +:+ String "034" rest)) = Err ErrBareQuote) as E.
  { unfold loadBaselinePorts. by rewrite Hf, E. }
  assert (forall_bytes plain_byte (String c x) = true) as Hcx by (cbn [forall_bytes]; by rewrite Hc, Hx).
  assert (∀ y, forall_bytes plain_byte y = true → no_cr y = true) as Hp.
  { intros y. apply forall_bytes_impl. intros d. unfold plain_byte. rewrite !negb_true_iff, !orb_false_iff. tauto. }
  unfold ReadAll, new_reader. rewrite normalise_plain.
  - rewrite read_text by done. cbn [csv_bytes]. unfold csv_byte. cbn [rd_mode].
    rewrite (proj2 (Ascii.eqb_neq c "#")) by done. unfold at_field, in_bare. unfold plain_byte in Hc.
    rewrite negb_true_iff, !orb_false_iff in Hc. destruct Hc as [[[H1 H2] H3] _]. rewrite H1, H2, H3. cbn [mbind result_bind].
    unfold add_byte. cbn [rd_done rd_fields rd_acc]. by rewrite bare_quote_fails.
  - rewrite no_cr_app, no_cr_text by done. change (no_cr (String c x +:+ String "034" rest) = true).
    rewrite no_cr_app, Hp by done. exact Hr.
Qed.

End Csv.

(** ** Loading *)

Section Loading.
Import Config.

Lemma or_else_ne s d : d ≠ "" → or_else s d ≠ "".
Proof. unfold or_else. destruct (String.eqb_spec s ""); by intros. Qed.

Lemma prompt_ne : defaultResponsibilitySystemPrompt ≠ "".
Proof. discriminate. Qed.

Lemma append_ne s t : s ≠ "" → s +:+ t ≠ "".
Proof. by destruct s. Qed.

(** A configuration that loads is complete: no address, port, scheme, directory, period,
    model or prompt is left empty, the thresholds of the login monitor are positive, and
    the connection monitor knows the agent's own port. *)
Theorem loaded_is_complete goos files yaml_resps env hostname yaml s :
  Load goos files yaml_resps env hostname yaml = Ok s →
  Host (Server s) ≠ "" ∧ s_Port (Server s) ≠ 0 ∧ OwnPort (NetworkMonitor s) = s_Port (Server s) ∧
  Scheme (Security s) ≠ "" ∧ Root (MemoryCfg s) ≠ "" ∧ Heartbeat (LoopCfg s) ≠ "" ∧ MaxBackups (Logging s) ≠ 0 ∧
  RequestTimeout (Agent s) ≠ "" ∧ Model (Agent s) ≠ "" ∧ ResponsibilitySystemPrompt s ≠ "" ∧
  0 < FailedLoginThreshold (LoginMonitor s) ∧ 0 < BaselineMinEvents (LoginMonitor s) ∧ SummaryTTL (Status s) ≠ "".
Proof.
  unfold Load. destruct (files _) as [data| |]; [|done..]. destruct (yaml data) as [s0|]; [|done]. intros [= <-].
  unfold complete. cbn [Server NetworkMonitor Security MemoryCfg LoopCfg Logging Agent ResponsibilitySystemPrompt LoginMonitor Status
    Host s_Port OwnPort Scheme Root Heartbeat MaxBackups RequestTimeout Model FailedLoginThreshold BaselineMinEvents SummaryTTL default_server].
  assert (∀ n d, 0 < d → 0 < positive_or n d) as Hp by (intros n d Hd; unfold positive_or; destruct (Z.leb_spec n 0); lia).
  split_and!; try (by apply or_else_ne); try (by apply Hp); try done.
  - by destruct (Z.eqb_spec (s_Port (Server s0)) 0).
  - by destruct (Z.eqb_spec (MaxBackups (Logging s0)) 0).
  - apply append_ne. unfold responsibility_prompt. destruct (String.eqb_spec (ResponsibilitySystemPrompt s0) ""); [|done].
    apply or_else_ne, prompt_ne.
Qed.

(** The responsibilities of a host are those of its configuration, and those of its
    operating system that the configuration does not redefine under the same name; if
    neither list repeats a name, the result does not. *)
Theorem merge_exact base override :
  (∀ r, r ∈ mergeResponsibilities base override ↔
     r ∈ override ∨ r ∈ base ∧ ∀ o, o ∈ override → Loop.Name o ≠ Loop.Name r) ∧
  (NoDup (Loop.Name <$> base) → NoDup (Loop.Name <$> override) → NoDup (Loop.Name <$> mergeResponsibilities base override)).
Proof.
  assert (mergeResponsibilities base override = filter (λ r, Loop.Name r ∉ (Loop.Name <$> override)) base ++ override) as ->.
  { by destruct base. }
  split.
  - intros r. rewrite elem_of_app, list_elem_of_filter, list_elem_of_fmap. split.
    + intros [[Hn Hr]|Hr]; [right|by left]. split; [done|]. intros o Ho E. apply Hn. by exists o.
    + intros [Hr|[Hr Hn]]; [by right|left]. split; [|done]. intros (o & E & Ho). by apply (Hn o).
  - intros Hb Ho. rewrite fmap_app, NoDup_app. split_and!; [|intros x (r & -> & [Hn _]%list_elem_of_filter)%list_elem_of_fmap; exact Hn|done].
    clear Ho. induction base as [|b base IH]; [by constructor|]. rewrite fmap_cons, NoDup_cons in Hb. destruct Hb as [Hx Hb].
    rewrite filter_cons. destruct (decide _); [|by apply IH]. rewrite fmap_cons, NoDup_cons. split; [|by apply IH].
    intros (r & E & [_ Hr]%list_elem_of_filter)%list_elem_of_fmap. apply Hx. rewrite E. by apply list_elem_of_fmap_2.
Qed.

End Loading.

(** ** Authentication *)

Section Auth.
Import Config Server.

Lemma HasPrefix_split s p : HasPrefix s p = true → ∃ rest, s = p +:+ rest.
Proof.
  unfold HasPrefix. revert s. induction p as [|c p IH]; intros s H; [by exists s|].
  destruct s as [|d s]; [done|]. cbn in H. destruct (ascii_dec c d) as [->|]; [|done]. destruct (IH s H) as [rest ->]. by exists rest.
Qed.

Lemma bearer_ok_iff token value : bearer_ok token value = true ↔ value = "Bearer " +:+ token.
Proof.
  unfold bearer_ok, CutPrefix. split.
  - destruct (HasPrefix value "Bearer ") eqn:Hp; [|done]. intros E%String.eqb_eq.
    apply HasPrefix_split in Hp as [rest ->]. rewrite drop_bytes_append in E. by subst.
  - intros ->. rewrite HasPrefix_append, drop_bytes_append. apply String.eqb_refl.
Qed.

Context (card_path : string) (service_params : request → option (list string)).

(** C8. With the scheme [bearer] nothing but the agent card is reachable without the token:
    a request gets to a handler, or to the model, only if its Authorization header is
    exactly [Bearer] and the token; and with that header no request is turned away. *)
Theorem bearer_guards_everything security r :
  Scheme security = "bearer" → (service_params r = match authorization r with [] => None | l => Some l end) →
  ((∃ h, serve card_path service_params security r = Handled h) ∨ (∃ i, serve card_path service_params security r = Rpc i) →
     header_get (authorization r) = "Bearer " +:+ Token security) ∧
  (header_get (authorization r) = "Bearer " +:+ Token security →
     serve card_path service_params security r ≠ Unauthorized ∧ serve card_path service_params security r ≠ RpcUnauthenticated).
Proof.
  intros Hs Hp. unfold serve, guarded, rpc, requireBearer. rewrite Hs, Hp. cbn [String.eqb Ascii.eqb Bool.eqb andb].
  assert (intercept (Token security) (match authorization r with [] => None | l => Some l end) =
    bearer_ok (Token security) (header_get (authorization r))) as ->.
  { destruct (authorization r) as [|v l]; [|done]. cbn. unfold bearer_ok. done. }
  destruct (bearer_ok _ _) eqn:Hb.
  - apply bearer_ok_iff in Hb. split; [done|]. intros _. repeat case_match; done.
  - split; [|intros E; apply bearer_ok_iff in E; congruence]. intros [[h H]|[i H]]; repeat case_match; done.
Qed.

(** Any other spelling of the scheme turns authentication off: every request of any
    client gets to its handler, whatever its headers. *)
Theorem other_scheme_open security r : Scheme security ≠ "bearer" →
  serve card_path service_params security r ≠ Unauthorized ∧ serve card_path service_params security r ≠ RpcUnauthenticated.
Proof.
  intros Hs. unfold serve, guarded, rpc. rewrite (proj2 (String.eqb_neq _ _) Hs). cbn [andb]. repeat case_match; done.
Qed.

End Auth.

(** ** Start-up *)

Section Startup.
Import Server.

Definition named (l : list Loop.ResponsibilitySettings) (rs : Loop.ResponsibilitySettings) : Prop :=
  Loop.Name rs ∈ (Loop.Name <$> l).

Lemma inject_spec rs wanted l :
  (∃ tail, inject rs wanted l = l ++ tail ∧ ∀ r, r ∈ tail → r = rs ∧ wanted = true) ∧
  (wanted = true → named (inject rs wanted l) rs) ∧
  (NoDup (Loop.Name <$> l) → NoDup (Loop.Name <$> inject rs wanted l)).
Proof.
  unfold inject, named. destruct wanted; cbn; [|split_and!; [exists []; rewrite app_nil_r; split; [done|by intros r ?%elem_of_nil]|done|done]].
  destruct (existsb _ l) eqn:He; cbn.
  - split_and!; [exists []; rewrite app_nil_r; split; [done|by intros r ?%elem_of_nil]| |done]. intros _.
    apply existsb_exists in He as (r & Hr & E%String.eqb_eq). rewrite <- E. apply list_elem_of_fmap_2. by apply list_elem_of_In.
  - split_and!.
    + exists [rs]. split; [done|]. by intros r ->%list_elem_of_singleton.
    + intros _. rewrite fmap_app, elem_of_app. right. by left.
    + intros Hn. rewrite fmap_app, NoDup_app. split_and!; [done| |apply NoDup_singleton].
      intros x (r & -> & Hr)%list_elem_of_fmap E%list_elem_of_singleton. apply (Bool.diff_false_true). rewrite <- He.
      apply existsb_exists. exists r. split; [by apply list_elem_of_In|]. cbn in E. rewrite E. apply String.eqb_refl.
Qed.

(** C37. Start-up completes the configured responsibilities and overrides none: the
    configured list stays as it is in front, a built-in responsibility is added only if
    its probe found something and its name is not taken, each that applies is present
    under its name, and names are distinct if the configured ones are.  Every tool a
    built-in responsibility names is registered, and each has a pre-check under its name. *)
Theorem builtin_responsibilities nfs containers sensors configured :
  let l := responsibilities nfs containers sensors configured in
  let builtin := [(nfs_responsibility, nfs); (container_responsibility, containers); (temperature_responsibility, sensors)] in
  (∃ tail, l = configured ++ tail ∧ ∀ r, r ∈ tail → (r, true) ∈ builtin) ∧
  (∀ r, (r, true) ∈ builtin → named l r) ∧
  (NoDup (Loop.Name <$> configured) → NoDup (Loop.Name <$> l)) ∧
  (∀ r b, (r, b) ∈ builtin → Loop.Name r ∈ pre_checks ∧ Loop.Tools r ⊆ registered).
Proof.
  intros l builtin. unfold l, responsibilities.
  destruct (inject_spec nfs_responsibility nfs configured) as ((t1 & E1 & H1) & N1 & D1).
  destruct (inject_spec container_responsibility containers (inject nfs_responsibility nfs configured)) as ((t2 & E2 & H2) & N2 & D2).
  destruct (inject_spec temperature_responsibility sensors (inject container_responsibility containers (inject nfs_responsibility nfs configured)))
    as ((t3 & E3 & H3) & N3 & D3).
  assert (∀ r, named (inject nfs_responsibility nfs configured) r → named (inject container_responsibility containers (inject nfs_responsibility nfs configured)) r) as M1.
  { intros r. unfold named. rewrite E2, fmap_app, elem_of_app. by left. }
  assert (∀ r, named (inject container_responsibility containers (inject nfs_responsibility nfs configured)) r →
    named (inject temperature_responsibility sensors (inject container_responsibility containers (inject nfs_responsibility nfs configured))) r) as M2.
  { intros r. unfold named. rewrite E3, fmap_app, elem_of_app. by left. }
  split_and!.
  - exists (t1 ++ t2 ++ t3). rewrite E3, E2, E1, <- !app_assoc. split; [done|].
    intros r. rewrite !elem_of_app. unfold builtin. intros [[-> ->]%H1|[[-> ->]%H2|[-> ->]%H3]]; set_solver.
  - intros r. unfold builtin. rewrite !elem_of_cons, elem_of_nil. intros [[= -> <-]|[[= -> <-]|[[= -> <-]|[]]]]; auto.
  - auto.
  - intros r b. unfold builtin. rewrite !elem_of_cons, elem_of_nil.
    intros [[= -> _]|[[= -> _]|[[= -> _]|[]]]]; split; apply (bool_decide_unpack _); by vm_compute.
Qed.

End Startup.

(** ** The log of tool executions *)

Section Log.
Import TaskLog.
Context `{JR : !Json TaskRecord, RT : !JsonRoundtrip TaskRecord}.
(** The encoder writes one line: control characters are escaped. *)
Context (one_line_json : ∀ r doc, Marshal r = Some doc → doc ≠ "" ∧ one_line doc ∧ HasSuffix doc (String "013" "") = false).

(** The lines of a log: each ended, none too long. *)
Definition ended (text : string) : Prop := ∃ ls, text = String.concat "" ((λ l, l +:+ nl) <$> ls) ∧ Forall (λ l, one_line l ∧ len l < MaxScanTokenSize) ls.

Lemma concat_cons (l : string) ls : String.concat "" ((λ l, l +:+ nl) <$> l :: ls) = l +:+ nl +:+ String.concat "" ((λ l, l +:+ nl) <$> ls).
Proof. destruct ls; cbn [fmap list_fmap String.concat]; [by rewrite append_nil_r|by rewrite <- append_assoc]. Qed.

Lemma lines_ended ls rest : Forall (λ l, one_line l ∧ len l < MaxScanTokenSize) ls →
  Lines (String.concat "" ((λ l, l +:+ nl) <$> ls) +:+ rest) = ls ++ Lines rest.
Proof.
  induction 1 as [|l ls [Hl _] _ IH]; [done|]. rewrite concat_cons, <- !append_assoc, lines_cons by done. by rewrite IH.
Qed.

Lemma scan_ended ls tail : Forall (λ l, one_line l ∧ len l < MaxScanTokenSize) ls → tail ≠ [] → scan_raw (ls ++ tail) = ls ++ scan_raw tail.
Proof.
  intros Hl Ht. induction Hl as [|l ls [_ Hl] _ IH]; [done|]. cbn [app scan_raw]. rewrite IH.
  assert ((len l <? MaxScanTokenSize) = true) as -> by (by apply Z.ltb_lt). destruct (ls ++ tail) eqn:E; [by destruct ls|done].
Qed.

Lemma read_records_app ls1 ls2 acc : read_records (ls1 ++ ls2) acc = (r ← read_records ls1 acc; read_records ls2 r).
Proof.
  revert acc. induction ls1 as [|l ls1 IH]; intros acc; [done|]. cbn. destruct (String.eqb l ""); [apply IH|].
  destruct (Unmarshal l zero) as [r []]; [apply IH|done].
Qed.

Lemma overflow_app ls rest : Forall (λ l, one_line l ∧ len l < MaxScanTokenSize) ls →
  existsb (λ l, negb (len l <? MaxScanTokenSize)) (ls ++ rest) = existsb (λ l, negb (len l <? MaxScanTokenSize)) rest.
Proof.
  induction 1 as [|l ls [_ Hl] _ IH]; [done|]. cbn. rewrite IH. by assert ((len l <? MaxScanTokenSize) = true) as -> by (by apply Z.ltb_lt).
Qed.

Definition text_of (f : file) : string := default "" f.

(** The log reads back what was appended: if the records so far read without an error
    and every line is ended, appending a record shorter than 64 KiB adds it at the end
    and leaves the log in the same shape; an append that fails before it writes keeps
    what is there. *)
Theorem log_roundtrip r doc f records :
  ended (text_of f) → All true f = (records, None) → Marshal r = Some doc → len doc < MaxScanTokenSize →
  let '(e, f') := Append true true r f in
  e = None ∧ ended (text_of f') ∧ All true f' = (records ++ [r], None).
Proof.
  intros (ls & Et & Hls) Ha Hm Hd. destruct (one_line_json _ _ Hm) as (Hne & H1 & Hcr). unfold Append. cbn [negb]. fold (text_of f).
  rewrite Hm. set (t := text_of f) in *. split; [done|]. cbn [text_of default from_option].
  assert (t +:+ doc +:+ nl = String.concat "" ((λ l, l +:+ nl) <$> ls ++ [doc])) as Et'.
  { rewrite Et. clear -ls. induction ls as [|l ls IH]; [done|]. cbn [app]. rewrite !concat_cons, <- !append_assoc, IH. done. }
  assert (Forall (λ l, one_line l ∧ len l < MaxScanTokenSize) (ls ++ [doc])) as Hls'.
  { apply Forall_app. split; [done|]. by apply Forall_singleton. }
  split; [by exists (ls ++ [doc])|].
  assert (All true (Some t) = (records, None)) as Ha'.
  { destruct f as [x|]; [exact Ha|]. injection Ha as <-. done. }
  unfold All in Ha' |- *. cbn [negb] in *. unfold ScanLines, scan_overflows in *.
  assert (Lines t = ls ++ [""]) as El by (rewrite Et, <- (append_nil_r (String.concat _ _)); by apply lines_ended).
  assert (Lines (t +:+ doc +:+ nl) = ls ++ [doc; ""]) as El'.
  { rewrite Et, lines_ended by done. rewrite <- (append_nil_r nl), lines_cons by done. done. }
  rewrite El in Ha'. rewrite El', !overflow_app in * by done. rewrite !scan_ended in * by done.
  cbn [scan_raw String.eqb orb existsb] in *. rewrite app_nil_r in Ha'.
  rewrite (proj2 (Z.ltb_lt _ _) Hd), map_app, read_records_app in *. cbn [negb orb map].
  destruct (read_records (map dropCR ls) []) as [rs|]; [|done]. injection Ha' as ->.
  cbn [mbind result_bind read_records]. unfold dropCR at 1 2, TrimSuffix. rewrite Hcr.
  rewrite (proj2 (String.eqb_neq _ _) Hne), (unmarshal_marshal r doc Hm). done.
Qed.

(** One record of 64 KiB or more spoils the log for good: from then on reading it ends
    with an error, whatever is appended after it. *)
Theorem long_record_spoils_log r doc f later opens :
  ended (text_of f) → Marshal r = Some doc → MaxScanTokenSize ≤ len doc →
  (All opens (Some (text_of (Append true true r f).2 +:+ later))).2 ≠ None.
Proof.
  intros (ls & Et & Hls) Hm Hd. destruct (one_line_json _ _ Hm) as (Hne & H1 & Hcr). unfold Append. cbn [negb]. fold (text_of f). rewrite Hm.
  set (t := text_of f) in *. change (text_of (None, Some (t +:+ doc +:+ nl)).2) with (t +:+ doc +:+ nl). unfold All. destruct opens; [|done]. cbn [negb]. destruct (read_records _ _); [|done].
  unfold scan_overflows. rewrite Et, <- !append_assoc, lines_ended by done. rewrite lines_cons, overflow_app by done.
  cbn [existsb]. by rewrite (proj2 (Z.ltb_ge _ _) Hd).
Qed.

(** Recording is transparent, and only for interactive requests: a wrapped tool answers
    and acts as the tool does, whatever happens to the log, and adds its record; the
    tools the loop runs its responsibilities with leave the log as it is. *)
Theorem only_interactive_recorded {S} (t : Agent.tool S) opens writes input p :
  let '(r, p') := Agent.t_exec (TaskLog.WrapTool opens writes t) input p in
  let '(ru, pu) := Agent.t_exec (Server.unrecorded t) input p in
  (r, p_inner p') = Agent.t_exec t input (p_inner p) ∧ (ru, p_inner pu) = (r, p_inner p') ∧
  p_tasks p' = (Append opens writes (record_of (Agent.t_name t) input r (p_clock p (p_ticks p)) (p_clock p (p_ticks p + 1)%nat)) (p_tasks p)).2 ∧
  p_tasks pu = p_tasks p.
Proof.
  cbn. unfold stored_exec. destruct (Agent.t_exec t input (p_inner p)) as [r s]. done.
Qed.

End Log.

(** ** The status response *)

Section Described.
Import Timeline Status.

Lemma filter_ne (fn : TimelineEntry → bool) timeline e : e ∈ timeline → fn e = true → filterEntries timeline fn ≠ [].
Proof. intros He Hf E. unfold filterEntries in E. by apply (filter_none _ _ _ E He). Qed.

(** Whatever puts the agent in the attention state is described to the model: if an
    entry needs attention the prompt of the summary is not empty. *)
Theorem attention_is_described timeline : hasAttention timeline = true → buildSummaryPrompt timeline ≠ "".
Proof.
  unfold hasAttention. intros (e & He & Hn)%existsb_exists. apply list_elem_of_In in He.
  unfold buildSummaryPrompt. unfold needs_attention in Hn. apply orb_true_iff in Hn.
  destruct (filterEntries timeline is_escalation) eqn:E1; [|done].
  destruct (filterEntries timeline is_critical) eqn:E2; [|done].
  destruct (filterEntries timeline is_pending_approval) eqn:E3; [|done]. exfalso. destruct Hn as [Hc|Ha].
  - destruct (is_escalation e) eqn:Ee; [by apply (filter_ne is_escalation timeline e)|].
    apply (filter_ne is_critical timeline e); [done| |done]. unfold is_critical. by rewrite Hc, Ee.
  - by apply (filter_ne is_pending_approval timeline e).
Qed.

Context (promptHash : string → string) (ttl : Z).

(** The description is of some prompt that was sent, under that prompt's hash. *)
Definition description_ok (y : system) : Prop :=
  (cached (sum y) = "" ∧ cachedHash (sum y) = "") ∨
  ∃ prompt content, (prompt, Some content) ∈ asked y ∧ cached (sum y) = TrimSpace content ∧ cachedHash (sum y) = promptHash prompt.

Definition busy (s : summarizer) : nat := if running s then 1 else 0.

Lemma description_kept y y' : cached (sum y') = cached (sum y) → cachedHash (sum y') = cachedHash (sum y) →
  (∀ a, a ∈ asked y → a ∈ asked y') → description_ok y → description_ok y'.
Proof.
  unfold description_ok. intros -> -> Hs [H|(p & c & H & Hr)]; [by left|right]. exists p, c. split; [by apply Hs|done].
Qed.

(** C35. At most one refresh is under way at any time, however the calls of the status
    endpoint interleave, the flag says whether one is, and the description the endpoint
    shows is empty or the model's answer to a prompt that was sent. *)
Theorem one_refresh_at_a_time y : rtc (step promptHash ttl) init y →
  (length (asking y) + ending y = busy (sum y))%nat ∧ description_ok y.
Proof.
  revert y. apply rtc_ind_r; [split; [done|by left]|]. intros y y' _ Hstep [Hb Hd].
  destruct Hstep as [y timeline now prompt _|y l1 prompt l2 _|y l1 prompt l2 answer now Ha|y n Hn]; cbn [sum starting asking ending asked].
  - by split.
  - unfold get_start. destruct (running (sum y)) eqn:Er; cbn [fst snd].
    + by split.
    + split; [|by eapply description_kept; [..|exact Hd]]. unfold busy in *. rewrite Er in Hb. cbn. lia.
  - rewrite Ha, length_app in Hb. cbn in Hb. split.
    + rewrite length_app. unfold refresh_store. destruct answer as [content|]; [|lia]. destruct (String.eqb _ _); unfold busy in *; cbn [running]; lia.
    + unfold refresh_store. destruct answer as [content|]; [|eapply description_kept; [..|exact Hd]; [done|done|by intros a ?; right]].
      destruct (String.eqb_spec (TrimSpace content) "") as [_|Hne]; [eapply description_kept; [..|exact Hd]; [done|done|by intros a ?; right]|].
      right. exists prompt, content. split; [by left|done].
  - rewrite Hn in Hb. split; [|by eapply description_kept; [..|exact Hd]]. unfold busy in *. cbn. destruct (running (sum y)); lia.
Qed.

End Described.

Section Activity.
Import Timeline Status.
Context `{RJ : !RawJson, JS : !Json SkillState.State, JT : !Json (list TimelineEntry), JG : !Json string, MS : !MemStore M}.
Context (zone : Z → Z) (promptHash : string → string) (ttl : Z).
Context (last_updated : option (W M (result string Z))) (store_bytes : M → Z).
Context (info : SystemInfo.Info) (build_time purpose : string).

Lemma existsb_merge states timeline :
  hasAttention (merge_states states timeline) = hasAttention timeline || existsb (λ st, String.eqb (SkillState.Health st) "critical") states.
Proof.
  unfold merge_states. revert timeline. induction states as [|st states IH]; intros timeline; cbn; [by rewrite orb_false_r|]. rewrite IH.
  destruct (String.eqb_spec (SkillState.Health st) "ok") as [E|Hne]; [by rewrite E|].
  unfold hasAttention. cbn [existsb]. unfold needs_attention at 1. cbn. rewrite orb_false_r.
  destruct (String.eqb (SkillState.Health st) "critical"), (existsb needs_attention timeline); done.
Qed.

(** An entry that asks for the operator: critical, or an approval pending whose risk is
    not low. *)
Definition pressing (e : TimelineEntry) : Prop :=
  Severity e = "critical" ∨ Type_ e = "approval" ∧ Timeline.Status e = Some "pending" ∧ (Risk e = "high" ∨ Risk e = "medium").

Lemma attention_pressing timeline : hasAttention timeline = true ↔ ∃ e, e ∈ timeline ∧ pressing e.
Proof.
  unfold hasAttention. rewrite existsb_exists. setoid_rewrite <- list_elem_of_In. apply exist_proper. intros e. apply and_iff_compat_l.
  unfold needs_attention, pressing. rewrite !orb_true_iff, !andb_true_iff, !orb_true_iff, !String.eqb_eq.
  destruct (Timeline.Status e) as [st|]; rewrite ?String.eqb_eq; naive_solver.
Qed.

(** C36. The state the endpoint reports is exact: active while a responsibility runs,
    whatever the timeline holds; otherwise attention exactly when the timeline has a
    critical entry or a pending approval of medium or high risk, or some skill last saved a
    critical health, whether or not it was reported; and idle otherwise. *)
Theorem reported_state runningTasks s tasks w :
  let r := (build zone promptHash ttl last_updated store_bytes info build_time purpose runningTasks s tasks w).1.1 in
  let attention := (∃ e, e ∈ (ReadDoc (A := list TimelineEntry) "timeline" (w_mem w)).1 ∧ pressing e) ∨
    ∃ k st, HasPrefix k SkillState.keyPrefix = true ∧ key_value SkillState.Domain k (w_mem w) = (st, true) ∧ SkillState.Health st = "critical" in
  (State (r_Status r) = "active" ↔ runningTasks ≠ []) ∧
  (State (r_Status r) = "attention" ↔ runningTasks = [] ∧ attention) ∧
  (State (r_Status r) = "idle" ↔ runningTasks = [] ∧ ¬ attention).
Proof.
  intros r attention.
  set (states := (SkillState.LoadAll w).1). set (timeline := merge_states states (ReadDoc (A := list TimelineEntry) "timeline" (w_mem w)).1).
  assert (State (r_Status r) = activity runningTasks timeline) as ->.
  { subst r timeline states. unfold build, read_doc, mbind, W_bind. destruct (ReadDoc _ (w_mem w)) as [tl ok].
    assert (∃ w1, SkillState.LoadAll w = ((SkillState.LoadAll w).1, w1)) as [w1 ->] by (by destruct (SkillState.LoadAll w) as [x w1]; exists w1).
    destruct (last_patched last_updated w1) as [p w2]. cbn [fst].
    destruct (String.eqb _ _); [unfold now_ at 1; cbn [mret W_ret]; destruct (get_look _ _ _ _ _) as [d rf]|]; cbn [mret W_ret];
      repeat (match goal with |- context [raw_key ?a ?b ?c] => destruct (raw_key a b c) end); by cbn. }
  assert (hasAttention timeline = true ↔ attention) as Ha.
  { subst timeline attention. rewrite existsb_merge, orb_true_iff, existsb_exists, attention_pressing. apply or_iff_compat_l. split.
    - intros (st & Hst & E%String.eqb_eq). apply list_elem_of_In in Hst. apply SkillState.load_all_elem in Hst as (k & Hk & Hv). by exists k, st.
    - intros (k & st & Hk & Hv & E). exists st. split; [|by apply String.eqb_eq]. apply list_elem_of_In. apply SkillState.load_all_elem. by exists k. }
  unfold activity. destruct runningTasks as [|x l]; [|split_and!; split; try done; by intros [? _]].
  destruct (hasAttention timeline); split_and!; split; try done.
  - intros _. split; [done|by apply Ha].
  - intros [_ H]. exfalso. by apply H, Ha.
  - by intros [_ H%Ha].
  - intros _. split; [done|]. by intros H%Ha.
Qed.

End Activity.

(** ** The views *)

Section Recent.

Lemma keep_last_newest {A} n (l : list A) : reverse (keep_last n l) = take n (reverse l).
Proof.
  unfold keep_last. destruct (Nat.ltb_spec n (length l)) as [Hn|Hn].
  - set (k := (length l - n)%nat). pose proof (f_equal reverse (take_drop k l)) as E. rewrite reverse_app in E. rewrite <- E.
    rewrite take_app_length'; [done|]. rewrite length_reverse, length_drop. lia.
  - symmetry. apply take_ge. rewrite length_reverse. lia.
Qed.

Import ConnMonitor NetworkView.

(** The feeds of both endpoints are the newest events first, at most as many as they
    promise, and the counts are those of the whole histories. *)
Theorem feeds_newest_first connections logins failed :
  let n := net_from_history connections in
  let l := LoginView.login_from_history logins failed in
  nr_RecentActivity n = toItems (take 50 (reverse connections)) ∧ nr_HistoryCount n = Z.of_nat (length connections) ∧
  LoginView.lr_RecentActivity l = LoginView.toSessionItems (take 50 (reverse logins)) ∧
  LoginView.lr_RecentFailed l = LoginView.toFailedItems (take 20 (reverse failed)) ∧
  LoginView.lr_HistoryCount l = Z.of_nat (length logins) ∧ LoginView.lr_FailedCount l = Z.of_nat (length failed).
Proof.
  cbn. unfold maxRecentActivity, LoginView.recentSessions, LoginView.maxRecentFailed. by rewrite !keep_last_newest.
Qed.

(** No connection is hidden from the report: the three groups of the active section
    together hold the active connections, each once, when every event has one of the
    three directions. *)
Theorem groups_partition `{SL : !SortSlice} active :
  Forall (λ e, Direction e ∈ [DirectionInbound; DirectionOutbound; DirectionUnknown]) active →
  filterDirection active DirectionInbound ++ filterDirection active DirectionOutbound ++ filterDirection active DirectionUnknown ≡ₚ active.
Proof.
  intros H. unfold filterDirection. rewrite !Slice_perm. induction H as [|e l He _ IH]; [done|].
  rewrite !elem_of_cons, elem_of_nil in He. rewrite !filter_cons.
  destruct He as [E|[E|[E|[]]]]; rewrite E; repeat first [rewrite decide_True by done|rewrite decide_False by done]; cbn [app].
  - by rewrite IH.
  - rewrite <- Permutation_middle. by rewrite IH.
  - rewrite app_assoc, <- Permutation_middle, <- app_assoc. by rewrite IH.
Qed.

End Recent.

Section Nearest.
Import Domain MemoryView.

(** A retained snapshot of a directory. *)
Definition retained (dir : gmap string dirent) (name : string) (ns : Z) : Prop := ∃ e, dir !! name = Some e ∧ snapshot_ns name e = Some ns.

Definition nearest_inv (target : Z) (l : list (string * dirent)) (best : string * Z * Z) : Prop :=
  let '(name, ns, dist) := best in
  (name = "" ∧ ∀ ne, ne ∈ l → snapshot_ns ne.1 ne.2 = None) ∨
  ((∃ e, (name, e) ∈ l ∧ snapshot_ns name e = Some ns) ∧ dist = Z.abs (target - ns) ∧
   ∀ ne ns', ne ∈ l → snapshot_ns ne.1 ne.2 = Some ns' → Z.abs (target - ns) ≤ Z.abs (target - ns')).

Lemma snapshot_named name e ns : snapshot_ns name e = Some ns → name ≠ "".
Proof. intros H ->. by destruct e. Qed.

Lemma nearest_step_inv target l ne best : (∀ ns, snapshot_ns ne.1 ne.2 = Some ns → Z.abs (target - ns) ≤ max64) →
  nearest_inv target l best → nearest_inv target (l ++ [ne]) (nearest_step target best ne).
Proof.
  intros Hr Hi. unfold nearest_step. destruct best as [[name ns] dist]. destruct (snapshot_ns ne.1 ne.2) as [ns'|] eqn:Hs.
  - specialize (Hr ns' eq_refl). set (d0 := time_sub target ns').
    assert (d0 = target - ns') as Ed. { unfold d0, time_sub. unfold max64, min64 in *. destruct (Z.ltb_spec (target - ns') (-9223372036854775808)); [lia|].
      destruct (Z.ltb_spec 9223372036854775807 (target - ns')); lia. }
    assert ((if d0 <? 0 then wrap64 (- d0) else d0) = Z.abs (target - ns')) as ->.
    { rewrite Ed. destruct (Z.ltb_spec (target - ns') 0); [|lia]. rewrite wrap64_id; [lia|]. unfold in64, min64, max64 in *. lia. }
    destruct Hi as [[-> Hn]|(He & -> & Hm)].
    + cbn [String.eqb orb]. right. split_and!; [exists ne.2; split; [apply elem_of_app; right; destruct ne; set_solver|done]|done|].
      intros x nx [Hx| ->%list_elem_of_singleton]%elem_of_app E; [by rewrite Hn in E|]. rewrite Hs in E. injection E as <-. done.
    + destruct He as (e & Hin & Hse). rewrite (proj2 (String.eqb_neq _ _) (snapshot_named _ _ _ Hse)). cbn [orb].
      destruct (Z.ltb_spec (Z.abs (target - ns')) (Z.abs (target - ns))).
      * right. split_and!; [exists ne.2; split; [apply elem_of_app; right; destruct ne; set_solver|done]|done|].
        intros x nx [Hx| ->%list_elem_of_singleton]%elem_of_app E; [specialize (Hm x nx Hx E); lia|]. rewrite Hs in E. injection E as <-. lia.
      * right. split_and!; [exists e; split; [set_solver|done]|done|].
        intros x nx [Hx| ->%list_elem_of_singleton]%elem_of_app E; [by eapply Hm|]. rewrite Hs in E. injection E as <-. lia.
  - destruct Hi as [[-> Hn]|((e & Hin & Hse) & -> & Hm)].
    + left. split; [done|]. intros x [Hx| ->%list_elem_of_singleton]%elem_of_app; [by apply Hn|done].
    + right. split_and!; [exists e; split; [set_solver|done]|done|]. intros x nx [Hx| ->%list_elem_of_singleton]%elem_of_app E; [by eapply Hm|congruence].
Qed.

(** A retained snapshot with what its file holds, and none is nearer to the target. *)
Definition nearest_of (F : faults) (dir : gmap string dirent) (target : Z) (s : Snapshot) : Prop :=
  (∃ name, retained dir name (Timestamp s) ∧ ReadFile F dir name = Ok (Data s)) ∧
  ∀ name ns, retained dir name ns → Z.abs (target - Timestamp s) ≤ Z.abs (target - ns).

Lemma read_nearest_spec F target dir s :
  (∀ name ns, retained dir name ns → Z.abs (target - ns) ≤ max64) →
  ReadNearest F target (Some (Some dir)) = Ok s → nearest_of F dir target s.
Proof.
  intros Hr. unfold ReadNearest. destruct (f_readdir F); [done|].
  assert (nearest_inv target (ReadDir dir) (foldl (nearest_step target) ("", 0, 0) (ReadDir dir))) as Hi.
  { assert (∀ l2 l1 best, l1 ++ l2 = ReadDir dir → nearest_inv target l1 best → nearest_inv target (ReadDir dir) (foldl (nearest_step target) best l2)) as Hg.
    { induction l2 as [|ne l2 IH]; intros l1 best E Hb; [rewrite app_nil_r in E; by subst|]. cbn.
      apply (IH (l1 ++ [ne])); [by rewrite <- app_assoc|]. apply nearest_step_inv; [|done]. intros ns Hs. apply (Hr ne.1). exists ne.2. split; [|done].
      apply elem_of_ReadDir. rewrite <- E. destruct ne. set_solver. }
    apply (Hg _ []); [done|]. left. split; [done|]. by intros ne ?%elem_of_nil. }
  destruct (foldl _ _ _) as [[name ns] dist]. destruct Hi as [[-> _]|((e & Hin & Hse) & _ & Hm)]; [done|].
  rewrite (proj2 (String.eqb_neq _ _) (snapshot_named _ _ _ Hse)). destruct (ReadFile F dir name) as [data|] eqn:Hf; [|done]. intros [= <-]. split; cbn.
  - exists name. split; [|done]. exists e. split; [by apply elem_of_ReadDir|done].
  - intros name' ns' (e' & Hd & Hs'). apply (Hm (name', e')); [by apply elem_of_ReadDir|done].
Qed.

Lemma points_distinct nearest now offsets seen out : NoDup seen → (∀ n s, (n, s) ∈ out → Timestamp s ∈ seen) →
  NoDup (Timestamp ∘ snd <$> out) →
  let r := foldl (point_step nearest now) (seen, out) offsets in
  NoDup r.1 ∧ NoDup (Timestamp ∘ snd <$> r.2) ∧ (∀ n s, (n, s) ∈ r.2 → (n, s) ∈ out ∨ (Timestamp s ∉ seen) ∧ ∃ off, (n, off) ∈ offsets ∧ nearest (now - off) = Ok s).
Proof.
  revert seen out. induction offsets as [|[name off] offsets IH]; intros seen out Hs Ho Hn; cbn [foldl]; [split_and!; [done..|by left]|].
  unfold point_step at 2 4 6. cbn [fst snd].
  assert (∀ r : list (string * Snapshot), (∀ n s, (n, s) ∈ r → (n, s) ∈ out ∨ (Timestamp s ∉ seen) ∧ ∃ off, (n, off) ∈ offsets ∧ nearest (now - off) = Ok s) →
    ∀ n s, (n, s) ∈ r → (n, s) ∈ out ∨ (Timestamp s ∉ seen) ∧ ∃ off0, (n, off0) ∈ (name, off) :: offsets ∧ nearest (now - off0) = Ok s) as Hw.
  { intros r Hr n s Hin. destruct (Hr n s Hin) as [?|(? & o & ? & ?)]; [by left|right]. split; [done|]. exists o. split; [by right|done]. }
  destruct (nearest (now - off)) as [snap|e] eqn:En.
  - case_bool_decide as Hd.
    + destruct (IH seen out Hs Ho Hn) as (H1 & H2 & H3). split_and!; [done..|by apply Hw].
    + destruct (IH (Timestamp snap :: seen) (out ++ [(name, snap)])) as (H1 & H2 & H3).
      * by constructor.
      * intros n s [Hin|E%list_elem_of_singleton]%elem_of_app; [right; by eapply Ho|]. injection E as -> ->. by left.
      * rewrite fmap_app. apply NoDup_app. split_and!; [done| |apply NoDup_singleton]. cbn. intros x ([n s] & -> & Hin)%list_elem_of_fmap E%list_elem_of_singleton.
        cbn in E. apply Hd. rewrite <- E. by eapply Ho.
      * split_and!; [done..|]. intros n s Hin. destruct (H3 n s Hin) as [[?|E%list_elem_of_singleton]%elem_of_app|(Hns & o & ? & ?)].
        -- by left.
        -- injection E as -> ->. right. split; [done|]. exists off. split; [by left|done].
        -- right. split; [set_solver|]. exists o. split; [by right|done].
  - destruct (IH seen out Hs Ho Hn) as (H1 & H2 & H3). split_and!; [done..|by apply Hw].
Qed.

Lemma points_kept nearest now offsets seen out :
  let r := foldl (point_step nearest now) (seen, out) offsets in
  (∀ x, x ∈ seen → x ∈ r.1) ∧ ∀ p, p ∈ out → p ∈ r.2.
Proof.
  revert seen out. induction offsets as [|b offsets IH]; intros seen out; cbn; [done|].
  destruct (nearest _) as [s|]; [|apply IH]. case_bool_decide; [apply IH|].
  destruct (IH (Timestamp s :: seen) (out ++ [(b.1, s)])) as [H1 H2]. split; [intros x Hx; apply H1; by right|].
  intros p Hp. apply H2, elem_of_app. by left.
Qed.

(** Every point the loop finds is returned or was seen before. *)
Lemma points_complete nearest now offsets seen out :
  let r := foldl (point_step nearest now) (seen, out) offsets in
  (∀ x, x ∈ r.1 → x ∈ seen ∨ x ∈ Timestamp ∘ snd <$> r.2) ∧
  (∀ n off s, (n, off) ∈ offsets → nearest (now - off) = Ok s → Timestamp s ∈ r.1).
Proof.
  revert seen out. induction offsets as [|[name off] offsets IH]; intros seen out; [split; [by left|by intros n off s ?%elem_of_nil]|].
  cbv zeta. cbn [foldl]. set (acc := point_step nearest now (seen, out) (name, off)).
  assert ((∀ x, x ∈ acc.1 → x ∈ seen ∨ ∃ n s, (n, s) ∈ acc.2 ∧ Timestamp s = x) ∧ ∀ s, nearest (now - off) = Ok s → Timestamp s ∈ acc.1) as [Ha Hb].
  { subst acc. unfold point_step. cbn [fst snd]. destruct (nearest (now - off)) as [snap|e]; [|split; [by left|done]].
    case_bool_decide; cbn [fst snd]; (split; [|intros s [= <-]; by try left]); [by left|].
    intros x [->|?]%elem_of_cons; [|by left]. right. exists name, snap. split; [|done]. apply elem_of_app. right. by left. }
  destruct acc as [seen' out']. cbn [fst snd] in *.
  destruct (IH seen' out') as [H1 H2], (points_kept nearest now offsets seen' out') as [H3 H4]. split.
  - intros x Hx. destruct (H1 x Hx) as [Hs|?]; [|by right]. destruct (Ha x Hs) as [?|(n & s & Hin & <-)]; [by left|right].
    apply list_elem_of_fmap. exists (n, s). by split; [|apply H4].
  - intros n o s [[= -> ->]|Hin]%elem_of_cons Ho; [by apply H3, Hb|by apply (H2 n o)].
Qed.

Lemma offset_range n off : (n, off) ∈ baselineOffsets → 0 ≤ off ≤ 7 * 24 * Hour.
Proof.
  unfold baselineOffsets, Hour, Minute, Second. rewrite !elem_of_cons, elem_of_nil.
  intros [[= _ ->]|[[= _ ->]|[[= _ ->]|[]]]]; unfold Hour, Minute, Second; lia.
Qed.

(** C39. A comparison shows each snapshot once, and the right ones: the points it returns
    have distinct timestamps; the current one is a retained snapshot, with the contents of
    its file, and none is nearer to now; each baseline is one with none nearer to its
    hour, day or week ago; and no baseline is left out whose nearest snapshot can be read,
    unless a point of that timestamp is shown already.  (Snapshots are within 146 years of
    now, where differences of instants do not saturate.) *)
Theorem comparison_exact F dir now current out :
  (∀ name ns, retained dir name ns → Z.abs (now - ns) ≤ 2 ^ 62) →
  baseline_points (λ target, ReadNearest F target (Some (Some dir))) now = Some (current, out) →
  NoDup (Timestamp current :: (Timestamp ∘ snd <$> out)) ∧ nearest_of F dir now current ∧
  (∀ n s, (n, s) ∈ out → ∃ off, (n, off) ∈ baselineOffsets ∧ nearest_of F dir (now - off) s) ∧
  (∀ n off s, (n, off) ∈ baselineOffsets → ReadNearest F (now - off) (Some (Some dir)) = Ok s →
    Timestamp s ∈ Timestamp current :: (Timestamp ∘ snd <$> out)).
Proof.
  intros Hr. unfold baseline_points. destruct (ReadNearest F now _) as [cur|] eqn:Ec; [|done]. intros [= <- <-].
  assert (∀ off, 0 ≤ off ≤ 7 * 24 * Hour → ∀ name ns, retained dir name ns → Z.abs (now - off - ns) ≤ max64) as Hoff.
  { intros off Ho name ns Hn. specialize (Hr name ns Hn). unfold Hour, Minute, Second, max64 in *. lia. }
  destruct (points_distinct (λ target, ReadNearest F target (Some (Some dir))) now baselineOffsets [Timestamp cur] []) as (H1 & H2 & H3).
  { apply NoDup_singleton. } { by intros n s ?%elem_of_nil. } { constructor. }
  destruct (points_complete (λ target, ReadNearest F target (Some (Some dir))) now baselineOffsets [Timestamp cur] []) as [H4 H5].
  split_and!.
  - constructor; [|done]. intros ([n s] & E & Hin)%list_elem_of_fmap. destruct (H3 n s Hin) as [?%elem_of_nil|(Hns & _)]; [done|]. apply Hns. cbn in E. rewrite E. by left.
  - apply read_nearest_spec; [|done]. intros name ns Hn. replace (now - ns) with (now - 0 - ns) by lia. apply (Hoff 0) with name; [unfold Hour, Minute, Second; lia|done].
  - intros n s Hin. destruct (H3 n s Hin) as [?%elem_of_nil|(_ & off & Ho & En)]; [done|]. exists off. split; [done|].
    apply read_nearest_spec; [|done]. by eapply Hoff, offset_range.
  - intros n off s Ho En. destruct (H4 _ (H5 n off s Ho En)) as [->%list_elem_of_singleton|?]; [by left|by right].
Qed.

End Nearest.

(** ** The rotation of the logs *)

Section Rotate.
Import Logging.
Context (file : string).

Lemma backup_inj k k' : backup file k = backup file k' → k = k'.
Proof.
  unfold backup. intros E. apply (inj (String.append file)) in E. apply (inj (String.append ".")) in E.
  apply (inj Itoa) in E. lia.
Qed.

Lemma backup_ne k : backup file k ≠ file.
Proof.
  unfold backup. intros E%(f_equal len). rewrite !len_append in E. unfold len in E. cbn in E. lia.
Qed.

(** No system call fails. *)
Definition healthy (_ : string) : bool := false.

(** Enough fuel: every round takes a file away. *)
Lemma remove_old_spec fuel n (d : gmap string string) : (size d < fuel)%nat →
  ∃ d' hole, remove_old healthy healthy fuel file n d = Some d' ∧ (n ≤ hole)%nat ∧ d !! backup file hole = None ∧
    (∀ k, (n ≤ k < hole)%nat → is_Some (d !! backup file k) ∧ d' !! backup file k = None) ∧
    (∀ name, (∀ k, (n ≤ k < hole)%nat → name ≠ backup file k) → d' !! name = d !! name).
Proof.
  revert n d. induction fuel as [|fuel IH]; intros n d Hs; [lia|]. cbn [remove_old].
  change (not_exist healthy ?name d) with (match d !! name with Some _ => false | None => true end).
  destruct (d !! backup file n) as [c|] eqn:Hc; [|exists d, n; split_and!; [done|lia|done|lia|done]].
  change (Remove healthy ?name d) with (delete name d). assert (size (delete (backup file n) d) < fuel)%nat as Hs'.
  { rewrite map_size_delete_Some by by rewrite Hc. assert (size d ≠ 0)%nat; [|lia]. intros ->%map_size_empty_inv. by rewrite lookup_empty in Hc. }
  destruct (IH (S n) _ Hs') as (d' & hole & -> & Hle & Hh & Hin & Hout). exists d', hole.
  assert (hole ≠ n) as Hne by lia. split; [done|]. split; [lia|].
  rewrite lookup_delete_ne in Hh by by intros ->%backup_inj. split; [done|]. split.
  - intros k Hk. destruct (decide (k = n)) as [->|Hkn].
    + rewrite Hc, Hout; [by rewrite lookup_delete_eq|]. intros k' Hk' E%backup_inj. lia.
    + destruct (Hin k ltac:(lia)) as [Hsome Hnone]. rewrite lookup_delete_ne in Hsome by (intros E%backup_inj; lia). done.
  - intros name Hname. rewrite Hout by (intros k Hk; apply Hname; lia).
    apply lookup_delete_ne. intros E. by apply (Hname n ltac:(lia)).
Qed.

Lemma rename_spec src dst (d : gmap string string) : src ≠ dst → d !! dst = None →
  let d' := Rename healthy src dst d in
  d' !! src = None ∧ d' !! dst = d !! src ∧ (∀ name, name ≠ src → name ≠ dst → d' !! name = d !! name).
Proof.
  intros Hne Hd. change (Rename healthy src dst d) with (match d !! src with Some c => <[dst := c]> (delete src d) | None => d end).
  destruct (d !! src) as [c|] eqn:Hs; cbv zeta; [|done].
  rewrite lookup_insert_ne, lookup_delete_eq, lookup_insert_eq by done. repeat split; [done..|].
  intros name H1 H2. by rewrite lookup_insert_ne, lookup_delete_ne.
Qed.

Lemma shift_spec n (d : gmap string string) : d !! backup file (S n) = None →
  let d' := shift healthy file n d in
  d' !! backup file 1 = None ∧ (∀ k, (1 ≤ k ≤ n)%nat → d' !! backup file (S k) = d !! backup file k) ∧
  (∀ name, (∀ k, (1 ≤ k ≤ S n)%nat → name ≠ backup file k) → d' !! name = d !! name).
Proof.
  revert d. induction n as [|n IH]; intros d Hd; [split_and!; [done|lia|done]|]. cbn [shift].
  destruct (rename_spec (backup file (S n)) (backup file (S (S n))) d) as (Hsrc & Hdst & Hrest); [by intros E%backup_inj; lia|done|].
  destruct (IH _ Hsrc) as (H1 & Hk & Hname). split; [done|]. split.
  - intros k Hle. destruct (decide (k = S n)) as [->|Hne].
    + rewrite Hname; [done|]. intros k' Hk' E%backup_inj. lia.
    + rewrite Hk by lia. apply Hrest; intros E%backup_inj; lia.
  - intros name Hn. rewrite Hname by (intros k Hk'; apply Hn; lia). apply Hrest; apply Hn; lia.
Qed.

(** C40. The rotation of the logs at start-up ends whenever the file system answers.
    Without a positive limit it changes nothing; with one, the log becomes the first
    backup, every backup below the limit moves up by one, and the backups from the limit
    up to the first unused number ([hole]) are deleted; every other file stays, the
    backups after that number included. *)
Theorem rotation_exact fuel maxBackups (d : gmap string string) : (size d < fuel)%nat →
  ∃ d', rotateLog healthy healthy healthy fuel file maxBackups d = Some d' ∧
    (maxBackups ≤ 0 → d' = d) ∧
    (0 < maxBackups → ∃ hole, maxBackups ≤ Z.of_nat hole ∧ d !! backup file hole = None ∧
      (∀ k, maxBackups ≤ Z.of_nat k → (k < hole)%nat → is_Some (d !! backup file k)) ∧
      d' !! file = None ∧ d' !! backup file 1 = d !! file ∧
      (∀ k, (1 ≤ k)%nat → Z.of_nat k < maxBackups → d' !! backup file (S k) = d !! backup file k) ∧
      (∀ k, maxBackups < Z.of_nat k → (k < hole)%nat → d' !! backup file k = None) ∧
      (∀ k, maxBackups < Z.of_nat k → (hole ≤ k)%nat → d' !! backup file k = d !! backup file k) ∧
      (∀ name, name ≠ file → (∀ k, (1 ≤ k)%nat → name ≠ backup file k) → d' !! name = d !! name)).
Proof.
  intros Hf. unfold rotateLog. destruct (Z.leb_spec maxBackups 0) as [Hm|Hm]; [exists d; split_and!; [done|done|lia]|]. set (N := Z.to_nat maxBackups).
  destruct (remove_old_spec fuel N d Hf) as (d1 & hole & -> & Hle & Hh & Hin & Hout). cbn [mbind option_bind].
  assert (Hd1 : d1 !! backup file N = None).
  { destruct (decide (N = hole)) as [E|]; [|by apply Hin; lia]. rewrite Hout; [by rewrite E|]. intros; lia. }
  destruct (shift_spec (N - 1) d1) as (H1 & Hk & Hname); [by replace (S (N - 1)) with N by lia|].
  destruct (rename_spec file (backup file 1) _ (λ E, backup_ne 1 (eq_sym E)) H1) as (Hsrc & Hdst & Hrest).
  assert (∀ k, maxBackups < Z.of_nat k → Rename healthy file (backup file 1) (shift healthy file (N - 1) d1) !! backup file k = d1 !! backup file k) as Habove.
  { intros k Hk2. rewrite Hrest by first [apply backup_ne|intros E%backup_inj; lia].
    rewrite Hname by (intros k' Hk' E%backup_inj; lia). done. }
  eexists. split; [done|]. split; [lia|]. intros _. exists hole. split_and!; [lia|done|intros k ? ?; by apply Hin; lia|done|..].
  - rewrite Hdst, Hname by (intros ? _ E; by apply (backup_ne k)). apply Hout. intros k _ E. by apply (backup_ne k).
  - intros k Hk1 Hk2. rewrite Hrest, Hk by first [lia|apply backup_ne|intros E%backup_inj; lia].
    apply Hout. intros k' Hk' E%backup_inj. lia.
  - intros k Hk2 Hk3. rewrite Habove by done. apply Hin. lia.
  - intros k Hk2 Hk3. rewrite Habove by done. apply Hout. intros k' Hk' E%backup_inj. lia.
  - intros name Hne Hb. rewrite Hrest by first [done|apply Hb; lia]. rewrite Hname by (intros; apply Hb; lia).
    apply Hout. intros k Hk'. apply Hb. lia.
Qed.

(** When [os.Stat] fails with another error than "does not exist" - a directory on the
    path that may not be searched, say - the deletion of old backups never ends. *)
Theorem rotation_diverges remove_fails rename_fails fuel maxBackups d : 0 < maxBackups →
  rotateLog (λ _, true) remove_fails rename_fails fuel file maxBackups d = None.
Proof.
  intros Hm. unfold rotateLog. rewrite (proj2 (Z.leb_gt _ _)) by lia. generalize (Z.to_nat maxBackups).
  assert (∀ n d, remove_old (λ _, true) remove_fails fuel file n d = None) as Hloop.
  { induction fuel as [|fuel IH]; intros n d'; [done|]. apply IH. }
  intros n. by rewrite Hloop.
Qed.

End Rotate.

(** ** The door of the gateway, and the log endpoint *)

(** With a token configured a request other than a health probe reaches the gateway
    exactly when its Authorization header is [Bearer] and the token. *)
Theorem door_exact token method path authorization : token ≠ "" →
  Door.passes token method path authorization = true ↔
  (method = "GET" ∧ (path = "/health" ∨ path = "/health/ready")) ∨ authorization = "Bearer " +:+ token.
Proof.
  intros Ht. unfold Door.passes. rewrite (proj2 (String.eqb_neq token "") Ht).
  change (match CutPrefix "Bearer " authorization with Some got => String.eqb got token | None => false end) with (Server.bearer_ok token authorization).
  destruct (_ && _) eqn:E.
  - apply andb_true_iff in E as [E1%String.eqb_eq E2%orb_true_iff]. rewrite !String.eqb_eq in E2. naive_solver.
  - rewrite bearer_ok_iff. apply andb_false_iff in E. rewrite orb_false_iff, !String.eqb_neq in E. naive_solver.
Qed.

Lemma drop_bytes_split n s : (n ≤ String.length s)%nat →
  ∃ pre, s = pre +:+ drop_bytes n s ∧ String.length pre = n.
Proof.
  revert s. induction n as [|n IH]; intros s Hn; [by exists ""; destruct s|].
  destruct s as [|c s]; cbn in Hn; [lia|]. destruct (IH s ltac:(lia)) as (pre & E & Hl).
  exists (String c pre). split; [exact (f_equal (String c) E)|cbn; lia].
Qed.

(** The answer of the log endpoint is the whole log, or its last [maxBytes] bytes when
    the log is longer, and it says which. *)
Theorem log_tail logFile text content truncated note : logFile ≠ "" →
  LogView.log_handler "GET" logFile (LogView.LogText text) = LogView.LogContent content truncated note →
  len content = Z.min (len text) LogView.maxBytes ∧ (∃ dropped, text = dropped +:+ content) ∧
  (truncated = true ↔ LogView.maxBytes < len text).
Proof.
  intros Hf. unfold LogView.log_handler. cbn [negb]. rewrite (proj2 (String.eqb_neq _ _) Hf).
  change (String.eqb "GET" "GET") with true. cbn [negb].
  destruct (LogView.maxBytes <? len text) eqn:E; intros [= <- <- <-].
  - apply Z.ltb_lt in E. destruct (drop_bytes_split (Z.to_nat (len text - LogView.maxBytes)) text) as (pre & Hs & Hl).
    { unfold len in *. assert (0 < LogView.maxBytes) by done. lia. }
    assert (len pre = len text - LogView.maxBytes) by (unfold len in *; lia). pose proof (f_equal len Hs) as Hlen.
    rewrite len_append in Hlen. split; [lia|]. split; [by eexists|done].
  - apply Z.ltb_ge in E. split; [lia|]. split; [by exists ""|]. split; [done|lia].
Qed.

(** ** The migration of the memory *)

Section Migrate.
Import Migration.
Context {RJ : RawJson} {M : Type} {MS : MemStore M}.

Definition unchanged {A} (c : W M A) : Prop := ∀ w, (c w).2 = w.

Lemma unchanged_bind {A B} (c : W M A) (f : A → W M B) : unchanged c → (∀ a, unchanged (f a)) → unchanged (c ≫= f).
Proof. intros Hc Hf w. unfold mbind, W_bind. specialize (Hc w). destruct (c w) as [a w']. cbn in *. subst w'. apply Hf. Qed.

Lemma move_all_dry attrs moves acc : unchanged (move_all true attrs moves acc).
Proof.
  revert acc. induction moves as [|[key domain] moves IH]; intros acc; [done|]. cbn [move_all]. apply unchanged_bind.
  - destruct acc. cbn. by destruct (attrs !! key).
  - by intros [acc'|o].
Qed.

(** With [-dry-run] nothing changes, with or without [-purge]. *)
Theorem dry_run_changes_nothing purge : unchanged (migrate true purge).
Proof.
  unfold migrate. apply unchanged_bind; [done|]. intros [attrs|e]; [|done]. case_decide; [done|].
  apply unchanged_bind; [apply move_all_dry|]. intros [acc1|o]; [|done].
  apply unchanged_bind; [by unfold move_incidents; destruct (attrs !! incidentsKey)|]. intros [acc2|o]; [|done].
  apply unchanged_bind; [apply move_all_dry|]. intros [[keys actions]|o]; [|done]. by rewrite orb_true_r.
Qed.

Context {ML : MemStoreLaws M}.

Lemma migrated_key_keeps {V} {J : Json V} domain key (v : V) : keeps_attrs (M := M) (set_key domain key v).
Proof. unfold set_key. destruct (Marshal v); frame_world. Qed.

Lemma keeps_move_all dryRun attrs moves acc : keeps_attrs (M := M) (move_all dryRun attrs moves acc).
Proof.
  revert acc. induction moves as [|[key domain] moves IH]; intros [keys actions]; [apply keeps_attrs_ret|]. cbn [move_all].
  apply keeps_attrs_bind; [|intros [acc'|o]; [done|apply keeps_attrs_ret]]. unfold move_key.
  destruct (attrs !! key); [|apply keeps_attrs_ret]. destruct dryRun; [apply keeps_attrs_ret|].
  apply keeps_attrs_bind; [apply migrated_key_keeps|]. intros e. apply keeps_attrs_ret.
Qed.

Lemma keeps_move_incidents dryRun attrs acc : keeps_attrs (M := M) (move_incidents dryRun attrs acc).
Proof. unfold move_incidents. frame_world. Qed.

(** Without [-purge] the old copies stay, whatever the outcome of the migration. *)
Theorem migration_keeps_old dryRun : keeps_attrs (M := M) (migrate dryRun false).
Proof.
  unfold migrate. apply keeps_attrs_bind; [by intros w|]. intros [attrs|e]; [|apply keeps_attrs_ret].
  case_decide; [apply keeps_attrs_ret|].
  apply keeps_attrs_bind; [apply keeps_move_all|]. intros [acc1|o]; [|apply keeps_attrs_ret].
  apply keeps_attrs_bind; [apply keeps_move_incidents|]. intros [acc2|o]; [|apply keeps_attrs_ret].
  apply keeps_attrs_bind; [apply keeps_move_all|]. intros [[keys actions]|o]; [|apply keeps_attrs_ret].
  rewrite orb_true_r. apply keeps_attrs_ret.
Qed.

(** A moved key reads in its domain as it read among the attributes, at every type and
    whatever the domain held under it: the second run that the tool asks for, with
    [-purge], puts the old value over what the agent has recorded since the first. *)
Theorem migration_overwrites (RT : RawTotal M) attrs acc acc' key domain old w w' :
  attrs !! key = Some old → move_key false attrs acc (key, domain) w = (inl acc', w') →
  let now := w_clock w (w_ticks w) in
  in64 now → 0 < now → doc_past now domain (w_mem w) →
  ∀ U (JU : Json U), JsonCompact U → key_value domain key (w_mem w') = (Unmarshal old zero : U * bool).
Proof.
  intros Ho Hm now Hn Hp Hd U JU HU. destruct acc as [keys actions]. unfold move_key, mbind, W_bind in Hm. rewrite Ho in Hm. cbn in Hm.
  destruct (set_key domain key (Raw old) w) as [[e|] w1] eqn:Hs; [done|]. injection Hm as _ <-.
  destruct (set_key_spec _ _ _ _ _ Hs Hn Hp Hd) as (val & Hv & Hc). cbn in Hv.
  destruct (Valid old); [|done]. injection Hv as <-. unfold key_value.
  pose proof (compact_lookup _ _ key Hc) as Hk. rewrite lookup_insert_eq in Hk. destruct Hk as (raw & -> & Hraw).
  rewrite (unmarshal_same_compact raw (compact old)) by done. apply unmarshal_compact.
Qed.

End Migrate.

(** ** The client *)

(** The client's header opens the door of an agent and of a gateway that share its token. *)
Theorem client_admitted token method path : token ≠ "" →
  Server.intercept token (Some (Client.authorization token)) = true ∧
  Door.passes token method path (Server.header_get (Client.authorization token)) = true.
Proof.
  intros Ht. unfold Client.authorization. rewrite (proj2 (String.eqb_neq token "") Ht). split.
  - by apply bearer_ok_iff.
  - apply door_exact; [done|by right].
Qed.

(** The client succeeds only with an answer: it prints the card when asked for it, and
    otherwise the text of the agent's answer to a skill the card lists. *)
Theorem client_success Resolve NewFromCard SendMessage usage f env args o :
  Client.cli_main Resolve NewFromCard SendMessage usage f env args = o → Client.exit_code o = 0 →
  ∃ card, Client.New Resolve NewFromCard (Client.server f) = Ok card ∧
    (Client.info f = true ∧ Client.out o = Client.printAgentCard card ∨
     ∃ skill rest r, args = skill :: rest ∧ skill ∈ fst <$> Client.Skills card ∧
       SendMessage (Client.authorization (if String.eqb (Client.token f) "" then env else Client.token f)) (Client.buildMessage skill rest) = Ok r ∧
       Client.out o = Client.extractText r +:+ nl).
Proof.
  unfold Client.cli_main. intros <-. destruct (Client.New _ _ _) as [card|]; [|done]. destruct (Client.info f) eqn:Hi.
  { intros _. exists card. eauto. }
  destruct args as [|skill rest]; [done|]. case_bool_decide as Hs; [|done]. unfold Client.SendTask.
  destruct (SendMessage _ _) as [r|] eqn:E; [|done]. intros _. exists card. split; [done|]. right. by exists skill, rest, r.
Qed.

(** ** Tracing *)

Section Tracing.
Import Tracing.

Lemma not_above x y : Float.ltb x y = false → x ≠ S754_nan → y ≠ S754_nan → Float.leb y x = true.
Proof.
  unfold Float.ltb, Float.leb, SFltb, SFleb. destruct x as [[]|[]| |[] m e], y as [[]|[]| |[] m' e']; try done; cbn [SFcompare];
    assert (Pos.compare_cont Eq m' m = CompOpp (Pos.compare_cont Eq m m')) as Hm by (symmetry; apply (Pos.compare_cont_antisym m m' Eq));
    rewrite (Z.compare_antisym e e'), Hm; destruct (Z.compare e e'); cbn; try done; by destruct (Pos.compare_cont Eq m m').
Qed.

(** Tracing stays off without an endpoint or an exporter.  A sampler by ratio gets a
    fraction between 0 and 1, with one exception: NaN passes for a number in range. *)
Theorem sampled_fraction arg :
  ratio arg = S754_nan ∨ Float.leb Float64.zero (ratio arg) = true ∧ Float.leb (ratio arg) (Float64.of_Z 1) = true.
Proof.
  unfold ratio. destruct (Float.ParseFloat arg) as [x ok]. destruct ok; [|by right]. cbn [negb orb].
  destruct (Float.ltb x Float64.zero) eqn:El; [by right|]. cbn [orb]. destruct (Float.gtb x (Float64.of_Z 1)) eqn:Eg; [by right|].
  assert (x = S754_nan ∨ x ≠ S754_nan) as [->|Hn] by (destruct x; auto); [by left|]. right. split; by apply not_above.
Qed.

Lemma tracing_off getenv exporter name : TrimSpace (getenv endpointEnvKey) = "" ∨ exporter ≠ None → Setup getenv exporter name = None.
Proof. unfold Setup. intros [->|He]; [done|]. destruct (String.eqb _ ""); [done|]. by destruct exporter. Qed.

Lemma nan_ratio : ratio "NaN" = S754_nan.
Proof. by vm_compute. Qed.

End Tracing.

(** ** Start-up and shutdown *)

Section Life.
Import Server.
Context {S : Type}.

(** The goroutines are started and the port is opened only on a host whose configuration
    and log file could be read and whose tools could all be made; then every goroutine is
    started before the port is opened, and the last actions are the shutdown of the
    server and the flush of the traces. *)
Theorem start_up_ordered (b : boot S) a : Listen a ∈ runServer b ∨ (∃ w, Start w ∈ runServer b) →
  ∃ server tools middle, b_config b = Ok server ∧ b_log b = None ∧ b_tools b = Ok tools ∧
    runServer b = [SetUpTracing (Tracing.Setup (b_getenv b) (b_exporter b) (tracing_name (b_fqdn b) (b_hostname b)))] ++
                  (Start <$> workers) ++ [Listen (addr server)] ++ middle ++ [ShutDown; FlushTracing] ∧
    middle = match b_listener b with Some e => [ListenFailed e] | None => [] end.
Proof.
  unfold runServer. destruct (b_config b) as [server|e]; [|set_solver]. destruct (b_log b) as [e|]; [set_solver|].
  destruct (b_tools b) as [tools|e]; [|set_solver]. intros _. eexists server, tools, _. split_and!; [done..| |done].
  unfold serving. by rewrite <- !app_assoc.
Qed.

(** A process that could not start, or whose port was taken, ends with the status of a
    success. *)
Theorem failure_exits_zero (b : boot S) : (main None b).2 = 0.
Proof. done. Qed.

(** The service manager is told that the service runs until it asks for its end, whatever
    became of the server. *)
Theorem service_reports_running requests : Forall (λ r, r = SvcOther) requests →
  service_states false requests = StartPending :: replicate (Datatypes.S (length requests)) SvcRunning.
Proof.
  intros H. unfold service_states. cbn [replicate app]. do 2 f_equal. induction H as [|r rs -> _ IH]; [done|]. cbn. by rewrite IH.
Qed.

End Life.
