(* ===== verification/PlatformExamples.v ===== *)
(** * The theorems on the surveys of posture, NFS and containers, on configuration, wiring,
    the task log, the status response, the comparisons, the rotation of logs and the registry,
    on concrete inputs *)

From Corelib Require Import SpecFloat.
From S2P Require Import Prelude GoStrings GoTime GoText GoDuration Rolling Json Memory MemStore World KeyStore Agent Loop.
From S2P Require Import Timeline VitalsExamples Views Ops Posture Nfs Containers SurveyFacts Config TaskLog Status Server PlatformFacts.
From S2P Require Import Incidents DiagnosticCommand Policy ConnMonitor LoginMonitor Approval ManualRun RunApproved Patching UpdateInfo UpdateList.
From S2P Require Import Drives DiskProbes Temperature MemUse NetUse AgentFacts Toolbox ToolboxFacts.

Section SurveyExamples.

#[local] Existing Instances one_key json_state constant_mem.

(** ** Posture *)

Definition ssh_rule : Posture.BaselinePortEntry := Posture.mkBaseline 22 "tcp" "baseline" "ssh".
Definition telnet_rule : Posture.BaselinePortEntry := Posture.mkBaseline 23 "tcp" "critical" "telnet".
Definition listeners : list string := ["tcp 0.0.0.0:22 (sshd)"; "tcp [::]:23 (telnetd)"; "udp 0.0.0.0:68"].
Definition telnet_finding : Posture.portFinding := Posture.mkFinding "tcp [::]:23 (telnetd)" "critical" "telnet".

Lemma findings_witness : ∃ proto addr port,
  Posture.Entry telnet_finding ∈ listeners ∧ Posture.port_entry (Posture.Entry telnet_finding) = Some (proto, addr) ∧
  Posture.portFromAddr addr = Some port ∧
  verdict_on [ssh_rule; telnet_rule] proto port = Some ("critical", "telnet").
Proof.
  apply (findings_exact listeners [ssh_rule; telnet_rule] telnet_finding); [discriminate|].
  apply list_elem_of_In. vm_compute. left. reflexivity.
Defined.

Lemma hidden_port_witness : Posture.classifyPorts ["tcp 0.0.0.0:23 (a)b)"] [telnet_rule] = [].
Proof.
  apply (process_name_hides_port "tcp" "0.0.0.0:23" "a" "b" [telnet_rule]); [left; reflexivity|discriminate|reflexivity].
Defined.

Definition before : Posture.Snapshot := Posture.mkSnapshot ["tcp 0.0.0.0:22 (sshd)"] ["root (uid 0)"] ["root"] "" ∅ [] [].
Definition after : Posture.Snapshot := Posture.mkSnapshot listeners ["root (uid 0)"] ["root"] "" ∅ [] [].
#[local] Instance json_snapshot : Json Posture.Snapshot := fixed before before.

Definition posture_run := Posture.tool (λ _, 0) (mret after) (λ _, "") [ssh_rule] host.

Lemma drift_witness :
  ∃ health summary e, SkillState.Save (λ _, 0) "check_security_posture" health summary (write_doc Posture.domainName after host).2 = (e, posture_run.2) ∧
    health ≠ "ok".
Proof.
  destruct (drift_flagged (λ _, 0) (mret after) (λ _, "") [ssh_rule] host after host before true posture_run.1 posture_run.2)
    as (health & summary & e & Hs & _ & _ & Hok); [reflexivity|reflexivity|exact (surjective_pairing posture_run)|].
  exists health, summary, e. split; [exact Hs|]. intros E. apply Hok in E as (_ & _ & Hd). apply Hd. split; [reflexivity|].
  intros [Hp _]. assert ("tcp [::]:23 (telnetd)" ∈ Posture.ListeningPorts before) as Hin.
  { apply Hp. apply (bool_decide_unpack _). vm_compute. exact I. }
  revert Hin. apply (bool_decide_unpack _). vm_compute. exact I.
Defined.

(** ** NFS *)

Definition mounts_text : string := "srv:/a /mnt/a nfs4 rw 0 0" +:+ nl +:+ "srv:/b /mnt/b nfs rw 0 0" +:+ nl.
Definition stats_text : string :=
  "device srv:/a mounted on /mnt/a with fstype nfs4 statvers=1.1" +:+ nl +:+
  "  xprt: tcp 0 0 1 0 0 9 9 0 9 0 0 1 2500" +:+ nl +:+
  "device srv:/b mounted on /mnt/b with fstype nfs statvers=1.1" +:+ nl +:+
  "  xprt: tcp 0 0 1 0 0 9 9 0 9 0 0 1 700" +:+ nl.

Definition nfs_run := Nfs.runCheck (λ _, 0) true (mret (Ok mounts_text)) (mret (Ok stats_text)) (mret 0) host.

Lemma unmount_witness : w_run nfs_run.2 = [["umount"; "-l"; "/mnt/a"]].
Proof.
  rewrite (unmount_exact (λ _, 0) true (mret (Ok mounts_text)) (mret (Ok stats_text)) (mret 0) host (Ok mounts_text) host 0 host
    (Ok stats_text) host nfs_run.1 nfs_run.2);
    first [reflexivity|exact (surjective_pairing nfs_run)|vm_compute; discriminate].
Defined.

Lemma no_mounts_witness :
  Nfs.pre_check (λ _, 0) true (mret (Err "denied")) (mret (Ok "")) (mret 0) host = ((false, "no NFS mounts found on this host"), host).
Proof.
  apply (no_mounts_keeps_state (λ _, 0) true (mret (Err "denied")) (mret (Ok "")) (mret 0) host (Err "denied") host); reflexivity.
Defined.

(** ** Containers *)

Definition web : Containers.psEntry := Containers.mkEntry "4f1a" "web" "nginx" "running" "Up 3 hours (healthy)" "".
#[local] Instance json_entry : Json Containers.psEntry := fixed web web.
Definition docker_host : world unit := mkWorld tt (λ n, 4 * Hour + Z.of_nat n) 0 (λ _, "") 0 [] (λ _ _, ("{}", None)) [].
Definition only_docker (name : string) : bool := String.eqb name "docker".
Definition container_check := Containers.pre_check (λ _, 0) only_docker docker_host.

Lemma quiet_containers_witness : container_check.1.1 = false ∧ runtime_fine only_docker "docker" docker_host.
Proof.
  assert (container_check.1.1 = false) as E by (vm_compute; reflexivity). split; [exact E|].
  destruct container_check as [[needs text] w'] eqn:Ed. cbn in E. subst needs.
  exact (proj1 (quiet_containers (λ _, 0) only_docker docker_host text w' Ed)).
Defined.

End SurveyExamples.

(** ** Configuration *)

Definition ssh_entry : Posture.BaselinePortEntry := Posture.mkBaseline 22 "tcp" "baseline" "remote shell, sshd".
Definition vnc_entry : Posture.BaselinePortEntry :=
  Posture.mkBaseline 5900 "tcp" "critical" ("screen " +:+ Config.dq +:+ "sharing" +:+ Config.dq).
Definition padded_entry : Posture.BaselinePortEntry := Posture.mkBaseline 53 " UDP" "Info " " names ".
Definition written : list (Posture.BaselinePortEntry + list string) :=
  [inr ["Port"; "protocol"; "severity"; "description"]; inl ssh_entry; inl vnc_entry; inr ["8080"; "tcp"]; inl padded_entry; inr ["http"; "tcp"; "info"; ""]].

Definition blank : Config.Settings :=
  Config.mkSettings (Config.mkAgent "" 0 0 "" 0 "" "" "") (Config.mkLogging "" "" 0) (Config.mkTasks []) (Config.mkStorage "tasks.jsonl")
    (Config.mkServer "" 0 "" "") (Config.mkSecurity "" "") (Config.mkMemory "") (Config.mkLoop "") (Config.mkLogin [] 0 false 0)
    (Config.mkNetwork "" 0 false 0) (Config.mkStatus "") [] "" "" [].

(** The file system of a host with a configuration and a profile. *)
Definition etc (profile : string) (p : string) : Config.file :=
  if String.eqb p "/etc/agent/config.yaml" then Config.Contents "{}"
  else if String.eqb p "/etc/agent/baseline_ports.csv" then Config.Contents profile else Config.NotExist.
Definition environment (_ : string) : string := "/etc/agent/config.yaml".
Definition load (profile : string) : result string Config.Settings :=
  Config.Load "linux" (etc profile) (λ _, Ok []) environment (Some "web1") (λ _, Ok blank).

Lemma fields_plain l : forallb no_cr l = true → Forall (λ f, no_cr f = true) l.
Proof. rewrite forallb_forall, Forall_forall. intros H f Hf. by apply H, list_elem_of_In. Qed.

Lemma entry_writable e : (min64 <=? Posture.Port e) && (Posture.Port e <=? max64) && forallb no_cr (entry_row e) = true → writable (inl e).
Proof. intros [[H1 H2]%andb_true_iff H3]%andb_true_iff. split; [split; by apply Z.leb_le|by apply fields_plain]. Qed.

Lemma rows_writable : Forall writable written.
Proof.
  unfold written. apply Forall_cons. split.
  { split; [apply fields_plain; vm_compute; reflexivity|]. exists "Port", ["protocol"; "severity"; "description"].
    split; [reflexivity|]. left. vm_compute. reflexivity. }
  apply Forall_cons. split; [apply entry_writable; vm_compute; reflexivity|].
  apply Forall_cons. split; [apply entry_writable; vm_compute; reflexivity|]. apply Forall_cons. split.
  { split; [apply fields_plain; vm_compute; reflexivity|]. exists "8080", ["tcp"]. split; [reflexivity|]. right. left. cbn. lia. }
  apply Forall_cons. split; [apply entry_writable; vm_compute; reflexivity|]. apply Forall_cons. split; [|apply Forall_nil; exact I].
  split; [apply fields_plain; vm_compute; reflexivity|]. exists "http", ["tcp"; "info"; ""]. split; [reflexivity|]. right. right. vm_compute. reflexivity.
Qed.

Lemma profile_witness :
  Config.loadBaselinePorts (etc (csv_text (row_of <$> written))) "/etc/agent/config.yaml" =
    Ok [ssh_entry; vnc_entry; Posture.mkBaseline 53 "udp" "info" "names"].
Proof.
  rewrite (profile_roundtrip (etc (csv_text (row_of <$> written))) "/etc/agent/config.yaml" written rows_writable);
    [|vm_compute; reflexivity]. vm_compute. reflexivity.
Defined.

Lemma stray_quote_witness : ∃ s,
  load (csv_text (row_of <$> written) +:+ String "8" ("0" +:+ String "034" ",tcp")) = Ok s ∧ Config.BaselinePorts s = [].
Proof.
  eexists. split; [reflexivity|].
  refine (proj1 (stray_quote_disables_profile "linux"
    (etc (csv_text (row_of <$> written) +:+ String "8" ("0" +:+ String "034" ",tcp"))) (λ _, Ok []) environment (Some "web1") (λ _, Ok blank)
    written "8" "0" ",tcp" _ rows_writable _ _ _ _ _ _)); first [reflexivity|discriminate].
Defined.

Lemma complete_witness : ∃ s, load "" = Ok s ∧ Config.s_Port (Config.Server s) ≠ 0 ∧ 0 < Config.BaselineMinEvents (Config.LoginMonitor s).
Proof.
  eexists. split; [reflexivity|].
  destruct (loaded_is_complete "linux" (etc "") (λ _, Ok []) environment (Some "web1") (λ _, Ok blank) _ eq_refl)
    as (_ & H1 & _ & _ & _ & _ & _ & _ & _ & _ & _ & H2 & _). exact (conj H1 H2).
Defined.

(** ** Authentication *)

Definition locked_down : Config.SecuritySettings := Config.mkSecurity "bearer" "s3cret".
Definition params (r : Server.request) : option (list string) :=
  match Server.authorization r with [] => None | l => Some l end.
Definition approve (auth : list string) : Server.request := Server.mkRequest "/approvals/42" auth "".

Lemma bearer_witness :
  Server.serve "/card" params locked_down (approve ["Bearer guess"]) = Server.Unauthorized ∧
  Server.serve "/card" params locked_down (approve ["Bearer s3cret"]) = Server.Handled "approvals" ∧
  Server.header_get ["Bearer s3cret"] = "Bearer " +:+ "s3cret".
Proof.
  split; [vm_compute; reflexivity|]. split; [vm_compute; reflexivity|].
  apply (proj1 (bearer_guards_everything "/card" params locked_down (approve ["Bearer s3cret"]) eq_refl eq_refl)).
  left. exists "approvals". vm_compute. reflexivity.
Defined.

Lemma open_witness : Server.serve "/card" params (Config.mkSecurity "Bearer" "s3cret") (approve []) ≠ Server.Unauthorized.
Proof. apply (proj1 (other_scheme_open "/card" params (Config.mkSecurity "Bearer" "s3cret") (approve []) ltac:(discriminate))). Defined.

(** ** The task log *)

Definition pong : TaskLog.TaskRecord := TaskLog.mkRecord "1" "ping" "{}" "pong" "" "".

(** An encoding of every record in one line. *)
#[local] Instance record_eq_dec : EqDecision TaskLog.TaskRecord.
Proof. solve_decision. Defined.
#[local] Instance record_countable : Countable TaskLog.TaskRecord.
Proof.
  apply (inj_countable' (λ r, (TaskLog.ID r, TaskLog.Name r, TaskLog.Input r, TaskLog.Result r, TaskLog.Error r, TaskLog.ExecutedAt r))
    (λ '(a, b, c, d, e, f), TaskLog.mkRecord a b c d e f)). by intros [].
Defined.
#[local] Instance record_json : Json TaskLog.TaskRecord := {|
  zero := pong;
  Marshal r := Some (CountableJson.encode_text r +:+ "]");
  Unmarshal doc dst := match CountableJson.decode_text (TrimSuffix doc "]") with Some r => (r, true) | None => (dst, false) end;
|}.
#[local] Instance record_roundtrip : JsonRoundtrip TaskLog.TaskRecord.
Proof. intros r doc [= <-]. cbn. by rewrite TrimSuffix_append, CountableJson.decode_encode_text. Qed.

Lemma bits_one_line p : one_line (CountableJson.bits p).
Proof. unfold one_line. by induction p. Qed.

Lemma record_one_line (r : TaskLog.TaskRecord) doc : Marshal r = Some doc →
  doc ≠ "" ∧ one_line doc ∧ HasSuffix doc (String "013" "") = false.
Proof.
  intros [= <-]. set (x := CountableJson.encode_text r). assert (one_line x) as Hx by apply bits_one_line. split_and!.
  - by destruct x.
  - unfold one_line in *. rewrite forall_bytes_append, Hx. done.
  - unfold HasSuffix. rewrite length_append. cbn [String.length].
    replace (String.length x + 1 - 1)%nat with (String.length x) by lia. rewrite drop_bytes_append.
    by rewrite andb_false_r.
Qed.

Lemma log_witness : ∃ f', TaskLog.Append true true pong None = (None, f') ∧ TaskLog.All true f' = ([pong], None).
Proof.
  eexists. split; [reflexivity|].
  refine (proj2 (proj2 (log_roundtrip record_one_line pong _ None [] _ eq_refl eq_refl _))); [exists []; split; [reflexivity|constructor]|].
  vm_compute. reflexivity.
Defined.

(** ** The summary *)

Definition full_disk : Timeline.TimelineEntry :=
  Timeline.mkEntry "e1" "" "issue" "disk full" "/var at 99%" "critical" "" "" None None 0 "" None.

Definition one_answer : Status.system :=
  Status.mkSys (Status.mkSum "The disk is full" "" 7 true) [] [] 1 [(Status.buildSummaryPrompt [full_disk], Some " The disk is full ")].

Lemma refresh_witness :
  rtc (Status.step (λ _, "") Minute) Status.init one_answer ∧ description_ok (λ _, "") one_answer.
Proof.
  assert (rtc (Status.step (λ _, "") Minute) Status.init one_answer) as Hr.
  { eapply rtc_l; [apply (Status.step_look _ _ Status.init [full_disk] 0); vm_compute; reflexivity|].
    eapply rtc_l; [apply (Status.step_start _ _ _ [] (Status.buildSummaryPrompt [full_disk]) []); vm_compute; reflexivity|].
    eapply rtc_l; [apply (Status.step_answer _ _ _ [] (Status.buildSummaryPrompt [full_disk]) [] (Some " The disk is full ") 7); vm_compute; reflexivity|].
    vm_compute. apply rtc_refl. }
  split; [exact Hr|]. exact (proj2 (one_refresh_at_a_time (λ _, "") Minute one_answer Hr)).
Defined.

Lemma described_witness : Status.buildSummaryPrompt [full_disk] ≠ "".
Proof. apply (attention_is_described [full_disk]). vm_compute. reflexivity. Defined.

(** ** Comparisons *)

Definition yesterday : Z := 1700000000 * Second.
Definition kept : gmap string dirent :=
  {[ Itoa yesterday +:+ ".json" := EFile "1"; Itoa (yesterday + 24 * Hour) +:+ ".json" := EFile "2" ]}.
Definition today : Z := yesterday + 24 * Hour + Minute.

Lemma kept_retained name ns : retained kept name ns → ns = yesterday ∨ ns = yesterday + 24 * Hour.
Proof.
  intros (e & Hl & Hs). unfold kept in Hl. apply lookup_insert_Some in Hl as [[<- <-]|[_ Hl]].
  - left. assert (snapshot_ns (Itoa yesterday +:+ ".json") (EFile "1") = Some yesterday) as E by (vm_compute; reflexivity). congruence.
  - apply lookup_singleton_Some in Hl as [<- <-]. right.
    assert (snapshot_ns (Itoa (yesterday + 24 * Hour) +:+ ".json") (EFile "2") = Some (yesterday + 24 * Hour)) as E by (vm_compute; reflexivity). congruence.
Qed.

Definition comparison := MemoryView.baseline_points (λ target, Domain.ReadNearest no_faults target (Some (Some kept))) today.

Lemma comparison_witness :
  comparison = Some (Domain.mkSnapshot (yesterday + 24 * Hour) "2", [("day_ago", Domain.mkSnapshot yesterday "1")]) ∧
  NoDup [yesterday + 24 * Hour; yesterday].
Proof.
  assert (comparison = Some (Domain.mkSnapshot (yesterday + 24 * Hour) "2", [("day_ago", Domain.mkSnapshot yesterday "1")])) as E
    by (vm_compute; reflexivity).
  split; [exact E|].
  destruct (comparison_exact no_faults kept today (Domain.mkSnapshot (yesterday + 24 * Hour) "2") [("day_ago", Domain.mkSnapshot yesterday "1")])
    as (H & _); [|exact E|exact H].
  intros name ns Hr. destruct (kept_retained name ns Hr) as [-> | ->]; vm_compute; discriminate.
Defined.

(** ** Rotation *)

Definition logs : gmap string string :=
  {[ "agent.log" := "today"; "agent.log.1" := "yesterday"; "agent.log.2" := "before"; "agent.log.3" := "old"; "agent.log.5" := "forgotten" ]}.

Lemma rotation_witness :
  Logging.rotateLog healthy healthy healthy 6 "agent.log" 2 logs =
    Some {[ "agent.log.1" := "today"; "agent.log.2" := "yesterday"; "agent.log.5" := "forgotten" ]} ∧
  ∃ d', Logging.rotateLog healthy healthy healthy 6 "agent.log" 2 logs = Some d' ∧
    d' !! Logging.backup "agent.log" 2 = Some "yesterday" ∧ d' !! Logging.backup "agent.log" 5 = Some "forgotten".
Proof.
  split; [vm_compute; reflexivity|].
  destruct (rotation_exact "agent.log" 6 2 logs) as (d' & Hr & _ & H); [vm_compute; lia|].
  destruct (H eq_refl) as (hole & Hh & Hn & Hs & _ & _ & Hk & _ & Ha & _). exists d'. split; [exact Hr|].
  rewrite (Hk 1%nat) by lia. split; [vm_compute; reflexivity|].
  assert (hole ≤ 5)%nat as Hle; [|rewrite (Ha 5%nat) by lia; vm_compute; reflexivity].
  destruct (decide (hole ≤ 4)%nat); [lia|]. destruct (Hs 4%nat) as [x Hx]; [lia|lia|]. vm_compute in Hx. discriminate.
Defined.

(** ** The registry *)

Section ToolboxExamples.
Import Toolbox.

(** Every document decodes to one value; the standing policies hold one. *)
Definition nginx_policy : Policies.Policy := Policies.mkPolicy "p1" "restart nginx" "^systemctl restart nginx$" "low" "" true.

#[local] Instance full_mem : MemStore unit := {|
  mem_ok := λ _, True; doc_past := λ _ _ _, True;
  ReadDoc := λ A J name m, Unmarshal "" zero; WriteDoc := λ A J _ name v m, (None, m);
  GetAttr := λ A J key m, Unmarshal "" zero; AllAttrs := λ m, Ok ∅;
  SetAttr := λ A J key v m, (None, m); DelAttr := λ key m, (None, m);
|}.
#[local] Existing Instances one_key json_state json_disks json_devices json_rates json_temps stable_slice go_regexp record_json.
#[local] Instance json_policies : Json (list Policies.Policy) := fixed [] [nginx_policy].
#[local] Instance json_unit : Json unit := fixed tt tt.
#[local] Instance json_duration : Json networkUsageInput := fixed (mkNetworkUsage (Float64.of_Z 0)) (mkNetworkUsage (Float64.of_Z 0)).
#[local] Instance json_read : Json readMemoryInput := fixed (mkReadMemory "" false "") (mkReadMemory "" false "").
#[local] Instance json_compare : Json compareToBaselineInput := fixed (mkCompare "") (mkCompare "").
#[local] Instance json_findings : Json reportFindingsInput := fixed (mkReportFindings []) (mkReportFindings []).
#[local] Instance json_request : Json requestApprovalInput := fixed (mkRequestApproval "" "" "" "" "") (mkRequestApproval "" "" "" "" "").
#[local] Instance json_command : Json runCommandInput :=
  fixed (mkRunCommand "" "" "" "" "") (mkRunCommand "" "systemctl restart nginx" "it hangs" "low" "low").
#[local] Instance json_diagnostic : Json runDiagnosticInput := fixed (mkRunDiagnostic "" "") (mkRunDiagnostic " uptime" "").
#[local] Instance json_incident : Json MemoryView.incident_input :=
  fixed (MemoryView.mkInput "" "" "" "" "" "") (MemoryView.mkInput "" "" "" "" "" "").
#[local] Instance json_text : Json string := fixed "" "".
#[local] Instance json_note : Json notification := fixed (mkNote "" "" 0) (mkNote "" "" 0).
Definition no_approval : Approval.ApprovalEntry := Approval.mkApproval "" "" "" "" "" "" "pending" 0 None "" 0 "" false "" "" false.
#[local] Instance json_approval : Json Approval.ApprovalEntry := fixed no_approval no_approval.
Definition no_manual_run : ManualRun.ManualRunEntry := ManualRun.mkRun "" "" "" "" "" "" "" "" 0 None.
#[local] Instance json_manual : Json ManualRun.ManualRunEntry := fixed no_manual_run no_manual_run.
#[local] Instance json_timeline : Json (list Timeline.TimelineEntry) := fixed [] [].
#[local] Instance json_incidents : Json (list Incidents.Incident) := fixed [] [].
#[local] Instance json_smart : Json DiskProbes.smartctlOutput := fixed (DiskProbes.mkSmartctl None None None None) (DiskProbes.mkSmartctl None None None None).
#[local] Instance json_usage : Json (list MemUse.UsageSample) := fixed [] [].
#[local] Instance json_container : Json Containers.psEntry := fixed web web.
#[local] Instance json_snap : Json Posture.Snapshot := fixed before before.
#[local] Instance json_conns : Json (list ConnMonitor.ConnEvent) := fixed [] [].
#[local] Instance json_logins : Json (list LoginMonitor.LoginEvent) := fixed [] [].
#[local] Instance json_failures : Json (list LoginMonitor.FailedLoginEvent) := fixed [] [].
#[local] Instance json_nvd : Json Nvd.nvdResponse := fixed (Nvd.mkResponse []) (Nvd.mkResponse []).
#[local] Instance json_canonical : Json UpdateList.canonicalResponse := fixed (UpdateList.mkCanonicalResponse None) (UpdateList.mkCanonicalResponse None).
#[local] Instance json_redhat : Json UpdateList.redhatResponse :=
  fixed (UpdateList.mkRedhat "" (Float64.of_Z 0)) (UpdateList.mkRedhat "" (Float64.of_Z 0)).
#[local] Instance json_run : Json Loop.RunState := fixed (Loop.mkRun "" "" "") (Loop.mkRun "" "" "").
#[local] Instance no_net : Net (world unit) := {|
  Get := λ url w, (Err (NetError "unreachable"), w); Now := λ w, (0, w); Await := λ d w, (None, w); CtxErr := λ w, None;
|}.

(** A host of which little can be read. *)
Definition bare : machine unit := {|
  local_zone := λ _, 0; uid := 1000; hostname := "web1"; kernel := None;
  read_file := λ _ _, Err "absent"; stat_file := λ _ _, StatNotExist; stat_entry := λ _ _, None; read_dir := λ _ _, Err "absent";
  sudoers_d := λ _, None; eval_symlinks := λ _ _, None; walk := λ _ _, []; statfs := λ _ _, None; device_id := λ _, (0, false);
  dm_slaves := λ _ _, []; proc := λ _, Err "absent"; thermal_zones := λ _, Ok []; sys_block := λ _, None; interfaces := λ _, None;
  num_cpu := 4; smartctl_installed := false; runtime_installed := λ _, false; sessions := λ _, Ok []; sha256 := id;
  pause := λ _ _, None; walk_done := λ _ _, None; zones_done := λ _, false; cancelled := "context canceled";
  domain_files := λ _ _, None; disk_faults := no_faults; visit_strings := map_to_list; visit_disks := visit_trends;
  visit_smart := visit_attrs; visit_temps := λ m, snd <$> map_to_list m; dm_depth := 8%nat;
  nvd_state := λ _, Nvd.init; lookups := λ w _, Nvd.mkEnrich w Nvd.init; approval_events := λ _, []; manual_events := λ _, [];
  mem_text := λ _, ""; incident_text := λ _, ""; invalid_text := λ _ _, ""; Toolbox.decode_text := λ _, ""; ss_text := "";
  history_json := λ _, ""; baseline_json := λ _ _ _, None; Toolbox.incidents_json := λ _, None; describe := id; schema := id;
|}.

(** A model that asks for a diagnostic and for a restart, and reports. *)
Definition eager {S} (req : Agent.request) (s : S) : result string (list Agent.choice) * S :=
  (Ok [if (length (Agent.r_messages req) <=? 2)%nat
       then Agent.mkChoice "tool_calls" "" [Agent.mkCall "1" "run_diagnostic_command" "{}"; Agent.mkCall "2" "run_approved_command" "{}"]
       else Agent.mkChoice "stop" "done" []], s).

Definition keeper : Loop.Responsibility :=
  Loop.mkResp (Loop.mkRS "keep-nginx" "1h" "" "Keep nginx running." ["run_diagnostic_command"; "run_approved_command"] "never")
    true Hour (mkTime 0 0) "" "".
Definition brief : Agent.settings := Agent.mkSettings "m" 100 0 5 "" "" "web1".

Definition kept_run := Loop.execute (loop_env bare brief "" [] eager) keeper host.

Lemma responsibility_witness :
  w_run kept_run.2 = [["sh"; "-c"; "uptime"]; ["sudo"; "-n"; "sh"; "-c"; "systemctl restart nginx"]] ∧
  rtc (λ w w', agent_step bare [] eager w w' ∧ accounted bare w w') host kept_run.2.
Proof.
  split; [vm_compute; reflexivity|].
  exact (responsibility_accounted bare (λ _ _, eq_refl) (λ _, eq_refl) (λ _ _, eq_refl) [] eager (λ _ _, eq_refl) brief "" keeper host).
Defined.

Definition desk : TaskLog.process (world unit) := TaskLog.mkProcess host None (λ _, 0) 0.

Lemma message_witness :
  let a := Agent.New (Server.interactive_tools true true (toolbox bare [])) brief in
  let run input p := let '(r, h) := Agent.Run eager a input (Agent.mkHost p []) in (r, Agent.h_state h) in
  w_run (TaskLog.p_inner (Server.Execute run (Some ["Is nginx up?"]) desk).2) =
    [["sh"; "-c"; "uptime"]; ["sudo"; "-n"; "sh"; "-c"; "systemctl restart nginx"]] ∧
  rtc (λ p p', activity eager (Agent.tools a) p p' ∧ accounted bare (TaskLog.p_inner p) (TaskLog.p_inner p'))
    desk (Server.Execute run (Some ["Is nginx up?"]) desk).2.
Proof.
  cbv zeta. split; [vm_compute; reflexivity|].
  exact (message_accounted bare (λ _ _, eq_refl) (λ _, eq_refl) (λ _ _, eq_refl) [] eager (λ _ _, eq_refl) true true brief (Some ["Is nginx up?"]) desk).
Defined.

End ToolboxExamples.
