(* ===== verification/Stats.v ===== *)
(** * The gateway's statistics ([llm-gateway/stats.go])

    Sliding windows of 25 hours over request, error, duration and outcome events, the
    registry of live requests, token and prompt extraction, and persistence.  Each
    method runs under the locks of the source and is one function here; [time.Now] is
    an argument, the order of iteration over a map a parameter. *)

From S2P Require Import Prelude GoStrings GoTime GoText Json Memory.

Module Stats.

(** [time.Time{}]: the first of January of the year 1. *)
Definition zeroTime : Z := -62135596800 * Second.

Definition retention : Z := 25 * Hour.

Record requestEvent := mkEvent { at_ : Z; tokens : Z }.
Record durationEvent := mkDuration { d_at : Z; d_wait : Z; d_inference : Z }.
Record outcomeEvent := mkOutcome { o_at : Z; o_success : bool }.

Record totalCounters := mkTotal { t_tokens : Z; t_requests : Z }.

Record errorStats := mkErrors { e_events : list Z; e_total : Z }.

Record endpointStats := mkEndpoint {
  host : string;
  name : string;
  events : list requestEvent;
  total : totalCounters;
  pending : Z;
  lastSeen : Z;
}.

Record responsibilityStats := mkResponsibility {
  r_name : string;
  r_events : list requestEvent;
  r_total : totalCounters;
  r_lastSeen : Z;
}.

Record pendingDetail := mkDetail {
  p_host : string; p_name : string; p_responsibility : string;
  prompt : string; submittedAt : Z; priority : bool;
}.

Record Tracker := mkTracker {
  endpoints : gmap string endpointStats;
  responsibilities : gmap string responsibilityStats;
  pendingMap : gmap string pendingDetail;
  incomingErrors : errorStats;
  outgoingErrors : errorStats;
  durations : list durationEvent;
  outcomes : list outcomeEvent;
}.

Definition NewTracker : Tracker := mkTracker ∅ ∅ ∅ (mkErrors [] 0) (mkErrors [] 0) [] [].

(** ** Windows *)

(** The scan every [prune] makes: events are dropped up to the first that is not
    before the cutoff. *)
Fixpoint drop_before {A} (time : A → Z) (cutoff : Z) (l : list A) : list A :=
  match l with
  | [] => []
  | e :: l' => if time e <? cutoff then drop_before time cutoff l' else l
  end.

(** The backwards scan of every window: the newest events, up to the first that is
    older than the window. *)
Fixpoint scan_window {A} (time : A → Z) (now window : Z) (newest_first : list A) : list A :=
  match newest_first with
  | [] => []
  | e :: l' => if window <? time_sub now (time e) then [] else e :: scan_window time now window l'
  end.

Definition in_window {A} (time : A → Z) (now window : Z) (l : list A) : list A :=
  scan_window time now window (rev l).

Definition errors_prune (now : Z) (e : errorStats) : errorStats :=
  mkErrors (drop_before id (now - retention) (e_events e)) (e_total e).

Definition errors_record (now : Z) (e : errorStats) : errorStats :=
  errors_prune now (mkErrors (e_events e ++ [now]) (wrap64 (e_total e + 1))).

Definition windowCount (now window : Z) (e : errorStats) : Z :=
  foldl (λ n _, wrap64 (n + 1)) 0 (in_window id now window (e_events e)).

Definition durations_prune (now : Z) (l : list durationEvent) : list durationEvent :=
  drop_before d_at (now - retention) l.

Definition durations_record (now wait inference : Z) (l : list durationEvent) : list durationEvent :=
  durations_prune now (l ++ [mkDuration now wait inference]).

Definition windowAvg (now window : Z) (l : list durationEvent) : Z * Z :=
  let '(sumWait, sumInference, count) :=
    foldl (λ '(w, i, n) e, (wrap64 (w + d_wait e), wrap64 (i + d_inference e), n + 1)) (0, 0, 0)
      (in_window d_at now window l) in
  if 0 <? count then (Z.quot sumWait count, Z.quot sumInference count) else (0, 0).

Definition outcomes_prune (now : Z) (l : list outcomeEvent) : list outcomeEvent :=
  drop_before o_at (now - retention) l.

Definition outcomes_record (now : Z) (success : bool) (l : list outcomeEvent) : list outcomeEvent :=
  outcomes_prune now (l ++ [mkOutcome now success]).

Definition windowSums (now window : Z) (l : list requestEvent) : Z * Z :=
  foldl (λ '(t, r) e, (wrap64 (t + tokens e), wrap64 (r + 1))) (0, 0) (in_window at_ now window l).

Definition events_prune (now : Z) (l : list requestEvent) : list requestEvent :=
  drop_before at_ (now - retention) l.

Definition add_total (t : totalCounters) (tok : Z) : totalCounters :=
  mkTotal (wrap64 (t_tokens t + tok)) (wrap64 (t_requests t + 1)).

(** ** The tracker *)

Definition with_endpoints (f : gmap string endpointStats → gmap string endpointStats) (t : Tracker) : Tracker :=
  mkTracker (f (endpoints t)) (responsibilities t) (pendingMap t) (incomingErrors t) (outgoingErrors t)
    (durations t) (outcomes t).

Definition with_responsibilities (f : gmap string responsibilityStats → gmap string responsibilityStats)
    (t : Tracker) : Tracker :=
  mkTracker (endpoints t) (f (responsibilities t)) (pendingMap t) (incomingErrors t) (outgoingErrors t)
    (durations t) (outcomes t).

Definition with_pending (f : gmap string pendingDetail → gmap string pendingDetail) (t : Tracker) : Tracker :=
  mkTracker (endpoints t) (responsibilities t) (f (pendingMap t)) (incomingErrors t) (outgoingErrors t)
    (durations t) (outcomes t).

Definition RecordIncomingConnError (now : Z) (t : Tracker) : Tracker :=
  mkTracker (endpoints t) (responsibilities t) (pendingMap t) (errors_record now (incomingErrors t))
    (outgoingErrors t) (durations t) (outcomes t).

Definition RecordOutgoingConnError (now : Z) (t : Tracker) : Tracker :=
  mkTracker (endpoints t) (responsibilities t) (pendingMap t) (incomingErrors t)
    (errors_record now (outgoingErrors t)) (durations t) (outcomes t).

Definition RecordDuration (submitted inferenceStart completed : Z) (t : Tracker) : Tracker :=
  mkTracker (endpoints t) (responsibilities t) (pendingMap t) (incomingErrors t) (outgoingErrors t)
    (durations_record completed (time_sub inferenceStart submitted) (time_sub completed inferenceStart) (durations t))
    (outcomes t).

Definition RecordOutcome (now : Z) (success : bool) (t : Tracker) : Tracker :=
  mkTracker (endpoints t) (responsibilities t) (pendingMap t) (incomingErrors t) (outgoingErrors t)
    (durations t) (outcomes_record now success (outcomes t)).

(** [get]: the entry of a host, made on first use. *)
Definition get (h n : string) (t : Tracker) : endpointStats :=
  default (mkEndpoint h n [] (mkTotal 0 0) 0 zeroTime) (endpoints t !! h).

Definition getResponsibility (n : string) (t : Tracker) : responsibilityStats :=
  default (mkResponsibility n [] (mkTotal 0 0) zeroTime) (responsibilities t !! n).

Definition add_pending (d : Z) (e : endpointStats) : endpointStats :=
  mkEndpoint (host e) (name e) (events e) (total e) (wrap64 (pending e + d)) (lastSeen e).

(** ** Prompts and tokens *)

Record message := mkMessage { Role : string; Content : string }.
Record promptRequest := mkPromptRequest { System : string; Prompt : string; Messages : list message }.
Record block := mkBlock { Type_ : string; Text : string }.
Record usageResponse := mkUsage { TotalTokens : Z; PromptEvalCount : Z; EvalCount : Z }.

Definition truncatePrompt (s : string) : string :=
  if (String.length s <=? Z.to_nat 2000)%nat then s else take_bytes (Z.to_nat 2000) s +:+ "…".

Section Extract.
Context `{!Json promptRequest, !Json string, !Json (list block), !Json usageResponse}.

(** The text of a user message: a string, or the first non-empty text block. *)
Definition message_text (m : message) : option string :=
  match Unmarshal (Content m) ("" : string) with
  | (s, true) => Some s
  | (_, false) =>
      match Unmarshal (Content m) ([] : list block) with
      | (blocks, true) =>
          Text <$> List.find (λ b, String.eqb (Type_ b) "text" && negb (String.eqb (Text b) "")) blocks
      | (_, false) => None
      end
  end.

(** The scan of the messages, newest first. *)
Fixpoint last_user_text (newest_first : list message) : option string :=
  match newest_first with
  | [] => None
  | m :: rest =>
      if negb (String.eqb (Role m) "user") then last_user_text rest
      else match message_text m with Some s => Some s | None => last_user_text rest end
  end.

Definition extractPrompt (body : string) : string :=
  if (String.length body =? 0)%nat then ""
  else match Unmarshal body (zero : promptRequest) with
       | (_, false) => truncatePrompt body
       | (req, true) =>
           match last_user_text (rev (Messages req)) with
           | Some s => truncatePrompt s
           | None =>
               if negb (String.eqb (System req) "") then truncatePrompt (System req)
               else if negb (String.eqb (Prompt req) "") then truncatePrompt (Prompt req)
               else truncatePrompt body
           end
       end.

Definition extractTokensJSON (data : string) : Z :=
  match Unmarshal data (zero : usageResponse) with
  | (_, false) => 0
  | (resp, true) =>
      if 0 <? TotalTokens resp then TotalTokens resp else wrap64 (PromptEvalCount resp + EvalCount resp)
  end.

(** [bytes.Split(data, "\n")]. *)
Fixpoint split_lines (s : string) : list string :=
  match s with
  | "" => [""]
  | String c s' =>
      if code c =? 10 then "" :: split_lines s'
      else match split_lines s' with
           | l :: ls => String c l :: ls
           | [] => [String c ""]
           end
  end.

Fixpoint sse_scan (newest_first : list string) : Z :=
  match newest_first with
  | [] => 0
  | raw :: rest =>
      let line := TrimPrefix (TrimSpace raw) "data: " in
      if negb (HasPrefix line "{") then sse_scan rest
      else let t := extractTokensJSON line in
           if 0 <? t then t else sse_scan rest
  end.

Definition extractTokensSSE (data : string) : Z := sse_scan (rev (split_lines data)).

Definition extractTokens (contentType data : string) : Z :=
  if Contains contentType "text/event-stream" then extractTokensSSE data else extractTokensJSON data.

Definition IncrPending (h n r id body : string) (submitted : Z) (prio : bool) (t : Tracker) : Tracker :=
  with_pending (insert id (mkDetail h n r (extractPrompt body) submitted prio))
    (with_endpoints (insert h (add_pending 1 (get h n t))) t).

End Extract.

Definition DecrPending (h id : string) (t : Tracker) : Tracker :=
  with_pending (delete id) (with_endpoints (insert h (add_pending (-1) (get h "" t))) t).

(** What [Record] does to the entry of a host and of a responsibility. *)
Definition record_endpoint (now tok : Z) (e : endpointStats) : endpointStats :=
  mkEndpoint (host e) (name e) (events_prune now (events e ++ [mkEvent now tok])) (add_total (total e) tok)
    (pending e) now.

Definition record_responsibility (now tok : Z) (r : responsibilityStats) : responsibilityStats :=
  mkResponsibility (r_name r) (events_prune now (r_events r ++ [mkEvent now tok])) (add_total (r_total r) tok) now.

Definition Record_ (now : Z) (h n r : string) (tok : Z) (t : Tracker) : Tracker :=
  let t := with_endpoints (insert h (record_endpoint now tok (get h n t))) t in
  if String.eqb r "" then t
  else with_responsibilities (insert r (record_responsibility now tok (getResponsibility r t))) t.

(** [Reset]: live pending counts and the registry are kept. *)
Definition reset_endpoint (e : endpointStats) : endpointStats :=
  mkEndpoint (host e) (name e) [] (mkTotal 0 0) (pending e) zeroTime.

Definition reset_responsibility (r : responsibilityStats) : responsibilityStats :=
  mkResponsibility (r_name r) [] (mkTotal 0 0) zeroTime.

Definition Reset (t : Tracker) : Tracker :=
  mkTracker (reset_endpoint <$> endpoints t) (reset_responsibility <$> responsibilities t) (pendingMap t)
    (mkErrors [] 0) (mkErrors [] 0) [] [].

(** ** Views *)

Record EndpointStatsSnapshot := mkEndpointSnap {
  s_Host : string; s_Name : string; s_PendingRequests : Z;
  s_TokensLastHour : Z; s_TokensLastDay : Z; s_TokensTotal : Z;
  s_RequestsLastHour : Z; s_RequestsLastDay : Z; s_RequestsTotal : Z; s_LastSeen : Z;
}.

Record ResponsibilityStatsSnapshot := mkResponsibilitySnap {
  rs_Name : string;
  rs_TokensLastHour : Z; rs_TokensLastDay : Z; rs_TokensTotal : Z;
  rs_RequestsLastHour : Z; rs_RequestsLastDay : Z; rs_RequestsTotal : Z; rs_LastSeen : Z;
}.

Record PendingRequestSnapshot := mkPendingSnap { ps_ID : string; ps_detail : pendingDetail }.

(** What [Snapshot] reads of the gateway: queue lengths and capacities, the
    semaphore, the ghost counters and the upstream. *)
Record gauges := mkGauges {
  g_queue : Z; g_queue_cap : Z; g_priority : Z; g_priority_cap : Z; g_active : Z; g_max : Z;
  g_ghostNormal : Z; g_ghostPriority : Z; g_upstream : string; g_model : string;
}.

Record GatewayStatsResponse := mkStats {
  GeneratedAt : Z; TotalPending : Z; ActiveRequests : Z; QueuedRequests : Z; PriorityQueuedRequests : Z;
  GhostRequests : Z; MaxConcurrency : Z; QueueCapacity : Z; PriorityQueueCapacity : Z;
  Upstream : string; UpstreamModel : string;
  Endpoints : list EndpointStatsSnapshot; Responsibilities : list ResponsibilityStatsSnapshot;
  IncomingConnErrorsLastHour : Z; IncomingConnErrorsTotal : Z;
  OutgoingConnErrorsLastHour : Z; OutgoingConnErrorsTotal : Z;
  AvgTotalDurationMsLastHour : Z; AvgWaitDurationMsLastHour : Z; AvgInferenceDurationMsLastHour : Z;
}.

Definition Milliseconds (d : Z) : Z := Z.quot d 1000000.

Definition endpoint_snap (now : Z) (h : string) (e : endpointStats) : EndpointStatsSnapshot :=
  let '(hourTok, hourReq) := windowSums now Hour (events e) in
  let '(dayTok, dayReq) := windowSums now (24 * Hour) (events e) in
  mkEndpointSnap h (name e) (pending e) hourTok dayTok (t_tokens (total e)) hourReq dayReq
    (t_requests (total e)) (lastSeen e).

Definition responsibility_snap (now : Z) (n : string) (r : responsibilityStats) : ResponsibilityStatsSnapshot :=
  let '(hourTok, hourReq) := windowSums now Hour (r_events r) in
  let '(dayTok, dayReq) := windowSums now (24 * Hour) (r_events r) in
  mkResponsibilitySnap n hourTok dayTok (t_tokens (r_total r)) hourReq dayReq (t_requests (r_total r)) (r_lastSeen r).

Section Views.
Context (order : ∀ A, gmap string A → list (string * A)).

Definition Snapshot (now : Z) (g : gauges) (t : Tracker) : GatewayStatsResponse :=
  let queued := Z.max 0 (g_queue g - g_ghostNormal g) in
  let priorityQueued := Z.max 0 (g_priority g - g_ghostPriority g) in
  let '(avgWait, avgInference) := windowAvg now Hour (durations t) in
  mkStats now (queued + priorityQueued + g_active g) (g_active g) queued priorityQueued
    (g_ghostNormal g + g_ghostPriority g) (g_max g) (g_queue_cap g) (g_priority_cap g) (g_upstream g) (g_model g)
    ((λ '(h, e), endpoint_snap now h e) <$> order _ (endpoints t))
    ((λ '(n, r), responsibility_snap now n r) <$> order _ (responsibilities t))
    (windowCount now Hour (incomingErrors t)) (e_total (incomingErrors t))
    (windowCount now Hour (outgoingErrors t)) (e_total (outgoingErrors t))
    (Milliseconds (wrap64 (avgWait + avgInference))) (Milliseconds avgWait) (Milliseconds avgInference).

Definition submitted_before (a b : PendingRequestSnapshot) : bool :=
  submittedAt (ps_detail a) <? submittedAt (ps_detail b).

Definition PendingSnapshot (t : Tracker) : list PendingRequestSnapshot :=
  SliceStable submitted_before ((λ '(id, d), mkPendingSnap id d) <$> order _ (pendingMap t)).

End Views.

Definition HistorySnapshot (t : Tracker) : list (Z * bool) := (λ e, (o_at e, o_success e)) <$> outcomes t.

(** GET /stats/history, and GET /pending; the error of writing the answer is only logged. *)
Record RequestHistoryResponse := mkHistory { hr_GeneratedAt : Z; hr_Events : list (Z * bool) }.
Definition historyHandler (now : Z) (t : Tracker) : RequestHistoryResponse := mkHistory now (HistorySnapshot t).

Definition pendingHandler (order : ∀ A, gmap string A → list (string * A)) (now : Z) (t : Tracker) : Z * list PendingRequestSnapshot :=
  (now, PendingSnapshot order t).

(** [limitedCapture.Write] on a buffer of at most [max] bytes. *)
Definition capture (max : nat) (buf p : string) : string :=
  let remaining := (max - String.length buf)%nat in
  if (0 <? remaining)%nat
  then buf +:+ (if (remaining <? String.length p)%nat then take_bytes remaining p else p)
  else buf.

(** ** Persistence *)

Definition persistenceVersion : Z := 1.

Record persistedEndpoint := mkPEndpoint {
  pe_Host : string; pe_Name : string; pe_LastSeen : Z; pe_TotalTokens : Z; pe_TotalRequests : Z;
  pe_Events : list requestEvent;
}.

Record persistedResponsibility := mkPResponsibility {
  pr_Name : string; pr_LastSeen : Z; pr_TotalTokens : Z; pr_TotalRequests : Z; pr_Events : list requestEvent;
}.

Record persistedState := mkState {
  Version : Z; SavedAt : Z;
  st_Endpoints : list persistedEndpoint; st_Responsibilities : list persistedResponsibility;
  IncomingConnErrors : errorStats; OutgoingConnErrors : errorStats;
  Durations : list durationEvent; Outcomes : list outcomeEvent;
}.

Inductive stats_error := SRead | SParse | SVersion (v : Z) | SMarshal | SWriteTmp | SRename.

Definition persist_endpoint (e : endpointStats) : persistedEndpoint :=
  mkPEndpoint (host e) (name e) (lastSeen e) (t_tokens (total e)) (t_requests (total e)) (events e).

Definition persist_responsibility (r : responsibilityStats) : persistedResponsibility :=
  mkPResponsibility (r_name r) (r_lastSeen r) (t_tokens (r_total r)) (t_requests (r_total r)) (r_events r).

(** [sort.Strings] on the keys of a map. *)
Definition sorted_entries {A} (m : gmap string A) : list A :=
  (SliceStable (λ a b, str_ltb a.1 b.1) (map_to_list m)).*2.

Definition state_of (now : Z) (t : Tracker) : persistedState :=
  mkState persistenceVersion now (persist_endpoint <$> sorted_entries (endpoints t))
    (persist_responsibility <$> sorted_entries (responsibilities t))
    (incomingErrors t) (outgoingErrors t) (durations t) (outcomes t).

(** Events at or after the cutoff. *)
Definition recent {A} (time : A → Z) (cutoff : Z) (l : list A) : list A := List.filter (λ e, negb (time e <? cutoff)) l.

Definition load_endpoint (cutoff : Z) (p : persistedEndpoint) : endpointStats :=
  mkEndpoint (pe_Host p) (pe_Name p) (recent at_ cutoff (pe_Events p))
    (mkTotal (pe_TotalTokens p) (pe_TotalRequests p)) 0 (pe_LastSeen p).

Definition load_responsibility (cutoff : Z) (p : persistedResponsibility) : responsibilityStats :=
  mkResponsibility (pr_Name p) (recent at_ cutoff (pr_Events p))
    (mkTotal (pr_TotalTokens p) (pr_TotalRequests p)) (pr_LastSeen p).

Definition load_errors (cutoff : Z) (e : errorStats) : errorStats :=
  mkErrors (recent id cutoff (e_events e)) (e_total e).

(** What [Load] does with a decoded state of the right version. *)
Definition restore (now : Z) (st : persistedState) (t : Tracker) : Tracker :=
  let cutoff := now - retention in
  mkTracker
    (foldl (λ m p, <[pe_Host p := load_endpoint cutoff p]> m) (endpoints t) (st_Endpoints st))
    (foldl (λ m p, <[pr_Name p := load_responsibility cutoff p]> m) (responsibilities t) (st_Responsibilities st))
    (pendingMap t)
    (load_errors cutoff (IncomingConnErrors st)) (load_errors cutoff (OutgoingConnErrors st))
    (recent d_at cutoff (Durations st)) (recent o_at cutoff (Outcomes st)).

Section Persistence.
Context `{!Json persistedState}.

(** The file is [None] when it does not exist; [readable] is false when reading it
    fails for another reason. *)
Definition Load (readable : bool) (now : Z) (file : option string) (t : Tracker) : option stats_error * Tracker :=
  match file with
  | None => (None, t)
  | Some data =>
      if negb readable then (Some SRead, t)
      else match Unmarshal data (zero : persistedState) with
           | (_, false) => (Some SParse, t)
           | (st, true) =>
               if negb (Version st =? persistenceVersion) then (Some (SVersion (Version st)), t)
               else (None, restore now st t)
           end
  end.

(** [Save]: a temporary file, then a rename. *)
Definition Save (write_fails rename_fails : bool) (now : Z) (t : Tracker) (file : option string) :
    option stats_error * option string :=
  match Marshal (state_of now t) with
  | None => (Some SMarshal, file)
  | Some data =>
      if write_fails then (Some SWriteTmp, file)
      else if rename_fails then (Some SRename, file)
      else (None, Some data)
  end.

End Persistence.

End Stats.
