(* ===== verification/StatsFacts.v ===== *)
(** * Correctness of the gateway's statistics *)

From S2P Require Import Prelude GoStrings GoTime GoText Json Memory Stats.

Import Stats.

(** ** Sliding windows over logs *)

Section Window.
Context {A : Type} (time : A → Z).

(** The reference: every event of the window. *)
Definition within (now window : Z) (l : list A) : list A := List.filter (λ e, now - time e <=? window) l.

Lemma recent_recent c c' l : c ≤ c' → recent time c' (recent time c l) = recent time c' l.
Proof.
  intros Hc. induction l as [|e l IH]; [done|]. unfold recent in *. simpl.
  destruct (Z.ltb_spec (time e) c), (Z.ltb_spec (time e) c'); simpl; try lia; [done| |];
    destruct (Z.ltb_spec (time e) c'); try lia; simpl; by rewrite ?IH.
Qed.

Lemma within_recent now window cutoff l :
  cutoff ≤ now - window → within now window (recent time cutoff l) = within now window l.
Proof.
  intros Hc. induction l as [|e l IH]; [done|]. unfold recent, within in *. simpl.
  destruct (Z.ltb_spec (time e) cutoff), (Z.leb_spec (now - time e) window); simpl; try lia; try done;
    destruct (Z.leb_spec (now - time e) window); try lia; by rewrite ?IH.
Qed.

(** What each append does to a log. *)
Definition append_pruned (l : list A) (e : A) : list A := drop_before time (time e - retention) (l ++ [e]).

(** Pruning drops a prefix of old events, and nothing that is still recent, in whatever
    order the log is. *)
Lemma drop_before_sublist cutoff l : drop_before time cutoff l `sublist_of` l.
Proof. induction l as [|e l IH]; [done|]. cbn. destruct (_ <? _); [by apply sublist_cons|done]. Qed.

Lemma drop_before_keeps c c' l : c' ≤ c → recent time c (drop_before time c' l) = recent time c l.
Proof.
  intros Hc. induction l as [|e l IH]; [done|]. cbn [drop_before]. unfold recent in *. cbn [List.filter].
  destruct (Z.ltb_spec (time e) c'), (Z.ltb_spec (time e) c); try lia; cbn; try done.
  all: destruct (Z.ltb_spec (time e) c); try lia; done.
Qed.

Lemma recent_sublist c l : recent time c l `sublist_of` l.
Proof. unfold recent. induction l as [|e l IH]; [done|]. cbn. destruct (negb _); by constructor. Qed.

(** A log in which no event is more than [d] older than one recorded before it. *)
Definition skewed (d : Z) : list A → Prop := StronglySorted (λ a b, time a ≤ time b + d).

Lemma skewed_sublist d l l' : l `sublist_of` l' → skewed d l' → skewed d l.
Proof.
  induction 1 as [|x l l' Hs IH|x l l' Hs IH]; inversion 1; subst; [constructor| |by apply IH].
  constructor; [by apply IH|]. rewrite Forall_forall in * |- *. eauto using elem_of_sublist.
Qed.

Lemma within_app now window l l' : within now window (l ++ l') = within now window l ++ within now window l'.
Proof. apply List.filter_app. Qed.

(** The backwards scan counts only events of the window, and misses none that is inside
    it by the skew of the log. *)
Lemma scan_bounds now window d l : min64 < window < max64 → 0 ≤ d → skewed d l →
  within now (window - d) l `sublist_of` rev (in_window time now window l) ∧
  rev (in_window time now window l) `sublist_of` within now window l.
Proof.
  intros Hw Hd. unfold in_window. induction l as [|e l IH] using rev_ind; intros Hs; [done|].
  assert (skewed d l) as Hl by (eapply skewed_sublist; [|exact Hs]; by apply sublist_inserts_r).
  rewrite List.rev_app_distr. cbn [rev app scan_window]. pose proof (time_sub_le now (time e) window Hw) as Ht.
  rewrite !within_app. unfold within at 2 4. cbn [List.filter].
  destruct (Z.ltb_spec window (time_sub now (time e))), (Z.leb_spec (now - time e) window); try lia.
  - rewrite (proj2 (Z.leb_gt _ _)) by lia. rewrite app_nil_r. split; [|apply sublist_nil_l].
    enough (within now (window - d) l = []) as -> by done. unfold within.
    assert (Forall (λ x, time x ≤ time e + d) l) as Ha.
    { apply Forall_forall. intros x Hx. apply (StronglySorted_app_1_elem_of (λ a b, time a ≤ time b + d) l [e]); [done|done|by apply list_elem_of_singleton]. }
    clear -Ha H0. induction Ha as [|x l Hx Ha IH]; [done|]. cbn. by rewrite (proj2 (Z.leb_gt _ _)) by lia.
  - cbn [rev]. destruct (IH Hl) as [H1 H2]. split; [|by apply sublist_app].
    destruct (_ <=? _); [by apply sublist_app|]. rewrite app_nil_r. by apply sublist_inserts_r.
Qed.

End Window.

(** ** Sums *)

Lemma wrap64_add x y : wrap64 (wrap64 x + y) = wrap64 (x + y).
Proof.
  unfold wrap64. f_equal. set (q := 18446744073709551616).
  replace ((x - min64) mod q + min64 + y - min64) with ((x - min64) mod q + y) by lia.
  replace (x + y - min64) with ((x - min64) + y) by lia. by rewrite Zplus_mod_idemp_l.
Qed.

Definition sum_tokens (l : list requestEvent) : Z := foldr (λ e n, tokens e + n) 0 l.

Lemma sum_tokens_app l l' : sum_tokens (l ++ l') = sum_tokens l + sum_tokens l'.
Proof. induction l as [|e l IH]; simpl; [done|]. rewrite IH. lia. Qed.

Lemma sum_tokens_rev l : sum_tokens (rev l) = sum_tokens l.
Proof. induction l as [|e l IH]; simpl; [done|]. rewrite sum_tokens_app, IH. simpl. lia. Qed.

Lemma sums_fold l a b :
  foldl (λ '(t, r) e, (wrap64 (t + tokens e), wrap64 (r + 1))) (wrap64 a, wrap64 b) l =
    (wrap64 (a + sum_tokens l), wrap64 (b + Z.of_nat (length l))).
Proof.
  revert a b. induction l as [|e l IH]; intros a b; simpl.
  - by rewrite !Z.add_0_r.
  - rewrite !wrap64_add, IH. f_equal; apply (f_equal wrap64); lia.
Qed.

Lemma windowSums_bounds now window d l : min64 < window < max64 → 0 ≤ d → skewed at_ d l →
  ∃ counted, within at_ now (window - d) l `sublist_of` counted ∧ counted `sublist_of` within at_ now window l ∧
    windowSums now window l = (wrap64 (sum_tokens counted), wrap64 (Z.of_nat (length counted))).
Proof.
  intros Hw Hd Hs. exists (rev (in_window at_ now window l)). destruct (scan_bounds at_ now window d l Hw Hd Hs) as [H1 H2].
  split_and!; [done..|]. unfold windowSums. change (0, 0) with (wrap64 0, wrap64 0) at 1.
  by rewrite sums_fold, sum_tokens_rev, length_rev.
Qed.

(** ** Keys of the maps *)

Definition keyed (t : Tracker) : Prop :=
  map_Forall (λ h e, host e = h) (endpoints t) ∧ map_Forall (λ n r, r_name r = n) (responsibilities t).

Lemma get_host h n t : keyed t → host (get h n t) = h.
Proof. intros [He _]. unfold get. destruct (endpoints t !! h) as [e|] eqn:E; [|done]. by apply He in E. Qed.

Lemma get_r_name n t : keyed t → r_name (getResponsibility n t) = n.
Proof. intros [_ Hr]. unfold getResponsibility. destruct (responsibilities t !! n) as [r|] eqn:E; [|done]. by apply Hr in E. Qed.

(** Loading a sorted list of entries into a map. *)
Lemma load_entries {A P B} (p : A → P) (key : P → string) (f : P → B) (m : gmap string A) :
  map_Forall (λ k a, key (p a) = k) m →
  foldl (λ acc x, <[key x := f x]> acc) ∅ (p <$> sorted_entries m) = (f ∘ p) <$> m.
Proof.
  intros Hk. unfold sorted_entries.
  assert (SliceStable (λ a b, str_ltb a.1 b.1) (map_to_list m) ≡ₚ map_to_list m) as Hp by apply SliceStable_perm.
  revert Hp. generalize (SliceStable (λ a b : string * A, str_ltb a.1 b.1) (map_to_list m)). intros L Hp.
  assert (NoDup L.*1) as Hnd by (rewrite Hp; apply NoDup_fst_map_to_list).
  assert (∀ k a, (k, a) ∈ L → key (p a) = k) as HL.
  { intros k a Hin. rewrite Hp, elem_of_map_to_list in Hin. by apply Hk in Hin. }
  assert (m = list_to_map L) as -> by (symmetry; rewrite <-(list_to_map_to_list m); by apply list_to_map_proper).
  clear Hp Hk. rewrite <-(map_union_empty ((f ∘ p) <$> list_to_map L)). generalize (∅ : gmap string B) as acc.
  induction L as [|[k a] L IH]; intros acc.
  { rewrite list_to_map_nil, fmap_empty. by rewrite (left_id_L ∅ (∪)). }
  rewrite fmap_cons in Hnd. apply NoDup_cons in Hnd as [Hk Hnd]. rewrite list_to_map_cons, !fmap_cons. cbn [foldl snd fst].
  rewrite IH; [|done|intros; apply HL; by apply elem_of_cons; right].
  rewrite (HL k a) by (by apply elem_of_cons; left). rewrite fmap_insert.
  rewrite <-insert_union_l, insert_union_r; [done|]. rewrite lookup_fmap.
  rewrite (not_elem_of_list_to_map_1 L k); done.
Qed.

(** What survives a restart: everything but the live requests and the events
    older than 25 hours. *)
Definition survives_endpoint (cutoff : Z) (e : endpointStats) : endpointStats :=
  mkEndpoint (host e) (name e) (recent at_ cutoff (events e)) (total e) 0 (lastSeen e).

Definition survives_responsibility (cutoff : Z) (r : responsibilityStats) : responsibilityStats :=
  mkResponsibility (r_name r) (recent at_ cutoff (r_events r)) (r_total r) (r_lastSeen r).

Lemma restore_state now' now t : keyed t →
  let cutoff := now' - retention in
  restore now' (state_of now t) NewTracker =
    mkTracker (survives_endpoint cutoff <$> endpoints t) (survives_responsibility cutoff <$> responsibilities t) ∅
      (load_errors cutoff (incomingErrors t)) (load_errors cutoff (outgoingErrors t))
      (recent d_at cutoff (durations t)) (recent o_at cutoff (outcomes t)).
Proof.
  intros [He Hr]. unfold restore. cbn [state_of st_Endpoints st_Responsibilities NewTracker
    endpoints responsibilities pendingMap IncomingConnErrors OutgoingConnErrors Durations Outcomes].
  rewrite (load_entries persist_endpoint pe_Host) by done.
  rewrite (load_entries persist_responsibility pr_Name) by done.
  f_equal; apply map_fmap_ext; intros k x _.
  - by destruct x as [? ? ? [] ? ?].
  - by destruct x as [? ? [] ?].
Qed.

(** ** Histories of the tracker *)

Section History.
Context `{!Json persistedState, !JsonRoundtrip persistedState}.

(** What happens to the tracker: the calls of the gateway, [DELETE /stats], saves, and a
    start of the process, which loads the file into a new tracker. *)
Inductive op :=
| OIncr (h n r id : string) (d : pendingDetail)
| ODecr (h id : string)
| ORecord (now : Z) (h n r : string) (tok : Z)
| OIncoming (now : Z)
| OOutgoing (now : Z)
| ODuration (submitted inference completed : Z)
| OOutcome (now : Z) (success : bool)
| OReset
| OSave (write_fails rename_fails : bool) (now : Z)
| ORestart (readable : bool) (now : Z).

(** The tracker in memory and the file. *)
Record life := mkLife { l_tracker : Tracker; l_file : option string }.

Definition call (o : op) (t : Tracker) : Tracker :=
  match o with
  | OIncr h n r id d => with_pending (insert id d) (with_endpoints (insert h (add_pending 1 (get h n t))) t)
  | ODecr h id => DecrPending h id t
  | ORecord now h n r tok => Record_ now h n r tok t
  | OIncoming now => RecordIncomingConnError now t
  | OOutgoing now => RecordOutgoingConnError now t
  | ODuration s i c => RecordDuration s i c t
  | OOutcome now b => RecordOutcome now b t
  | OReset => Reset t
  | OSave _ _ _ | ORestart _ _ => t
  end.

Definition apply_op (p : life) (o : op) : life :=
  match o with
  | OSave wf rf now => mkLife (l_tracker p) (Save wf rf now (l_tracker p) (l_file p)).2
  | ORestart readable now => mkLife (Load readable now (l_file p) NewTracker).2 (l_file p)
  | _ => mkLife (call o (l_tracker p)) (l_file p)
  end.

Definition lived (ops : list op) : life := foldl apply_op (mkLife NewTracker None) ops.
Definition run (ops : list op) : Tracker := l_tracker (lived ops).

(** The requests of a host that count: those in memory since the last reset, and those in
    the file. *)
Definition remembers (h : string) (p : life) (o : op) (y : list requestEvent * list requestEvent) : list requestEvent * list requestEvent :=
  match o with
  | ORecord now h' _ _ tok => if String.eqb h' h then (y.1 ++ [mkEvent now tok], y.2) else y
  | OReset => ([], y.2)
  | OSave wf rf now => match (Save wf rf now (l_tracker p) (l_file p)).1 with None => (y.1, y.1) | Some _ => y end
  | ORestart readable _ => (if readable then y.2 else [], y.2)
  | _ => y
  end.

Definition replay (h : string) (ops : list op) : life * (list requestEvent * list requestEvent) :=
  foldl (λ '(p, y) o, (apply_op p o, remembers h p o y)) (mkLife NewTracker None, ([], [])) ops.

Definition history (h : string) (ops : list op) : list requestEvent := (replay h ops).2.1.

Lemma replay_lived h ops : (replay h ops).1 = lived ops.
Proof.
  unfold replay, lived. induction ops as [|o ops IH] using rev_ind; [done|]. rewrite !foldl_snoc, <-IH.
  by destruct (foldl _ _ ops) as [p y].
Qed.

(** The clock readings that decide what is pruned. *)
Definition by_time (limit : Z) (o : op) : Prop :=
  match o with ORecord now _ _ _ _ | ORestart _ now => now ≤ limit | _ => True end.

Definition events_of (h : string) (t : Tracker) : list requestEvent :=
  match endpoints t !! h with Some e => events e | None => [] end.

Definition totals_of (h : string) (t : Tracker) : totalCounters :=
  match endpoints t !! h with Some e => total e | None => mkTotal 0 0 end.

(** The tracker has every recent event of [hist] and its totals. *)
Definition accounts (c : Z) (h : string) (t : Tracker) (hist : list requestEvent) : Prop :=
  events_of h t `sublist_of` hist ∧ recent at_ c (events_of h t) = recent at_ c hist ∧
  t_tokens (totals_of h t) = wrap64 (sum_tokens hist) ∧ t_requests (totals_of h t) = wrap64 (Z.of_nat (length hist)).

Lemma accounts_new c h : accounts c h NewTracker [].
Proof. done. Qed.

Lemma accounts_same c h t t' hist :
  events_of h t' = events_of h t → totals_of h t' = totals_of h t → accounts c h t hist → accounts c h t' hist.
Proof. unfold accounts. by intros -> ->. Qed.

Lemma accounts_record c h t t' hist e : at_ e - retention ≤ c →
  events_of h t' = append_pruned at_ (events_of h t) e → totals_of h t' = add_total (totals_of h t) (tokens e) →
  accounts c h t hist → accounts c h t' (hist ++ [e]).
Proof.
  intros Hc He Ht (H1 & H2 & H3 & H4). unfold accounts. rewrite He, Ht. cbn [t_tokens t_requests add_total].
  rewrite H3, H4, !wrap64_add, sum_tokens_app, length_app. split_and!.
  - etrans; [apply drop_before_sublist|]. by apply sublist_app.
  - unfold append_pruned. rewrite drop_before_keeps by done. unfold recent in *. by rewrite !List.filter_app, H2.
  - apply (f_equal wrap64). cbn. lia.
  - apply (f_equal wrap64). cbn. lia.
Qed.

Lemma accounts_reset c h t : accounts c h (Reset t) [].
Proof.
  unfold accounts, events_of, totals_of. cbn [Reset endpoints]. rewrite lookup_fmap. by destruct (endpoints t !! h).
Qed.

Lemma accounts_restore c h t hist now' now : keyed t → now' - retention ≤ c →
  accounts c h t hist → accounts c h (restore now' (state_of now t) NewTracker) hist.
Proof.
  intros Hk Hc (H1 & H2 & H3 & H4). rewrite (restore_state now' now t Hk).
  assert (events_of h (restore now' (state_of now t) NewTracker) = recent at_ (now' - retention) (events_of h t) ∧
    totals_of h (restore now' (state_of now t) NewTracker) = totals_of h t) as [He Ht].
  { rewrite (restore_state now' now t Hk). unfold events_of, totals_of. cbn [endpoints]. rewrite lookup_fmap. by destruct (endpoints t !! h). }
  rewrite <-(restore_state now' now t Hk). unfold accounts. rewrite He, Ht. split_and!; [|by rewrite recent_recent|done..].
  etrans; [apply recent_sublist|done].
Qed.

Lemma endpoint_insert h h' n f t :
  endpoints (with_endpoints (insert h' (f (get h' n t))) t) !! h =
    if String.eqb h' h then Some (f (get h n t)) else endpoints t !! h.
Proof. cbn. destruct (String.eqb_spec h' h) as [->|Hne]; [by rewrite lookup_insert_eq|by rewrite lookup_insert_ne]. Qed.

Lemma accounts_pending c h h' n k t t' hist : endpoints t' = endpoints (with_endpoints (insert h' (add_pending k (get h' n t))) t) →
  accounts c h t hist → accounts c h t' hist.
Proof.
  intros He. apply accounts_same; unfold events_of, totals_of; rewrite He, (endpoint_insert h h' n (add_pending k));
    destruct (String.eqb h' h); try done; unfold get; by destruct (endpoints t !! h).
Qed.

Lemma accounts_call c h p o y : by_time (c + retention) o → (∀ wf rf now, o ≠ OSave wf rf now) → (∀ b now, o ≠ ORestart b now) →
  accounts c h (l_tracker p) y.1 → accounts c h (call o (l_tracker p)) (remembers h p o y).1 ∧ (remembers h p o y).2 = y.2.
Proof.
  intros Hb Hs Hr Ha. destruct o as [h' n r id d|h' id|now h' n r tok| | | | | |wf rf now|b now]; cbn [call remembers];
    try (by split; [|done]); try (by destruct (Hs wf rf now)); try (by destruct (Hr b now)).
  - split; [|done]. by eapply (accounts_pending c h h' n 1).
  - split; [|done]. by eapply (accounts_pending c h h' "" (-1)).
  - assert (endpoints (Record_ now h' n r tok (l_tracker p)) =
      endpoints (with_endpoints (insert h' (record_endpoint now tok (get h' n (l_tracker p)))) (l_tracker p))) as He
      by (unfold Record_; by destruct (String.eqb r "")).
    pose proof (endpoint_insert h h' n (record_endpoint now tok) (l_tracker p)) as Hi.
    destruct (String.eqb h' h); (split; [|done]); cbn [fst].
    + eapply (accounts_record c h (l_tracker p)); [cbn in Hb |- *; lia| | |done]; unfold events_of, totals_of; rewrite He, Hi;
        unfold get; by destruct (endpoints (l_tracker p) !! h).
    + eapply accounts_same; [..|done]; unfold events_of, totals_of; by rewrite He, Hi.
  - split; [apply accounts_reset|done].
Qed.

(** The invariant: the tracker accounts for what is remembered, and the file holds a
    tracker that accounts for what was saved. *)
Definition faithful (c : Z) (h : string) (p : life) (y : list requestEvent * list requestEvent) : Prop :=
  keyed (l_tracker p) ∧ accounts c h (l_tracker p) y.1 ∧
  match l_file p with
  | None => y.2 = []
  | Some data => ∃ t now, Unmarshal data (zero : persistedState) = (state_of now t, true) ∧ keyed t ∧ accounts c h t y.2
  end.

Lemma keyed_call o t : keyed t → keyed (call o t).
Proof.
  intros Hk. pose proof Hk as [He Hr]. pose proof (λ h n, get_host h n t Hk) as Hg.
  destruct o; cbn [call]; try exact Hk.
  - split; [|done]. by apply map_Forall_insert_2; [apply Hg|].
  - split; [|done]. by apply map_Forall_insert_2; [apply Hg|].
  - unfold Record_. set (t' := with_endpoints _ t).
    assert (keyed t') as Hk' by (split; [by apply map_Forall_insert_2; [apply Hg|]|done]).
    destruct (String.eqb r ""); [done|]. destruct Hk' as [He' Hr']. split; [done|].
    apply map_Forall_insert_2; [|done]. by apply (get_r_name r t').
  - split; cbn [Reset endpoints responsibilities]; apply map_Forall_fmap; [eapply map_Forall_impl; [exact He|]|eapply map_Forall_impl; [exact Hr|]]; done.
Qed.

Lemma keyed_restore now' now t : keyed t → keyed (restore now' (state_of now t) NewTracker).
Proof.
  intros Hk. rewrite (restore_state now' now t Hk). destruct Hk as [He Hr].
  split; cbn [endpoints responsibilities]; apply map_Forall_fmap; [eapply map_Forall_impl; [exact He|]|eapply map_Forall_impl; [exact Hr|]]; done.
Qed.

Lemma keyed_new : keyed NewTracker.
Proof. split; apply map_Forall_empty. Qed.

(** Reading back what [Save] wrote. *)
Lemma load_saved readable now' data now t : Unmarshal data (zero : persistedState) = (state_of now t, true) →
  (Load readable now' (Some data) NewTracker).2 = if readable then restore now' (state_of now t) NewTracker else NewTracker.
Proof. intros Hu. unfold Load. rewrite Hu. by destruct readable. Qed.

Lemma faithful_step c h p o y : by_time (c + retention) o → faithful c h p y → faithful c h (apply_op p o) (remembers h p o y).
Proof.
  intros Hb (Hk & Ha & Hf).
  assert ((∀ wf rf now, o ≠ OSave wf rf now) → (∀ b now, o ≠ ORestart b now) → faithful c h (mkLife (call o (l_tracker p)) (l_file p)) (remembers h p o y)) as Hcall.
  { intros Hs Hr. destruct (accounts_call c h p o y Hb Hs Hr Ha) as [H1 H2]. unfold faithful. cbn [l_tracker l_file].
    rewrite H2. split_and!; [by apply keyed_call|done|done]. }
  destruct o as [| | | | | | | |wf rf now|readable now]; try (by apply Hcall); clear Hcall.
  - cbn [apply_op remembers]. unfold Save. destruct (Marshal _) as [data|] eqn:Hm; [|done]. destruct wf; [done|]. destruct rf; [done|].
    split_and!; [done..|]. exists (l_tracker p), now. split; [by apply unmarshal_marshal|done].
  - cbn [apply_op remembers]. unfold faithful. cbn [l_tracker l_file fst snd]. destruct (l_file p) as [data|].
    + destruct Hf as (t & n & Hu & Hkt & Hat). rewrite (load_saved readable now data n t Hu). split; [|split; [|by exists t, n]].
      * destruct readable; [by apply keyed_restore|apply keyed_new].
      * destruct readable; [|apply accounts_new]. apply accounts_restore; [done| |done]. cbn in Hb. lia.
    + rewrite Hf. split_and!; [apply keyed_new|by destruct readable|done].
Qed.

Lemma replay_faithful c h ops : Forall (by_time (c + retention)) ops → faithful c h (replay h ops).1 (replay h ops).2.
Proof.
  intros Hb. induction ops as [|o ops IH] using rev_ind; [split; [apply keyed_new|done]|].
  apply Forall_app in Hb as [Hb [Ho _]%Forall_cons]. unfold replay in *. rewrite foldl_snoc.
  specialize (IH Hb). destruct (foldl _ _ ops) as [p y]. by apply faithful_step.
Qed.

Lemma window_of c h t hist now window d : accounts c h t hist → skewed at_ d hist → 0 ≤ d ≤ window → window ≤ 24 * Hour → c ≤ now - window →
  ∃ counted, within at_ now (window - d) hist `sublist_of` counted ∧ counted `sublist_of` within at_ now window hist ∧
    windowSums now window (events_of h t) = (wrap64 (sum_tokens counted), wrap64 (Z.of_nat (length counted))).
Proof.
  intros (Hsub & Hrec & _) Hs Hd Hw Hc.
  destruct (windowSums_bounds now window d (events_of h t)) as (counted & H1 & H2 & H3);
    [unfold min64, max64, Hour, Minute, Second in *; lia|lia|by eapply skewed_sublist|].
  assert (∀ w, c ≤ now - w → within at_ now w (events_of h t) = within at_ now w hist) as Hwin.
  { intros w Hcw. by rewrite <-(within_recent at_ now w c (events_of h t)), Hrec, within_recent by done. }
  exists counted. rewrite <-!Hwin by lia. done.
Qed.

(** C21. The numbers of GET /stats: after any sequence of gateway operations, resets,
    saves and restarts whose clock readings are at most an hour ahead of the reader's,
    the totals of a host count every request of its history, which a reset empties and a
    restart takes back to the last save.  If no request of the history is recorded
    after one that read the clock more than [d] later ([Record] reads it before it takes
    the lock), the hour and day figures count only requests of that window, and all that
    are in it by [d] at least, although older events are pruned; in the order of the
    clock they are exact. *)
Theorem window_exact d ops h e now :
  skewed at_ d (history h ops) → 0 ≤ d ≤ Hour → Forall (by_time (now + Hour)) ops →
  endpoints (run ops) !! h = Some e →
  let hist := history h ops in
  ∃ hour day, endpoint_snap now h e =
    mkEndpointSnap h (name e) (pending e)
      (wrap64 (sum_tokens hour)) (wrap64 (sum_tokens day)) (wrap64 (sum_tokens hist))
      (wrap64 (Z.of_nat (length hour))) (wrap64 (Z.of_nat (length day))) (wrap64 (Z.of_nat (length hist)))
      (lastSeen e) ∧
    within at_ now (Hour - d) hist `sublist_of` hour ∧ hour `sublist_of` within at_ now Hour hist ∧
    within at_ now (24 * Hour - d) hist `sublist_of` day ∧ day `sublist_of` within at_ now (24 * Hour) hist ∧
    (d = 0 → hour = within at_ now Hour hist ∧ day = within at_ now (24 * Hour) hist).
Proof.
  intros Hs Hd Hb He hist.
  destruct (replay_faithful (now - 24 * Hour) h ops) as (_ & Ha & _).
  { eapply Forall_impl; [exact Hb|]. intros o. unfold retention. destruct o; cbn; try done; lia. }
  rewrite replay_lived in Ha. fold (run ops) in Ha. fold hist in Ha.
  destruct (window_of _ _ _ hist now Hour d Ha Hs) as (hour & H1 & H2 & H3); [unfold Hour, Minute, Second in *; lia..|].
  destruct (window_of _ _ _ hist now (24 * Hour) d Ha Hs) as (day & H4 & H5 & H6); [unfold Hour, Minute, Second in *; lia..|].
  destruct Ha as (_ & _ & Ht & Hr). unfold events_of, totals_of in *. rewrite He in *.
  exists hour, day. split_and!; [|done..|].
  - unfold endpoint_snap. by rewrite H3, H6, Ht, Hr.
  - intros ->. rewrite Z.sub_0_r in H1, H4. split; by apply (anti_symm sublist).
Qed.

(** ** Persistence *)

Lemma by_time_mono l l' o : l ≤ l' → by_time l o → by_time l' o.
Proof. destruct o; cbn; try done; lia. Qed.

Lemma some_limit ops : ∃ l, Forall (by_time l) ops.
Proof.
  induction ops as [|o ops [l IH]]; [by exists 0|].
  assert (∃ l', by_time l' o) as [l' Ho].
  { exists (match o with ORecord now _ _ _ _ | ORestart _ now => now | _ => 0 end). by destruct o; cbn. }
  exists (Z.max l l'). constructor; [eapply by_time_mono; [|done]; lia|].
  eapply Forall_impl; [exact IH|]. intros o'. apply by_time_mono. lia.
Qed.

Lemma keyed_run ops : keyed (run ops).
Proof.
  destruct (some_limit ops) as [l Hl]. destruct (replay_faithful (l - retention) "" ops) as [Hk _].
  - by replace (l - retention + retention) with l by lia.
  - by rewrite replay_lived in Hk.
Qed.

(** C18. Statistics survive a restart: after any sequence of gateway operations, a
    save that succeeds followed by a load into a new tracker gives back every
    host and responsibility with its totals, the error counters, and every event
    of the last 25 hours; live pending requests are forgotten. *)
Theorem stats_survive_restart ops now now' file file' :
  Save false false now (run ops) file = (None, file') →
  let t := run ops in
  let cutoff := now' - retention in
  Load true now' file' NewTracker =
    (None, mkTracker (survives_endpoint cutoff <$> endpoints t) (survives_responsibility cutoff <$> responsibilities t) ∅
             (load_errors cutoff (incomingErrors t)) (load_errors cutoff (outgoingErrors t))
             (recent d_at cutoff (durations t)) (recent o_at cutoff (outcomes t))).
Proof.
  unfold Save. destruct (Marshal (state_of now (run ops))) as [data|] eqn:Hm; [|done]. intros [= <-]. cbv zeta.
  unfold Load. cbn [negb]. rewrite (unmarshal_marshal _ _ Hm).
  change (Version (state_of now (run ops)) =? persistenceVersion) with true. cbn [negb].
  by rewrite restore_state by apply keyed_run.
Qed.

End History.

(** ** The capture buffer *)

Lemma take_bytes_ge n s : (String.length s ≤ n)%nat → take_bytes n s = s.
Proof.
  revert n. induction s as [|c s IH]; intros [|n] Hn; simpl in Hn; try done; [lia|].
  change (take_bytes (S n) (String c s)) with (String c (take_bytes n s)). f_equal. apply IH. lia.
Qed.

Lemma take_bytes_append_split n s t :
  take_bytes n (s +:+ t) = take_bytes n s +:+ take_bytes (n - String.length s) t.
Proof.
  revert n. induction s as [|c s IH]; intros n.
  - rewrite !append_nil_l, Nat.sub_0_r. by destruct n.
  - rewrite append_cons. destruct n as [|n]; [by destruct t|].
    change (String c (take_bytes n (s +:+ t)) = String c (take_bytes n s +:+ take_bytes (n - String.length s) t)).
    by rewrite IH.
Qed.

Lemma length_take_bytes_le n s : (String.length (take_bytes n s) ≤ n)%nat.
Proof. rewrite length_take_bytes. lia. Qed.

(** What the token counter sees: whatever the sizes of the chunks a response
    arrives in, the capture buffer holds exactly its first [max] bytes. *)
Lemma capture_prefix max chunks :
  foldl (capture max) "" chunks = take_bytes max (String.concat "" chunks).
Proof.
  assert (∀ chunks buf, (String.length buf ≤ max)%nat →
    foldl (capture max) buf chunks = take_bytes max (buf +:+ String.concat "" chunks)) as Hgen.
  { clear. induction chunks as [|p chunks IH]; intros buf Hb; cbn [foldl].
    - simpl. rewrite append_nil_r. by rewrite take_bytes_ge.
    - assert (capture max buf p = take_bytes max (buf +:+ p)) as ->.
      { unfold capture. rewrite take_bytes_append_split, (take_bytes_ge max buf) by done.
        destruct (Nat.ltb_spec 0 (max - String.length buf)).
        - destruct (Nat.ltb_spec (max - String.length buf) (String.length p)); [done|]. by rewrite take_bytes_ge by lia.
        - replace (max - String.length buf)%nat with 0%nat by lia. destruct p; by rewrite append_nil_r. }
      assert (String.concat "" (p :: chunks) = p +:+ String.concat "" chunks) as ->.
      { destruct chunks; simpl; [by rewrite append_nil_r|done]. }
      rewrite IH by apply length_take_bytes_le. rewrite append_assoc.
      generalize (buf +:+ p) as x. intros x.
      rewrite (take_bytes_append_split max x), (take_bytes_append_split max (take_bytes max x)).
      rewrite (take_bytes_ge max (take_bytes max _)), length_take_bytes by apply length_take_bytes_le.
      f_equal. f_equal. lia. }
  rewrite Hgen by (simpl; lia). done.
Qed.
