(* ===== verification/Gateway.v ===== *)
(** * The LLM gateway ([llm-gateway/gateway.go], [llm-gateway/config.go], [llm-gateway/main.go])

    A queuing reverse proxy: [ServeHTTP] puts a request on one of two bounded
    channels, the dispatcher takes one once it holds a slot of the semaphore, and a
    goroutine per request forwards it.  Each goroutine is a program counter of its
    request; [exec] is one atomic step of one goroutine, chosen by the label, so that
    a list of labels is an interleaving.  A channel is a FIFO list with a capacity of
    at least one.  [life_step] is the life of the process around it: periodic saves,
    shutdown and the last save. *)

From S2P Require Import Prelude GoStrings GoTime Json Memory MemStore World Stats.

Module Gateway.

(** ** Configuration *)

Record Config := mkConfig {
  ListenAddr : string; UpstreamURL : string; UpstreamModel : string;
  MaxConcurrency : Z; MaxQueueDepth : Z; PriorityQueueDepth : Z; RequestTimeout : Z;
  AuthToken : string; DataFile : string; SaveInterval : Z;
}.

Inductive config_error := ENoUpstream | EConcurrency (n : Z) | EQueueDepth (n : Z) | ETimeout.

Section LoadConfig.
(** The environment, and [time.ParseDuration]. *)
Context (env : string → string) (ParseDuration : string → option Z).

Definition envStr (key def : string) : string :=
  if negb (String.eqb (env key) "") then env key else def.

Definition envInt (key : string) (def : Z) : Z :=
  if String.eqb (env key) "" then def else default def (ParseInt (env key)).

Definition envDur (key : string) (def : Z) : Z :=
  if String.eqb (env key) "" then def else default def (ParseDuration (env key)).

Definition LoadConfig : result config_error Config :=
  let cfg := mkConfig (envStr "GATEWAY_LISTEN_ADDR" ":8080") (envStr "GATEWAY_UPSTREAM_URL" "")
    (envStr "GATEWAY_UPSTREAM_MODEL" "") (envInt "GATEWAY_MAX_CONCURRENCY" 2)
    (envInt "GATEWAY_MAX_QUEUE_DEPTH" 50) (envInt "GATEWAY_PRIORITY_QUEUE_DEPTH" 10)
    (envDur "GATEWAY_REQUEST_TIMEOUT" (5 * Minute)) (envStr "GATEWAY_AUTH_TOKEN" "")
    (envStr "GATEWAY_DATA_FILE" "") (envDur "GATEWAY_SAVE_INTERVAL" (60 * Second)) in
  if String.eqb (UpstreamURL cfg) "" then Err ENoUpstream
  else if MaxConcurrency cfg <? 1 then Err (EConcurrency (MaxConcurrency cfg))
  else if MaxQueueDepth cfg <? 0 then Err (EQueueDepth (MaxQueueDepth cfg))
  else if RequestTimeout cfg <=? 0 then Err ETimeout
  else Ok cfg.

End LoadConfig.

(** ** Pure parts of the handler *)

Definition hopByHopHeaders : list string := [
  "Connection"; "Keep-Alive"; "Proxy-Authenticate"; "Proxy-Authorization";
  "Te"; "Trailers"; "Transfer-Encoding"; "Upgrade"
].

(** The headers copied in either direction. *)
Definition copy_headers (headers : list (string * list string)) : list (string * list string) :=
  List.filter (λ kv, negb (bool_decide (kv.1 ∈ hopByHopHeaders))) headers.

(** [strings.LastIndexByte], [None] for -1. *)
Fixpoint LastIndexByte (s : string) (b : ascii) : option nat :=
  match s with
  | "" => None
  | String c s' =>
      match LastIndexByte s' b with
      | Some i => Some (S i)
      | None => if Ascii.eqb c b then Some 0%nat else None
      end
  end.

Definition has_byte (s : string) (b : ascii) : bool :=
  match IndexByte s b with Some _ => true | None => false end.

(** The host part of [net.SplitHostPort], [None] on an error. *)
Definition SplitHost (hostport : string) : option string :=
  match LastIndexByte hostport ":" with
  | None => None
  | Some i =>
      if HasPrefix hostport "[" then
        match IndexByte hostport "]" with
        | None => None
        | Some end_ =>
            if (S end_ =? i)%nat then
              let host := drop_bytes 1 (take_bytes end_ hostport) in
              if has_byte (drop_bytes 1 hostport) "[" || has_byte (drop_bytes (S end_) hostport) "]"
              then None else Some host
            else None
        end
      else
        let host := take_bytes i hostport in
        if has_byte host ":" || has_byte hostport "[" || has_byte hostport "]" then None else Some host
  end.

Definition clientHost (forwardedFor remoteAddr : string) : string :=
  if negb (String.eqb forwardedFor "") then
    TrimSpace (match IndexByte forwardedFor "," with
               | Some i => take_bytes i forwardedFor
               | None => forwardedFor
               end)
  else default remoteAddr (SplitHost remoteAddr).

(** [llmmodel.Default]. *)
Definition Default : string := "DEFAULT".

Definition resolveModel `{!RawJson, !Json string} (upstreamModel body : string) : string :=
  if String.eqb upstreamModel "" then body
  else match UnmarshalRaw body with
  | None => body
  | Some fields =>
      match fields !! "model" with
      | None => body
      | Some raw =>
          match Unmarshal raw ("" : string) with
          | (_, false) => body
          | (model, true) =>
              if negb (String.eqb model Default) then body
              else default body (MarshalRaw (<["model" := default "" (Marshal upstreamModel)]> fields))
          end
      end
  end.

(** What [ServeHTTP] does with a request line. *)
Inductive route := RHealth | RReady | RStats | RHistory | RPending | RReset | RProxy.

Definition route_of (method path : string) : route :=
  if String.eqb method "GET" && String.eqb path "/health" then RHealth
  else if String.eqb method "GET" && String.eqb path "/health/ready" then RReady
  else if String.eqb method "GET" && String.eqb path "/stats" then RStats
  else if String.eqb method "GET" && String.eqb path "/stats/history" then RHistory
  else if String.eqb method "GET" && String.eqb path "/pending" then RPending
  else if String.eqb method "DELETE" && String.eqb path "/stats" then RReset
  else RProxy.

Definition truncateForLog (b : string) (maxLen : nat) : string :=
  if (String.length b <=? maxLen)%nat then b
  else take_bytes maxLen b +:+ "... [" +:+ Itoa (Z.of_nat (String.length b - maxLen)) +:+ " bytes truncated]".

(** *** The upstream check behind GET /health/ready *)

Record modelCheckStatus := mkCheck { c_ok : bool; c_checked : Z; c_err : string }.

(** What GET /v1/models gave: an error, a status code, or the decoded identifiers. *)
Inductive models_reply := MBuild (err : string) | MFailed (err : string) | MStatus (status : Z) | MDecode (err : string) | MIds (ids : list string).

Definition checkUpstreamModel (upstreamModel : string) (now : Z) (reply : models_reply) : modelCheckStatus :=
  match reply with
  | MBuild err => mkCheck false now ("build upstream models request: " +:+ err)
  | MFailed err => mkCheck false now ("upstream models request failed: " +:+ err)
  | MStatus s => mkCheck false now ("upstream models request returned " +:+ Itoa s)
  | MDecode err => mkCheck false now ("decode upstream models response: " +:+ err)
  | MIds ids =>
      if negb (String.eqb upstreamModel "") && negb (bool_decide (upstreamModel ∈ ids))
      then mkCheck false now ("configured model " +:+ Quote upstreamModel +:+ " not found in upstream /v1/models [" +:+
                              Join ids " " +:+ "]")
      else mkCheck true now ""
  end.

Record readyResponse := mkReady {
  rd_Status : string; rd_Upstream : string; rd_Model : string; rd_CheckedAt : string; rd_Error : string;
}.

Definition ready (zone : Z → Z) (upstream_ upstreamModel : string) (status : option modelCheckStatus) : Z * readyResponse :=
  match status with
  | None => (503, mkReady "checking" upstream_ "" "" "")
  | Some s =>
      if negb (c_ok s) then (503, mkReady "unhealthy" upstream_ upstreamModel (Format zone (c_checked s)) (c_err s))
      else (200, mkReady "ok" upstream_ upstreamModel (Format zone (c_checked s)) "")
  end.

(** ** Forwarding one request *)

Record request := mkRequest {
  q_host : string; q_name : string; q_responsibility : string; q_body : string;
  q_interactive : bool; q_submitted : Z;
}.

Definition maxCaptureBytes : nat := Z.to_nat (256 * 1024).

(** The copy loop: chunks as they are read, each captured and then written to the
    client; [writes] is how many writes succeed before the client is gone.  The bytes
    sent, the capture buffer, and whether the client went. *)
Fixpoint copy_body (writes : nat) (chunks : list string) (sent cap : string) : string * string * bool :=
  match chunks with
  | [] => (sent, cap, false)
  | c :: rest =>
      let cap := Stats.capture maxCaptureBytes cap c in
      if String.eqb c "" then copy_body writes rest sent cap
      else match writes with
           | O => (sent, cap, true)
           | S w => copy_body w rest (sent +:+ c) cap
           end
  end.

(** How the call to the upstream ends. *)
Inductive upstream :=
| UBuildError
| UDeadline
| UCanceled
| UConnError
| UResponse (status : Z) (contentType : string) (chunks : list string) (writes : nat).

(** The times read while forwarding. *)
Record timing := mkTiming { tm_error : Z; tm_inference : Z; tm_completed : Z }.

Section Forward.
Context `{!Json Stats.usageResponse}.

(** The body of [forward] after the check for a request cancelled in the queue: the
    success flag, the tokens, the status sent to the client if any, and the tracker. *)
Definition forward_body (p : request) (u : upstream) (tm : timing) (t : Stats.Tracker) :
    bool * Z * option Z * Stats.Tracker :=
  match u with
  | UBuildError => (true, 0, Some 500, t)
  | UDeadline => (false, 0, Some 504, Stats.RecordOutgoingConnError (tm_error tm) t)
  | UCanceled => (false, 0, None, Stats.RecordIncomingConnError (tm_error tm) t)
  | UConnError => (false, 0, Some 502, Stats.RecordOutgoingConnError (tm_error tm) t)
  | UResponse status ctype chunks writes =>
      let success := negb (400 <=? status) in
      let '(_, cap, gone) := copy_body writes chunks "" "" in
      let tok := Stats.extractTokens ctype cap in
      if gone : bool then (success, tok, Some status, Stats.RecordIncomingConnError (tm_error tm) t)
      else (success, tok, Some status,
            Stats.RecordDuration (q_submitted p) (tm_inference tm) (tm_completed tm) t)
  end.

End Forward.

(** ** The machine *)

(** The handler goroutine, from the send on the channel on.  [HDone]: told that the
    response is complete; [HLost]: the client left, and [forward] had counted the
    request already; [HGhosted]: the client left and the handler counted it. *)
Inductive handler_pc := HRejected | HQueued | HWaiting | HCancelled | HWon | HCounted | HGhosted | HLost | HDone.

#[export] Instance handler_pc_eq_dec : EqDecision handler_pc.
Proof. solve_decision. Defined.

(** The forwarding side.  [FRunning b]: [b] is the snapshot of [cancelled];
    [won] remembers which side of the compare-and-swap [forward] was on. *)
Inductive forward_pc :=
| FQueued
| FDispatched
| FRunning (wasAlreadyCancelled : bool)
| FFinished (wasAlreadyCancelled : bool) (tok : Z)
| FRecorded
| FWon
| FLost
| FClosing (won : bool)
| FClosed (won : bool)
| FReleased (won : bool).

Record pending := mkPending {
  q : request;
  hpc : handler_pc;
  fpc : forward_pc;
  cancelled : bool;
  pendingDecremented : bool;
  success : bool;
}.

(** The dispatcher: about to acquire a slot, at the non-blocking receive, at the
    blocking one. *)
Inductive dispatcher_pc := DAcquire | DStage1 | DStage2.

Record state := mkState {
  priorityQueue : list nat;
  queue : list nat;
  sem : nat;
  disp : dispatcher_pc;
  ghostNormal : Z;
  ghostPriority : Z;
  reqs : gmap nat pending;
  tracker : Stats.Tracker;
}.

(** [fmt.Sprintf("req-%d", nextPendingID.Add(1))]. *)
Definition request_id (i : nat) : string := "req-" +:+ Itoa (Z.of_nat i + 1).

Definition set_hpc (h : handler_pc) (p : pending) : pending :=
  mkPending (q p) h (fpc p) (cancelled p) (pendingDecremented p) (success p).
Definition set_fpc (f : forward_pc) (p : pending) : pending :=
  mkPending (q p) (hpc p) f (cancelled p) (pendingDecremented p) (success p).
Definition set_cancelled (p : pending) : pending :=
  mkPending (q p) (hpc p) (fpc p) true (pendingDecremented p) (success p).
Definition set_decremented (p : pending) : pending :=
  mkPending (q p) (hpc p) (fpc p) (cancelled p) true (success p).
Definition set_success (b : bool) (p : pending) : pending :=
  mkPending (q p) (hpc p) (fpc p) (cancelled p) (pendingDecremented p) b.

(** One step of a goroutine. *)
Inductive label :=
| LArrive (i : nat) (p : request)
| LIncr (i : nat)
| LNotified (i : nat)
| LDisconnect (i : nat)
| LCas (i : nat)
| LDecr (i : nat)
| LGhost (i : nat)
| LAcquire
| LStage1
| LStage2Priority
| LStage2Normal
| LStart (i : nat)
| LForward (i : nat) (u : upstream) (tm : timing)
| LRecord (i : nat) (now_outcome now_record : Z)
| LForwardCas (i : nat)
| LForwardDecr (i : nat)
| LForwardGhost (i : nat)
| LClose (i : nat)
| LRelease (i : nat).

Section Machine.
Context `{!Json Stats.usageResponse, !Json Stats.promptRequest, !Json string, !Json (list Stats.block)}.

(** Capacities of the two channels and of the semaphore. *)
Context (priorityCap queueCap maxConcurrency : nat).

Definition init (t : Stats.Tracker) : state := mkState [] [] 0 DAcquire 0 0 ∅ t.

(** Updates of the state. *)
Definition put (i : nat) (p : pending) (s : state) : state :=
  mkState (priorityQueue s) (queue s) (sem s) (disp s) (ghostNormal s) (ghostPriority s) (<[i := p]> (reqs s)) (tracker s).
Definition track (f : Stats.Tracker → Stats.Tracker) (s : state) : state :=
  mkState (priorityQueue s) (queue s) (sem s) (disp s) (ghostNormal s) (ghostPriority s) (reqs s) (f (tracker s)).
Definition ghost (interactive : bool) (d : Z) (s : state) : state :=
  mkState (priorityQueue s) (queue s) (sem s) (disp s)
    (if interactive then ghostNormal s else ghostNormal s + d)
    (if interactive then ghostPriority s + d else ghostPriority s) (reqs s) (tracker s).
Definition set_disp (n : nat) (d : dispatcher_pc) (s : state) : state :=
  mkState (priorityQueue s) (queue s) n d (ghostNormal s) (ghostPriority s) (reqs s) (tracker s).

(** The non-blocking send of [ServeHTTP]; a full channel is answered with 429. *)
Definition arrive (i : nat) (r : request) (s : state) : state :=
  let fresh h := mkPending r h FQueued false false true in
  if q_interactive r then
    if (length (priorityQueue s) <? priorityCap)%nat
    then mkState (priorityQueue s ++ [i]) (queue s) (sem s) (disp s) (ghostNormal s) (ghostPriority s)
           (<[i := fresh HQueued]> (reqs s)) (tracker s)
    else put i (fresh HRejected) s
  else
    if (length (queue s) <? queueCap)%nat
    then mkState (priorityQueue s) (queue s ++ [i]) (sem s) (disp s) (ghostNormal s) (ghostPriority s)
           (<[i := fresh HQueued]> (reqs s)) (tracker s)
    else put i (fresh HRejected) s.

(** Handing request [i] to its forwarding goroutine. *)
Definition dispatch (i : nat) (pq nq : list nat) (s : state) : option state :=
  p ← reqs s !! i;
  Some (mkState pq nq (sem s) DAcquire (ghostNormal s) (ghostPriority s) (<[i := set_fpc FDispatched p]> (reqs s)) (tracker s)).

(** A step of one request from a given point of its handler or forwarder. *)
Definition at_h (i : nat) (h : handler_pc → bool) (s : state) (k : pending → option state) : option state :=
  p ← reqs s !! i; if h (hpc p) then k p else None.
Definition at_f (i : nat) (s : state) (k : pending → forward_pc → option state) : option state :=
  p ← reqs s !! i; k p (fpc p).

Definition is_done (f : forward_pc) : bool := match f with FClosed _ | FReleased _ => true | _ => false end.

Definition exec (l : label) (s : state) : option state :=
  match l with
  | LArrive i r => match reqs s !! i with Some _ => None | None => Some (arrive i r s) end
  | LIncr i =>
      at_h i (λ h, match h with HQueued => true | _ => false end) s (λ p,
        Some (track (Stats.IncrPending (q_host (q p)) (q_name (q p)) (q_responsibility (q p)) (request_id i)
                       (q_body (q p)) (q_submitted (q p)) (q_interactive (q p)))
                (put i (set_hpc HWaiting p) s)))
  | LNotified i =>
      at_h i (λ h, match h with HWaiting => true | _ => false end) s (λ p,
        if is_done (fpc p) then Some (put i (set_hpc HDone p) s) else None)
  | LDisconnect i =>
      at_h i (λ h, match h with HWaiting => true | _ => false end) s (λ p,
        Some (put i (set_cancelled (set_hpc HCancelled p)) s))
  | LCas i =>
      at_h i (λ h, match h with HCancelled => true | _ => false end) s (λ p,
        Some (put i (if pendingDecremented p then set_hpc HLost p else set_decremented (set_hpc HWon p)) s))
  | LDecr i =>
      at_h i (λ h, match h with HWon => true | _ => false end) s (λ p,
        Some (track (Stats.DecrPending (q_host (q p)) (request_id i)) (put i (set_hpc HCounted p) s)))
  | LGhost i =>
      at_h i (λ h, match h with HCounted => true | _ => false end) s (λ p,
        Some (ghost (q_interactive (q p)) 1 (put i (set_hpc HGhosted p) s)))
  | LAcquire =>
      match disp s with
      | DAcquire => if (sem s <? maxConcurrency)%nat then Some (set_disp (S (sem s)) DStage1 s) else None
      | _ => None
      end
  | LStage1 =>
      match disp s, priorityQueue s with
      | DStage1, i :: pq => dispatch i pq (queue s) s
      | DStage1, [] => Some (set_disp (sem s) DStage2 s)
      | _, _ => None
      end
  | LStage2Priority =>
      match disp s, priorityQueue s with
      | DStage2, i :: pq => dispatch i pq (queue s) s
      | _, _ => None
      end
  | LStage2Normal =>
      match disp s, queue s with
      | DStage2, i :: nq => dispatch i (priorityQueue s) nq s
      | _, _ => None
      end
  | LStart i =>
      at_f i s (λ p f, match f with FDispatched => Some (put i (set_fpc (FRunning (cancelled p)) p) s) | _ => None end)
  | LForward i u tm =>
      at_f i s (λ p f, match f with
        | FRunning true =>
            Some (track (Stats.RecordIncomingConnError (tm_error tm))
                    (put i (set_success false (set_fpc (FFinished true 0) p)) s))
        | FRunning false =>
            let '(ok, tok, _, t) := forward_body (q p) u tm (tracker s) in
            Some (track (λ _, t) (put i (set_success ok (set_fpc (FFinished false tok) p)) s))
        | _ => None
        end)
  | LRecord i now_outcome now_record =>
      at_f i s (λ p f, match f with
        | FFinished was tok =>
            Some (track (λ t,
                    let t := Stats.RecordOutcome now_outcome (success p) t in
                    if was then t
                    else Stats.Record_ now_record (q_host (q p)) (q_name (q p)) (q_responsibility (q p)) tok t)
                  (put i (set_fpc FRecorded p) s))
        | _ => None
        end)
  | LForwardCas i =>
      at_f i s (λ p f, match f with
        | FRecorded =>
            Some (put i (if pendingDecremented p then set_fpc FLost p else set_decremented (set_fpc FWon p)) s)
        | _ => None
        end)
  | LForwardDecr i =>
      at_f i s (λ p f, match f with
        | FWon => Some (track (Stats.DecrPending (q_host (q p)) (request_id i)) (put i (set_fpc (FClosing true) p) s))
        | _ => None
        end)
  | LForwardGhost i =>
      at_f i s (λ p f, match f with
        | FLost => Some (ghost (q_interactive (q p)) (-1) (put i (set_fpc (FClosing false) p) s))
        | _ => None
        end)
  | LClose i =>
      at_f i s (λ p f, match f with FClosing won => Some (put i (set_fpc (FClosed won) p) s) | _ => None end)
  | LRelease i =>
      at_f i s (λ p f, match f with
        | FClosed won => Some (set_disp (pred (sem s)) (disp s) (put i (set_fpc (FReleased won) p) s))
        | _ => None
        end)
  end.

(** An interleaving. *)
Definition exec_all (ls : list label) (s : state) : option state :=
  foldl (λ r l, r ≫= exec l) (Some s) ls.

Inductive steps : state → list label → state → Prop :=
| steps_nil s : steps s [] s
| steps_cons s l s' ls s'' : exec l s = Some s' → steps s' ls s'' → steps s (l :: ls) s''.

(** What GET /stats reads of the gateway, and GET /health. *)
Definition gauges_of (upstream_ model : string) (s : state) : Stats.gauges :=
  Stats.mkGauges (Z.of_nat (length (queue s))) (Z.of_nat queueCap) (Z.of_nat (length (priorityQueue s)))
    (Z.of_nat priorityCap) (Z.of_nat (sem s)) (Z.of_nat maxConcurrency) (ghostNormal s) (ghostPriority s) upstream_ model.

Record healthResponse := mkHealth {
  h_Status : string; h_QueueDepth : Z; h_QueueCapacity : Z; h_PriorityQueueDepth : Z; h_PriorityQueueCapacity : Z;
  h_ActiveRequests : Z; h_MaxConcurrency : Z; h_Upstream : string; h_GhostRequests : Z;
}.

Definition health (upstream_ : string) (s : state) : healthResponse :=
  mkHealth "ok" (Z.of_nat (length (queue s))) (Z.of_nat queueCap) (Z.of_nat (length (priorityQueue s)))
    (Z.of_nat priorityCap) (Z.of_nat (sem s)) (Z.of_nat maxConcurrency) upstream_ (ghostNormal s + ghostPriority s).

(** DELETE /stats: the tracker, the file and whether saving failed. *)
Definition resetStats `{!Json Stats.persistedState} (dataFile : bool) (write_fails rename_fails : bool) (now : Z)
    (s : state) (file : option string) : Z * state * option string :=
  let s' := track Stats.Reset s in
  if dataFile then
    match Stats.Save write_fails rename_fails now (tracker s') file with
    | (Some _, file') => (500, s', file')
    | (None, file') => (200, s', file')
    end
  else (200, s', file).

End Machine.

(** ** The background goroutines and the life of the process *)

(** [StartModelCheck]: a check at once, then one with every tick; the status that GET
    /health/ready reads. *)
Definition StartModelCheck (upstreamModel : string) (first : Z * models_reply) (ticks : list (Z * models_reply)) :
    option modelCheckStatus :=
  foldl (λ _ '(now, reply), Some (checkUpstreamModel upstreamModel now reply)) None (first :: ticks).

Section Life.
Context `{!Json Stats.persistedState}.

Inductive phase := Serving | Draining | Exited.

(** The process: the statistics, the data file ([p_file]: its content), whether the
    goroutine of [StartPersistence] runs, and how far [main] is. *)
Record process := mkProcess {
  p_tracker : Stats.Tracker;
  p_file : option string;
  p_saver : bool;
  p_phase : phase;
}.

(** [main]: [dataFile]: whether a data file is configured; without one nothing is saved. *)
Definition start (dataFile : bool) (t : Stats.Tracker) (file : option string) : process := mkProcess t file dataFile Serving.

Definition save (write_fails rename_fails : bool) (now : Z) (p : process) : option string :=
  (Stats.Save write_fails rename_fails now (p_tracker p) (p_file p)).2.

(** Requests go on while the server drains; the goroutine saves with every tick, and once
    more when the context is done; [main] returns when the server has drained or its time
    is up, and with it the process ends. *)
Inductive life_step : process → process → Prop :=
| life_request f p : p_phase p ≠ Exited →
    life_step p (mkProcess (f (p_tracker p)) (p_file p) (p_saver p) (p_phase p))
| life_tick w r now p : p_phase p ≠ Exited → p_saver p = true →
    life_step p (mkProcess (p_tracker p) (save w r now p) true (p_phase p))
| life_signal p : p_phase p = Serving → life_step p (mkProcess (p_tracker p) (p_file p) (p_saver p) Draining)
| life_final w r now p : p_phase p = Draining → p_saver p = true →
    life_step p (mkProcess (p_tracker p) (save w r now p) false Draining)
| life_exit p : p_phase p = Draining → life_step p (mkProcess (p_tracker p) (p_file p) (p_saver p) Exited).

End Life.

End Gateway.
