(* ===== verification/GatewayFacts.v ===== *)
(** * Correctness of the gateway under every interleaving, and the races in its books *)

From S2P Require Import Prelude GoStrings GoTime Json Memory Stats StatsFacts Gateway.

Import Gateway.

(** ** Sums over a map *)

Section Sum.
Context {A : Type} (f : A → Z).

Definition map_sum (m : gmap nat A) : Z := map_fold (λ _ a n, f a + n) 0 m.

Lemma map_sum_insert_new m i a : m !! i = None → map_sum (<[i := a]> m) = f a + map_sum m.
Proof. intros Hi. unfold map_sum. rewrite map_fold_insert_L; [done|intros; lia|done]. Qed.

Lemma map_sum_update m i a b : m !! i = Some a → map_sum (<[i := b]> m) = map_sum m + f b - f a.
Proof.
  intros Hi. rewrite <-insert_delete_eq, map_sum_insert_new by apply lookup_delete_eq.
  rewrite <-(insert_id m i a) at 2 by done. rewrite <-(insert_delete_eq m i a), (map_sum_insert_new _ _ a) by apply lookup_delete_eq.
  lia.
Qed.

Lemma map_sum_zero m : map_Forall (λ _ a, f a = 0) m → map_sum m = 0.
Proof.
  induction m as [|i a m Hi IH] using map_ind; [done|]. intros Hm. rewrite map_sum_insert_new by done.
  apply map_Forall_insert in Hm as [-> Hm]; [|done]. by rewrite IH.
Qed.

Lemma map_sum_nonneg m : (∀ a, 0 ≤ f a) → 0 ≤ map_sum m.
Proof.
  intros Hf. induction m as [|i a m Hi IH] using map_ind; [done|]. rewrite map_sum_insert_new by done.
  specialize (Hf a). lia.
Qed.

Lemma map_sum_ge m i a : (∀ a, 0 ≤ f a) → m !! i = Some a → f a ≤ map_sum m.
Proof.
  intros Hf Hi. rewrite <-(insert_id m i a), <-insert_delete_eq, map_sum_insert_new by (done || apply lookup_delete_eq).
  pose proof (map_sum_nonneg (delete i m) Hf). lia.
Qed.

End Sum.

(** ** What each request contributes to the counters *)

Definition slot (p : pending) : Z := match fpc p with FQueued | FReleased _ => 0 | _ => 1 end.
Definition hand (d : dispatcher_pc) : Z := match d with DAcquire => 0 | _ => 1 end.

Definition incremented (h : handler_pc) : Z := match h with HRejected | HQueued => 0 | _ => 1 end.
Definition decremented_h (h : handler_pc) : Z := match h with HCounted | HGhosted => 1 | _ => 0 end.
Definition decremented_f (f : forward_pc) : Z :=
  match f with FClosing true | FClosed true | FReleased true => 1 | _ => 0 end.
Definition ghosted_h (h : handler_pc) : Z := match h with HGhosted => 1 | _ => 0 end.
Definition ghosted_f (f : forward_pc) : Z :=
  match f with FClosing false | FClosed false | FReleased false => 1 | _ => 0 end.

(** Registered as pending and not yet taken off. *)
Definition balance (p : pending) : Z := incremented (hpc p) - decremented_h (hpc p) - decremented_f (fpc p).
Definition pend (h : string) (p : pending) : Z := if String.eqb (q_host (q p)) h then balance p else 0.
Definition haunts (interactive : bool) (p : pending) : Z :=
  if Bool.eqb (q_interactive (q p)) interactive then ghosted_h (hpc p) - ghosted_f (fpc p) else 0.

(** The two sides of the compare-and-swap. *)
Definition won_h (h : handler_pc) : bool := match h with HWon | HCounted | HGhosted => true | _ => false end.
Definition won_f (f : forward_pc) : bool :=
  match f with FWon => true | FClosing b | FClosed b | FReleased b => b | _ => false end.
Definition lost_f (f : forward_pc) : bool :=
  match f with FLost => true | FClosing b | FClosed b | FReleased b => negb b | _ => false end.

Record coherent (p : pending) : Prop := {
  co_cas : pendingDecremented p = won_h (hpc p) || won_f (fpc p);
  co_once : won_h (hpc p) && won_f (fpc p) = false;
  co_lost : lost_f (fpc p) = true → won_h (hpc p) = true;
  co_rejected : hpc p = HRejected → fpc p = FQueued;
}.

Definition pending_of (h : string) (t : Stats.Tracker) : Z :=
  match Stats.endpoints t !! h with Some e => Stats.pending e | None => 0 end.

(** ** Operations of the tracker and the pending counts *)

Lemma pending_of_insert h h' e t :
  pending_of h (Stats.with_endpoints (insert h' e) t) = if String.eqb h' h then Stats.pending e else pending_of h t.
Proof.
  unfold pending_of. cbn. destruct (String.eqb_spec h' h) as [->|Hne]; [by rewrite lookup_insert_eq|by rewrite lookup_insert_ne].
Qed.

Lemma pending_of_get h n t : Stats.pending (Stats.get h n t) = pending_of h t.
Proof. unfold Stats.get, pending_of. by destruct (Stats.endpoints t !! h). Qed.

Lemma pending_of_decr h h' id t :
  pending_of h (Stats.DecrPending h' id t) =
    if String.eqb h' h then wrap64 (pending_of h t + -1) else pending_of h t.
Proof.
  unfold Stats.DecrPending. change (pending_of h (Stats.with_pending ?f ?t')) with (pending_of h t').
  rewrite pending_of_insert. destruct (String.eqb_spec h' h) as [->|]; [|done]. cbn [Stats.add_pending Stats.pending].
  by rewrite pending_of_get.
Qed.

Lemma pending_of_record h now h' n r tok t : pending_of h (Stats.Record_ now h' n r tok t) = pending_of h t.
Proof.
  unfold Stats.Record_. set (t' := Stats.with_endpoints _ t).
  assert (pending_of h t' = pending_of h t) as <-.
  { unfold t'. rewrite pending_of_insert. destruct (String.eqb_spec h' h) as [->|]; [|done].
    cbn [Stats.record_endpoint Stats.pending]. by rewrite pending_of_get. }
  by destruct (String.eqb r "").
Qed.

Section Machine.
Context `{!Json Stats.usageResponse, !Json Stats.promptRequest, !Json string, !Json (list Stats.block)}.
Context (priorityCap queueCap maxConcurrency : nat).

Abbreviation exec := (exec priorityCap queueCap maxConcurrency).
Abbreviation steps := (steps priorityCap queueCap maxConcurrency).

Lemma pending_of_incr h h' n r id body sub prio t :
  pending_of h (Stats.IncrPending h' n r id body sub prio t) =
    if String.eqb h' h then wrap64 (pending_of h t + 1) else pending_of h t.
Proof.
  unfold Stats.IncrPending. change (pending_of h (Stats.with_pending ?f ?t')) with (pending_of h t').
  rewrite pending_of_insert. destruct (String.eqb_spec h' h) as [->|]; [|done]. cbn [Stats.add_pending Stats.pending].
  by rewrite pending_of_get.
Qed.

Lemma pending_of_forward h p u tm t : pending_of h (forward_body p u tm t).2 = pending_of h t.
Proof.
  unfold forward_body. destruct u; try done.
  destruct (copy_body _ _ _ _) as [[? cap] []]; done.
Qed.

(** ** The invariant *)

Definition waits (interactive : bool) (p : pending) : Prop :=
  fpc p = FQueued ∧ hpc p ≠ HRejected ∧ q_interactive (q p) = interactive.

Record Inv (s : state) : Prop := {
  inv_sem : Z.of_nat (sem s) = map_sum slot (reqs s) + hand (disp s);
  inv_max : (sem s ≤ maxConcurrency)%nat;
  inv_pcap : (length (priorityQueue s) ≤ priorityCap)%nat;
  inv_qcap : (length (queue s) ≤ queueCap)%nat;
  inv_ghostN : ghostNormal s = map_sum (haunts false) (reqs s);
  inv_ghostP : ghostPriority s = map_sum (haunts true) (reqs s);
  inv_pend h : pending_of h (tracker s) = wrap64 (map_sum (pend h) (reqs s));
  inv_req : map_Forall (λ _, coherent) (reqs s);
  inv_prio i : i ∈ priorityQueue s ↔ ∃ p, reqs s !! i = Some p ∧ waits true p;
  inv_norm i : i ∈ queue s ↔ ∃ p, reqs s !! i = Some p ∧ waits false p;
  inv_nodup : NoDup (priorityQueue s) ∧ NoDup (queue s);
}.

(** A step that changes one request and stays out of the queues. *)
Lemma inv_update s s' i p p' :
  Inv s → reqs s !! i = Some p → reqs s' = <[i := p']> (reqs s) → q p' = q p →
  priorityQueue s' = priorityQueue s → queue s' = queue s →
  (fpc p' = FQueued ↔ fpc p = FQueued) → (hpc p' = HRejected ↔ hpc p = HRejected) → coherent p' →
  Z.of_nat (sem s') = Z.of_nat (sem s) + (slot p' - slot p) + (hand (disp s') - hand (disp s)) →
  (sem s' ≤ maxConcurrency)%nat →
  ghostNormal s' = ghostNormal s + (haunts false p' - haunts false p) →
  ghostPriority s' = ghostPriority s + (haunts true p' - haunts true p) →
  (∀ h n, pending_of h (tracker s) = wrap64 n →
     pending_of h (tracker s') = wrap64 (n + (pend h p' - pend h p))) →
  Inv s'.
Proof.
  intros [I1 I2 I3 I4 I5 I6 I7 I8 I9 I10 I11] Hi Hr Hq Hpq Hnq Hf Hh Hco Hsem Hmax Hgn Hgp Hpend.
  assert (∀ b j, (∃ p0, reqs s' !! j = Some p0 ∧ waits b p0) ↔ (∃ p0, reqs s !! j = Some p0 ∧ waits b p0)) as Hw.
  { intros b j. rewrite Hr. destruct (decide (j = i)) as [->|Hne]; [|by rewrite lookup_insert_ne].
    rewrite lookup_insert_eq, Hi. unfold waits. split; intros (p0 & [= <-] & ?); eexists; (split; [done|]);
      rewrite ?Hq in *; tauto. }
  split; rewrite ?Hpq, ?Hnq; try done.
  - rewrite Hr, (map_sum_update slot _ _ p) by done. lia.
  - rewrite Hr, (map_sum_update _ _ _ p) by done. lia.
  - rewrite Hr, (map_sum_update _ _ _ p) by done. lia.
  - intros h. rewrite Hr, (map_sum_update _ _ _ p), (Hpend h _ (I7 h)) by done. apply (f_equal wrap64). lia.
  - rewrite Hr. by apply map_Forall_insert_2.
  - intros j. by rewrite I9, Hw.
  - intros j. by rewrite I10, Hw.
Qed.

(** The pending count of a host when one request of a host changes. *)
Lemma pend_step h h' n d t f b b' (p p' : pending) :
  q p' = q p → q_host (q p) = h' →
  (pending_of h (f t) = if String.eqb h' h then wrap64 (pending_of h t + d) else pending_of h t) →
  balance p = b → balance p' = b' → d = b' - b →
  pending_of h t = wrap64 n → pending_of h (f t) = wrap64 (n + (pend h p' - pend h p)).
Proof.
  intros Hq Hh Hf Hb Hb' Hd Hn. rewrite Hf. unfold pend. rewrite Hq, Hh.
  destruct (String.eqb h' h); rewrite Hn.
  - rewrite wrap64_add. apply (f_equal wrap64). lia.
  - apply (f_equal wrap64). lia.
Qed.

Lemma pend_same h n t t' (p p' : pending) :
  q p' = q p → pending_of h t' = pending_of h t → balance p' = balance p →
  pending_of h t = wrap64 n → pending_of h t' = wrap64 (n + (pend h p' - pend h p)).
Proof.
  intros Hq Ht Hb ->%(eq_trans Ht). apply (f_equal wrap64). unfold pend. rewrite Hq, Hb. lia.
Qed.

(** The side conditions of [inv_update] at a known program counter. *)
Ltac settle_coherent :=
  match goal with
  | C : coherent ?p |- coherent _ =>
      destruct C as [C1 C2 C3 C4]; cbn in C1, C2, C3, C4 |- *; split; cbn;
      repeat match goal with
             | |- context [won_h ?h] => is_var h; destruct h; cbn in *
             | |- context [won_f ?f] => is_var f; destruct f; cbn in *
             | |- context [lost_f ?f] => is_var f; destruct f; cbn in *
             end; subst; try done; intuition (try congruence)
  end.

Ltac settle_count :=
  unfold slot, haunts; cbn;
  repeat match goal with |- context [q_interactive ?r] => destruct (q_interactive r) end; cbn;
  repeat match goal with |- context [if ?x then _ else _] => is_var x; destruct x end; cbn; try lia.

(** A step of request [i]: look the request up and split on its program counter. *)
Ltac open_request HI i :=
  cbn; unfold at_h, at_f;
  match goal with |- context [reqs ?s !! i] =>
    let p := fresh "p" in let Hi := fresh "Hi" in
    destruct (reqs s !! i) as [p|] eqn:Hi; [|done]; cbn;
    pose proof (inv_req s HI i p Hi) as C; destruct p as [r h f c d sc]; cbn
  end.

Ltac close_request HI Hi :=
  eapply inv_update; [exact HI|exact Hi|reflexivity|..]; try done; cbn -[Z.of_nat];
  [settle_coherent|settle_count|try by apply (inv_max _ HI)|settle_count|settle_count|].

Ltac same_count :=
  intros; eapply pend_same; [done| |reflexivity|eassumption]; try reflexivity.

Lemma sem_positive s i p : Inv s → reqs s !! i = Some p → slot p = 1 → (0 < sem s)%nat.
Proof.
  intros HI Hi Hp. pose proof (inv_sem s HI) as Hs.
  assert (slot p ≤ map_sum slot (reqs s)).
  { eapply map_sum_ge; [|exact Hi]. intros a. unfold slot. by destruct (fpc a). }
  assert (0 ≤ hand (disp s)) by (by destruct (disp s)). lia.
Qed.

Lemma handler_inv s l s' :
  match l with LIncr _ | LNotified _ | LDisconnect _ | LCas _ | LDecr _ | LGhost _ => True | _ => False end →
  Inv s → exec l s = Some s' → Inv s'.
Proof.
  intros Hl HI. destruct l as [| i | i | i | i | i | i |  | | | | | | | | | | |]; try done; clear Hl; open_request HI i.
  - destruct h; try done. intros [= <-]. close_request HI Hi.
    intros h n Hn. eapply (pend_step h (q_host r) n 1); [done|done|apply pending_of_incr|reflexivity|reflexivity| |exact Hn].
    unfold balance. cbn. lia.
  - destruct h; try done. destruct (is_done f) eqn:Hd; [|done]. intros [= <-]. close_request HI Hi. same_count.
  - destruct h; try done. intros [= <-]. close_request HI Hi. same_count.
  - destruct h; try done. intros [= <-]. destruct d; close_request HI Hi; same_count.
  - destruct h; try done. intros [= <-]. close_request HI Hi.
    intros h n Hn. eapply (pend_step h (q_host r) n (-1)); [done|done|apply pending_of_decr|reflexivity|reflexivity| |exact Hn].
    unfold balance. cbn. lia.
  - destruct h; try done. intros [= <-]. close_request HI Hi. same_count.
Qed.

Lemma forward_inv s l s' :
  match l with
  | LStart _ | LForward _ _ _ | LRecord _ _ _ | LForwardCas _ | LForwardDecr _ | LForwardGhost _ | LClose _ | LRelease _ => True
  | _ => False
  end → Inv s → exec l s = Some s' → Inv s'.
Proof.
  intros Hl HI. destruct l as [| | | | | | | | | | | i | i u tm | i no nr | i | i | i | i | i]; try done; clear Hl; open_request HI i.
  - destruct f; try done. intros [= <-]. close_request HI Hi. same_count.
  - destruct f as [| |[]| | | | | | |]; try done.
    + intros [= <-]. close_request HI Hi. same_count.
    + pose proof (λ h, pending_of_forward h r u tm (tracker s)) as Hf.
      destruct (forward_body r u tm (tracker s)) as [[[ok tok] code] t]. cbn in Hf. intros [= <-].
      close_request HI Hi. same_count. apply Hf.
  - destruct f as [| | |was tok| | | | | |]; try done. intros [= <-]. close_request HI Hi. same_count.
    destruct was; [done|]. rewrite pending_of_record. done.
  - destruct f; try done. intros [= <-]. destruct d; close_request HI Hi; same_count.
  - destruct f; try done. intros [= <-]. close_request HI Hi.
    intros h0 n Hn. eapply (pend_step h0 (q_host r) n (-1)); [done|done|apply pending_of_decr|reflexivity|reflexivity| |exact Hn].
    unfold balance. cbn. lia.
  - destruct f; try done. intros [= <-]. close_request HI Hi. same_count.
  - destruct f as [| | | | | | |won| |]; try done. intros [= <-]. close_request HI Hi. same_count.
  - destruct f as [| | | | | | | |won|]; try done. intros [= <-]. pose proof (sem_positive s i _ HI Hi eq_refl).
    pose proof (inv_max _ HI). close_request HI Hi; [lia|same_count].
Qed.

(** The queue of a class. *)
Definition queue_of (b : bool) (s : state) : list nat := if b then priorityQueue s else queue s.

Lemma inv_queue s b i : Inv s → i ∈ queue_of b s ↔ ∃ p, reqs s !! i = Some p ∧ waits b p.
Proof. intros HI. destruct b; [by apply inv_prio|by apply inv_norm]. Qed.

Lemma arrive_inv s i r s' : Inv s → exec (LArrive i r) s = Some s' → Inv s'.
Proof.
  intros HI. cbn. destruct (reqs s !! i) as [p|] eqn:Hi; [done|]. intros [= <-].
  assert (∃ h, (h = HQueued ∨ h = HRejected) ∧
    let p := mkPending r h FQueued false false true in
    let new b := if decide (h = HQueued ∧ q_interactive r = b) then [i] else [] in
    arrive priorityCap queueCap i r s =
      mkState (priorityQueue s ++ new true) (queue s ++ new false) (sem s) (disp s) (ghostNormal s) (ghostPriority s)
        (<[i := p]> (reqs s)) (tracker s) ∧
    (length (priorityQueue s ++ new true) ≤ priorityCap)%nat ∧ (length (queue s ++ new false) ≤ queueCap)%nat) as Har.
  { pose proof (inv_pcap s HI). pose proof (inv_qcap s HI). unfold arrive, put.
    destruct (q_interactive r) eqn:Hint.
    - destruct (Nat.ltb_spec (length (priorityQueue s)) priorityCap); [exists HQueued|exists HRejected]; (split; [auto|]);
        cbv zeta; repeat case_decide; try (exfalso; naive_solver); rewrite ?length_app, ?app_nil_r; cbn; split_and!; done || lia.
    - destruct (Nat.ltb_spec (length (queue s)) queueCap); [exists HQueued|exists HRejected]; (split; [auto|]);
        cbv zeta; repeat case_decide; try (exfalso; naive_solver); rewrite ?length_app, ?app_nil_r; cbn; split_and!; done || lia. }
  destruct Har as (h & Hh & -> & Hlp & Hlq). set (p := mkPending r h FQueued false false true) in *.
  assert (slot p = 0 ∧ (∀ b, haunts b p = 0) ∧ (∀ h', pend h' p = 0) ∧ coherent p) as (H1 & H2 & H3 & H4).
  { split_and!; [done| | |].
    - intros b. unfold haunts. destruct Hh as [-> | ->]; cbn; by destruct (Bool.eqb _ _).
    - intros h'. unfold pend, balance. destruct Hh as [-> | ->]; cbn; by destruct (String.eqb _ _).
    - split; destruct Hh as [-> | ->]; done. }
  assert (∀ b j, j ∈ queue_of b s ++ (if decide (h = HQueued ∧ q_interactive r = b) then [i] else []) ↔
    ∃ p0, <[i := p]> (reqs s) !! j = Some p0 ∧ waits b p0) as Hq.
  { intros b j. rewrite elem_of_app, (inv_queue s b j HI). destruct (decide (j = i)) as [->|Hne].
    - rewrite lookup_insert_eq, Hi. unfold waits. split.
      + intros [(p0 & [=] & _)|Hin]. destruct (decide (h = HQueued ∧ q_interactive r = b)) as [Hd|Hd]; [|by apply not_elem_of_nil in Hin]. destruct Hd as [-> Hb].
        exists p. done.
      + intros (p0 & [= <-] & _ & Hr & Hb). right. destruct Hh as [-> | ->]; [|done].
        rewrite decide_True by done. by apply list_elem_of_singleton.
    - rewrite lookup_insert_ne by done. split; [|by left]. intros [?|Hin]; [done|].
      destruct (decide (h = HQueued ∧ q_interactive r = b)) as [Hd|Hd]; [by apply list_elem_of_singleton in Hin|by apply not_elem_of_nil in Hin]. }
  assert (∀ b, NoDup (queue_of b s) → NoDup (queue_of b s ++ (if decide (h = HQueued ∧ q_interactive r = b) then [i] else []))) as Hnd.
  { intros b Hb. apply NoDup_app. split_and!; [done| |destruct (decide (h = HQueued ∧ q_interactive r = b)) as [Hd|Hd]; [apply NoDup_singleton|apply NoDup_nil_2]].
    intros j Hj Hin. destruct (decide (h = HQueued ∧ q_interactive r = b)) as [Hd|Hd]; [|by apply not_elem_of_nil in Hin]. apply list_elem_of_singleton in Hin as ->.
    apply (inv_queue s b i HI) in Hj as (p0 & E & _). congruence. }
  destruct HI as [I1 I2 I3 I4 I5 I6 I7 I8 I9 I10 [I11 I12]].
  split; cbn -[Z.of_nat]; try done.
  - rewrite map_sum_insert_new, H1 by done. lia.
  - rewrite map_sum_insert_new, H2 by done. lia.
  - rewrite map_sum_insert_new, H2 by done. lia.
  - intros h'. rewrite map_sum_insert_new, H3, I7 by done. apply (f_equal wrap64). lia.
  - by apply map_Forall_insert_2.
  - apply (Hq true).
  - apply (Hq false).
  - split; [by apply (Hnd true)|by apply (Hnd false)].
Qed.

(** Taking the head of a queue. *)
Lemma dispatch_inv s b i rest pq nq s' :
  Inv s → disp s ≠ DAcquire → queue_of b s = i :: rest →
  (if b then pq = rest ∧ nq = queue s else pq = priorityQueue s ∧ nq = rest) →
  dispatch i pq nq s = Some s' → Inv s'.
Proof.
  intros HI Hd Hhead Hqs. unfold dispatch.
  assert (i ∈ queue_of b s) as Hin by (rewrite Hhead; apply elem_of_cons; by left).
  apply (inv_queue s b i HI) in Hin as (p & Hi & Hf & Hh & Hb). rewrite Hi. cbn. intros [= <-].
  pose proof (inv_req s HI i p Hi) as C. destruct p as [r h f c d sc]. cbn in *. subst f.
  pose proof HI as [I1 I2 I3 I4 I5 I6 I7 I8 I9 I10 [I11 I12]].
  assert (∀ b' j, j ∈ queue_of b' s ∧ ¬ (b' = b ∧ j = i) ↔
    ∃ p0, <[i := mkPending r h FDispatched c d sc]> (reqs s) !! j = Some p0 ∧ waits b' p0) as Hq.
  { intros b' j. rewrite (inv_queue s b' j HI). destruct (decide (j = i)) as [->|Hne].
    - rewrite lookup_insert_eq, Hi. unfold waits. split.
      + intros [(p0 & [= <-] & _ & _ & Hb') Hno]. exfalso. apply Hno. by rewrite <-Hb, <-Hb'.
      + intros (p0 & [= <-] & ? & _). done.
    - rewrite lookup_insert_ne by done. split; [by intros [? _]|]. intros ?. split; [done|]. by intros [_ ?]. }
  assert (NoDup (queue_of b s)) as Hnd by (destruct b; done). rewrite Hhead in Hnd. apply NoDup_cons in Hnd as [Hni Hnd].
  assert (∀ j, j ∈ queue_of b s ∧ ¬ (b = b ∧ j = i) ↔ j ∈ rest) as Hrest.
  { intros j. rewrite Hhead, elem_of_cons. split; [intros [[->|?] ?]; tauto|]. intros Hj. split; [by right|]. intros [_ ->]. done. }
  assert (∀ j, j ∈ queue_of (negb b) s ∧ ¬ (negb b = b ∧ j = i) ↔ j ∈ queue_of (negb b) s) as Hother.
  { intros j. split; [by intros [? _]|]. intros ?. split; [done|]. intros [E _]. by destruct b. }
  split; cbn -[Z.of_nat]; try done.
  - rewrite (map_sum_update slot _ _ _ _ Hi). unfold slot at 2 3. cbn. destruct (disp s); cbn in I1; [done|lia|lia].
  - destruct b; destruct Hqs as [-> ->]; cbn in Hhead; rewrite ?Hhead in *; cbn in *; lia.
  - destruct b; destruct Hqs as [-> ->]; cbn in Hhead; rewrite ?Hhead in *; cbn in *; lia.
  - rewrite (map_sum_update _ _ _ _ _ Hi), I5. unfold haunts at 3 4. cbn. destruct (Bool.eqb _ _); lia.
  - rewrite (map_sum_update _ _ _ _ _ Hi), I6. unfold haunts at 3 4. cbn. destruct (Bool.eqb _ _); lia.
  - intros h'. rewrite (map_sum_update _ _ _ _ _ Hi), I7. apply (f_equal wrap64). unfold pend, balance. cbn. destruct (String.eqb _ _); lia.
  - apply map_Forall_insert_2; [|done]. settle_coherent.
  - intros j. rewrite <-(Hq true j). destruct b; destruct Hqs as [-> ->]; [by rewrite Hrest|by rewrite (Hother j)].
  - intros j. rewrite <-(Hq false j). destruct b; destruct Hqs as [-> ->]; [by rewrite (Hother j)|by rewrite Hrest].
  - destruct b; destruct Hqs as [-> ->]; done.
Qed.

Lemma disp_inv s n d : Inv s → Z.of_nat n = Z.of_nat (sem s) + (hand d - hand (disp s)) → (n ≤ maxConcurrency)%nat →
  Inv (set_disp n d s).
Proof. intros [I1 I2 I3 I4 I5 I6 I7 I8 I9 I10 I11] Hn Hm. split; cbn -[Z.of_nat]; try done. lia. Qed.

Lemma exec_inv s l s' : Inv s → exec l s = Some s' → Inv s'.
Proof.
  intros HI He. destruct l; try (refine (handler_inv _ _ _ _ HI He); exact I); try (refine (forward_inv _ _ _ _ HI He); exact I);
    [exact (arrive_inv _ _ _ _ HI He)|..]; cbn -[Nat.ltb] in He.
  - destruct (disp s) eqn:Hd; try done. destruct (sem s <? maxConcurrency)%nat eqn:Hm; [|done].
    apply Nat.ltb_lt in Hm. injection He as <-.
    apply disp_inv; [done|rewrite Hd; cbn -[Z.of_nat]; lia|lia].
  - destruct (disp s) eqn:Hd; try done. destruct (priorityQueue s) as [|i pq] eqn:Hq.
    + injection He as <-. apply disp_inv; [done|rewrite Hd; cbn -[Z.of_nat]; lia|by apply inv_max].
    + eapply (dispatch_inv s true i pq pq (queue s)); [done|by rewrite Hd|exact Hq|done|exact He].
  - destruct (disp s) eqn:Hd; try done. destruct (priorityQueue s) as [|i pq] eqn:Hq; [done|].
    eapply (dispatch_inv s true i pq pq (queue s)); [done|by rewrite Hd|exact Hq|done|exact He].
  - destruct (disp s) eqn:Hd; try done. destruct (queue s) as [|i nq] eqn:Hq; [done|].
    eapply (dispatch_inv s false i nq (priorityQueue s) nq); [done|by rewrite Hd|exact Hq|done|exact He].
Qed.

Lemma steps_inv s ls s' : Inv s → steps s ls s' → Inv s'.
Proof. intros HI Hs. induction Hs as [|s l s1 ls s2 He Hs IH]; [done|]. by eapply IH, exec_inv. Qed.

Lemma init_inv t : (∀ h, pending_of h t = 0) → Inv (init t).
Proof.
  intros Ht. split; cbn; try done; try lia.
  - intros i. split; [by intros ?%not_elem_of_nil|by intros (p & ? & _)].
  - intros i. split; [by intros ?%not_elem_of_nil|by intros (p & ? & _)].
  - split; apply NoDup_nil_2.
Qed.

(** Every handler has returned and every forwarder has released its slot. *)
Definition finished (p : pending) : Prop :=
  hpc p = HRejected ∨
  ((hpc p = HDone ∨ hpc p = HLost ∨ hpc p = HGhosted) ∧ ∃ won, fpc p = FReleased won).

Definition quiescent (s : state) : Prop := map_Forall (λ _, finished) (reqs s).

Lemma finished_counts p : coherent p → finished p → slot p = 0 ∧ (∀ b, haunts b p = 0) ∧ (∀ h, pend h p = 0).
Proof.
  intros [C1 C2 C3 C4] Hf. destruct p as [r h f c d sc]. unfold finished, slot, haunts, pend, balance in *. cbn in *.
  destruct Hf as [->|[Hh [won ->]]].
  - rewrite (C4 eq_refl). split_and!; [done|intros b; by destruct (Bool.eqb _ _)|intros h; by destruct (String.eqb _ _)].
  - cbn in *. split_and!; [done|intros b; destruct (Bool.eqb _ _); [|done]|intros h0; destruct (String.eqb _ _); [|done]];
      destruct won; destruct Hh as [->|[->| ->]]; cbn in *; try done; by specialize (C3 eq_refl).
Qed.

(** C6. Under every interleaving of handlers, dispatcher and forwarders at most
    [maxConcurrency] requests hold a slot and neither queue exceeds its capacity;
    and once every handler has returned and every forwarder has finished, however
    the disconnects raced with the completions, no host has a pending request
    left, both ghost counters are zero and only the dispatcher can hold a slot. *)
Theorem gateway_accounting t ls s :
  (∀ h, pending_of h t = 0) → steps (init t) ls s →
  (map_sum slot (reqs s) ≤ Z.of_nat (sem s) ≤ Z.of_nat maxConcurrency ∧
   (length (priorityQueue s) ≤ priorityCap)%nat ∧ (length (queue s) ≤ queueCap)%nat) ∧
  (quiescent s →
   (∀ h, pending_of h (tracker s) = 0) ∧ ghostNormal s = 0 ∧ ghostPriority s = 0 ∧
   Z.of_nat (sem s) = hand (disp s)).
Proof.
  intros Ht Hs. pose proof (steps_inv _ _ _ (init_inv t Ht) Hs) as HI. split.
  - pose proof (inv_sem s HI). pose proof (inv_max s HI). assert (0 ≤ hand (disp s)) by (by destruct (disp s)).
    split_and!; [lia|lia|by apply inv_pcap|by apply inv_qcap].
  - intros Hq.
    assert (∀ i p, reqs s !! i = Some p → slot p = 0 ∧ (∀ b, haunts b p = 0) ∧ (∀ h, pend h p = 0)) as Hz.
    { intros i p Hi. apply finished_counts; [by apply (inv_req s HI i)|by apply (Hq i)]. }
    split_and!.
    + intros h. rewrite (inv_pend s HI), map_sum_zero; [done|]. intros i p Hi. by apply (Hz i p Hi).
    + rewrite (inv_ghostN s HI). apply map_sum_zero. intros i p Hi. by apply (Hz i p Hi).
    + rewrite (inv_ghostP s HI). apply map_sum_zero. intros i p Hi. by apply (Hz i p Hi).
    + rewrite (inv_sem s HI), map_sum_zero; [done|]. intros i p Hi. by apply (Hz i p Hi).
Qed.

(** ** Order of service *)

Inductive event := Enq (b : bool) (i : nat) | Deq (b : bool) (i : nat).

(** What a step does to the queues; [true] is the priority queue. *)
Definition event_of (l : label) (s : state) : list event :=
  match l with
  | LArrive i r =>
      let b := q_interactive r in
      if (length (queue_of b s) <? (if b then priorityCap else queueCap))%nat then [Enq b i] else []
  | LStage1 | LStage2Priority => match priorityQueue s with i :: _ => [Deq true i] | [] => [] end
  | LStage2Normal => match queue s with i :: _ => [Deq false i] | [] => [] end
  | _ => []
  end.

Fixpoint trace (s : state) (ls : list label) : list event :=
  match ls with
  | [] => []
  | l :: ls => event_of l s ++ match exec l s with Some s' => trace s' ls | None => [] end
  end.

Definition enqs (b : bool) (es : list event) : list nat :=
  omap (λ e, match e with Enq b' i => if Bool.eqb b' b then Some i else None | _ => None end) es.
Definition deqs (b : bool) (es : list event) : list nat :=
  omap (λ e, match e with Deq b' i => if Bool.eqb b' b then Some i else None | _ => None end) es.

Lemma enqs_app b es es' : enqs b (es ++ es') = enqs b es ++ enqs b es'.
Proof. apply omap_app. Qed.
Lemma deqs_app b es es' : deqs b (es ++ es') = deqs b es ++ deqs b es'.
Proof. apply omap_app. Qed.

Lemma fifo_step b l s s' : exec l s = Some s' →
  queue_of b s ++ enqs b (event_of l s) = deqs b (event_of l s) ++ queue_of b s'.
Proof.
  destruct l; cbn -[Nat.ltb]; unfold at_h, at_f, dispatch.
  1: { destruct (reqs s !! i); [done|]. intros [= <-]. unfold arrive, queue_of.
       destruct (q_interactive p) eqn:Hp, b; destruct (_ <? _)%nat; cbn; by rewrite ?app_nil_r. }
  7: { destruct (disp s); try done. destruct (sem s <? _)%nat; [|done]. intros [= <-]. by rewrite app_nil_r. }
  7: { destruct (disp s), (priorityQueue s) as [|j pq] eqn:Hq; try done.
       - intros [= <-]. rewrite app_nil_r. by destruct b.
       - destruct (reqs s !! j); [|done]. cbn. intros [= <-]. destruct b; cbn; by rewrite ?Hq, ?app_nil_r. }
  7: { destruct (disp s), (priorityQueue s) as [|j pq] eqn:Hq; try done.
       destruct (reqs s !! j); [|done]. cbn. intros [= <-]. destruct b; cbn; by rewrite ?Hq, ?app_nil_r. }
  7: { destruct (disp s), (queue s) as [|j nq] eqn:Hq; try done.
       destruct (reqs s !! j); [|done]. cbn. intros [= <-]. destruct b; cbn; by rewrite ?Hq, ?app_nil_r. }
  all: destruct (reqs s !! i) as [p|]; [|done]; cbn; rewrite app_nil_r.
  all: try (destruct (hpc p); try done; try (destruct (is_done _); [|done]); intros [= <-]; by destruct b).
  all: destruct (fpc p) as [| |[]| | | | | | |]; try done; try (destruct (forward_body _ _ _ _) as [[[? ?] ?] ?]);
    intros [= <-]; by destruct b.
Qed.

Lemma fifo b s ls s' : steps s ls s' →
  queue_of b s ++ enqs b (trace s ls) = deqs b (trace s ls) ++ queue_of b s'.
Proof.
  induction 1 as [|s l s1 ls s2 He Hs IH]; cbn [trace]; [by rewrite app_nil_r|].
  rewrite He, enqs_app, deqs_app, app_assoc, (fifo_step b l s s1 He), <-!app_assoc. by rewrite IH.
Qed.

(** A request keeps its data, is never rejected later, never returns to a queue or
    to the point before its registration, and once counted stays counted. *)
Definition later (p p' : pending) : Prop :=
  q p' = q p ∧ (hpc p ≠ HRejected → hpc p' ≠ HRejected) ∧ (fpc p ≠ FQueued → fpc p' ≠ FQueued) ∧
  (hpc p ≠ HQueued → hpc p' ≠ HQueued) ∧ (decremented_f (fpc p) = 1 → decremented_f (fpc p') = 1).

Lemma later_refl p : later p p.
Proof. done. Qed.

Lemma later_put s i j p p' r : reqs s !! j = Some p → later p p' → reqs s !! i = Some r →
  ∃ r', <[j := p']> (reqs s) !! i = Some r' ∧ later r r'.
Proof.
  intros Hj Hl Hi. destruct (decide (i = j)) as [->|Hne].
  - rewrite lookup_insert_eq. rewrite Hi in Hj. simplify_eq. eauto.
  - rewrite lookup_insert_ne by done. eauto using later_refl.
Qed.

Lemma dispatch_later s b j rest p : Inv s → queue_of b s = j :: rest → reqs s !! j = Some p →
  later p (set_fpc FDispatched p).
Proof.
  intros HI Hq Hj. assert (j ∈ queue_of b s) as Hin by (rewrite Hq; apply elem_of_cons; by left).
  apply (inv_queue s b j HI) in Hin as (p0 & E & Hf & _). unfold later. cbn. simplify_eq. by rewrite Hf.
Qed.

Lemma exec_later s l s' i r : Inv s → exec l s = Some s' → reqs s !! i = Some r → ∃ r', reqs s' !! i = Some r' ∧ later r r'.
Proof.
  intros HI He Hi. revert He. destruct l as [k r0|k|k|k|k|k|k| | | | |k|k u tm|k no nr|k|k|k|k|k];
    cbn -[Nat.ltb]; unfold at_h, at_f, dispatch.
  1: { destruct (reqs s !! k) eqn:Hk; [done|]. intros [= <-].
       assert (k ≠ i) by (intros ->; congruence). exists r. split; [|done]. unfold arrive, put.
       destruct (q_interactive r0), (_ <? _)%nat; cbn; by rewrite lookup_insert_ne. }
  7: { destruct (disp s); try done. destruct (sem s <? _)%nat; [|done]. intros [= <-]. eauto using later_refl. }
  7: { destruct (disp s), (priorityQueue s) as [|j pq] eqn:Hq; try done; [intros [= <-]; eauto using later_refl|].
       destruct (reqs s !! j) as [p|] eqn:Hj; [|done]. cbn. intros [= <-]. eapply later_put; [exact Hj|by eapply (dispatch_later s true)|done]. }
  7: { destruct (disp s), (priorityQueue s) as [|j pq] eqn:Hq; try done.
       destruct (reqs s !! j) as [p|] eqn:Hj; [|done]. cbn. intros [= <-]. eapply later_put; [exact Hj|by eapply (dispatch_later s true)|done]. }
  7: { destruct (disp s), (queue s) as [|j nq] eqn:Hq; try done.
       destruct (reqs s !! j) as [p|] eqn:Hj; [|done]. cbn. intros [= <-]. eapply later_put; [exact Hj|by eapply (dispatch_later s false)|done]. }
  all: destruct (reqs s !! k) as [p|] eqn:Hk; [|done]; cbn.
  all: destruct p as [qq h f c d sc]; cbn.
  all: try (destruct h; try done; try (destruct (is_done f); [|done]); intros [= <-]; cbn;
            eapply later_put; [exact Hk| |exact Hi]; try destruct d; done).
  all: destruct f as [| |[]| | | | | | |]; try done; try (destruct (forward_body _ _ _ _) as [[[? ?] ?] ?]);
    intros [= <-]; cbn; (eapply later_put; [exact Hk| |exact Hi]); try destruct d; done.
Qed.

(** A normal request can only be taken from the blocking receive. *)
Definition allowance (s : state) : nat := match disp s with DStage2 => 1 | _ => 0 end.

Lemma overtake_step s l s' : priorityQueue s ≠ [] → exec l s = Some s' →
  (length (deqs false (event_of l s)) + allowance s' ≤ allowance s)%nat.
Proof.
  intros Hne. unfold allowance.
  destruct l as [k r0|k|k|k|k|k|k| | | | |k|k u tm|k no nr|k|k|k|k|k]; cbn -[Nat.ltb]; unfold at_h, at_f, dispatch.
  1: { destruct (reqs s !! k); [done|]. intros [= <-]. unfold arrive, put.
       destruct (q_interactive r0), (_ <? _)%nat; cbn; done. }
  7: { destruct (disp s); try done. destruct (sem s <? _)%nat; [|done]. intros [= <-]. done. }
  7: { destruct (disp s), (priorityQueue s) as [|j pq]; try done.
       destruct (reqs s !! j); [|done]. cbn. intros [= <-]. done. }
  7: { destruct (disp s), (priorityQueue s) as [|j pq]; try done.
       destruct (reqs s !! j); [|done]. cbn. intros [= <-]. cbn. lia. }
  7: { destruct (disp s), (queue s) as [|j nq]; try done.
       destruct (reqs s !! j); [|done]. cbn. intros [= <-]. done. }
  all: destruct (reqs s !! k) as [p|] eqn:Hk; [|done]; cbn.
  all: try (destruct (hpc p); try done; try (destruct (is_done _); [|done]); intros [= <-]; done).
  all: destruct (fpc p) as [| |[]| | | | | | |]; try done; try (destruct (forward_body _ _ _ _) as [[[? ?] ?] ?]);
    intros [= <-]; done.
Qed.

(** A request that waits at both ends of a run waited all along. *)
Lemma waits_before s l s1 ls s' i :
  Inv s → exec l s = Some s1 → steps s1 ls s' → i ∈ priorityQueue s → i ∈ priorityQueue s' → i ∈ priorityQueue s1.
Proof.
  intros HI He Hs Hi Hi'. apply (inv_prio s HI) in Hi as (p & Hp & Hf & Hh & Hint).
  destruct (exec_later _ _ _ _ _ HI He Hp) as (p1 & Hp1 & Hq1 & Hh1 & _).
  pose proof (exec_inv _ _ _ HI He) as HI1. apply (inv_prio s1 HI1).
  assert (fpc p1 = FQueued) as Hf1; [|exists p1; unfold waits; rewrite Hq1; auto].
  apply (inv_prio s' (steps_inv _ _ _ HI1 Hs)) in Hi' as (p' & Hp' & Hf' & _).
  clear -Hs HI1 Hp1 Hp' Hf' Json0. revert p1 Hp1. induction Hs as [|s1 l s2 ls s3 He Hs IH]; intros p1 Hp1.
  - by simplify_eq.
  - destruct (exec_later _ _ _ _ _ HI1 He Hp1) as (p2 & Hp2 & _ & _ & Hf & _).
    specialize (IH Hp' (exec_inv _ _ _ HI1 He) p2 Hp2).
    destruct (fpc p1); try done; exfalso; by apply Hf.
Qed.

Lemma overtakes s ls s' i : Inv s → steps s ls s' → i ∈ priorityQueue s → i ∈ priorityQueue s' →
  (length (deqs false (trace s ls)) ≤ allowance s)%nat.
Proof.
  intros HI Hs. induction Hs as [s|s l s1 ls s2 He Hs IH]; intros Hi Hi'; cbn [trace]; [cbn; lia|].
  rewrite He, deqs_app, length_app.
  pose proof (waits_before _ _ _ _ _ _ HI He Hs Hi Hi') as Hi1.
  specialize (IH (exec_inv _ _ _ HI He) Hi1 Hi').
  assert (priorityQueue s ≠ []) as Hne by (intros E; rewrite E in Hi; by apply not_elem_of_nil in Hi).
  pose proof (overtake_step _ _ _ Hne He). lia.
Qed.

(** C7. Order of service, under every interleaving: each queue is served in order
    of arrival; and while a priority request waits, at most one normal request is
    taken, and none if the dispatcher was not already at its blocking receive. *)
Theorem dispatch_order t ls s ls' s' :
  (∀ h, pending_of h t = 0) → steps (init t) ls s → steps s ls' s' →
  (∀ b, enqs b (trace (init t) ls) = deqs b (trace (init t) ls) ++ queue_of b s) ∧
  (∀ i, i ∈ priorityQueue s → i ∈ priorityQueue s' →
     (length (deqs false (trace s ls')) ≤ if disp s is DStage2 then 1 else 0)%nat).
Proof.
  intros Ht Hs Hs'. split.
  - intros b. rewrite <-(fifo b _ _ _ Hs). by destruct b.
  - intros i Hi Hi'. pose proof (overtakes s ls' s' i (steps_inv _ _ _ (init_inv t Ht) Hs) Hs' Hi Hi') as Ho.
    unfold allowance in Ho. by destruct (disp s).
Qed.
End Machine.

Import Gateway.

#[export] Instance request_id_inj : Inj (=) (=) request_id.
Proof.
  intros i j E. unfold request_id, Itoa in E.
  assert (∀ s t, "req-" +:+ s = "req-" +:+ t → s = t) as Happ by (intros s t Hst; by injection Hst).
  apply Happ in E. apply (inj pretty) in E. lia.
Qed.

Section Machine.
Context `{!Json Stats.usageResponse, !Json Stats.promptRequest, !Json string, !Json (list Stats.block)}.
Context (priorityCap queueCap maxConcurrency : nat).

Abbreviation exec := (exec priorityCap queueCap maxConcurrency).
Abbreviation steps := (steps priorityCap queueCap maxConcurrency).
Abbreviation registry s := (Stats.pendingMap (tracker s)).

(** Registered after it was taken off. *)
Definition stale (i : nat) (s : state) : Prop :=
  (∃ p, reqs s !! i = Some p ∧ hpc p ≠ HQueued ∧ decremented_f (fpc p) = 1) ∧
  is_Some (registry s !! request_id i).

Lemma registry_forward p u tm t : Stats.pendingMap (forward_body p u tm t).2 = Stats.pendingMap t.
Proof. unfold forward_body. destruct u; try done. by destruct (copy_body _ _ _ _) as [[? cap] []]. Qed.

Lemma registry_record now h n r tok t : Stats.pendingMap (Stats.Record_ now h n r tok t) = Stats.pendingMap t.
Proof. unfold Stats.Record_. by destruct (String.eqb r ""). Qed.

(** A step of another request leaves the entry of [i], whatever it does. *)
Lemma registry_other s l s' i : exec l s = Some s' →
  (∀ p, reqs s !! i = Some p → hpc p ≠ HWon ∧ fpc p ≠ FWon) →
  is_Some (registry s !! request_id i) → is_Some (registry s' !! request_id i).
Proof.
  intros He Hi Hreg. revert He.
  assert (∀ k, request_id k = request_id i → k = i) as Hinj by (intros k E; by apply (inj request_id)).
  destruct l as [k r0|k|k|k|k|k|k| | | | |k|k u tm|k no nr|k|k|k|k|k]; cbn -[Nat.ltb]; unfold at_h, at_f, dispatch.
  1: { destruct (reqs s !! k); [done|]. intros [= <-]. unfold arrive, put. by destruct (q_interactive r0), (_ <? _)%nat. }
  7: { destruct (disp s); try done. destruct (sem s <? _)%nat; [|done]. by intros [= <-]. }
  7: { destruct (disp s), (priorityQueue s) as [|j pq]; try done; [by intros [= <-]|].
       destruct (reqs s !! j); [|done]. cbn. by intros [= <-]. }
  7: { destruct (disp s), (priorityQueue s) as [|j pq]; try done. destruct (reqs s !! j); [|done]. cbn. by intros [= <-]. }
  7: { destruct (disp s), (queue s) as [|j nq]; try done. destruct (reqs s !! j); [|done]. cbn. by intros [= <-]. }
  all: destruct (reqs s !! k) as [p|] eqn:Hk; [|done]; cbn.
  1: { destruct (hpc p); try done. intros [= <-]. cbn. destruct (decide (request_id k = request_id i)) as [E|E];
         [rewrite E, lookup_insert_eq; eauto|by rewrite lookup_insert_ne]. }
  4: { destruct (hpc p) eqn:Hh; try done. intros [= <-]. cbn. rewrite lookup_delete_ne; [done|].
       intros ->%Hinj. destruct (Hi p Hk). congruence. }
  9: { destruct (fpc p) eqn:Hf; try done. intros [= <-]. cbn. rewrite lookup_delete_ne; [done|].
       intros ->%Hinj. destruct (Hi p Hk). congruence. }
  all: try (destruct (hpc p); try done; try (destruct (is_done _); [|done]); by intros [= <-]).
  2: { destruct (fpc p) as [| |[]| | | | | | |]; try done; [by intros [= <-]|].
       pose proof (registry_forward (q p) u tm (tracker s)) as Hf.
       destruct (forward_body _ _ _ _) as [[[? ?] ?] t]. cbn in Hf. intros [= <-]. cbn. by rewrite Hf. }
  2: { destruct (fpc p) as [| | |was tok| | | | | |]; try done. intros [= <-]. cbn.
       destruct was; [done|]. by rewrite registry_record. }
  all: destruct (fpc p); try done; by intros [= <-].
Qed.

Lemma stale_step s l s' i : Inv priorityCap queueCap maxConcurrency s → exec l s = Some s' → stale i s → stale i s'.
Proof.
  intros HI He [(p & Hp & Hh & Hf) Hreg].
  pose proof (inv_req _ _ _ s HI i p Hp) as [_ Honce _ _].
  assert (won_f (fpc p) = true) as Hw by (destruct (fpc p) as [| | | | | | |[]|[]|[]]; done).
  split.
  - destruct (exec_later _ _ _ _ _ _ _ _ HI He Hp) as (p' & Hp' & _ & _ & _ & Hh' & Hf'). exists p'. auto.
  - eapply registry_other; [exact He| |exact Hreg]. intros p0 Hp0. rewrite Hp in Hp0. injection Hp0 as <-.
    split; intros E; rewrite E in *; [by rewrite Hw in Honce|done].
Qed.

Lemma stale_steps s ls s' i : Inv priorityCap queueCap maxConcurrency s → steps s ls s' → stale i s → stale i s'.
Proof.
  intros HI Hs. induction Hs as [|s l s1 ls s2 He Hs IH]; [done|]. intros Hst.
  apply IH; [by eapply exec_inv|by eapply stale_step].
Qed.

(** A leak in the registry behind GET /pending: when a request has been
    forwarded and taken off before its handler gets to register it, the late
    registration stays in the registry for ever, whatever happens afterwards. *)
Theorem late_registration_leaks t ls s i p s1 ls' s' :
  (∀ h, pending_of h t = 0) → steps (init t) ls s →
  reqs s !! i = Some p → hpc p = HQueued → decremented_f (fpc p) = 1 →
  exec (LIncr i) s = Some s1 → steps s1 ls' s' →
  is_Some (registry s' !! request_id i).
Proof.
  intros Ht Hs Hp Hh Hf He Hs'. pose proof (steps_inv _ _ _ _ _ _ (init_inv _ _ _ t Ht) Hs) as HI.
  apply (stale_steps s1 ls' s' i (exec_inv _ _ _ _ _ _ HI He) Hs').
  revert He. cbn. unfold at_h. rewrite Hp. cbn. rewrite Hh. intros [= <-]. split.
  - exists (set_hpc HWaiting p). split; [apply lookup_insert_eq|]. done.
  - eexists. apply lookup_insert_eq.
Qed.

Lemma exec_all_steps s ls s' : exec_all priorityCap queueCap maxConcurrency ls s = Some s' → steps s ls s'.
Proof.
  assert (∀ ls, foldl (λ r l, r ≫= exec l) None ls = None) as Hnone by (induction ls0; done).
  unfold exec_all. revert s. induction ls as [|l ls IH]; intros s; cbn [foldl]; [intros [= <-]; constructor|].
  change (Some s ≫= exec l) with (exec l s). destruct (exec l s) as [s1|] eqn:He; [|by rewrite Hnone].
  intros Hs. by eapply steps_cons, IH.
Qed.

End Machine.

(** Two background requests. *)
Definition agent_a : request := mkRequest "10.0.0.1" "a" "patching" "" false 0.
Definition agent_b : request := mkRequest "10.0.0.2" "b" "patching" "" false 1.

Section Ghost.
Context `{!Json Stats.usageResponse, !Json Stats.promptRequest, !Json string, !Json (list Stats.block)}.

(** Ghosts hide live requests: when the client of a request that is already
    being forwarded goes away, its ghost is subtracted from the queue it has left,
    so that GET /stats reports an empty queue while a live request waits in it. *)
Theorem ghost_hides_queued priorityCap queueCap maxConcurrency order now :
  (0 < queueCap)%nat → (0 < maxConcurrency)%nat →
  ∃ ls s, steps priorityCap queueCap maxConcurrency (init Stats.NewTracker) ls s ∧ queue s = [1%nat] ∧
    (∃ p, reqs s !! 1%nat = Some p ∧ hpc p = HWaiting ∧ cancelled p = false) ∧
    (∃ p, reqs s !! 0%nat = Some p ∧ fpc p = FRunning false) ∧
    Stats.QueuedRequests (Stats.Snapshot order now (gauges_of priorityCap queueCap maxConcurrency "" "" s) (tracker s)) = 0.
Proof.
  intros Hq Hm. destruct queueCap as [|qc]; [lia|]. destruct maxConcurrency as [|mc]; [lia|]. clear Hq Hm.
  set (ls := [LArrive 0 agent_a; LIncr 0; LAcquire; LStage1; LStage2Normal; LStart 0;
              LDisconnect 0; LCas 0; LDecr 0; LGhost 0; LArrive 1 agent_b; LIncr 1]).
  destruct (exec_all priorityCap (S qc) (S mc) ls (init Stats.NewTracker)) as [s|] eqn:He; vm_compute in He; [|discriminate He].
  exists ls, s. split; [by apply exec_all_steps|]. injection He as <-. vm_compute. eauto 10.
Qed.

End Ghost.


(** ** Outcomes *)

Section Forward.
Context `{!Json Stats.usageResponse}.

Lemma copy_body_all chunks sent cap writes :
  (length chunks ≤ writes)%nat →
  copy_body writes chunks sent cap =
    (sent +:+ String.concat "" chunks, foldl (Stats.capture maxCaptureBytes) cap chunks, false).
Proof.
  revert sent cap writes. induction chunks as [|c chunks IH]; intros sent cap writes Hw; cbn [copy_body foldl].
  { by rewrite append_nil_r. }
  assert (String.concat "" (c :: chunks) = c +:+ String.concat "" chunks) as ->.
  { destruct chunks; cbn; [by rewrite append_nil_r|done]. }
  cbn in Hw. destruct (String.eqb_spec c "") as [->|Hne].
  - rewrite IH by lia. done.
  - destruct writes as [|w]; [lia|]. rewrite IH by lia. by rewrite append_assoc.
Qed.

(** What forwarding records: the success flag is false exactly for a failed
    call or a status from 400 on, so a request that could not even be built and one
    whose client went away in the middle of the response count as successes; an
    undisturbed response reaches the client whole and its tokens are read from its
    first 256 KiB. *)
Theorem forward_outcome p u tm t :
  let '(ok, tok, code, t') := forward_body p u tm t in
  (ok = true ↔ u = UBuildError ∨ ∃ st ct ch w, u = UResponse st ct ch w ∧ st < 400) ∧
  (∀ st ct ch w, u = UResponse st ct ch w → code = Some st) ∧
  (∀ st ct ch w, u = UResponse st ct ch w → (length ch ≤ w)%nat →
     (copy_body w ch "" "").1.1 = String.concat "" ch ∧
     tok = Stats.extractTokens ct (take_bytes maxCaptureBytes (String.concat "" ch)) ∧
     t' = Stats.RecordDuration (q_submitted p) (tm_inference tm) (tm_completed tm) t).
Proof.
  unfold forward_body. destruct u as [| | | |st ct ch w].
  1-4: split_and!; [naive_solver|done|done].
  pose proof (copy_body_all ch "" "" w) as Hall. rewrite append_nil_l, capture_prefix in Hall.
  destruct (copy_body w ch "" "") as [[sent cap] gone] eqn:Hc.
  assert (∀ x : Z, negb (400 <=? x) = true ↔ x < 400) as Hlt by (intros x; rewrite negb_true_iff, Z.leb_gt; done).
  destruct gone.
  - split_and!.
    + rewrite Hlt. split; [intros; right; eauto 10|]. intros [?|(?&?&?&?&E&?)]; [done|]. by injection E as -> _ _ _.
    + by intros ? ? ? ? [= -> _ _ _].
    + intros ? ? ? ? [= <- <- <- <-] Hw. by specialize (Hall Hw).
  - split_and!.
    + rewrite Hlt. split; [intros; right; eauto 10|]. intros [?|(?&?&?&?&E&?)]; [done|]. by injection E as -> _ _ _.
    + by intros ? ? ? ? [= -> _ _ _].
    + intros ? ? ? ? [= <- <- <- <-] Hw. specialize (Hall Hw). rewrite Hc. by injection Hall as -> ->.
Qed.

End Forward.

(** ** Statistics and the end of the process *)

Section Life.
Context `{!Json Stats.persistedState}.
Import Gateway.

(** What [Save] leaves in the file: what was there, or the encoding of the tracker. *)
Lemma save_content w r now p :
  save w r now p = p_file p ∨ ∃ data, Marshal (Stats.state_of now (p_tracker p)) = Some data ∧ save w r now p = Some data.
Proof. unfold save, Stats.Save. destruct (Marshal _) as [data|]; [|by left]. destruct w; [by left|]. destruct r; [by left|]. right. by exists data. Qed.

(** The data file never holds anything but what it held at the start or the statistics as
    they were at some moment of this process. *)
Theorem file_is_past p p' : rtc life_step p p' →
  p_file p' = p_file p ∨
  ∃ q now data, rtc life_step p q ∧ rtc life_step q p' ∧ Marshal (Stats.state_of now (p_tracker q)) = Some data ∧ p_file p' = Some data.
Proof.
  intros Hr. induction Hr as [p|p q p' Hs Hr IH]; [by left|].
  assert (p_file q = p_file p ∨ ∃ now data, Marshal (Stats.state_of now (p_tracker p)) = Some data ∧ p_file q = Some data) as Hq.
  { destruct Hs as [f p Hp|w r now p Hp Hv|p Hp|w r now p Hp Hv|p Hp]; cbn [p_file]; try by left.
    all: destruct (save_content w r now p) as [He|(data & Hm & He)]; [by left|right; by exists now, data]. }
  destruct IH as [IH|(q' & now & data & H1 & H2 & H3 & H4)].
  - rewrite IH. destruct Hq as [Hq|(now & data & Hm & Hq)]; [by left|]. right. exists p, now, data. split_and!; [done| |done|done].
    by eapply rtc_l.
  - right. exists q', now, data. split_and!; [by eapply rtc_l|done..].
Qed.

(** The final save does not wait for the requests in flight: whatever a request records
    while the server drains can be missing from the file the process leaves, although
    every save succeeds and the process ends in order. *)
Theorem drained_request_not_saved t file f now data :
  Marshal (Stats.state_of now t) = Some data →
  ∃ p, rtc life_step (start true t file) p ∧ p_phase p = Exited ∧ p_saver p = false ∧ p_tracker p = f t ∧ p_file p = Some data.
Proof.
  intros Hm. exists (mkProcess (f t) (Some data) false Exited). split; [|done].
  eapply rtc_l; [by apply life_signal|]. eapply rtc_l; [by apply (life_final false false now)|].
  eapply rtc_l; [by apply (life_request f)|]. eapply rtc_l; [by apply life_exit|].
  cbn. unfold save, Stats.Save. cbn. rewrite Hm. apply rtc_refl.
Qed.

(** The process can also end before the final save: nothing waits for it. *)
Theorem exit_before_final_save t file : ∃ p, rtc life_step (start true t file) p ∧ p_phase p = Exited ∧ p_saver p = true ∧ p_file p = file.
Proof.
  exists (mkProcess t file true Exited). split; [|done].
  eapply rtc_l; [by apply life_signal|]. eapply rtc_l; [by apply life_exit|]. apply rtc_refl.
Qed.

(** GET /health/ready answers from the latest check from the start on: the gateway is
    ready exactly when that check found the upstream, and the configured model if there
    is one. *)
Theorem ready_is_latest zone upstream model first ticks :
  (ready zone upstream model (StartModelCheck model first ticks)).1 = 200 ↔
  ∃ now ids, last (first :: ticks) = Some (now, MIds ids) ∧ (model = "" ∨ model ∈ ids).
Proof.
  unfold StartModelCheck. assert (∀ l s, foldl (λ _ '(now, reply), Some (checkUpstreamModel model now reply)) s l =
    match last l with Some (now, reply) => Some (checkUpstreamModel model now reply) | None => s end) as Hf.
  { intros l. induction l as [|[now reply] l IH]; intros s; [done|]. cbn [foldl]. rewrite IH, last_cons. by destruct (last l) as [[? ?]|]. }
  rewrite Hf. destruct (last (first :: ticks)) as [[now reply]|] eqn:El; [|by rewrite last_cons in El; destruct (last ticks)].
  unfold checkUpstreamModel, ready. split.
  - destruct reply as [e|e|n|e|ids]; cbn; try discriminate. intros Hr. exists now, ids. split; [done|].
    destruct (String.eqb_spec model "") as [->|Hne]; [by left|]. cbn [negb andb] in Hr. case_bool_decide; [by right|discriminate Hr].
  - intros (now' & ids & [= -> ->] & Hm). destruct (String.eqb_spec model "") as [->|Hne]; [done|]. cbn [negb andb].
    rewrite bool_decide_true by naive_solver. done.
Qed.

End Life.
