(* ===== verification/GatewayExamples.v ===== *)
(** * The gateway theorems on concrete runs *)

From S2P Require Import Prelude GoStrings GoTime GoText Json Memory Stats StatsFacts Gateway GatewayFacts.

Import Stats Gateway.

Ltac countable f g := apply (inj_countable' f g); by intros [].

#[local] Instance event_dec : EqDecision requestEvent.
Proof. solve_decision. Defined.
#[local] Instance event_countable : Countable requestEvent.
Proof. countable (λ e, (at_ e, tokens e)) (λ '(a, b), mkEvent a b). Defined.
#[local] Instance duration_dec : EqDecision durationEvent.
Proof. solve_decision. Defined.
#[local] Instance duration_countable : Countable durationEvent.
Proof. countable (λ e, (d_at e, d_wait e, d_inference e)) (λ '(a, b, c), mkDuration a b c). Defined.
#[local] Instance outcome_dec : EqDecision outcomeEvent.
Proof. solve_decision. Defined.
#[local] Instance outcome_countable : Countable outcomeEvent.
Proof. countable (λ e, (o_at e, o_success e)) (λ '(a, b), mkOutcome a b). Defined.
#[local] Instance errors_dec : EqDecision errorStats.
Proof. solve_decision. Defined.
#[local] Instance errors_countable : Countable errorStats.
Proof. countable (λ e, (e_events e, e_total e)) (λ '(a, b), mkErrors a b). Defined.
#[local] Instance pe_dec : EqDecision persistedEndpoint.
Proof. solve_decision. Defined.
#[local] Instance pe_countable : Countable persistedEndpoint.
Proof.
  countable (λ e, (pe_Host e, pe_Name e, pe_LastSeen e, pe_TotalTokens e, pe_TotalRequests e, pe_Events e))
    (λ '(a, b, c, d, e, f), mkPEndpoint a b c d e f).
Defined.
#[local] Instance pr_dec : EqDecision persistedResponsibility.
Proof. solve_decision. Defined.
#[local] Instance pr_countable : Countable persistedResponsibility.
Proof.
  countable (λ e, (pr_Name e, pr_LastSeen e, pr_TotalTokens e, pr_TotalRequests e, pr_Events e))
    (λ '(a, b, c, d, e), mkPResponsibility a b c d e).
Defined.
#[local] Instance state_dec : EqDecision persistedState.
Proof. solve_decision. Defined.
#[local] Instance state_countable : Countable persistedState.
Proof.
  countable (λ s, (Version s, SavedAt s, st_Endpoints s, st_Responsibilities s,
                   (IncomingConnErrors s, OutgoingConnErrors s, Durations s, Outcomes s)))
    (λ '(a, b, c, d, (e, f, g, h)), Stats.mkState a b c d e f g h).
Defined.
#[local] Instance usage_dec : EqDecision usageResponse.
Proof. solve_decision. Defined.
#[local] Instance usage_countable : Countable usageResponse.
Proof. countable (λ u, (Stats.TotalTokens u, PromptEvalCount u, EvalCount u)) (λ '(a, b, c), mkUsage a b c). Defined.
#[local] Instance message_dec : EqDecision message.
Proof. solve_decision. Defined.
#[local] Instance message_countable : Countable message.
Proof. countable (λ m, (Role m, Content m)) (λ '(a, b), mkMessage a b). Defined.
#[local] Instance prompt_dec : EqDecision promptRequest.
Proof. solve_decision. Defined.
#[local] Instance prompt_countable : Countable promptRequest.
Proof. countable (λ p, (System p, Prompt p, Messages p)) (λ '(a, b, c), mkPromptRequest a b c). Defined.
#[local] Instance block_dec : EqDecision block.
Proof. solve_decision. Defined.
#[local] Instance block_countable : Countable block.
Proof. countable (λ b, (Type_ b, Text b)) (λ '(a, b), mkBlock a b). Defined.

Definition empty_state : persistedState := Stats.mkState 0 0 [] [] (mkErrors [] 0) (mkErrors [] 0) [] [].
#[local] Instance json_state : Json persistedState := CountableJson.json empty_state.
#[local] Instance json_state_roundtrip : JsonRoundtrip persistedState := CountableJson.json_roundtrip empty_state.
#[local] Instance json_usage : Json usageResponse := CountableJson.json (mkUsage 0 0 0).
#[local] Instance json_prompt : Json promptRequest := CountableJson.json (mkPromptRequest "" "" []).
#[local] Instance json_text : Json string := CountableJson.json "".
#[local] Instance json_blocks : Json (list block) := CountableJson.json [].

(** ** Statistics *)

Definition two_hours : list op :=
  [OIncr "web1" "web" "patching" "req-1" (mkDetail "web1" "web" "patching" "" 0 false);
   ORecord 0 "web1" "web" "patching" 10; ODecr "web1" "req-1"; ORecord (90 * Minute) "web1" "web" "" 5].

(** A reset, two requests recorded in the wrong order, a save, a request that a crash
    loses, and another one after the restart. *)
Definition eventful : list op :=
  [ORecord 0 "web1" "web" "" 100; OReset; ORecord (10 * Second) "web1" "web" "" 10; ORecord (9 * Second) "web1" "web" "" 20;
   OSave false false Minute; ORecord (2 * Minute) "web1" "web" "" 40; ORestart true (3 * Minute); ORecord (90 * Minute) "web1" "web" "" 5].

Lemma window_witness :
  ∃ e, endpoints (run eventful) !! "web1" = Some e ∧
    s_TokensLastHour (endpoint_snap (2 * Hour) "web1" e) = 5 ∧ s_TokensLastDay (endpoint_snap (2 * Hour) "web1" e) = 35 ∧
    s_TokensTotal (endpoint_snap (2 * Hour) "web1" e) = 35.
Proof.
  destruct (endpoints (run eventful) !! "web1") as [e|] eqn:He; [|exfalso; vm_compute in He; discriminate].
  exists e. split; [reflexivity|].
  assert (history "web1" eventful = [mkEvent (10 * Second) 10; mkEvent (9 * Second) 20; mkEvent (90 * Minute) 5]) as Hh by (vm_compute; reflexivity).
  destruct (window_exact Second eventful "web1" e (2 * Hour)) as (hour & day & -> & H1 & H2 & H3 & H4 & _).
  - rewrite Hh. repeat constructor; vm_compute; discriminate.
  - split; vm_compute; discriminate.
  - repeat constructor; vm_compute; discriminate.
  - exact He.
  - rewrite Hh in H1, H2, H3, H4.
    assert (hour = [mkEvent (90 * Minute) 5]) as -> by (apply (anti_symm sublist); [exact H2|exact H1]).
    assert (day = [mkEvent (10 * Second) 10; mkEvent (9 * Second) 20; mkEvent (90 * Minute) 5]) as -> by (apply (anti_symm sublist); [exact H4|exact H3]).
    rewrite Hh. split; [vm_compute; reflexivity|]. split; vm_compute; reflexivity.
Defined.

Lemma save_load_witness :
  ∃ data t', Save false false (2 * Hour) (run two_hours) None = (None, Some data) ∧
    Load true (26 * Hour) (Some data) NewTracker = (None, t') ∧
    (events <$> endpoints t' !! "web1") = Some [mkEvent (90 * Minute) 5].
Proof.
  assert (Save false false (2 * Hour) (run two_hours) None =
    (None, Some (CountableJson.encode_text (state_of (2 * Hour) (run two_hours))))) as E by reflexivity.
  exists (CountableJson.encode_text (state_of (2 * Hour) (run two_hours))). eexists. split; [exact E|].
  split; [exact (stats_survive_restart two_hours (2 * Hour) (26 * Hour) None _ E)|].
  vm_compute. reflexivity.
Defined.

(** ** The machine *)

Lemma no_pending h : pending_of h NewTracker = 0.
Proof. unfold pending_of. cbn. by rewrite lookup_empty. Qed.

Definition tm0 : timing := mkTiming 0 0 0.
Definition chat : request := mkRequest "10.0.0.3" "c" "" "" true 2.

(** A request is served while its client disconnects. *)
Definition raced : list label :=
  [LArrive 0 agent_a; LIncr 0; LAcquire; LStage1; LStage2Normal; LStart 0; LDisconnect 0; LForward 0 UCanceled tm0;
   LCas 0; LRecord 0 0 0; LForwardCas 0; LForwardGhost 0; LDecr 0; LGhost 0; LClose 0; LRelease 0].

Lemma accounting_witness :
  ∃ s, steps 10 50 2 (init NewTracker) raced s ∧ (∀ h, pending_of h (tracker s) = 0) ∧ ghostNormal s = 0.
Proof.
  destruct (exec_all 10 50 2 raced (init NewTracker)) as [s|] eqn:E; [|exfalso; vm_compute in E; discriminate].
  assert (bool_decide (map_Forall (λ _ p, hpc p = HGhosted) (reqs s)) = true ∧
          map_Forall (λ _ p, fpc p = FReleased false) (reqs s)) as [Hh Hf].
  { vm_compute in E. injection E as <-. split; [vm_compute; reflexivity|]. cbn [reqs].
    intros i p Hp. apply elem_of_map_to_list in Hp. vm_compute in Hp.
    apply elem_of_cons in Hp as [Hp|Hp]; [injection Hp as -> ->; reflexivity|]. apply elem_of_nil in Hp. destruct Hp. }
  apply bool_decide_eq_true in Hh. apply exec_all_steps in E. exists s. split; [exact E|].
  destruct (gateway_accounting 10 50 2 NewTracker raced s no_pending E) as [_ Hq].
  destruct Hq as (Hp & Hg & _).
  - intros i p Hp. right. split; [right; right; exact (Hh i p Hp)|]. exists false. exact (Hf i p Hp).
  - split; [exact Hp|exact Hg].
Defined.

(** A normal request queued first, a priority request later; the priority one waits
    while the dispatcher has not taken a slot yet. *)
Lemma order_witness :
  ∃ s s', steps 10 50 2 (init NewTracker) [LArrive 0 agent_a; LArrive 1 chat] s ∧
    steps 10 50 2 s [LAcquire] s' ∧ (length (deqs false (trace 10 50 2 s [LAcquire])) ≤ 0)%nat.
Proof.
  destruct (exec_all 10 50 2 [LArrive 0 agent_a; LArrive 1 chat] (init NewTracker)) as [s|] eqn:E;
    [|exfalso; vm_compute in E; discriminate].
  destruct (exec_all 10 50 2 [LAcquire] s) as [s'|] eqn:E';
    [|exfalso; vm_compute in E; injection E as <-; vm_compute in E'; discriminate].
  assert (disp s = DAcquire ∧ priorityQueue s = [1%nat] ∧ priorityQueue s' = [1%nat]) as (Hd & Hq & Hq').
  { vm_compute in E. injection E as <-. vm_compute in E'. injection E' as <-. repeat split. }
  apply exec_all_steps in E, E'. exists s, s'. split; [exact E|]. split; [exact E'|].
  destruct (dispatch_order 10 50 2 NewTracker _ s _ s' no_pending E E') as [_ Ho].
  specialize (Ho 1%nat). rewrite Hq, Hq', Hd in Ho. apply Ho; apply elem_of_cons; left; reflexivity.
Defined.

(** The upstream request cannot be built, so the forwarder is done at once. *)
Definition fast : list label :=
  [LArrive 0 agent_a; LAcquire; LStage1; LStage2Normal; LStart 0; LForward 0 UBuildError tm0; LRecord 0 0 0;
   LForwardCas 0; LForwardDecr 0; LClose 0; LRelease 0].

Lemma leak_witness :
  ∃ s s1, steps 10 50 2 (init NewTracker) fast s ∧ exec 10 50 2 (LIncr 0) s = Some s1 ∧
    is_Some (pendingMap (tracker s1) !! request_id 0).
Proof.
  destruct (exec_all 10 50 2 fast (init NewTracker)) as [s|] eqn:E; [|exfalso; vm_compute in E; discriminate].
  assert (∃ p, reqs s !! 0%nat = Some p ∧ hpc p = HQueued ∧ decremented_f (fpc p) = 1 ∧
    is_Some (exec 10 50 2 (LIncr 0) s)) as (p & Hp & Hh & Hf & [s1 He]).
  { vm_compute in E. injection E as <-. eexists. split; [reflexivity|]. split; [reflexivity|]. split; [reflexivity|].
    eexists. reflexivity. }
  apply exec_all_steps in E. exists s, s1. split; [exact E|]. split; [exact He|].
  exact (late_registration_leaks 10 50 2 NewTracker fast s 0 p s1 [] s1 no_pending E Hp Hh Hf He (steps_nil _ _ _ s1)).
Defined.

Definition some_order (A : Type) (m : gmap string A) : list (string * A) := map_to_list m.

Lemma ghost_witness :
  ∃ ls s, steps 10 50 2 (init NewTracker) ls s ∧ queue s = [1%nat] ∧
    QueuedRequests (Snapshot some_order 0 (gauges_of 10 50 2 "" "" s) (tracker s)) = 0.
Proof.
  destruct (ghost_hides_queued 10 50 2 some_order 0) as (ls & s & Hs & Hq & _ & _ & Hz); [lia|lia|]. exists ls, s. auto.
Defined.
